(* ===== verification/_CoqProject ===== *)
-Q . S2P
Prelude.v
Errors.v
Model.v
Metrics.v
FreeQueue.v
GoSha256.v
BlockManager.v
BlockProperties.v
PrefixProperties.v
BlockExamples.v
BlockRegistry.v
Placement.v
TransferExamples.v
StateMachine.v
RequestProperties.v
RequestRuns.v
RequestExamples.v
Executor.v
ExecutorProperties.v
ExecutorExamples.v
Queues.v
RequestFrame.v
QueueProperties.v
DecodeQueue.v
Scheduler.v
SchedulerPick.v
SchedulerProperties.v
SchedulerExamples.v
Engine.v
EngineRequests.v
EngineSteps.v
EngineLoad.v
GoSha3.v
GoStrings.v
Tokenizer.v
Handler.v
EngineProperties.v
EngineTermination.v
EngineProgress.v
EngineDrain.v
Transport.v
TransportProperties.v
Admin.v
Cors.v
Connect.v
ConnectProperties.v
Uuid.v
Util.v
Server.v
ServerProperties.v
EngineLiveness.v
HandlerExamples.v
ServerExamples.v
LivenessExamples.v
Bench.v
BenchReport.v
BenchProperties.v
BenchExamples.v
