(* ===== verification/Prelude.v ===== *)
(** * KVTide: verification of the Go engine

    KVTide serves language models: an engine in Go takes requests, splits them
    into prefill and decode work, batches that work onto executors (Python
    processes that run the model) and streams the tokens back.  The KV cache of an
    executor is paged: the engine owns the table of blocks, shares the blocks of
    equal prompt prefixes and can copy a cached prefix from one executor to
    another.  This library models the engine and proves what makes it correct.

    ** The parts and how they interact

    A wire request is converted (Model), tokenized, bound to an executor
    ([AssignExecutor]), created in the request manager, which matches its prefix
    in the block manager of its executor, and its first work item is queued.  Each
    scheduling round picks a batch per executor: decode items first, then short,
    then long prompts cut into chunks, each given blocks before it enters the
    batch.  The executor manager sends the batch and turns the answer into
    events.  The scheduler commits or rolls back the blocks of the event's item,
    the request manager moves the request on, tells its subscriber and makes the
    next item, which is queued again.

    - Prelude: machine integers, slices, field assignment, the state monad with
      panics and its total-correctness assertion [wp], sums over lists.
    - Errors (internal/errors), Model (internal/model, gen/go/kvtide/v1), Metrics
      (internal/metrics).
    - FreeQueue (internal/block/queue.go and the end of block.go): the intrusive
      free list, refined to an abstract pool.  GoSha256: SHA-256 and hex of Go's
      standard library, so that block hashes compute.  BlockManager
      (internal/block/block.go): the operations of [manager] and their
      specifications; BlockProperties and PrefixProperties: the theorems;
      BlockExamples: a concrete manager.
    - BlockRegistry (internal/block/registry.go): one manager per executor and the
      transfer transactions.  Placement (internal/placement/coordinator.go):
      [Replicate].  TransferExamples: a concrete replication.
    - StateMachine (internal/state/state_machine.go): the request manager;
      RequestProperties: its invariant, the start and the end of a request;
      RequestRuns: sequences of events; RequestExamples; RequestFrame: what the
      end of a request leaves alone, which the scheduler needs.
    - Executor (internal/executor): start-up, batches, results, and the goroutines
      as the step relation [em_step]; ExecutorProperties, ExecutorExamples.
    - Queues (internal/scheduler: prefill_queue.go, decode_queue.go,
      queue_lock_free.go); QueueProperties.
    - Scheduler (internal/scheduler: scheduler.go, budget.go); SchedulerPick: the
      invariant of batch assembly; SchedulerProperties; SchedulerExamples.
    - GoSha3, GoStrings: SHA3-256 and [strings.Fields], [Join] and [TrimSpace].
      Tokenizer (internal/tokenizer): the mock tokenizer, the dispatch on the model
      and the construction.
    - DecodeQueue: the decode queue of entries as decode_queue.go writes it, refined
      to the list of items the scheduler works on.
    - Handler (internal/handler/inference.go): opening a stream and its goroutine.
    - Engine: where a request's work can be (a [token]: an item in a queue, an item
      in a batch, an event) and the invariant [Flow] over all components at once;
      EngineRequests and EngineSteps: every operation of the request manager, the
      scheduler and the executor manager keeps it; EngineProperties: the
      goroutines of the server as the actions of one transition system
      ([action], [may_run], [perform], [served]).
    - EngineLoad: the load of the engine (what the requests can still ask for, the
      items, batches and events on their way, weighted), and what each operation
      adds to it or takes from it ([costs]); EngineTermination: no action but the
      opening of a stream adds to the load, and what moves work on takes some
      away; EngineProgress: a round takes an item when one can run and has blocks;
      EngineDrain: what to run next as long as a request has not ended;
      EngineLiveness: the theorems, for the program from its start on;
      LivenessExamples: two requests that wait for each other's blocks.
    - Connect (gen/go/kvtide/v1/kvtidev1connect, cmd/client) and the mux of
      net/http; ConnectProperties: the routes.
    - Server (cmd/server, internal/conf, the construction of the servers in
      internal/transport): [newApp] from the configuration on, the hooks of the
      servers and the loops, the loop of the scheduler; ServerProperties: the theorems about the
      program from its start on; ServerExamples: a program with one executor.
      Transport, TransportProperties (internal/transport/inference.go): the two
      inference calls and the composition with the handler.  HandlerExamples: one
      request through the service.  Admin (admin.go), Cors (cors.go).
    - Uuid, Util (internal/utils): the identifiers, and the port of an address.
    - Bench (cmd/bench/runner.go): the load generator; BenchReport: its report and
      its program (cmd/bench/main.go); BenchProperties, BenchExamples.

    The names are those of the Go code; a field has a short prefix of its struct.
    A method with the receiver's state is a function in the monad [M state]; a
    method of the registry on one manager is that manager's with the prefix
    [Reg].

    ** What the theorems show

    Block manager: in every reachable state the free list is well linked, a
    block's reference count is the number of tables and transfers that hold it,
    free blocks are the unreferenced ones, and the index holds full blocks only;
    each operation does exactly what its contract says (the refinement of FreeQueue
    carries these proofs); allocation and rollback are inverse; equal hashes mean
    equal prefixes of the same user unless SHA-256 collides.  Transfers: a
    replication commits or gives everything back, and can be settled after any
    other activity.  Requests: live requests, channels and the active count agree;
    a request is prefilled without gap, generates exactly to its limit and ends
    once.  Executors: order, conservation and progress of the pipeline; every
    batch is answered.  Scheduler: batches respect the budgets and lose nothing,
    queues are first-in first-out, every event is settled.
    Program: what the start-up builds has the invariant of the engine, and every
    action of every goroutine returns and keeps it: so in every state the program
    can reach no action panics, each request that can run has exactly one piece
    of work, and the conditions of the batch theorem hold of every executor.  Of
    a new request this asks that its id is not that of work still under way and
    that its prompt has a token, and ServerExamples shows what happens
    otherwise; of an executor, that it answers each item once and does not end a
    request in its prefill ([honest], as executor.proto says); and that block
    references stay below 2^32.  The work the goroutines do is bounded by the tokens
    asked for, so that nothing goes round for ever; and from every state they have
    a way to go on to the end of all requests, unless an item waits for blocks
    ([starved]).  That case is real: LivenessExamples has two requests that fit
    an executor one at a time and block each other when opened together, as the
    comment on the scenario block_pressure of the benchmark says.  The bound
    asks that a decode item is answered with one token ([generous]), the way to
    the end that items are answered at all ([answers]) and that a batch has room
    for every prompt of the short queue.  Calls of the RPC clients arrive at the handlers
    they are meant for.
    Service: opening a stream registers and queues the whole request or nothing;
    the unary call answers with the decoded tokens of the events published, the
    streaming call forwards every message in order, and both record one request
    with its latencies; the mock tokenizer gives words back; the CORS filter names
    exactly the configured origins; identifiers sort by time.  Benchmark: a run
    counts every request once and its percentiles are exact; the cache modes of
    the scenarios do what they are for; the quick profile cannot pass against
    this server, whose models it does not ask for.

    A theorem whose hypotheses restrict the state has a witness [<name>_witness]
    in an Examples file or beside it, which applies it to a concrete state computed by the
    model.

    ** Conventions, bounds and fuel

    Integers are Go's, with wrap-around written out ([+u], [u64], [i32]); the
    hypotheses that exclude a wrap name the quantity that has to stay below 2^32.
    Loops over slices are structural recursions; a loop with a counter
    ([allocateLoop], [pickSmallLoop], [pickLargeLoop], [dequeueLoop]) recurses on the
    number of rounds left, which the code fixes before the loop, so no fuel is
    ever missing.  [None] is a run-time panic, and every [wp] theorem shows its
    absence.

    An operation that holds its component's lock throughout is one transition.
    The scheduler's goroutines are run one iteration at a time, and an action of
    EngineProperties is not interleaved with another; where the code
    gives up a lock in between ([OnEvent], the check before an allocation), the
    model keeps the pieces apart and RequestRuns and BlockExamples show what can
    happen there.  The clock is constant during one operation; UUIDs are drawn from
    an arbitrary sequence.  A channel is the sequence of what was sent on it; a
    blocking send is a step that may be taken later.

    Code outside the repository is a parameter: the answers of remote executors
    and the push of KV blocks are arguments of the definitions that use them.

    ** Not modelled

    Logging, prometheus and its HTTP handler, the flags and the dependency injection
    of cmd/server and the accessors of the generated messages are input and output around the modelled parts.  The Python executor, the dashboard and the deployment
    files are outside the Go engine.  Floating-point seconds in metrics are kept as
    the durations they are computed from. The Qwen
    tokenizer (a third-party package) is the parameter [gotokenizer] of Tokenizer,
    [strconv.ParseFloat] the parameter [ParseFloat] of Bench, connectrpc the
    parameter [connectrpc] of Connect, koanf, h2c and the network the parameters of
    Server.  The values of the flags of the benchmark are the arguments of its
    [main]. *)

From stdpp Require Export base gmap strings list fin_maps pretty.
From Stdlib Require Export ZArith Lia.

#[global] Open Scope Z_scope.

(** ** Machine integers

    Go's [uint32], [uint64] and [int32] are integers [Z] with the wrap-around
    written out at every operation that can leave the range. *)

Definition two32 : Z := 4294967296.
Definition two31 : Z := 2147483648.
Definition two64 : Z := 18446744073709551616.

Definition u32 (z : Z) : Z := z mod two32.
Definition u64 (z : Z) : Z := z mod two64.
Definition i32 (z : Z) : Z := (z + two31) mod two32 - two31.
Definition i64 (z : Z) : Z := (z + 2 ^ 63) mod 2 ^ 64 - 2 ^ 63.

Declare Scope go_scope.
Delimit Scope go_scope with go.
Notation "x +u y" := (u32 (x + y)) (at level 50, left associativity) : go_scope.
Notation "x -u y" := (u32 (x - y)) (at level 50, left associativity) : go_scope.
Notation "x *u y" := (u32 (x * y)) (at level 40, left associativity) : go_scope.
#[global] Open Scope go_scope.

Lemma u32_range z : 0 <= u32 z < two32.
Proof. apply Z.mod_pos_bound. reflexivity. Qed.

Lemma u32_small z : 0 <= z < two32 -> u32 z = z.
Proof. intros; by apply Z.mod_small. Qed.

Lemma i32_small z : - two31 <= z < two31 -> i32 z = z.
Proof. unfold i32, two31, two32. intros. rewrite Z.mod_small by lia. lia. Qed.

(** ** Field assignment

    [r <| f := v |>] is the record [r] after the Go assignment [r.f = v].
    A record type registers its eta expansion once ([Eta]); the setter of a
    field is computed from it. *)

Class Eta (R : Type) := eta : R -> R.
Class Field {R T : Type} (proj : R -> T) := setf : (T -> T) -> R -> R.
Arguments setf {R T} proj {_} _ _.
Arguments eta R {_} _ /.

Ltac solve_field :=
  lazymatch goal with
  | |- @Field ?R ?T ?proj =>
      let e := constr:(@eta R _) in
      let e := eval cbv [eta] in e in
      lazymatch e with
      | ?inst =>
          let e' := eval hnf in inst in
          let p := eval pattern proj in e' in
          lazymatch p with
          | ?F _ =>
              let s := eval cbv beta in
                (fun (g : T -> T) (r : R) => F (fun r' => g (proj r')) r) in
              exact s
          end
      end
  end.

#[export] Hint Extern 0 (Field _) => solve_field : typeclass_instances.

Notation "r <| f := v |>" := (setf f (fun _ => v) r)
  (at level 12, left associativity, f at level 9,
   format "r  <| f  :=  v |>") : go_scope.

(** ** Slices

    [idx l i] is Go's [l[i]]: an index outside [0, len) panics, which is
    [None]. [store] is [l[i] = x] and [slice l lo hi] is [l[lo:hi]]. *)

Definition idx {A} (l : list A) (i : Z) : option A :=
  if i <? 0 then None else l !! Z.to_nat i.

Definition store {A} (l : list A) (i : Z) (x : A) : option (list A) :=
  if (i <? 0) || (Z.of_nat (length l) <=? i) then None
  else Some (<[Z.to_nat i := x]> l).

Definition len {A} (l : list A) : Z := Z.of_nat (length l).

Definition slice {A} (l : list A) (lo hi : Z) : option (list A) :=
  if (lo <? 0) || (hi <? lo) || (len l <? hi) then None
  else Some (take (Z.to_nat (hi - lo)) (drop (Z.to_nat lo) l)).

(** ** A state monad with run-time panics

    A method with receiver state [S] is a function from the state to either
    [None] (the Go run time panics: index out of range, send on a closed
    channel, nil dereference) or the result and the new state.  stdpp's
    notations [x ← c; k] and [c ;; k] are used for sequencing. *)

Definition M (S A : Type) : Type := S -> option (A * S).

#[export] Instance M_ret S : MRet (M S) := fun A a s => Some (a, s).
#[export] Instance M_bind S : MBind (M S) := fun A B f c s =>
  match c s with Some (a, s') => f a s' | None => None end.
Typeclasses Opaque M.

Definition getS {S} : M S S := fun s => Some (s, s).
Definition modS {S} (f : S -> S) : M S unit := fun s => Some (tt, f s).
Definition panic {S A} : M S A := fun _ => None.
(** A value that may panic while it is computed, read from the state. *)
Definition getsO {S A} (f : S -> option A) : M S A :=
  fun s => match f s with Some a => Some (a, s) | None => None end.
(** A state update that may panic. *)
Definition modO {S} (f : S -> option S) : M S unit :=
  fun s => match f s with Some s' => Some (tt, s') | None => None end.

(** [for x := range l { f x }] *)
Fixpoint forM_ {S A} (l : list A) (f : A -> M S unit) : M S unit :=
  match l with
  | [] => mret tt
  | x :: l' => f x ;; forM_ l' f
  end.

(** ** Total-correctness assertions

    [wp c Q s]: started in [s], [c] does not panic and its result and final
    state satisfy [Q]. *)

Definition wp {S A} (c : M S A) (Q : A -> S -> Prop) (s : S) : Prop :=
  match c s with Some (a, s') => Q a s' | None => False end.

Section wp.
Context {S : Type}.
Implicit Types s : S.

Lemma wp_ret {A} (a : A) (Q : A -> S -> Prop) s : Q a s -> wp (mret a) Q s.
Proof. done. Qed.

Lemma wp_bind {A B} (c : M S A) (f : A -> M S B) Q s :
  wp c (fun a s' => wp (f a) Q s') s -> wp (c ≫= f) Q s.
Proof. unfold wp, mbind, M_bind. by destruct (c s) as [[a s']|]. Qed.

Lemma wp_mono {A} (c : M S A) (P Q : A -> S -> Prop) s :
  wp c P s -> (forall a s', P a s' -> Q a s') -> wp c Q s.
Proof. unfold wp. destruct (c s) as [[a s']|]; eauto. Qed.

Lemma wp_get (Q : S -> S -> Prop) s : Q s s -> wp getS Q s.
Proof. done. Qed.

Lemma wp_mod (f : S -> S) Q s : Q tt (f s) -> wp (modS f) Q s.
Proof. done. Qed.

Lemma wp_getsO {A} (f : S -> option A) a Q s :
  f s = Some a -> Q a s -> wp (getsO f) Q s.
Proof. unfold wp, getsO. by intros ->. Qed.

Lemma wp_modO (f : S -> option S) s' Q s :
  f s = Some s' -> Q tt s' -> wp (modO f) Q s.
Proof. unfold wp, modO. by intros ->. Qed.

(** The loop rule: an invariant indexed by the part of the list done. *)
Lemma wp_forM {A} (I : list A -> S -> Prop) (f : A -> M S unit) l Q s :
  I [] s ->
  (forall pre x post s', l = pre ++ x :: post -> I pre s' ->
      wp (f x) (fun _ s'' => I (pre ++ [x]) s'') s') ->
  (forall s', I l s' -> Q tt s') ->
  wp (forM_ l f) Q s.
Proof.
  intros H0 Hstep HQ.
  cut (forall post pre s', l = pre ++ post -> I pre s' -> wp (forM_ post f) Q s').
  { intros H. by apply (H l []). }
  induction post as [|x post IH]; intros pre s' Hl Hpre; simpl.
  - apply wp_ret, HQ. rewrite Hl. by rewrite app_nil_r.
  - apply wp_bind. eapply wp_mono; [by eapply Hstep|].
    intros [] s'' HI. apply (IH (pre ++ [x])); [|done].
    by rewrite <- app_assoc.
Qed.

Lemma wp_run {A} (c : M S A) Q s :
  wp c Q s <-> exists a s', c s = Some (a, s') /\ Q a s'.
Proof.
  unfold wp. split.
  - destruct (c s) as [[a s']|]; [eauto|done].
  - by intros (a & s' & -> & ?).
Qed.
End wp.

(** Push a [wp] goal through the head of the program. *)
Ltac wp_step :=
  lazymatch goal with
  | |- wp (mret _) _ _ => apply wp_ret
  | |- wp (_ ≫= _) _ _ => apply wp_bind
  | |- wp getS _ _ => apply wp_get
  | |- wp (modS _) _ _ => apply wp_mod
  end.
Ltac wp_steps := cbv beta iota zeta; repeat (wp_step; cbv beta iota zeta).

(** Use a specification [H : wp c P s] for the command at the head. *)
Ltac wp_use H := eapply wp_mono; [apply H|cbn beta].

(** ** Indexing lemmas

    [upd l i x] is the slice after the in-range assignment [l[i] = x]. *)

Definition upd {A} (l : list A) (i : Z) (x : A) : list A := <[Z.to_nat i := x]> l.

Section idx.
Context {A : Type}.
Implicit Types (l : list A) (i j : Z) (x : A).

Lemma idx_Some_range l i x : idx l i = Some x -> 0 <= i < len l.
Proof.
  unfold idx, len. destruct (Z.ltb_spec i 0) as [|?]; [done|].
  intros Hx%lookup_lt_Some. lia.
Qed.

Lemma idx_is_Some l i : is_Some (idx l i) <-> 0 <= i < len l.
Proof.
  split; [intros [x H]; by eapply idx_Some_range|].
  unfold idx, len. intros [??]. rewrite (proj2 (Z.ltb_ge i 0)) by lia.
  apply lookup_lt_is_Some. lia.
Qed.

Lemma idx_ge l i : ~ (0 <= i < len l) -> idx l i = None.
Proof. intros H. apply eq_None_not_Some. by rewrite idx_is_Some. Qed.

Lemma idx_nat l (n : nat) : idx l (Z.of_nat n) = l !! n.
Proof. unfold idx. by rewrite (proj2 (Z.ltb_ge _ 0)), Nat2Z.id by lia. Qed.

Lemma idx_elem l i x : idx l i = Some x -> x ∈ l.
Proof. unfold idx. case_match; [done|]. apply list_elem_of_lookup_2. Qed.

Lemma store_upd l i x y : idx l i = Some y -> store l i x = Some (upd l i x).
Proof.
  intros H%idx_Some_range. unfold store, upd, len in *.
  rewrite (proj2 (Z.ltb_ge i 0)), (proj2 (Z.leb_gt _ i)) by lia. done.
Qed.

Lemma len_upd l i x : len (upd l i x) = len l.
Proof. unfold len, upd. by rewrite length_insert. Qed.

Lemma idx_upd l i j x :
  0 <= i < len l -> idx (upd l i x) j = if decide (i = j) then Some x else idx l j.
Proof.
  unfold idx, upd, len. intros Hi. destruct (Z.ltb_spec j 0) as [|Hj].
  - destruct (decide (i = j)); [lia|done].
  - destruct (decide (i = j)) as [->|].
    + apply list_lookup_insert_eq. lia.
    + apply list_lookup_insert_ne. lia.
Qed.

Lemma idx_upd_eq l i x : 0 <= i < len l -> idx (upd l i x) i = Some x.
Proof. intros. rewrite idx_upd by done. by rewrite decide_True. Qed.

Lemma idx_upd_ne l i j x : i <> j -> 0 <= i -> idx (upd l i x) j = idx l j.
Proof.
  intros. unfold idx, upd. destruct (Z.ltb_spec j 0); [done|].
  apply list_lookup_insert_ne. lia.
Qed.

Lemma upd_upd l i x y : upd (upd l i x) i y = upd l i y.
Proof. apply list_insert_insert_eq. Qed.

Lemma upd_id l i x : idx l i = Some x -> upd l i x = l.
Proof.
  unfold idx, upd. case_match; [done|]. apply list_insert_id.
Qed.

Lemma list_eq_idx l1 l2 : (forall i, idx l1 i = idx l2 i) -> l1 = l2.
Proof.
  intros H. apply list_eq. intros n. rewrite <- !idx_nat. apply H.
Qed.
End idx.

Lemma idx_fmap {A B} (f : A -> B) l i : idx (f <$> l) i = f <$> idx l i.
Proof. unfold idx. case_match; [done|]. apply list_lookup_fmap. Qed.

Lemma len_fmap {A B} (f : A -> B) l : len (f <$> l) = len l.
Proof. unfold len. by rewrite length_fmap. Qed.

Lemma fmap_upd {A B} (f : A -> B) l i x : f <$> upd l i x = upd (f <$> l) i (f x).
Proof. apply list_fmap_insert. Qed.

Lemma len_app {A} (l1 l2 : list A) : len (l1 ++ l2) = len l1 + len l2.
Proof. unfold len. rewrite length_app. lia. Qed.

Lemma len_cons {A} (x : A) l : len (x :: l) = 1 + len l.
Proof. unfold len. simpl length. lia. Qed.

Lemma len_nonneg {A} (l : list A) : 0 <= len l.
Proof. unfold len. lia. Qed.

Create Rewrite HintDb go.
#[export] Hint Rewrite @len_upd @len_fmap @len_app @len_cons @idx_fmap @fmap_upd
  @upd_upd : go.

(** Goals on the lengths of lists built with these operations. *)
Ltac len_lia := autorewrite with go; lia.

(** Distinct indices below [n] are at most [n] many. *)
Lemma NoDup_len_bound (l : list Z) (n : Z) :
  NoDup l -> (forall x, x ∈ l -> 0 <= x < n) -> len l <= Z.max 0 n.
Proof.
  intros Hnd Hr. unfold len.
  assert (length l <= length (seq 0 (Z.to_nat n)))%nat as Hle.
  { rewrite <- (length_fmap Z.to_nat l). apply submseteq_length, NoDup_submseteq.
    - apply NoDup_fmap_2_strong; [|done]. intros x y ?%Hr ?%Hr ?. lia.
    - intros k (x & -> & Hx)%list_elem_of_fmap. apply Hr in Hx. apply elem_of_seq. lia. }
  rewrite length_seq in Hle. lia.
Qed.

Lemma filter_notin (l : list Z) x : x ∉ l -> filter (fun y => y <> x) l = l.
Proof.
  induction l as [|y l IH]; intros H; [done|].
  rewrite filter_cons_True, IH; set_solver.
Qed.

(** A present element of a duplicate-free list splits it. *)
Lemma NoDup_split (l : list Z) x :
  NoDup l -> x ∈ l ->
  exists l1 l2, l = l1 ++ x :: l2 /\ filter (fun y => y <> x) l = l1 ++ l2.
Proof.
  intros Hnd (l1 & l2 & ->)%list_elem_of_split. exists l1, l2. split; [done|].
  apply NoDup_app in Hnd as (_ & Hd & Hnd2). apply NoDup_cons in Hnd2 as [Hx _].
  rewrite filter_app, filter_cons_False by naive_solver.
  f_equal; apply filter_notin; set_solver.
Qed.

Lemma snoc_case {A} (l : list A) : l = [] \/ exists l' x, l = l' ++ [x].
Proof. induction l using rev_ind; eauto. Qed.

Lemma NoDup_snoc {A} (l : list A) x : NoDup l -> x ∉ l -> NoDup (l ++ [x]).
Proof.
  intros Hl Hx. apply NoDup_app. repeat split; [done|set_solver|apply NoDup_singleton].
Qed.

Lemma NoDup_snoc_inv {A} (l : list A) x : NoDup (l ++ [x]) -> NoDup l /\ x ∉ l.
Proof.
  intros (Hl & Hd & _)%NoDup_app. split; [done|]. intros Hx. by apply (Hd x Hx), list_elem_of_here.
Qed.

Lemma elem_of_snoc {A} (l : list A) x y : y ∈ l ++ [x] <-> y ∈ l \/ y = x.
Proof. by rewrite elem_of_app, list_elem_of_singleton. Qed.

(** Split conjunctions, and only conjunctions. *)
Ltac ssplit := repeat match goal with |- _ /\ _ => split end.

(** ** A list up to the first element that stops a loop *)

Fixpoint upto {A} (stops : A -> bool) (l : list A) : list A :=
  match l with
  | [] => []
  | x :: l => if stops x then [x] else x :: upto stops l
  end.

Lemma upto_last {A} (stops : A -> bool) l x :
  Forall (fun y => stops y = false) l -> stops x = true ->
  upto stops (l ++ [x]) = l ++ [x] /\ List.find stops (l ++ [x]) = Some x.
Proof.
  intros Hl Hx. induction Hl as [|y l Hy _ [IH1 IH2]]; cbn; [by rewrite Hx|]. by rewrite Hy, IH1.
Qed.

(** ** Sums over a list *)

Fixpoint zsum {A} (f : A -> Z) (l : list A) : Z :=
  match l with [] => 0 | x :: l => f x + zsum f l end.

Lemma zsum_app {A} (f : A -> Z) l1 l2 : zsum f (l1 ++ l2) = zsum f l1 + zsum f l2.
Proof. induction l1 as [|x l1 IH]; cbn; [done|]. rewrite IH. lia. Qed.

Lemma zsum_nonneg {A} (f : A -> Z) l : Forall (fun x => 0 <= f x) l -> 0 <= zsum f l.
Proof. induction 1; cbn; lia. Qed.

Lemma zsum_take {A} (f : A -> Z) l n : Forall (fun x => 0 <= f x) l -> zsum f (take n l) <= zsum f l.
Proof.
  intros H. rewrite <- (take_drop n l) at 2. rewrite zsum_app.
  pose proof (zsum_nonneg f (drop n l) (Forall_drop _ n _ H)). lia.
Qed.

#[export] Hint Rewrite @zsum_app : go.
