(* ===== verification/Errors.v ===== *)
(** * Errors: the application error type (internal/errors/error.go)

    Go's [error] values are one inductive type: an [*AppError] with its code,
    message, operation and cause, the plain text errors of [fmt.Errorf] and
    [errors.New], the wrapping form of [fmt.Errorf] with [%w], the join of two
    errors, and the two sentinels of package [context]. *)

From S2P Require Import Prelude.
Inductive error :=
| AppError (Code Message Op : string) (Cause : option error) (Retryable : bool)
| TextError (msg : string)
| WrapError (prefix : string) (inner : error)
| JoinError (e1 e2 : error)
| ContextCanceled
| ContextDeadlineExceeded.

Definition CodeInvalidArgument : string := "invalid_argument".
Definition CodeQueueFull : string := "queue_full".
Definition CodeRequestTimeout : string := "request_timeout".
Definition CodeRequestCanceled : string := "request_canceled".
Definition CodeExecutorUnavailable : string := "executor_unavailable".
Definition CodeInternal : string := "internal".

(** [AppError.Error], [error.Error] for the other constructors.
    [WrapError p e] is [fmt.Errorf("p: %w", e)]. *)
Fixpoint Error (e : error) : string :=
  match e with
  | AppError code msg op cause _ =>
      if negb (String.eqb op "") && negb (String.eqb msg "") then op +:+ ": " +:+ msg
      else if negb (String.eqb msg "") then msg
      else if negb (String.eqb op "") then op
      else match cause with Some c => Error c | None => code end
  | TextError msg => msg
  | WrapError p e => p +:+ ": " +:+ Error e
  | JoinError e1 e2 => Error e1 +:+ String (Ascii.ascii_of_nat 10) (Error e2)
  | ContextCanceled => "context canceled"
  | ContextDeadlineExceeded => "context deadline exceeded"
  end.

(** [AppError.Unwrap] *)
Definition Unwrap (e : error) : option error :=
  match e with
  | AppError _ _ _ cause _ => cause
  | WrapError _ inner => Some inner
  | _ => None
  end.

Definition New (code message : string) : error := AppError code message "" None false.

Definition Wrap (code op message : string) (cause : option error) : error :=
  AppError code message op cause false.

(** [errors.As(err, &appErr)]: depth-first search of the tree of wrapped errors
    for an [*AppError]; the code found. *)
Fixpoint AsAppError (e : error) : option string :=
  match e with
  | AppError code _ _ _ _ => Some code
  | WrapError _ inner => AsAppError inner
  | JoinError e1 e2 =>
      match AsAppError e1 with Some c => Some c | None => AsAppError e2 end
  | _ => None
  end.

(** [errors.Is(err, target)] for the two context sentinels. *)
Fixpoint Is (target : error -> bool) (e : error) : bool :=
  target e ||
  match e with
  | AppError _ _ _ (Some c) _ => Is target c
  | WrapError _ inner => Is target inner
  | JoinError e1 e2 => Is target e1 || Is target e2
  | _ => false
  end.

Definition is_canceled (e : error) : bool :=
  match e with ContextCanceled => true | _ => false end.
Definition is_deadline (e : error) : bool :=
  match e with ContextDeadlineExceeded => true | _ => false end.

Definition CodeOf (err : option error) : string :=
  match err with
  | None => ""
  | Some e =>
      match AsAppError e with
      | Some code => code
      | None =>
          if Is is_canceled e then CodeRequestCanceled
          else if Is is_deadline e then CodeRequestTimeout
          else CodeInternal
      end
  end.

(** The codes of connectrpc the program answers with. *)
Inductive ConnectCode :=
| ConnectInvalidArgument | ConnectResourceExhausted | ConnectDeadlineExceeded
| ConnectCanceled | ConnectUnavailable | ConnectInternal | ConnectUnknown | ConnectUnimplemented.

#[export] Instance ConnectCode_eq_dec : EqDecision ConnectCode.
Proof. solve_decision. Defined.

Definition ToConnectCode (err : option error) : ConnectCode :=
  let c := CodeOf err in
  if String.eqb c CodeInvalidArgument then ConnectInvalidArgument
  else if String.eqb c CodeQueueFull then ConnectResourceExhausted
  else if String.eqb c CodeRequestTimeout then ConnectDeadlineExceeded
  else if String.eqb c CodeRequestCanceled then ConnectCanceled
  else if String.eqb c CodeExecutorUnavailable then ConnectUnavailable
  else if String.eqb c CodeInternal then ConnectInternal
  else ConnectUnknown.

(** [connect.NewError(ToConnectCode(err), err)], or [nil] for [nil]. *)
Definition ToConnectError (err : option error) : option (ConnectCode * error) :=
  match err with
  | None => None
  | Some e => Some (ToConnectCode err, e)
  end.

(** The outermost [AppError] of an error decides its code, whatever it wraps. *)
Lemma CodeOf_app code msg op cause r :
  CodeOf (Some (AppError code msg op cause r)) = code.
Proof. done. Qed.

(** Wrapping with [%w] keeps the code. *)
Lemma CodeOf_wrap p e : CodeOf (Some (WrapError p e)) = CodeOf (Some e).
Proof. done. Qed.
