(* ===== verification/Model.v ===== *)
(** * Model: the data types of the engine (internal/model, gen/go/kvtide/v1)

    Structs are records whose fields carry a short prefix of the struct
    ([blk_], [ba_], [pm_], [req_], [wi_], [ev_], ...) and the Go name.  A
    pointer that may be nil is an [option]; a [time.Time] is a number of
    nanoseconds with 0 for the zero time; a [time.Duration] is a number of
    nanoseconds.  The conversions between the wire messages and the model
    (transfer.go) are the functions of the last part. *)

From S2P Require Import Prelude Errors.
Definition Time := Z.
Definition Duration := Z.
Definition Millisecond : Duration := 1000000.
Definition Second : Duration := 1000000000.
Definition IsZero (t : Time) : bool := t =? 0.

(** ** Enumerations of the wire format

    Protobuf enums are open: a peer can send any number, which is the last
    constructor. *)

Inductive WorkPhase := WorkPhasePrefill | WorkPhaseDecode | WorkPhaseOther (n : Z).
Inductive FinishReason :=
| FinishReasonUnspecified | FinishReasonStop | FinishReasonLength
| FinishReasonTimeout | FinishReasonError | FinishReasonOther (n : Z).
Inductive EventType :=
| EventTypePrefillChunk | EventTypePrefillFinished | EventTypeDecodeChunk
| EventTypeRequestFinished | EventTypeRequestFailed | EventTypeRequestCanceled
| EventTypeOther (n : Z).

#[export] Instance WorkPhase_eq_dec : EqDecision WorkPhase.
Proof. solve_decision. Defined.
#[export] Instance FinishReason_eq_dec : EqDecision FinishReason.
Proof. solve_decision. Defined.
#[export] Instance EventType_eq_dec : EqDecision EventType.
Proof. solve_decision. Defined.

(** constant.go *)
Inductive RequestPhase :=
| RequestPhaseQueued | RequestPhasePrefillReady | RequestPhasePrefillRunning
| RequestPhaseDecodeReady | RequestPhaseDecodeRunning | RequestPhaseFinished
| RequestPhaseCanceled | RequestPhaseTimeout | RequestPhaseFailed.

#[export] Instance RequestPhase_eq_dec : EqDecision RequestPhase.
Proof. solve_decision. Defined.

(** ** block.go *)

Record Block := mkBlock {
  blk_Hash : string;
  blk_RefCount : Z;      (* uint32 *)
  blk_TokenCount : Z;    (* uint32 *)
  blk_Cached : bool;
  blk_InFreeQueue : bool;
  blk_PrevFree : Z;      (* int32 *)
  blk_NextFree : Z       (* int32 *)
}.
#[export] Instance Block_eta : Eta Block := fun b =>
  mkBlock (blk_Hash b) (blk_RefCount b) (blk_TokenCount b) (blk_Cached b)
    (blk_InFreeQueue b) (blk_PrevFree b) (blk_NextFree b).

Record BlockAllocation := mkBlockAllocation {
  ba_RequestID : string;
  ba_WorkID : string;
  ba_BlockSize : Z;
  ba_Phase : WorkPhase;
  ba_BlockTable : list Z;
  ba_BlockHashes : list string;
  ba_AllocatedBlocks : list Z;
  ba_TokensAfterCommit : Z
}.

Record TransferPlan := mkTransferPlan {
  tp_TransferID : string;
  tp_SourceExecutorID : string;
  tp_SourceBlockIDs : list Z;
  tp_DestinationExecutorID : string;
  tp_DestinationBlockIDs : list Z;
  tp_BlockHashes : list string
}.

(** ** component.go *)

Record Usage := mkUsage { us_InputTokens : Z; us_OutputTokens : Z; us_TotalTokens : Z }.
#[export] Instance Usage_eta : Eta Usage := fun u =>
  mkUsage (us_InputTokens u) (us_OutputTokens u) (us_TotalTokens u).
Definition Usage0 : Usage := mkUsage 0 0 0.

Record Timing := mkTiming {
  tm_Queue : Duration; tm_BatchWait : Duration;
  tm_Execution : Duration; tm_Total : Duration
}.
Definition Timing0 : Timing := mkTiming 0 0 0 0.

Record PrefixMatch := mkPrefixMatch {
  pm_Hit : bool;
  pm_CachedTokens : Z;
  pm_BlockIDs : list Z;
  pm_HashesTotal : list string
}.

Record PrefixCandidate := mkPrefixCandidate {
  pc_ExecutorID : string;
  pc_CachedTokens : Z;
  pc_MatchedHashes : list string
}.

Record EngineRuntimeStats := mkEngineRuntimeStats {
  rs_PrefillQueueLength : Z;
  rs_DecodeQueueLength : Z;
  rs_ActiveRequests : Z;
  rs_InflightBatches : Z;
  rs_BusyExecutors : Z;
  rs_IdleExecutors : Z
}.
#[export] Instance EngineRuntimeStats_eta : Eta EngineRuntimeStats := fun r =>
  mkEngineRuntimeStats (rs_PrefillQueueLength r) (rs_DecodeQueueLength r)
    (rs_ActiveRequests r) (rs_InflightBatches r) (rs_BusyExecutors r)
    (rs_IdleExecutors r).

Record ExecutorStats := mkExecutorStats {
  es_ExecutorId : string;
  es_RuntimeEpoch : Z;
  es_ModelId : string;
  es_ModelType : string;
  es_Dtype : string;
  es_DeviceType : string;
  es_TensorParallelSize : Z;
  es_BlockSize : Z;
  es_NumKvBlocks : Z;
  es_NumHiddenLayers : Z;
  es_NumKvHeads : Z;
  es_HeadDim : Z;
  es_TotalMemoryBytes : Z;
  es_AvailableMemoryBytes : Z;
  es_KVCacheBytes : Z;
  es_ModelRevision : string;
  es_KVLayoutVersion : Z;
  es_KVCompatibilityID : string;
  es_TransferEndpoint : string
}.

(** ** domain.go *)

Record Request := mkRequest {
  req_RequestId : string;
  req_UserId : string;
  req_ExecutorID : string;
  req_ModelID : string;
  req_Prompt : string;
  req_MaxTokens : Z;
  req_Timeout : Duration;
  req_Deadline : Time;
  req_CacheSalt : string;
  req_Cache : option PrefixMatch;
  req_TokenIDs : list Z;
  req_PromptTokens : Z;
  req_ComputedTokens : Z;
  req_GeneratedTokens : Z;
  req_Phase : RequestPhase;
  req_FinishReason : FinishReason;
  req_OutputText : string;
  req_CreatedAt : Time;
  req_FirstTokenAt : Time;
  req_FinishedAt : Time;
  req_Usage : Usage;
  req_Labels : gmap string string
}.
#[export] Instance Request_eta : Eta Request := fun r =>
  mkRequest (req_RequestId r) (req_UserId r) (req_ExecutorID r) (req_ModelID r)
    (req_Prompt r) (req_MaxTokens r) (req_Timeout r) (req_Deadline r)
    (req_CacheSalt r) (req_Cache r) (req_TokenIDs r) (req_PromptTokens r)
    (req_ComputedTokens r) (req_GeneratedTokens r) (req_Phase r)
    (req_FinishReason r) (req_OutputText r) (req_CreatedAt r) (req_FirstTokenAt r)
    (req_FinishedAt r) (req_Usage r) (req_Labels r).

Record GenerateOutput := mkGenerateOutput {
  go_RequestId : string;
  go_Index : Z;
  go_DeltaText : string;
  go_FinishReason : FinishReason;
  go_Done : bool;
  go_Usage : Usage;
  go_Timing : Timing;
  go_BatchID : string;
  go_BatchSize : Z;
  go_ExecutorId : string;
  go_Err : option error
}.
#[export] Instance GenerateOutput_eta : Eta GenerateOutput := fun o =>
  mkGenerateOutput (go_RequestId o) (go_Index o) (go_DeltaText o) (go_FinishReason o)
    (go_Done o) (go_Usage o) (go_Timing o) (go_BatchID o) (go_BatchSize o)
    (go_ExecutorId o) (go_Err o).

Record WorkItem := mkWorkItem {
  wi_WorkId : string;
  wi_RequestId : string;
  wi_ExecutorID : string;
  wi_Phase : WorkPhase;
  wi_Deadline : Time;
  wi_MaxTokens : Z;
  wi_ModelID : string;
  wi_Cache : option PrefixMatch;
  wi_TokenIDs : list Z;
  wi_TokenCntTotal : Z;
  wi_BlockAllocation : option BlockAllocation;
  wi_PrefillOffset : Z;
  wi_GeneratedTokens : Z;
  wi_NumNewTokens : Z;
  wi_EnqueuedAt : Time;
  wi_ReadyAt : Time
}.
#[export] Instance WorkItem_eta : Eta WorkItem := fun w =>
  mkWorkItem (wi_WorkId w) (wi_RequestId w) (wi_ExecutorID w) (wi_Phase w)
    (wi_Deadline w) (wi_MaxTokens w) (wi_ModelID w) (wi_Cache w) (wi_TokenIDs w)
    (wi_TokenCntTotal w) (wi_BlockAllocation w) (wi_PrefillOffset w)
    (wi_GeneratedTokens w) (wi_NumNewTokens w) (wi_EnqueuedAt w) (wi_ReadyAt w).

Record Event := mkEvent {
  ev_WorkId : string;
  ev_RequestId : string;
  ev_BatchId : string;
  ev_ExecutorId : string;
  ev_Type : EventType;
  ev_ChunkIndex : Z;
  ev_TokenId : Z;
  ev_Done : bool;
  ev_Usage : Usage;
  ev_Timing : Timing;
  ev_FinishReason : FinishReason;
  ev_At : Time;
  ev_Err : option error
}.
#[export] Instance Event_eta : Eta Event := fun e =>
  mkEvent (ev_WorkId e) (ev_RequestId e) (ev_BatchId e) (ev_ExecutorId e) (ev_Type e)
    (ev_ChunkIndex e) (ev_TokenId e) (ev_Done e) (ev_Usage e) (ev_Timing e)
    (ev_FinishReason e) (ev_At e) (ev_Err e).

Record Batch := mkBatch {
  bt_BatchID : string;
  bt_ExecutorID : string;
  bt_BatchSize : Z;
  bt_CreateAt : Time;
  bt_Items : list WorkItem
}.

(** ** llm.go *)

Definition MockModel : string := "mock".
Definition Qwen3Model : string := "Qwen/Qwen3-0.6B".

Definition ParseModelID (modelID : string) : error + string :=
  if String.eqb modelID Qwen3Model || String.eqb modelID "Qwen3-0.6B"
     || String.eqb modelID "qwen3" then inr Qwen3Model
  else if String.eqb modelID MockModel || String.eqb modelID "" then inr MockModel
  else inl (New CodeInvalidArgument ("invalid model id: " +:+ modelID)).

(** ** The wire messages and their conversions (transfer.go) *)

Record GenerateRequest := mkGenerateRequest {
  gr_RequestId : string;
  gr_UserId : string;
  gr_ModelId : string;
  gr_Prompt : string;
  gr_MaxTokens : Z;   (* uint32 *)
  gr_TimeoutMs : Z;   (* uint32 *)
  gr_Labels : gmap string string
}.

Record PbUsage := mkPbUsage {
  pu_InputTokens : Z; pu_OutputTokens : Z; pu_TotalTokens : Z
}.
Record PbTiming := mkPbTiming {
  pt_QueueMs : Z; pt_BatchWaitMs : Z; pt_ExecutionMs : Z; pt_TotalMs : Z
}.
Record PbBatchInfo := mkPbBatchInfo { pb_BatchId : string; pb_BatchSize : Z }.

Record GenerateResponse := mkGenerateResponse {
  gs_RequestId : string;
  gs_OutputText : string;
  gs_FinishReason : FinishReason;
  gs_Usage : PbUsage;
  gs_Timing : PbTiming;
  gs_Batch : PbBatchInfo;
  gs_ExecutorId : string;
  gs_ErrorMessage : string
}.

Record GenerateResponseChunk := mkGenerateResponseChunk {
  gc_RequestId : string;
  gc_Index : Z;
  gc_DeltaText : string;
  gc_Done : bool;
  gc_FinishReason : FinishReason;
  gc_Usage : PbUsage;
  gc_ErrorMessage : string
}.

Record GetRuntimeResponse := mkGetRuntimeResponse {
  rr_ExecutorId : string;
  rr_RuntimeEpoch : Z;
  rr_ModelId : string;
  rr_ModelType : string;
  rr_Dtype : string;
  rr_DeviceType : string;
  rr_TensorParallelSize : Z;
  rr_BlockSize : Z;
  rr_NumKvBlocks : Z;
  rr_NumHiddenLayers : Z;
  rr_NumKvHeads : Z;
  rr_HeadDim : Z;
  rr_TotalMemoryBytes : Z;
  rr_AvailableMemoryBytes : Z;
  rr_KvCacheBytes : Z;
  rr_ModelRevision : string;
  rr_KvLayoutVersion : Z;
  rr_KvCompatibilityId : string;
  rr_TransferEndpoint : string
}.

(** [ProtoMsgToModel] at the wall-clock time [now]. *)
Definition ProtoMsgToModel (now : Time) (r : GenerateRequest) : error + Request :=
  let CacheSalt :=
    if String.eqb (gr_UserId r) "" then "request:" +:+ gr_RequestId r
    else "user:" +:+ gr_UserId r in
  match ParseModelID (gr_ModelId r) with
  | inl err => inl err
  | inr modelID =>
      inr {|
        req_RequestId := gr_RequestId r;
        req_UserId := gr_UserId r;
        req_ExecutorID := "";
        req_ModelID := modelID;
        req_Prompt := gr_Prompt r;
        req_MaxTokens := gr_MaxTokens r;
        req_Timeout := gr_TimeoutMs r * Millisecond;
        req_Deadline := now + gr_TimeoutMs r * Millisecond;
        req_CacheSalt := CacheSalt;
        req_Cache := None;
        req_TokenIDs := [];
        req_PromptTokens := 0;
        req_ComputedTokens := 0;
        req_GeneratedTokens := 0;
        req_Phase := RequestPhaseQueued;
        req_FinishReason := FinishReasonUnspecified;
        req_OutputText := "";
        req_CreatedAt := 0;
        req_FirstTokenAt := 0;
        req_FinishedAt := 0;
        req_Usage := Usage0;
        req_Labels := gr_Labels r
      |}
  end.

Definition durationToMilliseconds (d : Duration) : Z :=
  if d <=? 0 then 0 else u32 (d / Millisecond).

Definition errorMessage (err : option error) : string :=
  match err with None => "" | Some e => Error e end.

Definition ModelToProtoMsg (o : GenerateOutput) : GenerateResponse := {|
  gs_RequestId := go_RequestId o;
  gs_OutputText := go_DeltaText o;
  gs_FinishReason := go_FinishReason o;
  gs_Usage := mkPbUsage (us_InputTokens (go_Usage o)) (us_OutputTokens (go_Usage o))
                (us_TotalTokens (go_Usage o));
  gs_Timing := mkPbTiming (durationToMilliseconds (tm_Queue (go_Timing o)))
                 (durationToMilliseconds (tm_BatchWait (go_Timing o)))
                 (durationToMilliseconds (tm_Execution (go_Timing o)))
                 (durationToMilliseconds (tm_Total (go_Timing o)));
  gs_Batch := mkPbBatchInfo (go_BatchID o) (go_BatchSize o);
  gs_ExecutorId := go_ExecutorId o;
  gs_ErrorMessage := errorMessage (go_Err o)
|}.

Definition ModelToProtoMsgStream (o : GenerateOutput) : GenerateResponseChunk := {|
  gc_RequestId := go_RequestId o;
  gc_Index := u32 (go_Index o);
  gc_DeltaText := go_DeltaText o;
  gc_Done := go_Done o;
  gc_FinishReason := go_FinishReason o;
  gc_Usage := mkPbUsage (us_InputTokens (go_Usage o)) (us_OutputTokens (go_Usage o))
                (us_TotalTokens (go_Usage o));
  gc_ErrorMessage := errorMessage (go_Err o)
|}.

Definition RuntimeProtoToModel (res : GetRuntimeResponse) : ExecutorStats := {|
  es_ExecutorId := rr_ExecutorId res;
  es_RuntimeEpoch := rr_RuntimeEpoch res;
  es_ModelId := rr_ModelId res;
  es_ModelType := rr_ModelType res;
  es_Dtype := rr_Dtype res;
  es_DeviceType := rr_DeviceType res;
  es_TensorParallelSize := rr_TensorParallelSize res;
  es_BlockSize := rr_BlockSize res;
  es_NumKvBlocks := rr_NumKvBlocks res;
  es_NumHiddenLayers := rr_NumHiddenLayers res;
  es_NumKvHeads := rr_NumKvHeads res;
  es_HeadDim := rr_HeadDim res;
  es_TotalMemoryBytes := rr_TotalMemoryBytes res;
  es_AvailableMemoryBytes := rr_AvailableMemoryBytes res;
  es_KVCacheBytes := rr_KvCacheBytes res;
  es_ModelRevision := rr_ModelRevision res;
  es_KVLayoutVersion := rr_KvLayoutVersion res;
  es_KVCompatibilityID := rr_KvCompatibilityId res;
  es_TransferEndpoint := rr_TransferEndpoint res
|}.
