(* ===== verification/Metrics.v ===== *)
(** * Metrics: the engine's instruments (internal/metrics)

    The components call the interface [Metrics]; a call is a constructor of
    [MetricCall], and a component's state carries the calls it made, in order.
    The implementation, the struct [metrics], turns each call into operations on
    prometheus instruments (a third-party package: the operations are recorded,
    with the instrument's name and label values) and keeps the engine's own
    [runtimeStats], which [Snapshot] returns to the admin service.  Floating
    point seconds are kept as the duration in nanoseconds they come from. *)

From S2P Require Import Prelude Errors Model.
Inductive MetricCall :=
(* RuntimeStats *)
| SetPrefillQueueLength (n : Z) | SetDecodeQueueLength (n : Z)
| SetActiveRequests (n : Z) | SetInflightBatches (n : Z)
(* Block *)
| ObserveBlockStats (executorID : string) (active free cached : Z)
| IncAllocationFailure (executorID : string)
| IncEvictedBlock (executorID : string)
(* Metrics *)
| IncRequest (status executorID : string)
| ObserveRequestDuration (s : Duration)
| ObserveTTFT (s : Duration) | ObserveTBT (s : Duration)
| ObserveQueueWait (s : Duration)
| ObserveExecution (s : Duration) (executorID : string)
| ObserveBatch (size prefillItems decodeItems : Z)
| IncBatches (executorID : string)
| IncQueueRejected
| IncExecutorErrors (executorID : string)
| IncPrefixCacheRequests (hit : bool)
| AddPrefixCacheTokensSaved (tokens : Z).

Definition MetricLog := list MetricCall.

(** ** The instruments [NewMetrics] makes and registers

    prometheus panics when an instrument is used with another number of label
    values than it was made with, and when two registered instruments share a
    name.  The help texts and the bucket bounds of the histograms are left out. *)

Inductive InstrumentKind := Counter | Gauge | Histogram.

#[export] Instance InstrumentKind_eq_dec : EqDecision InstrumentKind.
Proof. solve_decision. Defined.

Record Instrument := mkInstrument {
  in_name : string; in_kind : InstrumentKind; in_labels : list string
}.

(** [newBlock] *)
Definition newBlock : list Instrument := [
  mkInstrument "llm_kv_blocks" Gauge ["executor"; "state"];
  mkInstrument "llm_prefix_cache_evictions_total" Counter ["executor"];
  mkInstrument "llm_kv_allocation_failures_total" Counter ["executor"] ].

(** In the order of [MustRegister]. *)
Definition registered : list Instrument := newBlock ++ [
  mkInstrument "llm_requests_total" Counter ["status"; "executor"];
  mkInstrument "llm_request_duration_seconds" Histogram [];
  mkInstrument "llm_ttft_seconds" Histogram [];
  mkInstrument "llm_tbt_seconds" Histogram [];
  mkInstrument "llm_queue_wait_seconds" Histogram [];
  mkInstrument "llm_execution_seconds" Histogram ["executor"];
  mkInstrument "llm_batch_size" Histogram ["phase"];
  mkInstrument "llm_batch_items_total" Counter ["phase"];
  mkInstrument "llm_batches_total" Counter ["executor"; "phase"];
  mkInstrument "llm_prefill_queue_length" Gauge [];
  mkInstrument "llm_decode_queue_length" Gauge [];
  mkInstrument "llm_active_requests" Gauge [];
  mkInstrument "llm_inflight_batches" Gauge [];
  mkInstrument "llm_queue_rejected_total" Counter [];
  mkInstrument "llm_executor_errors_total" Counter ["executor"];
  mkInstrument "llm_prefix_cache_requests_total" Counter ["status"];
  mkInstrument "llm_prefix_cache_tokens_saved_total" Counter [] ].

(** An operation on a prometheus instrument. *)
Inductive PromOp :=
| PromInc (name : string) (labels : list string)
| PromAdd (name : string) (labels : list string) (v : Z)
| PromSet (name : string) (labels : list string) (v : Z)
| PromObserve (name : string) (labels : list string) (v : Z).

Record metrics := mkMetrics {
  mx_prom : list PromOp;
  mx_runtimeStats : EngineRuntimeStats
}.
#[export] Instance metrics_eta : Eta metrics := fun m =>
  mkMetrics (mx_prom m) (mx_runtimeStats m).

Definition NewMetrics : metrics :=
  mkMetrics [] (mkEngineRuntimeStats 0 0 0 0 0 0).

Definition emit (ops : list PromOp) (m : metrics) : metrics :=
  m <| mx_prom := mx_prom m ++ ops |>.

Definition setStats (f : EngineRuntimeStats -> EngineRuntimeStats) (m : metrics) : metrics :=
  m <| mx_runtimeStats := f (mx_runtimeStats m) |>.

(** *** runtime.go *)

Definition SetPrefillQueueLength_ (n : Z) (m : metrics) : metrics :=
  setStats (fun r => r <| rs_PrefillQueueLength := u64 n |>)
    (emit [PromSet "llm_prefill_queue_length" [] n] m).
Definition SetDecodeQueueLength_ (n : Z) (m : metrics) : metrics :=
  setStats (fun r => r <| rs_DecodeQueueLength := u64 n |>)
    (emit [PromSet "llm_decode_queue_length" [] n] m).
Definition SetActiveRequests_ (n : Z) (m : metrics) : metrics :=
  setStats (fun r => r <| rs_ActiveRequests := u64 n |>)
    (emit [PromSet "llm_active_requests" [] n] m).
Definition SetInflightBatches_ (n : Z) (m : metrics) : metrics :=
  setStats (fun r => r <| rs_InflightBatches := u64 n |>)
    (emit [PromSet "llm_inflight_batches" [] n] m).

(** *** kv_block.go *)

Definition ObserveBlockStats_ (executorID : string) (active free cached : Z) : list PromOp := [
  PromSet "llm_kv_blocks" [executorID; "active"] active;
  PromSet "llm_kv_blocks" [executorID; "free"] free;
  PromSet "llm_kv_blocks" [executorID; "cached"] cached ].
Definition IncAllocationFailure_ (executorID : string) : list PromOp :=
  [PromInc "llm_kv_allocation_failures_total" [executorID]].
Definition IncEvictedBlock_ (executorID : string) : list PromOp :=
  [PromInc "llm_prefix_cache_evictions_total" [executorID]].

(** *** metrics.go *)

Definition ObserveBatch_ (size prefillItems decodeItems : Z) : list PromOp := [
  PromObserve "llm_batch_size" ["mixed"] size;
  PromAdd "llm_batch_items_total" ["prefill"] prefillItems;
  PromAdd "llm_batch_items_total" ["decode"] decodeItems ].
Definition IncPrefixCacheRequests_ (hit : bool) : list PromOp :=
  if hit then [PromInc "llm_prefix_cache_requests_total" ["hit"]]
  else [PromInc "llm_prefix_cache_requests_total" ["miss"]].

(** The methods of [metrics]. *)
Definition metrics_call (c : MetricCall) (m : metrics) : metrics :=
  match c with
  | SetPrefillQueueLength n => SetPrefillQueueLength_ n m
  | SetDecodeQueueLength n => SetDecodeQueueLength_ n m
  | SetActiveRequests n => SetActiveRequests_ n m
  | SetInflightBatches n => SetInflightBatches_ n m
  | ObserveBlockStats ex active free cached => emit (ObserveBlockStats_ ex active free cached) m
  | IncAllocationFailure ex => emit (IncAllocationFailure_ ex) m
  | IncEvictedBlock ex => emit (IncEvictedBlock_ ex) m
  | IncRequest status ex => emit [PromInc "llm_requests_total" [status; ex]] m
  | ObserveRequestDuration s => emit [PromObserve "llm_request_duration_seconds" [] s] m
  | ObserveTTFT s => emit [PromObserve "llm_ttft_seconds" [] s] m
  | ObserveTBT s => emit [PromObserve "llm_tbt_seconds" [] s] m
  | ObserveQueueWait s => emit [PromObserve "llm_queue_wait_seconds" [] s] m
  | ObserveExecution s ex => emit [PromObserve "llm_execution_seconds" [ex] s] m
  | ObserveBatch size p d => emit (ObserveBatch_ size p d) m
  | IncBatches ex => emit [PromInc "llm_batches_total" [ex; "mixed"]] m
  | IncQueueRejected => emit [PromInc "llm_queue_rejected_total" []] m
  | IncExecutorErrors ex => emit [PromInc "llm_executor_errors_total" [ex]] m
  | IncPrefixCacheRequests hit => emit (IncPrefixCacheRequests_ hit) m
  | AddPrefixCacheTokensSaved t =>
      emit [PromAdd "llm_prefix_cache_tokens_saved_total" [] t] m
  end.

Definition Snapshot (m : metrics) : EngineRuntimeStats := mx_runtimeStats m.

(** The state of the instruments after a component's calls. *)
Definition metrics_run (log : MetricLog) (m : metrics) : metrics :=
  foldl (fun m c => metrics_call c m) m log.

Lemma metrics_run_app l1 l2 m :
  metrics_run (l1 ++ l2) m = metrics_run l2 (metrics_run l1 m).
Proof. apply foldl_app. Qed.

(** ** What the instruments and the snapshot show *)

(** The instrument is registered, of the right kind, and gets as many label
    values as it has labels; a counter is not decreased. *)
Definition op_ok (o : PromOp) : bool :=
  let fits name kind (labels : list string) :=
    existsb (fun i => String.eqb (in_name i) name && bool_decide (in_kind i = kind)
                      && Nat.eqb (length (in_labels i)) (length labels)) registered in
  match o with
  | PromInc name labels => fits name Counter labels
  | PromAdd name labels v => fits name Counter labels && (0 <=? v)
  | PromSet name labels _ => fits name Gauge labels
  | PromObserve name labels _ => fits name Histogram labels
  end.

(** The engine counts with numbers that are not negative. *)
Definition counts (c : MetricCall) : Prop :=
  match c with
  | ObserveBatch _ p d => 0 <= p /\ 0 <= d
  | AddPrefixCacheTokensSaved t => 0 <= t
  | _ => True
  end.

Lemma metrics_call_ok c m : counts c -> Forall (fun o => op_ok o = true) (mx_prom m) ->
  Forall (fun o => op_ok o = true) (mx_prom (metrics_call c m)).
Proof.
  intros Hc Hm. destruct c; cbn; unfold IncPrefixCacheRequests_; try case_match; apply Forall_app; (split; [exact Hm|]);
    repeat (apply Forall_cons; split); try apply Forall_nil; cbn; rewrite ?andb_true_r;
    try done; apply Z.leb_le; cbn in Hc; lia.
Qed.

Lemma metrics_run_ok log m : Forall counts log -> Forall (fun o => op_ok o = true) (mx_prom m) ->
  Forall (fun o => op_ok o = true) (mx_prom (metrics_run log m)).
Proof.
  intros H. revert m. induction H as [|c log Hc _ IH]; intros m Hm; [done|].
  apply IH, metrics_call_ok; done.
Qed.

(** The argument of the last call of a setter in the log, if there is one. *)
Definition lastSet (f : MetricCall -> option Z) (log : MetricLog) : option Z :=
  last (omap f log).

Definition setPrefill c := match c with SetPrefillQueueLength n => Some n | _ => None end.
Definition setDecode c := match c with SetDecodeQueueLength n => Some n | _ => None end.
Definition setActive c := match c with SetActiveRequests n => Some n | _ => None end.
Definition setInflight c := match c with SetInflightBatches n => Some n | _ => None end.

Definition stat (f : MetricCall -> option Z) (log : MetricLog) : Z :=
  default 0 (u64 <$> lastSet f log).

Lemma stat_snoc f log c : stat f (log ++ [c]) = default (stat f log) (u64 <$> f c).
Proof.
  unfold stat, lastSet. rewrite omap_app. cbn. destruct (f c); cbn.
  - by rewrite last_snoc.
  - by rewrite app_nil_r.
Qed.

(** Metric calls never panic and the admin service sees the latest values.
    From [NewMetrics], after any sequence of calls that count with non-negative
    numbers, every operation made on a prometheus instrument was on a registered
    one of the right kind with the right number of labels, and the registered
    names are distinct; the snapshot holds, for each of the four gauges, the
    value of the last call of its setter (0 without one), and the two executor
    counts are always 0: nothing sets them. *)
Theorem metrics_sound log (Hcounts : Forall counts log) :
  let m := metrics_run log NewMetrics in
  Forall (fun o => op_ok o = true) (mx_prom m) /\ NoDup (in_name <$> registered) /\
  Snapshot m = mkEngineRuntimeStats (stat setPrefill log) (stat setDecode log)
                 (stat setActive log) (stat setInflight log) 0 0.
Proof.
  cbn zeta. split; [by apply metrics_run_ok|]. split; [apply (bool_decide_unpack _); by vm_compute|].
  clear Hcounts. unfold Snapshot. induction log as [|c log IH] using rev_ind; [done|].
  rewrite metrics_run_app, !stat_snoc. cbn [metrics_run foldl].
  change (foldl (fun m c => metrics_call c m) NewMetrics log) with (metrics_run log NewMetrics).
  destruct c; cbn -[stat metrics_run]; by rewrite IH.
Qed.

Lemma metrics_sound_witness :
  Snapshot (metrics_run [SetActiveRequests 1; IncRequest "ok" "e0"; SetActiveRequests 2] NewMetrics)
    = mkEngineRuntimeStats 0 0 2 0 0 0.
Proof.
  assert (H : Forall counts [SetActiveRequests 1; IncRequest "ok" "e0"; SetActiveRequests 2])
    by (repeat constructor).
  exact (proj2 (proj2 (metrics_sound _ H))).
Defined.
