(* ===== verification/FreeQueue.v ===== *)
(** * FreeQueue: the intrusive free list of KV blocks (internal/block)

    The state of the block manager and the primitives that move a block in and
    out of the free list: [pushFree], [popFree], [appendFreeBlock] of queue.go
    and [removeFreeBlock], [touch], [allocate] of block.go.  The list is threaded
    through the blocks by [PrevFree] and [NextFree] with -1 as the end marker.

    The abstract specification is a pool [Pool]: the blocks without their links,
    a plain list of the free block ids in order, and the prefix index.  The
    relation [Rep] says that a manager implements a pool; the theorems of the
    last part are the refinement: every primitive, run on a manager that
    implements a pool, does not panic and implements the pool operation. *)

From S2P Require Import Prelude Errors Model Metrics.
Record manager := mkManager {
  m_executorID : string;
  m_blockSize : Z;                       (* uint32 *)
  m_blocks : list Block;
  m_freeHead : Z;                        (* int32 *)
  m_freeTail : Z;                        (* int32 *)
  m_freeCount : Z;                       (* uint32 *)
  m_requestBlocks : gmap string (list Z);
  m_cachedBlocks : gmap string Z;
  m_pendingAllocations : gmap string BlockAllocation;
  m_metrics : MetricLog
}.
#[export] Instance manager_eta : Eta manager := fun m =>
  mkManager (m_executorID m) (m_blockSize m) (m_blocks m) (m_freeHead m)
    (m_freeTail m) (m_freeCount m) (m_requestBlocks m) (m_cachedBlocks m)
    (m_pendingAllocations m) (m_metrics m).

(** ** Block access: [&m.blocks[id]] and assignments through it *)

Definition getBlock (id : Z) : M manager Block := getsO (fun m => idx (m_blocks m) id).

Definition setBlock (id : Z) (f : Block -> Block) : M manager unit :=
  modO (fun m =>
    b ← idx (m_blocks m) id;
    bs ← store (m_blocks m) id (f b);
    Some (m <| m_blocks := bs |>)).

Definition metric (c : MetricCall) : M manager unit :=
  modS (fun m => m <| m_metrics := m_metrics m ++ [c] |>).

(** ** queue.go *)

Definition appendFreeBlock (id : Z) : M manager unit :=
  m ← getS;
  setBlock id (fun b => b <| blk_RefCount := 0 |> <| blk_InFreeQueue := true |>
                          <| blk_PrevFree := m_freeTail m |> <| blk_NextFree := -1 |>) ;;
  (if 0 <=? m_freeTail m
   then setBlock (m_freeTail m) (fun b => b <| blk_NextFree := i32 id |>)
   else modS (fun m => m <| m_freeHead := i32 id |>)) ;;
  modS (fun m => m <| m_freeTail := i32 id |> <| m_freeCount := m_freeCount m +u 1 |>).

Definition pushFree (id : Z) : M manager unit :=
  b ← getBlock id;
  if blk_RefCount b =? 0 then mret tt else
  setBlock id (fun b => b <| blk_RefCount := blk_RefCount b -u 1 |>) ;;
  b ← getBlock id;
  if 0 <? blk_RefCount b then mret tt else
  appendFreeBlock id.

Definition popFree : M manager (Z * bool) :=
  m ← getS;
  if (m_freeHead m <? 0) || (m_freeCount m =? 0) then mret (0, false) else
  let id := u32 (m_freeHead m) in
  b ← getBlock id;
  (if blk_Cached b then
     modS (fun m => m <| m_cachedBlocks := delete (blk_Hash b) (m_cachedBlocks m) |>) ;;
     setBlock id (fun b => b <| blk_Cached := false |>) ;;
     metric (IncEvictedBlock (m_executorID m))
   else mret tt) ;;
  setBlock id (fun b => b <| blk_Hash := "" |> <| blk_TokenCount := 0 |>
                          <| blk_RefCount := 1 |>) ;;
  b ← getBlock id;
  let next := blk_NextFree b in
  modS (fun m => m <| m_freeHead := next |>) ;;
  (if 0 <=? next
   then setBlock next (fun b => b <| blk_PrevFree := -1 |>)
   else modS (fun m => m <| m_freeTail := -1 |>)) ;;
  setBlock id (fun b => b <| blk_InFreeQueue := false |> <| blk_PrevFree := -1 |>
                          <| blk_NextFree := -1 |>) ;;
  modS (fun m => m <| m_freeCount := m_freeCount m -u 1 |>) ;;
  mret (id, true).

(** ** block.go: removal from the middle, touch and allocation *)

Definition removeFreeBlock (id : Z) : M manager unit :=
  b ← getBlock id;
  if negb (blk_InFreeQueue b) then mret tt else
  (if 0 <=? blk_PrevFree b
   then setBlock (blk_PrevFree b) (fun p => p <| blk_NextFree := blk_NextFree b |>)
   else modS (fun m => m <| m_freeHead := blk_NextFree b |>)) ;;
  b ← getBlock id;
  (if 0 <=? blk_NextFree b
   then setBlock (blk_NextFree b) (fun n => n <| blk_PrevFree := blk_PrevFree b |>)
   else modS (fun m => m <| m_freeTail := blk_PrevFree b |>)) ;;
  setBlock id (fun b => b <| blk_InFreeQueue := false |> <| blk_NextFree := -1 |>
                          <| blk_PrevFree := -1 |>) ;;
  modS (fun m => m <| m_freeCount := m_freeCount m -u 1 |>).

Definition touch1 (bId : Z) : M manager unit :=
  b ← getBlock bId;
  (if blk_InFreeQueue b then removeFreeBlock bId else mret tt) ;;
  setBlock bId (fun b => b <| blk_RefCount := blk_RefCount b +u 1 |>).

Definition touch (blockIds : list Z) : M manager unit := forM_ blockIds touch1.

(** The loop of [allocate]: [n] iterations left, [ids] allocated so far. *)
Fixpoint allocateLoop (n : nat) (ids : list Z) : M manager (list Z * bool) :=
  match n with
  | O => mret (ids, true)
  | S n' =>
      '(id, ok) ← popFree;
      if negb ok then
        forM_ ids pushFree ;; mret ([], false)
      else
        setBlock id (fun b => b <| blk_RefCount := 1 |> <| blk_InFreeQueue := false |>) ;;
        allocateLoop n' (ids ++ [id])
  end.

Definition allocate (n : Z) : M manager (list Z * bool) :=
  m ← getS;
  if m_freeCount m <? n then mret ([], false) else
  allocateLoop (Z.to_nat n) [].

(** ** The abstract pool *)

Record Info := mkInfo {
  i_Hash : string; i_RefCount : Z; i_TokenCount : Z; i_Cached : bool
}.
#[export] Instance Info_eta : Eta Info := fun i =>
  mkInfo (i_Hash i) (i_RefCount i) (i_TokenCount i) (i_Cached i).

Definition info_of (b : Block) : Info :=
  mkInfo (blk_Hash b) (blk_RefCount b) (blk_TokenCount b) (blk_Cached b).

Record Pool := mkPool {
  p_info : list Info;
  p_free : list Z;
  p_cached : gmap string Z
}.
#[export] Instance Pool_eta : Eta Pool := fun p =>
  mkPool (p_info p) (p_free p) (p_cached p).

(** Give one reference back; the block goes to the end of the free list with
    its last reference. *)
Definition pool_push (id : Z) (p : Pool) : option Pool :=
  i ← idx (p_info p) id;
  if i_RefCount i =? 0 then Some p
  else
    let r := i_RefCount i -u 1 in
    let p' := p <| p_info := upd (p_info p) id (i <| i_RefCount := r |>) |> in
    Some (if 0 <? r then p' else p' <| p_free := p_free p ++ [id] |>).

(** Take the oldest free block; it loses its content, and the index its hash. *)
Definition pool_pop (p : Pool) : option (Z * Pool) :=
  match p_free p with
  | [] => None
  | x :: fl =>
      i ← idx (p_info p) x;
      Some (x, mkPool (upd (p_info p) x (mkInfo "" 1 0 false)) fl
                 (if i_Cached i then delete (i_Hash i) (p_cached p) else p_cached p))
  end.

(** Add one reference; the block leaves the free list wherever it is. *)
Definition pool_touch (id : Z) (p : Pool) : option Pool :=
  i ← idx (p_info p) id;
  Some (mkPool (upd (p_info p) id (i <| i_RefCount := i_RefCount i +u 1 |>))
          (filter (fun x => x <> id) (p_free p)) (p_cached p)).

(** ** The doubly linked representation *)

Definition hd_or (n : Z) (fl : list Z) : Z := match fl with [] => n | x :: _ => x end.
Fixpoint last_or (p : Z) (fl : list Z) : Z :=
  match fl with [] => p | x :: fl' => last_or x fl' end.

Definition links (bs : list Block) (x : Z) : option (Z * Z) :=
  (fun b => (blk_PrevFree b, blk_NextFree b)) <$> idx bs x.

(** [seg bs prev fl next]: the blocks [fl] are linked in this order, the first
    one back to [prev] and the last one forward to [next]. *)
Fixpoint seg (bs : list Block) (prev : Z) (fl : list Z) (next : Z) : Prop :=
  match fl with
  | [] => True
  | x :: fl' => links bs x = Some (prev, hd_or next fl') /\ seg bs x fl' next
  end.

Record Rep (m : manager) (p : Pool) : Prop := mkRep {
  rep_info : p_info p = info_of <$> m_blocks m;
  rep_cached : m_cachedBlocks m = p_cached p;
  rep_len : len (m_blocks m) <= two31;
  rep_nodup : NoDup (p_free p);
  rep_seg : seg (m_blocks m) (-1) (p_free p) (-1);
  rep_head : m_freeHead m = hd_or (-1) (p_free p);
  rep_tail : m_freeTail m = last_or (-1) (p_free p);
  rep_count : m_freeCount m = len (p_free p);
  rep_flag : forall id b, idx (m_blocks m) id = Some b ->
             blk_InFreeQueue b = true <-> id ∈ p_free p
}.

(** What the primitives leave alone. *)
Definition rest (m : manager) :=
  (m_executorID m, m_blockSize m, m_requestBlocks m, m_pendingAllocations m).

(** *** Segments *)

Lemma seg_ext bs bs' prev fl next :
  (forall x, x ∈ fl -> links bs' x = links bs x) ->
  seg bs prev fl next -> seg bs' prev fl next.
Proof.
  revert prev. induction fl as [|x fl IH]; intros prev H; [done|].
  intros [Hx Hs]. split.
  - rewrite H by set_solver. done.
  - apply IH; [set_solver|done].
Qed.

Lemma hd_or_app n l1 l2 : hd_or n (l1 ++ l2) = hd_or (hd_or n l2) l1.
Proof. by destruct l1. Qed.

Lemma last_or_app p l1 l2 : last_or p (l1 ++ l2) = last_or (last_or p l1) l2.
Proof. revert p. induction l1; intros; simpl; [done|apply IHl1]. Qed.

Lemma last_or_elem p l : l <> [] -> last_or p l ∈ l.
Proof.
  revert p. induction l as [|x l IH]; intros p; [done|]. intros _. simpl.
  destruct l; [set_solver|]. apply list_elem_of_further, IH. done.
Qed.

Lemma seg_app bs prev l1 l2 next :
  seg bs prev (l1 ++ l2) next <->
  seg bs prev l1 (hd_or next l2) /\ seg bs (last_or prev l1) l2 next.
Proof.
  revert prev. induction l1 as [|x l1 IH]; intros prev; simpl; [tauto|].
  rewrite IH, hd_or_app. tauto.
Qed.

Lemma seg_idx bs prev fl next x : seg bs prev fl next -> x ∈ fl -> is_Some (idx bs x).
Proof.
  revert prev. induction fl as [|y fl IH]; intros prev; [set_solver|].
  intros [Hy Hs] [->|Hin]%elem_of_cons; [|by eapply IH].
  unfold links in Hy. destruct (idx bs y); [eauto|done].
Qed.

(** Redirect the end of a non-empty segment. *)
Lemma seg_retarget bs bs' prev l x next next' :
  NoDup (l ++ [x]) ->
  seg bs prev (l ++ [x]) next ->
  (forall y, y ∈ l -> links bs' y = links bs y) ->
  links bs' x = Some (last_or prev l, next') ->
  seg bs' prev (l ++ [x]) next'.
Proof.
  intros Hnd Hs Hframe Hx. apply seg_app in Hs as [Hl [_ _]]. apply seg_app.
  split; [by eapply seg_ext|]. simpl. rewrite Hx. done.
Qed.

(** Redirect the start of a non-empty segment. *)
Lemma seg_rehead bs bs' prev prev' x l next :
  NoDup (x :: l) ->
  seg bs prev (x :: l) next ->
  (forall y, y ∈ l -> links bs' y = links bs y) ->
  links bs' x = Some (prev', hd_or next l) ->
  seg bs' prev' (x :: l) next.
Proof.
  intros Hnd [_ Hs] Hframe Hx. split; [done|]. by eapply seg_ext.
Qed.

(** *** Stepping through block assignments *)

Lemma wp_getBlock id b Q m :
  idx (m_blocks m) id = Some b -> Q b m -> wp (getBlock id) Q m.
Proof. intros. by eapply wp_getsO. Qed.

Lemma wp_setBlock id f b Q m :
  idx (m_blocks m) id = Some b ->
  Q tt (m <| m_blocks := upd (m_blocks m) id (f b) |>) ->
  wp (setBlock id f) Q m.
Proof.
  intros Hb HQ. unfold setBlock. eapply wp_modO; [|done].
  cbn. rewrite Hb. cbn. by erewrite store_upd.
Qed.

Lemma links_upd_ne bs x y b : x <> y -> 0 <= x -> links (upd bs x b) y = links bs y.
Proof. intros. unfold links. by rewrite idx_upd_ne. Qed.

Lemma links_upd_eq bs x b :
  0 <= x < len bs -> links (upd bs x b) x = Some (blk_PrevFree b, blk_NextFree b).
Proof. intros. unfold links. by rewrite idx_upd_eq. Qed.

Lemma links_idx bs x l : links bs x = Some l ->
  exists b, idx bs x = Some b /\ l = (blk_PrevFree b, blk_NextFree b).
Proof. unfold links. intros (b & Hb & ->)%fmap_Some. eauto. Qed.

Section rep.
Context (m : manager) (p : Pool) (HR : Rep m p).

Lemma rep_free_range x : x ∈ p_free p -> 0 <= x < len (m_blocks m).
Proof.
  intros Hx. apply idx_is_Some. eapply seg_idx; [apply HR|done].
Qed.

Lemma rep_free_len : 0 <= len (p_free p) <= len (m_blocks m).
Proof.
  split; [apply len_nonneg|].
  pose proof (NoDup_len_bound (p_free p) (len (m_blocks m))
    (rep_nodup _ _ HR) rep_free_range) as H.
  pose proof (len_nonneg (m_blocks m)). lia.
Qed.

Lemma rep_info_block id i :
  idx (p_info p) id = Some i ->
  exists b, idx (m_blocks m) id = Some b /\ info_of b = i.
Proof.
  rewrite (rep_info _ _ HR), idx_fmap. intros (b & ? & ->)%fmap_Some. eauto.
Qed.

Lemma rep_info_len : len (p_info p) = len (m_blocks m).
Proof. rewrite (rep_info _ _ HR). apply len_fmap. Qed.
End rep.

(** An update that leaves the links and the flag of a block alone is an update
    of the pool's entry. *)
Lemma rep_upd_info m p id b b' :
  Rep m p -> idx (m_blocks m) id = Some b ->
  blk_InFreeQueue b' = blk_InFreeQueue b ->
  blk_PrevFree b' = blk_PrevFree b -> blk_NextFree b' = blk_NextFree b ->
  Rep (m <| m_blocks := upd (m_blocks m) id b' |>)
      (p <| p_info := upd (p_info p) id (info_of b') |>).
Proof.
  intros HR Hb Hf Hp Hn. pose proof (idx_Some_range _ _ _ Hb) as Hr.
  destruct HR. split; simpl; try done.
  - by rewrite fmap_upd, rep_info0.
  - by rewrite len_upd.
  - eapply seg_ext; [|done]. intros y _. destruct (decide (id = y)) as [<-|].
    + rewrite links_upd_eq by done. unfold links. rewrite Hb. simpl. by rewrite Hp, Hn.
    + by rewrite links_upd_ne by lia.
  - intros y c. rewrite idx_upd by done. case_decide as Hy; [|apply rep_flag0].
    intros [= <-]. subst y. rewrite Hf. by apply rep_flag0.
Qed.

(** Pointwise equality of blocks up to the links. *)
Lemma info_eq_pointwise (bs bs' : list Block) :
  (forall y, info_of <$> idx bs' y = info_of <$> idx bs y) ->
  info_of <$> bs' = info_of <$> bs.
Proof. intros H. apply list_eq_idx. intros y. by rewrite !idx_fmap. Qed.

Ltac idx_cases :=
  repeat match goal with
  | |- context [idx (upd ?l ?i ?x) ?j] =>
      rewrite (idx_upd l i j x) by (len_lia)
  | |- context [decide (?a = ?b)] => destruct (decide (a = b)); subst
  end.

Lemma appendFreeBlock_spec m p id i :
  Rep m p -> idx (p_info p) id = Some i -> id ∉ p_free p ->
  wp (appendFreeBlock id) (fun _ m' =>
    Rep m' (p <| p_info := upd (p_info p) id (i <| i_RefCount := 0 |>) |>
              <| p_free := p_free p ++ [id] |>) /\
    rest m' = rest m /\ m_metrics m' = m_metrics m) m.
Proof.
  intros HR Hi Hid. destruct (rep_info_block _ _ HR _ _ Hi) as (b & Hb & <-).
  pose proof (idx_Some_range _ _ _ Hb) as Hr.
  pose proof (rep_len _ _ HR) as Hlen. pose proof (rep_free_len _ _ HR) as Hfl.
  assert (i32 id = id) as Hi32 by (apply i32_small; unfold two31 in *; lia).
  assert (Hcount : m_freeCount m +u 1 = len (p_free p) + 1).
  { rewrite (rep_count _ _ HR). apply u32_small. unfold two31, two32 in *. lia. }
  unfold appendFreeBlock. wp_steps. eapply wp_setBlock; [done|]. cbn beta.
  rewrite Hi32. cbn. rewrite (rep_tail _ _ HR).
  destruct (snoc_case (p_free p)) as [Hnil|(l & t & Hl)].
  - (* the free list was empty *)
    rewrite Hnil. cbn. wp_steps. split; [|done].
    destruct HR. split; simpl; try done.
    + by rewrite fmap_upd, rep_info0.
    + by rewrite len_upd.
    + apply NoDup_singleton.
    + by rewrite links_upd_eq.
    + by rewrite Hcount, Hnil.
    + intros y c. rewrite idx_upd by done. rewrite Hnil in *.
      case_decide; [intros [= <-]; subst; set_solver|].
      intros Hc. rewrite (rep_flag0 _ _ Hc). set_solver.
  - (* linked behind the tail [t] *)
    assert (id ∉ l /\ id <> t) as [Hidl Hne].
    { rewrite Hl, elem_of_snoc in Hid. tauto. }
    pose proof (rep_nodup _ _ HR) as Hnd. rewrite Hl in Hnd.
    destruct (NoDup_snoc_inv _ _ Hnd) as [_ Htl].
    assert (Ht : t ∈ p_free p) by (rewrite Hl; apply elem_of_snoc; by right).
    pose proof (rep_free_range _ _ HR _ Ht) as Htr.
    destruct (proj2 (idx_is_Some (m_blocks m) t) Htr) as [bt Hbt].
    assert (last_or (-1) (p_free p) = t) as -> by (rewrite Hl, last_or_app; done).
    rewrite (proj2 (Z.leb_le 0 t)) by lia. wp_steps.
    eapply wp_setBlock; [simpl; by rewrite idx_upd_ne by lia|]. cbn. wp_steps.
    split; [|done].
    pose proof (rep_seg _ _ HR) as Hseg. rewrite Hl in Hseg.
    destruct HR. split; simpl; try done.
    + rewrite rep_info0. apply list_eq_idx. intros y.
      rewrite <- rep_info0. rewrite idx_upd by (rewrite rep_info0; len_lia).
      rewrite idx_fmap. idx_cases; simpl; try lia.
      * done.
      * rewrite rep_info0, idx_fmap, Hbt. done.
      * by rewrite rep_info0, idx_fmap.
    + by rewrite !len_upd.
    + apply NoDup_snoc; [done|]. rewrite Hl, elem_of_snoc. tauto.
    + rewrite Hl. apply seg_app. split.
      * eapply seg_retarget; [done|exact Hseg| |].
        -- intros y Hy. assert (t <> y) by congruence. assert (id <> y) by congruence.
           by rewrite !links_upd_ne by lia.
        -- rewrite links_upd_eq by (len_lia). cbn.
           apply seg_app in Hseg as [_ [Hs _]].
           apply links_idx in Hs as (bt' & Hbt' & [= -> _]). congruence.
      * simpl. rewrite last_or_app. simpl.
        rewrite links_upd_ne, links_upd_eq by lia. done.
    + rewrite rep_head0, Hl. by destruct l.
    + by rewrite last_or_app.
    + rewrite Hcount, len_app. reflexivity.
    + intros y c. rewrite elem_of_snoc. idx_cases; intros Hc.
      * injection Hc as <-. cbn. rewrite (rep_flag0 _ _ Hbt). tauto.
      * injection Hc as <-. cbn. tauto.
      * rewrite (rep_flag0 _ _ Hc). intuition congruence.
Qed.

(** *** Unlinking a block *)

Definition relink_next (bs : list Block) (p n : Z) : list Block :=
  match idx bs p with
  | Some b => upd bs p (b <| blk_NextFree := n |>)
  | None => bs
  end.
Definition relink_prev (bs : list Block) (n p : Z) : list Block :=
  match idx bs n with
  | Some b => upd bs n (b <| blk_PrevFree := p |>)
  | None => bs
  end.

Lemma len_relink_next bs p n : len (relink_next bs p n) = len bs.
Proof. unfold relink_next. case_match; [apply len_upd|done]. Qed.
Lemma len_relink_prev bs n p : len (relink_prev bs n p) = len bs.
Proof. unfold relink_prev. case_match; [apply len_upd|done]. Qed.

Lemma idx_relink_next bs p n y :
  idx (relink_next bs p n) y =
  (fun b => if decide (y = p) then b <| blk_NextFree := n |> else b) <$> idx bs y.
Proof.
  unfold relink_next. destruct (idx bs p) as [b|] eqn:Hp.
  - rewrite idx_upd by (by eapply idx_Some_range).
    destruct (decide (p = y)) as [->|].
    + rewrite Hp. simpl. by rewrite decide_True.
    + destruct (idx bs y); simpl; [|done]. by rewrite decide_False by congruence.
  - destruct (idx bs y) eqn:Hy; simpl; [|done]. by rewrite decide_False by congruence.
Qed.

Lemma idx_relink_prev bs n p y :
  idx (relink_prev bs n p) y =
  (fun b => if decide (y = n) then b <| blk_PrevFree := p |> else b) <$> idx bs y.
Proof.
  unfold relink_prev. destruct (idx bs n) as [b|] eqn:Hp.
  - rewrite idx_upd by (by eapply idx_Some_range).
    destruct (decide (n = y)) as [->|].
    + rewrite Hp. simpl. by rewrite decide_True.
    + destruct (idx bs y); simpl; [|done]. by rewrite decide_False by congruence.
  - destruct (idx bs y) eqn:Hy; simpl; [|done]. by rewrite decide_False by congruence.
Qed.

Definition unlinked (bs : list Block) (pv nx x : Z) (bx : Block) : list Block :=
  upd (relink_prev (relink_next bs pv nx) nx pv) x bx.

Lemma idx_unlinked bs pv nx x bx y :
  0 <= x < len bs ->
  idx (unlinked bs pv nx x bx) y =
  if decide (x = y) then Some bx else
  (fun b => let b := if decide (y = pv) then b <| blk_NextFree := nx |> else b in
            if decide (y = nx) then b <| blk_PrevFree := pv |> else b) <$> idx bs y.
Proof.
  intros Hx. unfold unlinked.
  rewrite idx_upd by (by rewrite len_relink_prev, len_relink_next).
  case_decide; [done|]. rewrite idx_relink_prev, idx_relink_next.
  by destruct (idx bs y).
Qed.

Lemma links_unlinked bs pv nx x bx y :
  0 <= x < len bs -> x <> y ->
  links (unlinked bs pv nx x bx) y =
  (fun l => (if decide (y = nx) then pv else l.1, if decide (y = pv) then nx else l.2))
    <$> links bs y.
Proof.
  intros Hx Hne. unfold links. rewrite idx_unlinked, decide_False by done.
  destruct (idx bs y); simpl; [|done]. by repeat case_decide.
Qed.

Lemma hd_or_notin n l x : x ∉ l -> x <> n -> x <> hd_or n l.
Proof. destruct l; simpl; [done|]. intros Hx _ ->. apply Hx, list_elem_of_here. Qed.

Lemma last_or_notin n l x : x ∉ l -> x <> n -> x <> last_or n l.
Proof.
  intros Hx Hn. destruct l as [|y l]; [done|].
  intros ->. by apply Hx, last_or_elem.
Qed.

(** The neighbours of [x] are linked to each other, and nothing else moves. *)
Lemma seg_unlinked bs l1 x l2 bx :
  (forall y, y ∈ l1 ++ x :: l2 -> 0 <= y < len bs) ->
  NoDup (l1 ++ x :: l2) -> seg bs (-1) (l1 ++ x :: l2) (-1) ->
  seg (unlinked bs (last_or (-1) l1) (hd_or (-1) l2) x bx) (-1) (l1 ++ l2) (-1).
Proof.
  intros Hrng Hnd Hs. set (pv := last_or (-1) l1). set (nx := hd_or (-1) l2).
  assert (Hx : 0 <= x < len bs) by (apply Hrng, elem_of_app; right; apply list_elem_of_here).
  assert (Hneg : forall y, y ∈ l1 ++ x :: l2 -> y <> -1) by (intros y Hy%Hrng; lia).
  apply NoDup_app in Hnd as (Hnd1 & Hd & Hnd2). apply NoDup_cons in Hnd2 as [Hx2 Hnd2].
  apply seg_app in Hs as [Hs1 [_ Hs2]]. cbn [hd_or] in Hs1. apply seg_app.
  assert (Hin1 : forall y, y ∈ l1 -> x <> y /\ y <> nx).
  { intros y Hy. pose proof (Hd y Hy) as Hy2. apply not_elem_of_cons in Hy2 as [? Hy2].
    split; [done|]. apply hd_or_notin; [done|]. apply Hneg, elem_of_app. by left. }
  assert (Hin2 : forall y, y ∈ l2 -> x <> y /\ y <> pv).
  { intros y Hy. split; [congruence|]. apply last_or_notin.
    - intros Hy1. apply (Hd y Hy1). by apply list_elem_of_further.
    - apply Hneg, elem_of_app. right. by apply list_elem_of_further. }
  split.
  - destruct (snoc_case l1) as [->|(l & t & ->)]; [done|].
    destruct (NoDup_snoc_inv _ _ Hnd1) as [_ Htl].
    assert (Hpv : pv = t) by (unfold pv; by rewrite last_or_app).
    apply seg_app in Hs1 as Hs1'. destruct Hs1' as [_ [Ht _]]. simpl in Ht.
    eapply seg_retarget; [done|exact Hs1| |].
    + intros y Hy. destruct (Hin1 y) as [? ?]; [apply elem_of_snoc; by left|].
      rewrite links_unlinked by done. destruct (links bs y) as [[]|]; [simpl|done].
      by rewrite !decide_False by congruence.
    + destruct (Hin1 t) as [? ?]; [apply elem_of_snoc; by right|].
      rewrite links_unlinked, Ht by done. simpl.
      by rewrite decide_False, decide_True by congruence.
  - destruct l2 as [|n l2]; [done|]. pose proof (proj1 (NoDup_cons _ _) Hnd2) as [Hn2 _].
    destruct Hs2 as [Hn Hs2].
    eapply (seg_rehead bs); [done|by split| |].
    + intros y Hy. destruct (Hin2 y) as [? ?]; [by apply list_elem_of_further|].
      rewrite links_unlinked by done. destruct (links bs y) as [[]|]; [simpl|done].
      rewrite !decide_False by (unfold nx; simpl; congruence). done.
    + destruct (Hin2 n) as [? ?]; [apply list_elem_of_here|].
      rewrite links_unlinked, Hn by done. simpl.
      by rewrite decide_True, decide_False by done.
Qed.

Lemma last_or_cons_indep n n' x l : last_or n (x :: l) = last_or n' (x :: l).
Proof. done. Qed.

(** Unlinking [x] implements its removal from the list of free blocks. *)
Lemma rep_unlinked m p l1 x l2 b m' :
  Rep m p -> p_free p = l1 ++ x :: l2 -> idx (m_blocks m) x = Some b ->
  m_blocks m' = unlinked (m_blocks m) (last_or (-1) l1) (hd_or (-1) l2) x
     (b <| blk_InFreeQueue := false |> <| blk_PrevFree := -1 |> <| blk_NextFree := -1 |>) ->
  m_freeHead m' = hd_or (-1) (l1 ++ l2) -> m_freeTail m' = last_or (-1) (l1 ++ l2) ->
  m_freeCount m' = m_freeCount m -u 1 -> m_cachedBlocks m' = m_cachedBlocks m ->
  Rep m' (p <| p_free := l1 ++ l2 |>).
Proof.
  intros HR Hfree Hb Hbs Hh Ht Hc Hca.
  pose proof (idx_Some_range _ _ _ Hb) as Hx.
  pose proof (rep_nodup _ _ HR) as Hnd. pose proof (rep_seg _ _ HR) as Hseg.
  pose proof (rep_free_range _ _ HR) as Hrng. pose proof (rep_free_len _ _ HR) as Hfl.
  pose proof (rep_len _ _ HR) as Hlen. pose proof (rep_count _ _ HR) as Hcount.
  rewrite Hfree in Hnd, Hseg, Hrng, Hfl, Hcount. rewrite len_app, len_cons in Hfl, Hcount.
  pose proof Hnd as Hnd'. apply NoDup_app in Hnd' as (Hnd1 & Hd & Hnd2).
  apply NoDup_cons in Hnd2 as [Hx2 Hnd2].
  assert (Hx1 : x ∉ l1) by (intros Hin; by apply (Hd x Hin), list_elem_of_here).
  split; simpl.
  - rewrite (rep_info _ _ HR), Hbs. symmetry. apply info_eq_pointwise. intros y.
    rewrite idx_unlinked by done. case_decide; [subst; by rewrite Hb|].
    destruct (idx (m_blocks m) y); simpl; [|done]. by repeat case_decide.
  - by rewrite Hca, (rep_cached _ _ HR).
  - rewrite Hbs. unfold unlinked. by rewrite len_upd, len_relink_prev, len_relink_next.
  - apply NoDup_app. split; [done|]. split; [|done].
    intros y Hy Hy2. apply (Hd y Hy). by apply list_elem_of_further.
  - rewrite Hbs. by apply seg_unlinked.
  - done.
  - done.
  - rewrite Hc, Hcount, len_app. pose proof (len_nonneg l1). pose proof (len_nonneg l2).
    rewrite u32_small; unfold two31, two32 in *; lia.
  - intros y c. rewrite Hbs, idx_unlinked by done. case_decide as Hxy.
    + intros [= <-]. subst y. simpl. rewrite elem_of_app. by intuition.
    + intros (c' & Hc' & ->)%fmap_Some.
      assert (Hf : blk_InFreeQueue c' = true <-> y ∈ l1 ++ x :: l2)
        by (rewrite <- Hfree; by apply (rep_flag _ _ HR)).
      assert (Hm : y ∈ l1 ++ l2 <-> y ∈ l1 ++ x :: l2)
        by (rewrite !elem_of_app, elem_of_cons; intuition congruence).
      rewrite Hm, <- Hf. by repeat case_decide.
Qed.

(** *** The pool's own invariant *)

Record PoolInv (p : Pool) : Prop := mkPoolInv {
  pi_nodup : NoDup (p_free p);
  (** A block is free exactly when nobody references it. *)
  pi_ref : forall id i, idx (p_info p) id = Some i ->
           i_RefCount i = 0 <-> id ∈ p_free p;
  pi_range : forall id i, idx (p_info p) id = Some i -> 0 <= i_RefCount i < two32;
  pi_free : forall id, id ∈ p_free p -> 0 <= id < len (p_info p);
  (** The prefix index and the blocks agree. *)
  pi_cached : forall h id, p_cached p !! h = Some id ->
     exists i, idx (p_info p) id = Some i /\ i_Cached i = true /\ i_Hash i = h;
  pi_cached_rev : forall id i, idx (p_info p) id = Some i -> i_Cached i = true ->
     p_cached p !! i_Hash i = Some id
}.

Lemma pushFree_spec m p p' id :
  Rep m p -> PoolInv p -> pool_push id p = Some p' ->
  wp (pushFree id) (fun _ m' => Rep m' p' /\ rest m' = rest m /\ m_metrics m' = m_metrics m) m.
Proof.
  intros HR HI (i & Hi & Hp)%bind_Some.
  destruct (rep_info_block _ _ HR _ _ Hi) as (b & Hb & <-).
  pose proof (idx_Some_range _ _ _ Hb) as Hr.
  unfold pushFree. wp_steps. eapply wp_getBlock; [done|]. simpl in Hp.
  destruct (Z.eqb_spec (blk_RefCount b) 0) as [H0|H0].
  { injection Hp as <-. wp_steps. by ssplit. }
  injection Hp as <-. wp_steps. eapply wp_setBlock; [done|]. wp_steps.
  eapply wp_getBlock; [simpl; by rewrite idx_upd_eq|]. cbn [blk_RefCount setf].
  assert (Hid : id ∉ p_free p) by (rewrite <- (pi_ref _ HI _ _ Hi); done).
  set (b' := b <| blk_RefCount := blk_RefCount b -u 1 |>).
  pose proof (rep_upd_info _ _ _ b b' HR Hb eq_refl eq_refl eq_refl) as HR1.
  cbn. destruct (Z.ltb_spec 0 (blk_RefCount b -u 1)) as [Hp|Hp].
  - wp_steps. ssplit; [exact HR1|done..].
  - assert (blk_RefCount b -u 1 = 0) as Hz
      by (pose proof (u32_range (blk_RefCount b - 1)); lia).
    eapply wp_mono.
    { eapply appendFreeBlock_spec; [exact HR1| |done]. simpl.
      by rewrite idx_upd_eq by (rewrite (rep_info_len _ _ HR); lia). }
    intros [] m' (HR2 & Hrest & Hm). split; [|done].
    cbn in HR2. rewrite upd_upd in HR2. cbn in HR2. rewrite Hz. exact HR2.
Qed.

(** The two relinking steps of the code, as functions. *)
Lemma wp_relink_next pv nx (Q : unit -> manager -> Prop) m :
  pv = -1 \/ is_Some (idx (m_blocks m) pv) ->
  Q tt (m <| m_blocks := relink_next (m_blocks m) pv nx |>
          <| m_freeHead := if 0 <=? pv then m_freeHead m else nx |>) ->
  wp (if 0 <=? pv then setBlock pv (fun p => p <| blk_NextFree := nx |>)
      else modS (fun m => m <| m_freeHead := nx |>)) Q m.
Proof.
  intros [->|[b Hb]] HQ; cbn -[relink_next] in *.
  - apply wp_mod. unfold relink_next in HQ. rewrite idx_ge in HQ by lia. by destruct m.
  - pose proof (idx_Some_range _ _ _ Hb).
    rewrite (proj2 (Z.leb_le 0 pv)) in * by lia. eapply wp_setBlock; [done|].
    unfold relink_next in HQ. rewrite Hb in HQ. by destruct m.
Qed.

Lemma wp_relink_prev nx pv (Q : unit -> manager -> Prop) m :
  nx = -1 \/ is_Some (idx (m_blocks m) nx) ->
  Q tt (m <| m_blocks := relink_prev (m_blocks m) nx pv |>
          <| m_freeTail := if 0 <=? nx then m_freeTail m else pv |>) ->
  wp (if 0 <=? nx then setBlock nx (fun p => p <| blk_PrevFree := pv |>)
      else modS (fun m => m <| m_freeTail := pv |>)) Q m.
Proof.
  intros [->|[b Hb]] HQ; cbn -[relink_prev] in *.
  - apply wp_mod. unfold relink_prev in HQ. rewrite idx_ge in HQ by lia. by destruct m.
  - pose proof (idx_Some_range _ _ _ Hb).
    rewrite (proj2 (Z.leb_le 0 nx)) in * by lia. eapply wp_setBlock; [done|].
    unfold relink_prev in HQ. rewrite Hb in HQ. by destruct m.
Qed.

Lemma hd_or_valid (bs : list Block) l n :
  (forall y, y ∈ l -> 0 <= y < len bs) -> hd_or (-1) l = n ->
  n = -1 /\ l = [] \/ 0 <= n < len bs /\ l <> [].
Proof.
  intros H <-. destruct l as [|x l]; [by left|right]. split; [|done].
  apply H, list_elem_of_here.
Qed.

Lemma last_or_valid (bs : list Block) l n :
  (forall y, y ∈ l -> 0 <= y < len bs) -> last_or (-1) l = n ->
  n = -1 /\ l = [] \/ 0 <= n < len bs /\ l <> [].
Proof.
  intros H <-. destruct l as [|x l]; [by left|right]. split; [|done].
  by apply H, last_or_elem.
Qed.

(** What the representation says around a free block [id]. *)
Lemma rep_around m p l1 id l2 :
  Rep m p -> p_free p = l1 ++ id :: l2 ->
  exists b, idx (m_blocks m) id = Some b /\ blk_InFreeQueue b = true /\
    blk_PrevFree b = last_or (-1) l1 /\ blk_NextFree b = hd_or (-1) l2 /\
    (last_or (-1) l1 = -1 /\ l1 = [] \/ 0 <= last_or (-1) l1 < len (m_blocks m) /\ l1 <> []) /\
    (hd_or (-1) l2 = -1 /\ l2 = [] \/ 0 <= hd_or (-1) l2 < len (m_blocks m) /\ l2 <> []) /\
    id <> last_or (-1) l1 /\ id <> hd_or (-1) l2.
Proof.
  intros HR Hfree.
  pose proof (rep_free_range _ _ HR) as Hrng.
  assert (Hid : id ∈ p_free p) by (rewrite Hfree; set_solver).
  pose proof (Hrng _ Hid) as Hx.
  destruct (proj2 (idx_is_Some _ _) Hx) as [b Hb]. exists b.
  pose proof (rep_nodup _ _ HR) as Hnd. rewrite Hfree in Hnd, Hrng.
  apply NoDup_app in Hnd as (_ & Hd & [Hx2 _]%NoDup_cons).
  assert (Hx1 : id ∉ l1) by (intros Hin; by apply (Hd id Hin), list_elem_of_here).
  pose proof (rep_seg _ _ HR) as Hseg. rewrite Hfree in Hseg.
  apply seg_app in Hseg as [_ [Hlk _]].
  apply links_idx in Hlk as (b' & Hb' & [= Hpv Hnx]).
  rewrite Hb in Hb'. injection Hb' as <-.
  ssplit; try done.
  - by apply (rep_flag _ _ HR _ _ Hb).
  - apply last_or_valid; [|done]. intros y Hy. apply Hrng, elem_of_app. by left.
  - apply hd_or_valid; [|done]. intros y Hy. apply Hrng, elem_of_app. right. by right.
  - apply last_or_notin; [done|lia].
  - apply hd_or_notin; [done|lia].
Qed.

Lemma removeFreeBlock_spec m p id :
  Rep m p -> id ∈ p_free p ->
  wp (removeFreeBlock id) (fun _ m' =>
    Rep m' (p <| p_free := filter (fun x => x <> id) (p_free p) |>) /\
    rest m' = rest m /\ m_metrics m' = m_metrics m) m.
Proof.
  intros HR Hid.
  destruct (NoDup_split _ id (rep_nodup _ _ HR) Hid) as (l1 & l2 & Hfree & ->).
  destruct (rep_around _ _ _ _ _ HR Hfree)
    as (b & Hb & Hflag & Hpv & Hnx & Hv1 & Hv2 & Hn1 & Hn2).
  pose proof (idx_Some_range _ _ _ Hb) as Hx.
  unfold removeFreeBlock. wp_steps. eapply wp_getBlock; [done|]. rewrite Hflag. cbn [negb].
  wp_steps. rewrite Hpv, Hnx.
  set (pv := last_or (-1) l1) in *. set (nx := hd_or (-1) l2) in *.
  apply wp_relink_next. { rewrite idx_is_Some. tauto. }
  wp_steps. eapply (wp_getBlock _ b).
  { cbn. rewrite idx_relink_next, Hb. simpl. by rewrite decide_False. }
  rewrite Hpv, Hnx. wp_steps. apply wp_relink_prev.
  { cbn. rewrite idx_is_Some, len_relink_next. tauto. }
  wp_steps. eapply (wp_setBlock _ _ b).
  { cbn. rewrite idx_relink_prev, idx_relink_next, Hb. simpl. by rewrite !decide_False. }
  wp_steps. ssplit; [|done..].
  eapply rep_unlinked; [done|done|exact Hb|..]; cbn; try done.
  - rewrite (rep_head _ _ HR), Hfree. fold pv nx. rewrite !hd_or_app. fold nx.
    destruct Hv1 as [[E ->]|[E ?]].
    + by rewrite E.
    + rewrite (proj2 (Z.leb_le 0 pv)) by lia. by destruct l1.
  - rewrite (rep_tail _ _ HR), Hfree. rewrite !last_or_app. fold pv.
    destruct Hv2 as [[E ->]|[E ?]].
    + by rewrite E.
    + rewrite (proj2 (Z.leb_le 0 nx)) by lia. simpl. by destruct l2.
Qed.

Lemma touch1_spec m p p' id :
  Rep m p -> pool_touch id p = Some p' ->
  wp (touch1 id) (fun _ m' => Rep m' p' /\ rest m' = rest m /\ m_metrics m' = m_metrics m) m.
Proof.
  intros HR (i & Hi & [= <-])%bind_Some.
  destruct (rep_info_block _ _ HR _ _ Hi) as (b & Hb & Hbi).
  unfold touch1. wp_steps. eapply wp_getBlock; [done|]. wp_steps.
  assert (Hstep : wp (if blk_InFreeQueue b then removeFreeBlock id else mret tt)
    (fun _ m' => Rep m' (p <| p_free := filter (fun x => x <> id) (p_free p) |>) /\
       rest m' = rest m /\ m_metrics m' = m_metrics m) m).
  { destruct (blk_InFreeQueue b) eqn:Hf.
    - apply removeFreeBlock_spec; [done|]. by apply (rep_flag _ _ HR _ _ Hb).
    - assert (id ∉ p_free p) by (rewrite <- (rep_flag _ _ HR _ _ Hb); congruence).
      wp_steps. ssplit; [|done..]. rewrite filter_notin by done. by destruct p. }
  eapply wp_mono; [exact Hstep|]. intros [] m1 (HR1 & Hrest & Hm). cbn beta in *.
  destruct (rep_info_block _ _ HR1 id i Hi) as (b1 & Hb1 & Hbi1). rewrite <- Hbi1.
  eapply wp_setBlock; [done|]. ssplit; [|done..].
  set (b2 := b1 <| blk_RefCount := blk_RefCount b1 +u 1 |>).
  pose proof (rep_upd_info _ _ _ b1 b2 HR1 Hb1 eq_refl eq_refl eq_refl) as HR2.
  exact HR2.
Qed.

Lemma rep_set_cached m p c :
  Rep m p -> Rep (m <| m_cachedBlocks := c |>) (p <| p_cached := c |>).
Proof. intros []. by split. Qed.

Lemma rep_set_metrics m p l : Rep m p -> Rep (m <| m_metrics := l |>) p.
Proof. intros []. by split. Qed.

Lemma popFree_empty m p :
  Rep m p -> p_free p = [] -> wp popFree (fun r m' => r = (0, false) /\ m' = m) m.
Proof.
  intros HR Hf. unfold popFree. wp_steps. rewrite (rep_head _ _ HR), Hf. cbn [hd_or orb].
  by wp_steps.
Qed.

(** The evicted block of a [popFree]: the call the metrics see. *)
Definition evictions (m : manager) (i : Info) : MetricLog :=
  if i_Cached i then [IncEvictedBlock (m_executorID m)] else [].

Lemma popFree_spec m p x p' :
  Rep m p -> pool_pop p = Some (x, p') ->
  wp popFree (fun r m' => r = (x, true) /\ Rep m' p' /\ rest m' = rest m /\
    exists i, idx (p_info p) x = Some i /\ m_metrics m' = m_metrics m ++ evictions m i) m.
Proof.
  intros HR Hpop. unfold pool_pop in Hpop.
  destruct (p_free p) as [|y fl] eqn:Hfree; [done|].
  apply bind_Some in Hpop as (i & Hi & [= -> <-]).
  pose proof Hfree as Hfree'. rewrite <- (app_nil_l (x :: fl)) in Hfree'.
  destruct (rep_around _ _ _ _ _ HR Hfree')
    as (b & Hb & Hflag & Hpv & Hnx & _ & Hv2 & Hn1 & Hn2). clear Hfree'.
  destruct (rep_info_block _ _ HR _ _ Hi) as (b' & Hb' & <-).
  rewrite Hb in Hb'. injection Hb' as <-.
  pose proof (idx_Some_range _ _ _ Hb) as Hx. pose proof (rep_len _ _ HR) as Hlen.
  pose proof (rep_free_len _ _ HR) as Hfl. rewrite Hfree, len_cons in Hfl.
  pose proof (len_nonneg fl) as Hfl0.
  assert (Hu : u32 x = x) by (apply u32_small; unfold two31, two32 in *; lia).
  unfold popFree. wp_steps. rewrite (rep_head _ _ HR), (rep_count _ _ HR), Hfree.
  cbn [hd_or]. rewrite (proj2 (Z.ltb_ge x 0)), len_cons, (proj2 (Z.eqb_neq _ 0)) by lia.
  cbn [orb]. rewrite Hu. wp_steps. eapply wp_getBlock; [done|]. wp_steps.
  set (b1 := b <| blk_Cached := false |>).
  set (b2 := b1 <| blk_Hash := "" |> <| blk_TokenCount := 0 |> <| blk_RefCount := 1 |>).
  set (c := if i_Cached (info_of b) then delete (i_Hash (info_of b)) (p_cached p)
            else p_cached p).
  (* the block is cleaned *)
  eapply (wp_mono _ (fun _ m1 =>
    Rep m1 (p <| p_info := upd (p_info p) x (info_of b1) |> <| p_cached := c |>) /\
    idx (m_blocks m1) x = Some b1 /\ rest m1 = rest m /\
    m_metrics m1 = m_metrics m ++ evictions m (info_of b))).
  { pose proof (rep_upd_info _ _ _ b b1 HR Hb eq_refl eq_refl eq_refl) as HR1.
    apply (rep_set_cached _ _ c) in HR1.
    destruct (blk_Cached b) eqn:Hc.
    - wp_steps. eapply wp_setBlock; [done|]. wp_steps. unfold metric. wp_steps.
      ssplit; [|cbn; by rewrite idx_upd_eq|done|unfold evictions; cbn; by rewrite Hc].
      apply (rep_set_metrics _ _ (m_metrics m ++ [IncEvictedBlock (m_executorID m)])) in HR1.
      unfold c in *. cbn [i_Cached info_of] in *. rewrite Hc in *.
      rewrite <- (rep_cached _ _ HR) in HR1 |- *. exact HR1.
    - wp_steps. assert (Hbb : b1 = b) by (unfold b1; destruct b; by simplify_eq/=).
      clear b2. clearbody b1. subst b1. unfold c in *. cbn [i_Cached info_of] in *.
      rewrite Hc in *. ssplit; [|done..|unfold evictions; cbn; by rewrite Hc, app_nil_r].
      rewrite <- (rep_cached _ _ HR) in HR1 |- *. rewrite upd_id in HR1 by done.
      rewrite upd_id in HR1 |- * by done. by destruct m. }
  intros [] m1 (HR1 & Hb1 & Hrest1 & Hmet1). cbn beta. wp_steps.
  eapply wp_setBlock; [done|].
  pose proof (rep_upd_info _ _ _ b1 b2 HR1 Hb1 eq_refl eq_refl eq_refl) as HR2.
  change (b1 <| blk_Hash := "" |> <| blk_TokenCount := 0 |> <| blk_RefCount := 1 |>) with b2.
  pose proof (idx_Some_range _ _ _ Hb1) as Hx1.
  wp_steps. eapply (wp_getBlock _ b2); [cbn; by rewrite idx_upd_eq|].
  wp_steps. change (blk_NextFree b2) with (blk_NextFree b). rewrite Hnx.
  cbn [p_info p_free p_cached setf] in HR2. rewrite upd_upd in HR2.
  set (m2 := m1 <| m_blocks := upd (m_blocks m1) x b2 |>) in *.
  set (p2 := p <| p_info := upd (p_info p) x (info_of b1) |> <| p_cached := c |>
               <| p_info := upd (p_info p) x (info_of b2) |>) in *.
  assert (Hb2 : idx (m_blocks m2) x = Some b2) by (cbn; by rewrite idx_upd_eq).
  assert (Hlen2 : len (m_blocks m2) = len (m_blocks m)).
  { rewrite <- (rep_info_len _ _ HR), <- (rep_info_len _ _ HR2). cbn. by rewrite len_upd. }
  assert (Hfree2 : p_free p2 = [] ++ x :: fl) by done.
  apply wp_relink_prev; [cbn -[m2]; rewrite idx_is_Some, Hlen2; tauto|].
  wp_steps. eapply (wp_setBlock _ _ b2).
  { cbn -[m2]. rewrite idx_relink_prev, Hb2. simpl. by rewrite decide_False. }
  wp_steps. ssplit; [done| |exact Hrest1|by exists (info_of b)].
  pose proof (rep_unlinked m2 p2 [] x fl b2) as HU. cbn [app last_or] in HU.
  eapply HU; [done|done|exact Hb2|..]; cbn -[m2]; try done.
  - rewrite (rep_tail _ _ HR2), Hfree2. cbn [app last_or].
    destruct Hv2 as [[E ->]|[E ?]].
    + by rewrite E.
    + rewrite (proj2 (Z.leb_le 0 _)) by lia. by destruct fl.
Qed.

(** *** Lists of blocks *)

Fixpoint pool_touches (ids : list Z) (p : Pool) : option Pool :=
  match ids with
  | [] => Some p
  | x :: ids' => p' ← pool_touch x p; pool_touches ids' p'
  end.

Fixpoint pool_pushes (ids : list Z) (p : Pool) : option Pool :=
  match ids with
  | [] => Some p
  | x :: ids' => p' ← pool_push x p; pool_pushes ids' p'
  end.

Fixpoint pool_pops (n : nat) (p : Pool) : option (list Z * Pool) :=
  match n with
  | O => Some ([], p)
  | S n' => '(x, p1) ← pool_pop p; '(xs, p2) ← pool_pops n' p1; Some (x :: xs, p2)
  end.

Lemma touch_spec m p p' ids :
  Rep m p -> pool_touches ids p = Some p' ->
  wp (touch ids) (fun _ m' => Rep m' p' /\ rest m' = rest m /\ m_metrics m' = m_metrics m) m.
Proof.
  revert m p. induction ids as [|x ids IH]; intros m p HR H; unfold touch; simpl in *.
  - injection H as <-. by wp_steps.
  - apply bind_Some in H as (p1 & Hp1 & Hp'). wp_steps.
    wp_use (touch1_spec _ _ _ _ HR Hp1). intros [] m1 (HR1 & Hr1 & Hm1).
    wp_use (IH _ _ HR1 Hp'). intros [] m2 (HR2 & -> & ->). by ssplit.
Qed.

(** ** References

    [PoolOK p refs]: the pool is consistent, and the reference counts are the
    multiplicities of the block ids in [refs], the references that block
    tables and transfers hold. *)

Definition cnt (id : Z) (l : list Z) : Z := len (filter (fun y => y = id) l).

Lemma cnt_nil id : cnt id [] = 0.
Proof. done. Qed.

Lemma cnt_cons id x l : cnt id (x :: l) = (if decide (x = id) then 1 else 0) + cnt id l.
Proof.
  unfold cnt. rewrite filter_cons. case_decide; [by rewrite len_cons|lia].
Qed.

Lemma cnt_app id l1 l2 : cnt id (l1 ++ l2) = cnt id l1 + cnt id l2.
Proof. unfold cnt. by rewrite filter_app, len_app. Qed.

#[export] Instance cnt_perm id : Proper ((≡ₚ) ==> (=)) (cnt id).
Proof. intros l1 l2 H. unfold cnt, len. by rewrite H. Qed.

Lemma cnt_nonneg id l : 0 <= cnt id l.
Proof. apply len_nonneg. Qed.

Lemma cnt_le_len id l : cnt id l <= len l.
Proof. unfold cnt, len. apply Nat2Z.inj_le, length_filter. Qed.

Lemma cnt_zero id l : cnt id l = 0 <-> id ∉ l.
Proof.
  induction l as [|x l IH]; [rewrite cnt_nil; set_solver|].
  rewrite cnt_cons, not_elem_of_cons, <- IH. pose proof (cnt_nonneg id l).
  case_decide; intuition (lia || congruence).
Qed.

#[export] Instance len_perm A : Proper ((≡ₚ) ==> (=)) (@len A).
Proof. intros l1 l2 H. unfold len. by rewrite H. Qed.

Record PoolOK (p : Pool) (refs : list Z) : Prop := mkPoolOK {
  ok_inv : PoolInv p;
  ok_count : forall id i, idx (p_info p) id = Some i -> i_RefCount i = cnt id refs;
  ok_range : forall id, id ∈ refs -> 0 <= id < len (p_info p);
  ok_small : len refs < two32
}.

#[export] Instance PoolOK_perm p : Proper ((≡ₚ) ==> iff) (PoolOK p).
Proof.
  assert (forall l1 l2, l1 ≡ₚ l2 -> PoolOK p l1 -> PoolOK p l2) as H.
  { intros l1 l2 Hl [H1 H2 H3 H4]. split; [done|..].
    - intros id i Hi. rewrite <- Hl. by apply H2.
    - intros id. rewrite <- Hl. apply H3.
    - by rewrite <- Hl. }
  intros l1 l2 Hl. split; by apply H.
Qed.

Section poolok.
Context (p : Pool) (refs : list Z) (HO : PoolOK p refs).

(** A free block is referenced by nobody. *)
Lemma ok_free_unreferenced x : x ∈ p_free p -> x ∉ refs.
Proof.
  intros Hx. destruct (proj2 (idx_is_Some _ _) (pi_free _ (ok_inv _ _ HO) _ Hx)) as [i Hi].
  apply cnt_zero. rewrite <- (ok_count _ _ HO _ _ Hi). by apply (pi_ref _ (ok_inv _ _ HO) _ _ Hi).
Qed.

Lemma ok_lookup x : x ∈ refs -> exists i, idx (p_info p) x = Some i /\ 0 < i_RefCount i.
Proof.
  intros Hx. destruct (proj2 (idx_is_Some _ _) (ok_range _ _ HO _ Hx)) as [i Hi].
  exists i. split; [done|]. rewrite (ok_count _ _ HO _ _ Hi).
  pose proof (cnt_nonneg x refs). assert (cnt x refs <> 0); [by intros ?%cnt_zero|lia].
Qed.

(** Every block is free or referenced. *)
Lemma ok_free_or_ref id : 0 <= id < len (p_info p) -> id ∈ p_free p \/ id ∈ refs.
Proof.
  intros [i Hi]%idx_is_Some. destruct (decide (id ∈ refs)) as [|Hn]; [by right|left].
  apply (pi_ref _ (ok_inv _ _ HO) _ _ Hi). rewrite (ok_count _ _ HO _ _ Hi).
  by apply cnt_zero.
Qed.
End poolok.

(** What a block stores, without its reference count. *)
Definition stored (i : Info) : string * Z * bool := (i_Hash i, i_TokenCount i, i_Cached i).
Definition content (p : Pool) : list (string * Z * bool) := stored <$> p_info p.

Lemma content_idx p p' id i' :
  content p' = content p -> idx (p_info p') id = Some i' ->
  exists i, idx (p_info p) id = Some i /\ stored i = stored i'.
Proof.
  intros Hc Hi'. assert (idx (content p') id = Some (stored i')) as H
    by (unfold content; by rewrite idx_fmap, Hi').
  rewrite Hc in H. unfold content in H. rewrite idx_fmap in H.
  apply fmap_Some in H as (i & ? & ?). eauto.
Qed.

Lemma content_len p p' : content p' = content p -> len (p_info p') = len (p_info p).
Proof. unfold content. intros Hc%(f_equal len). by rewrite !len_fmap in Hc. Qed.

Lemma content_upd p id i i' :
  idx (p_info p) id = Some i -> stored i' = stored i ->
  stored <$> upd (p_info p) id i' = content p.
Proof.
  intros Hi Hs. unfold content. rewrite fmap_upd, Hs. apply upd_id. by rewrite idx_fmap, Hi.
Qed.

(** A change of reference counts and of the free list keeps the invariant when
    the free blocks stay the unreferenced ones. *)
Lemma pool_inv_content p p' :
  PoolInv p -> content p' = content p -> p_cached p' = p_cached p ->
  NoDup (p_free p') ->
  (forall id, id ∈ p_free p' -> 0 <= id < len (p_info p)) ->
  (forall id i, idx (p_info p') id = Some i ->
     (i_RefCount i = 0 <-> id ∈ p_free p') /\ 0 <= i_RefCount i < two32) ->
  PoolInv p'.
Proof.
  intros HI Hc Hca Hnd Hfr Href. split; [done|..].
  - intros. by apply Href.
  - intros. by eapply Href.
  - intros id Hid. rewrite (content_len _ _ Hc). by apply Hfr.
  - intros h id. rewrite Hca. intros (i & Hi & Hcc & Hh)%(pi_cached _ HI).
    destruct (content_idx p' p id i) as (i' & Hi' & [= ? ? ?]); [done|done|].
    exists i'. ssplit; congruence.
  - intros id i' Hi' Hcc. destruct (content_idx p p' id i' Hc Hi') as (i & Hi & [= Hh ? Hcc']).
    rewrite Hca, <- Hh. apply (pi_cached_rev _ HI); congruence.
Qed.

Lemma pool_push_ok p refs x :
  PoolOK p (x :: refs) ->
  exists p', pool_push x p = Some p' /\ PoolOK p' refs /\
    content p' = content p /\ p_cached p' = p_cached p /\
    (p_free p' = p_free p \/ p_free p' = p_free p ++ [x]).
Proof.
  intros HO. destruct (ok_lookup _ _ HO x) as (i & Hi & Hpos); [by left|].
  pose proof (ok_small _ _ HO) as Hsm. rewrite len_cons in Hsm.
  pose proof (ok_count _ _ HO _ _ Hi) as Hcx. rewrite cnt_cons, decide_True in Hcx by done.
  pose proof (cnt_le_len x refs) as Hle. pose proof (cnt_nonneg x refs) as Hnn.
  pose proof (idx_Some_range _ _ _ Hi) as Hr. pose proof (ok_inv _ _ HO) as HI.
  assert (Hx : x ∉ p_free p) by (rewrite <- (pi_ref _ HI _ _ Hi); lia).
  unfold pool_push. rewrite Hi. cbn [mbind option_bind].
  rewrite (proj2 (Z.eqb_neq _ 0)) by lia. rewrite (u32_small (_ - 1)) by lia.
  set (i' := i <| i_RefCount := i_RefCount i - 1 |>).
  set (p1 := p <| p_info := upd (p_info p) x i' |>).
  set (p' := if 0 <? i_RefCount i - 1 then p1 else p1 <| p_free := p_free p ++ [x] |>).
  exists p'. split; [done|].
  assert (Hcont : content p' = content p).
  { transitivity (content p1); [unfold p'; by case_match|]. by apply (content_upd _ _ i). }
  assert (Hca : p_cached p' = p_cached p) by (unfold p'; by case_match).
  assert (Hfr : p_free p' = if 0 <? i_RefCount i - 1 then p_free p else p_free p ++ [x])
    by (unfold p'; by case_match).
  assert (Hinfo : forall id j, idx (p_info p') id = Some j ->
            if decide (x = id) then j = i' else idx (p_info p) id = Some j).
  { intros id j. replace (p_info p') with (upd (p_info p) x i') by (unfold p'; by case_match).
    rewrite idx_upd by done. case_decide; congruence. }
  assert (Hcount : forall id j, idx (p_info p') id = Some j -> i_RefCount j = cnt id refs).
  { intros id j Hj%Hinfo. case_decide as Hd.
    - subst. simpl. lia.
    - rewrite (ok_count _ _ HO _ _ Hj), cnt_cons, decide_False by done. lia. }
  ssplit; [|done|done|rewrite Hfr; case_match; [by left|by right]].
  split; [|done| |lia].
  - apply (pool_inv_content p); try done.
    + rewrite Hfr. case_match; [apply HI|]. by apply NoDup_snoc; [apply HI|].
    + rewrite Hfr. intros id. case_match; [apply HI|].
      intros [?| ->]%elem_of_snoc; [by apply HI|done].
    + intros id j Hj. pose proof (Hcount _ _ Hj) as Hjc. pose proof (cnt_le_len id refs).
      pose proof (cnt_nonneg id refs). split; [|lia].
      apply Hinfo in Hj. rewrite Hfr. case_decide as Hd; [subst id j|].
      * simpl in *. destruct (Z.ltb_spec 0 (i_RefCount i - 1)).
        -- split; [lia|done].
        -- rewrite elem_of_snoc. split; [by right|lia].
      * rewrite (pi_ref _ HI _ _ Hj). case_match; [done|].
        rewrite elem_of_snoc. intuition congruence.
  - intros id Hid. rewrite (content_len _ _ Hcont). apply (ok_range _ _ HO). by right.
Qed.

Lemma pool_touch_ok p refs x :
  PoolOK p refs -> 0 <= x < len (p_info p) -> len refs + 1 < two32 ->
  exists p', pool_touch x p = Some p' /\ PoolOK p' (x :: refs) /\
    content p' = content p /\ p_cached p' = p_cached p.
Proof.
  intros HO Hr Hsm. destruct (proj2 (idx_is_Some _ _) Hr) as [i Hi].
  pose proof (ok_count _ _ HO _ _ Hi) as Hcx. pose proof (ok_inv _ _ HO) as HI.
  pose proof (cnt_le_len x refs) as Hle. pose proof (cnt_nonneg x refs) as Hnn.
  unfold pool_touch. rewrite Hi. cbn [mbind option_bind].
  rewrite (u32_small (_ + 1)) by lia. eexists. split; [done|].
  assert (Hcont : stored <$> upd (p_info p) x (i <| i_RefCount := i_RefCount i + 1 |>) = content p)
    by (by apply (content_upd _ _ i)).
  assert (Hcount : forall id j, idx (upd (p_info p) x (i <| i_RefCount := i_RefCount i + 1 |>)) id
      = Some j -> i_RefCount j = cnt id (x :: refs)).
  { intros id j. rewrite idx_upd, cnt_cons by done. case_decide as Hd.
    - intros [= <-]. subst id. simpl. lia.
    - intros Hj. rewrite (ok_count _ _ HO _ _ Hj). lia. }
  ssplit; [|done|done]. split; [|done| |len_lia].
  - apply (pool_inv_content p); try done; cbn [p_free p_info].
    + apply NoDup_filter, HI.
    + intros id [_ ?]%list_elem_of_filter. by apply HI.
    + intros id j Hj. pose proof (Hcount _ _ Hj) as Hjc. pose proof (cnt_le_len id (x :: refs)).
      pose proof (cnt_nonneg id refs). rewrite len_cons in *. split; [|rewrite cnt_cons in *; case_decide; lia].
      rewrite list_elem_of_filter. rewrite idx_upd in Hj by done. rewrite cnt_cons in *.
      case_decide as Hd.
      * subst id. split; [lia|]. intros [? _]. done.
      * rewrite (pi_ref _ HI _ _ Hj). intuition congruence.
  - cbn [p_info]. rewrite len_upd. intros id [->|?]%elem_of_cons; [done|]. by apply (ok_range _ _ HO).
Qed.

Definition fresh_info : Info := mkInfo "" 1 0 false.

Lemma pool_pop_ok p refs x fl :
  PoolOK p refs -> p_free p = x :: fl -> len refs + 1 < two32 ->
  exists p' i, pool_pop p = Some (x, p') /\ idx (p_info p) x = Some i /\
    PoolOK p' (x :: refs) /\ p_free p' = fl /\
    p_info p' = upd (p_info p) x fresh_info /\
    p_cached p' = (if i_Cached i then delete (i_Hash i) (p_cached p) else p_cached p).
Proof.
  intros HO Hfree Hsm. pose proof (ok_inv _ _ HO) as HI.
  assert (Hx : x ∈ p_free p) by (rewrite Hfree; by left).
  pose proof (pi_free _ HI _ Hx) as Hr. destruct (proj2 (idx_is_Some _ _) Hr) as [i Hi].
  pose proof (ok_free_unreferenced _ _ HO _ Hx) as Hxr.
  pose proof (pi_nodup _ HI) as Hnd. rewrite Hfree in Hnd. apply NoDup_cons in Hnd as [Hxf Hnd].
  unfold pool_pop. rewrite Hfree, Hi. cbn [mbind option_bind].
  eexists _, i. split; [done|]. split; [done|]. split; [|done].
  set (c := if i_Cached i then _ else _).
  (* the index only lost this block *)
  assert (Hc1 : forall h id, c !! h = Some id -> p_cached p !! h = Some id /\ x <> id).
  { intros h id Hh. unfold c in Hh. destruct (i_Cached i) eqn:Hci.
    - apply lookup_delete_Some in Hh as [Hne Hh]. split; [done|]. intros <-.
      destruct (pi_cached _ HI _ _ Hh) as (j & Hj & _ & Hjh). congruence.
    - split; [done|]. intros <-. destruct (pi_cached _ HI _ _ Hh) as (j & Hj & Hjc & _). congruence. }
  assert (Hcount : forall id j, idx (upd (p_info p) x fresh_info) id = Some j ->
            i_RefCount j = cnt id (x :: refs)).
  { intros id j. rewrite idx_upd, cnt_cons by done. case_decide as Hd.
    - intros [= <-]. subst id. rewrite (proj2 (cnt_zero x refs)) by done. done.
    - intros Hj. by rewrite (ok_count _ _ HO _ _ Hj). }
  split; [|done| |len_lia].
  - split; cbn [p_free p_info p_cached]; [done|..].
    + intros id j Hj. rewrite (Hcount _ _ Hj), cnt_cons. rewrite idx_upd in Hj by done.
      pose proof (cnt_nonneg id refs). case_decide as Hd; [subst id; split; [lia|done]|].
      rewrite <- (ok_count _ _ HO _ _ Hj). assert (id ∈ p_free p <-> id ∈ fl)
        by (rewrite Hfree, elem_of_cons; intuition congruence).
      rewrite Z.add_0_l, (pi_ref _ HI _ _ Hj). done.
    + intros id j Hj. rewrite (Hcount _ _ Hj). pose proof (cnt_nonneg id (x :: refs)).
      pose proof (cnt_le_len id (x :: refs)). rewrite len_cons in *. lia.
    + intros id Hid. rewrite len_upd. apply (pi_free _ HI). rewrite Hfree. by right.
    + intros h id [Hh Hne]%Hc1. destruct (pi_cached _ HI _ _ Hh) as (j & Hj & ? & ?).
      exists j. ssplit; [|done..]. by rewrite idx_upd_ne by lia.
    + intros id j. rewrite idx_upd by done. case_decide as Hd; [by intros [= <-]|].
      intros Hj Hjc. pose proof (pi_cached_rev _ HI _ _ Hj Hjc) as Hh. unfold c.
      destruct (i_Cached i) eqn:Hci; [|done]. rewrite lookup_delete_ne; [done|].
      intros Heq. pose proof (pi_cached_rev _ HI _ _ Hi Hci). congruence.
  - cbn [p_info]. rewrite len_upd. intros id [->|?]%elem_of_cons; [done|].
    by apply (ok_range _ _ HO).
Qed.

(** Allocation takes the oldest free blocks; every other block, and the index
    entries of the other blocks, are untouched. *)
Record Popped (p p' : Pool) (ids : list Z) : Prop := mkPopped {
  pop_free : p_free p = ids ++ p_free p';
  pop_len : len (p_info p') = len (p_info p);
  pop_fresh : forall id, id ∈ ids -> idx (p_info p') id = Some fresh_info;
  pop_other : forall id, id ∉ ids -> idx (p_info p') id = idx (p_info p) id;
  pop_cached : forall h id, p_cached p' !! h = Some id <-> p_cached p !! h = Some id /\ id ∉ ids
}.

Lemma pool_pops_ok (n : nat) p refs :
  PoolOK p refs -> (n <= length (p_free p))%nat -> len refs + Z.of_nat n < two32 ->
  exists p' ids, pool_pops n p = Some (ids, p') /\ ids = take n (p_free p) /\
    PoolOK p' (ids ++ refs) /\ Popped p p' ids.
Proof.
  revert p refs. induction n as [|n IH]; intros p refs HO Hn Hsm.
  - exists p, []. ssplit; [done..|]. split; try done.
    + by intros id Hid%not_elem_of_nil.
    + intros h id. split; [|tauto]. intros. split; [done|]. apply not_elem_of_nil.
  - destruct (p_free p) as [|x fl] eqn:Hfree; [simpl in Hn; lia|]. simpl in Hn.
    destruct (pool_pop_ok _ _ _ _ HO Hfree) as (p1 & i & Hpop & Hi & HO1 & Hf1 & Hin1 & Hc1); [lia|].
    pose proof (idx_Some_range _ _ _ Hi) as Hr. pose proof (ok_inv _ _ HO) as HI.
    destruct (IH p1 (x :: refs)) as (p2 & ids & Hpops & Hids & HO2 & HP);
      [done|rewrite Hf1; lia|len_lia|].
    exists p2, (x :: ids). simpl. rewrite Hpop. simpl. rewrite Hpops. simpl.
    rewrite Hids, Hf1 in *. ssplit; [done..| |].
    { rewrite Permutation_middle. exact HO2. }
    assert (Hxids : x ∉ take n fl).
    { pose proof (pi_nodup _ HI) as Hnd. rewrite Hfree in Hnd. apply NoDup_cons in Hnd as [Hxf _].
      intros Hin. apply Hxf. rewrite <- (take_drop n fl). apply elem_of_app. by left. }
    split.
    + rewrite Hfree. simpl. f_equal. rewrite <- (pop_free _ _ _ HP). done.
    + by rewrite (pop_len _ _ _ HP), Hin1, len_upd.
    + intros id [->|Hid]%elem_of_cons; [|by apply HP].
      rewrite (pop_other _ _ _ HP), Hin1 by done. by apply idx_upd_eq.
    + intros id [Hne Hid]%not_elem_of_cons.
      rewrite (pop_other _ _ _ HP), Hin1 by done. apply idx_upd_ne; [done|lia].
    + intros h id. rewrite (pop_cached _ _ _ HP), Hc1, not_elem_of_cons.
      destruct (i_Cached i) eqn:Hci.
      * rewrite lookup_delete_Some. pose proof (pi_cached_rev _ HI _ _ Hi Hci) as Hx.
        split; [|intros (Hh & Hne & ?); ssplit; [|done..]].
        -- intros [[Hne Hh] ?]. ssplit; [done| |done]. intros ->.
           destruct (pi_cached _ HI _ _ Hh) as (j & Hj & _ & Hjh). congruence.
        -- intros <-. congruence.
      * split; [|tauto]. intros [Hh ?]. ssplit; [done| |done]. intros ->.
        destruct (pi_cached _ HI _ _ Hh) as (j & Hj & Hjc & _). congruence.
Qed.

Lemma pool_pushes_ok ids p refs :
  PoolOK p (ids ++ refs) ->
  exists p', pool_pushes ids p = Some p' /\ PoolOK p' refs /\
    content p' = content p /\ p_cached p' = p_cached p.
Proof.
  revert p. induction ids as [|x ids IH]; intros p HO; simpl in *; [eauto|].
  destruct (pool_push_ok _ _ _ HO) as (p1 & -> & HO1 & Hc1 & Hca1 & _). simpl.
  destruct (IH _ HO1) as (p' & ? & ? & Hc & Hca). exists p'. ssplit; [done..| |]; congruence.
Qed.

Lemma pool_touches_ok ids p refs :
  PoolOK p refs -> (forall x, x ∈ ids -> 0 <= x < len (p_info p)) ->
  len refs + len ids < two32 ->
  exists p', pool_touches ids p = Some p' /\ PoolOK p' (ids ++ refs) /\
    content p' = content p /\ p_cached p' = p_cached p.
Proof.
  revert p refs. induction ids as [|x ids IH]; intros p refs HO Hr Hsm; simpl in *; [eauto|].
  rewrite len_cons in Hsm. pose proof (len_nonneg ids).
  destruct (pool_touch_ok _ _ x HO) as (p1 & -> & HO1 & Hc1 & Hca1); [apply Hr; by left|lia|]. simpl.
  destruct (IH _ _ HO1) as (p' & ? & HO' & Hc & Hca).
  { intros y Hy. rewrite (content_len _ _ Hc1). apply Hr. by right. }
  { rewrite len_cons. lia. }
  exists p'. ssplit; [done| |congruence..]. by rewrite Permutation_middle.
Qed.

Lemma pushes_spec m p p' refs ids :
  Rep m p -> PoolOK p (ids ++ refs) -> pool_pushes ids p = Some p' ->
  wp (forM_ ids pushFree) (fun _ m' =>
    Rep m' p' /\ rest m' = rest m /\ m_metrics m' = m_metrics m) m.
Proof.
  revert m p. induction ids as [|x ids IH]; intros m p HR HO H; simpl in *.
  - injection H as <-. by wp_steps.
  - destruct (pool_push_ok _ _ _ HO) as (p1 & Hp1 & HO1 & _). rewrite Hp1 in H. simpl in H.
    wp_steps. wp_use (pushFree_spec _ _ _ _ HR (ok_inv _ _ HO) Hp1). intros [] m1 (HR1 & Hr1 & Hm1).
    wp_use (IH _ _ HR1 HO1 H). intros [] m2 (HR2 & -> & ->). by ssplit.
Qed.

(** The metric calls of an allocation: one per cached block it evicts. *)
Definition eviction_of (eid : string) (p : Pool) (id : Z) : MetricLog :=
  match idx (p_info p) id with
  | Some i => if i_Cached i then [IncEvictedBlock eid] else []
  | None => []
  end.

Lemma pool_pops_free n p ids p' :
  pool_pops n p = Some (ids, p') -> p_free p = ids ++ p_free p'.
Proof.
  revert p ids. induction n as [|n IH]; intros p ids H; simpl in H.
  - by injection H as <- <-.
  - apply bind_Some in H as ([x p1] & Hp & H). apply bind_Some in H as ([xs p2] & H & [= <- <-]).
    unfold pool_pop in Hp. destruct (p_free p) as [|y fl]; [done|].
    apply bind_Some in Hp as (? & _ & [= <- <-]). apply IH in H. cbn [p_free] in H. by rewrite H.
Qed.

(** The two assignments of [allocate] after [popFree] change nothing. *)
Lemma setBlock_fresh m p x i Q :
  Rep m p -> idx (p_info p) x = Some i -> i_RefCount i = 1 -> x ∉ p_free p -> Q tt m ->
  wp (setBlock x (fun b => b <| blk_RefCount := 1 |> <| blk_InFreeQueue := false |>)) Q m.
Proof.
  intros HR Hi Hrc Hx HQ. destruct (rep_info_block _ _ HR _ _ Hi) as (b & Hb & <-).
  eapply wp_setBlock; [done|].
  assert (Hf : blk_InFreeQueue b = false).
  { destruct (blk_InFreeQueue b) eqn:Hf; [|done]. exfalso. by apply Hx, (rep_flag _ _ HR _ _ Hb). }
  assert (b <| blk_RefCount := 1 |> <| blk_InFreeQueue := false |> = b) as ->.
  { destruct b; cbn in *. by simplify_eq/=. }
  rewrite upd_id by done. by destruct m.
Qed.

Lemma rest_executorID m m' : rest m' = rest m -> m_executorID m' = m_executorID m.
Proof. unfold rest. congruence. Qed.

Lemma allocateLoop_spec n m p refs ids0 p' ids :
  Rep m p -> PoolOK p refs -> len refs + Z.of_nat n < two32 ->
  pool_pops n p = Some (ids, p') ->
  wp (allocateLoop n ids0) (fun r m' => r = (ids0 ++ ids, true) /\ Rep m' p' /\
    rest m' = rest m /\
    m_metrics m' = m_metrics m ++ concat (eviction_of (m_executorID m) p <$> ids)) m.
Proof.
  revert m p refs ids0 ids. induction n as [|n IH]; intros m p refs ids0 ids HR HO Hsm H.
  - injection H as <- <-. simpl. wp_steps. rewrite !app_nil_r. by ssplit.
  - pose proof (pool_pops_free _ _ _ _ H) as Hfree0.
    simpl in H. apply bind_Some in H as ([x p1] & Hpop & H).
    apply bind_Some in H as ([xs p2] & Hpops & [= <- <-]). simpl in Hfree0.
    destruct (pool_pop_ok _ _ _ _ HO Hfree0) as (p1' & i & Hpop' & Hi & HO1 & Hf1 & Hin1 & _); [lia|].
    rewrite Hpop in Hpop'. injection Hpop' as <-.
    pose proof (idx_Some_range _ _ _ Hi) as Hr.
    pose proof (pi_nodup _ (ok_inv _ _ HO)) as Hnd. rewrite Hfree0 in Hnd.
    apply NoDup_cons in Hnd as [Hxf Hnd].
    cbn [allocateLoop]. wp_steps. wp_use (popFree_spec _ _ _ _ HR Hpop).
    intros [? ?] m1 ([= -> ->] & HR1 & Hr1 & (i' & Hi' & Hm1)). cbn [negb].
    assert (i' = i) as -> by congruence. wp_steps.
    eapply (setBlock_fresh _ _ _ fresh_info _ HR1);
      [rewrite Hin1; by apply idx_upd_eq|done|by rewrite Hf1|].
    wp_use (IH m1 p1 (x :: refs) (ids0 ++ [x]) xs HR1 HO1); [len_lia|done|].
    intros [? ?] m2 ([= -> ->] & HR2 & Hr2 & Hm2).
    rewrite <- app_assoc. ssplit; [done..|congruence|].
    rewrite Hm2, Hm1, <- app_assoc, (rest_executorID _ _ Hr1), fmap_cons.
    f_equal. cbn [concat]. f_equal; [unfold eviction_of; by rewrite Hi|].
    f_equal. apply list_fmap_ext. intros k y Hy%list_elem_of_lookup_2.
    unfold eviction_of. rewrite Hin1, idx_upd_ne; [done| |lia]. intros <-.
    apply Hxf, elem_of_app. by left.
Qed.

(** [allocate] succeeds exactly when enough blocks are free; it then hands out
    the oldest free blocks, and a refusal changes nothing. *)
Lemma allocate_spec n m p refs :
  Rep m p -> PoolOK p refs -> 0 <= n -> (n <= len (p_free p) -> len refs + n < two32) ->
  wp (allocate n) (fun r m' =>
    if len (p_free p) <? n then r = ([], false) /\ m' = m
    else exists p' ids, ids = take (Z.to_nat n) (p_free p) /\ r = (ids, true) /\
      Rep m' p' /\ PoolOK p' (ids ++ refs) /\ Popped p p' ids /\ rest m' = rest m /\
      m_metrics m' = m_metrics m ++ concat (eviction_of (m_executorID m) p <$> ids)) m.
Proof.
  intros HR HO Hn Hsm. unfold allocate. wp_steps. rewrite (rep_count _ _ HR).
  destruct (Z.ltb_spec (len (p_free p)) n) as [Hlt|Hge]; [by wp_steps|].
  destruct (pool_pops_ok (Z.to_nat n) p refs HO) as (p' & ids & Hpops & Hids & HO' & HP);
    [unfold len in Hge; lia|lia|].
  wp_use (allocateLoop_spec (Z.to_nat n) m p refs [] p' ids HR HO); [lia|done|].
  intros r m' (-> & HR' & Hr' & Hm'). by exists p', ids; ssplit.
Qed.
