(* ===== verification/GoSha256.v ===== *)
(** * GoSha256: crypto/sha256, encoding/hex and encoding/binary

    The standard-library functions [hashBlock] is written with, executable:
    [Sum256] is SHA-256 (FIPS 180-4) on a list of bytes, [EncodeToString] the
    lower-case hexadecimal text of bytes, [PutUint32] the big-endian bytes of a
    32-bit word.  Bytes are [Z] in 0..255; a Go string is a Rocq [string], a
    sequence of bytes. *)

From S2P Require Import Prelude.

Definition rotr (x : Z) (n : Z) : Z :=
  Z.lor (Z.shiftr x n) (u32 (Z.shiftl x (32 - n))).
Definition Ch (x y z : Z) : Z := Z.lxor (Z.land x y) (Z.land (two32 - 1 - x) z).
Definition Maj (x y z : Z) : Z :=
  Z.lxor (Z.lxor (Z.land x y) (Z.land x z)) (Z.land y z).
Definition Sigma0 (x : Z) : Z := Z.lxor (Z.lxor (rotr x 2) (rotr x 13)) (rotr x 22).
Definition Sigma1 (x : Z) : Z := Z.lxor (Z.lxor (rotr x 6) (rotr x 11)) (rotr x 25).
Definition sigma0 (x : Z) : Z := Z.lxor (Z.lxor (rotr x 7) (rotr x 18)) (Z.shiftr x 3).
Definition sigma1 (x : Z) : Z := Z.lxor (Z.lxor (rotr x 17) (rotr x 19)) (Z.shiftr x 10).

(** The round constants: the first 32 bits of the fractional parts of the cube
    roots of the first 64 primes (FIPS 180-4, 4.2.2). *)
Definition isPrime (p : Z) : bool :=
  forallb (fun d => negb (p mod d =? 0)) (seqZ 2 (p - 2)).

(** The largest [r] below [2 ^ bits] with [r ^ 3 <= n], bit by bit. *)
Fixpoint cubeRoot (bits : nat) (r n : Z) : Z :=
  match bits with
  | O => r
  | S b =>
      let r' := r + 2 ^ Z.of_nat b in
      cubeRoot b (if r' * r' * r' <=? n then r' else r) n
  end.

Definition K256 : list Z := Eval vm_compute in
  (fun p => u32 (cubeRoot 36 0 (p * 2 ^ 96))) <$> take 64 (List.filter isPrime (seqZ 2 320)).

(** Big-endian words. *)
Definition PutUint32 (v : Z) : list Z :=
  [Z.shiftr v 24 mod 256; Z.shiftr v 16 mod 256; Z.shiftr v 8 mod 256; v mod 256].

Definition word (a b c d : Z) : Z :=
  Z.lor (Z.lor (Z.shiftl a 24) (Z.shiftl b 16)) (Z.lor (Z.shiftl c 8) d).

Fixpoint words (bs : list Z) : list Z :=
  match bs with
  | a :: b :: c :: d :: bs' => word a b c d :: words bs'
  | _ => []
  end.

(** The message schedule: [w] holds the words so far, newest first. *)
Fixpoint schedule (n : nat) (w : list Z) : list Z :=
  match n with
  | O => reverse w
  | S n' =>
      let at_ k := nth k w 0 in
      schedule n' (u32 (sigma1 (at_ 1%nat) + at_ 6%nat + sigma0 (at_ 14%nat) + at_ 15%nat) :: w)
  end.

Record Regs := mkRegs { ra : Z; rb : Z; rc : Z; rd : Z; re : Z; rf : Z; rg : Z; rh : Z }.

Definition round (r : Regs) (kw : Z * Z) : Regs :=
  let t1 := rh r + Sigma1 (re r) + Ch (re r) (rf r) (rg r) + kw.1 + kw.2 in
  let t2 := Sigma0 (ra r) + Maj (ra r) (rb r) (rc r) in
  mkRegs (u32 (t1 + t2)) (ra r) (rb r) (rc r) (u32 (rd r + t1)) (re r) (rf r) (rg r).

Definition compress (h : Regs) (block : list Z) : Regs :=
  let w := schedule 48 (reverse (words block)) in
  let r := fold_left round (combine K256 w) h in
  mkRegs (u32 (ra h + ra r)) (u32 (rb h + rb r)) (u32 (rc h + rc r)) (u32 (rd h + rd r))
         (u32 (re h + re r)) (u32 (rf h + rf r)) (u32 (rg h + rg r)) (u32 (rh h + rh r)).

Definition pad (msg : list Z) : list Z :=
  let l := len msg in
  let zeros := (55 - l) mod 64 in
  msg ++ 0x80 :: replicate (Z.to_nat zeros) 0 ++
  PutUint32 (u32 (Z.shiftr (8 * l) 32)) ++ PutUint32 (u32 (8 * l)).

(** [fuel] bounds the number of 64-byte blocks. *)
Fixpoint sum_blocks (fuel : nat) (h : Regs) (bs : list Z) : Regs :=
  match fuel with
  | O => h
  | S f =>
      match bs with
      | [] => h
      | _ => sum_blocks f (compress h (take 64 bs)) (drop 64 bs)
      end
  end.

Definition Sum256 (msg : list Z) : list Z :=
  let p := pad msg in
  let h := sum_blocks (length p) (mkRegs 0x6a09e667 0xbb67ae85 0x3c6ef372 0xa54ff53a
             0x510e527f 0x9b05688c 0x1f83d9ab 0x5be0cd19) p in
  PutUint32 (ra h) ++ PutUint32 (rb h) ++ PutUint32 (rc h) ++ PutUint32 (rd h) ++
  PutUint32 (re h) ++ PutUint32 (rf h) ++ PutUint32 (rg h) ++ PutUint32 (rh h).

Definition hexdigit (d : Z) : Ascii.ascii :=
  Ascii.ascii_of_N (Z.to_N (if d <? 10 then 48 + d else 87 + d)).

Fixpoint EncodeToString (bs : list Z) : string :=
  match bs with
  | [] => EmptyString
  | b :: bs' => String (hexdigit (b / 16)) (String (hexdigit (b mod 16)) (EncodeToString bs'))
  end.

(** The bytes of a Go string. *)
Fixpoint bytes_of (s : string) : list Z :=
  match s with
  | EmptyString => []
  | String c s' => Z.of_N (Ascii.N_of_ascii c) :: bytes_of s'
  end.

(** ** Lengths and injectivity *)

Definition is_byte (b : Z) : Prop := 0 <= b < 256.

Lemma PutUint32_len v : length (PutUint32 v) = 4%nat.
Proof. done. Qed.

Lemma PutUint32_bytes v : Forall is_byte (PutUint32 v).
Proof. repeat constructor; apply Z.mod_pos_bound; reflexivity. Qed.

Lemma PutUint32_inj v w :
  0 <= v < two32 -> 0 <= w < two32 -> PutUint32 v = PutUint32 w -> v = w.
Proof.
  unfold PutUint32, two32. rewrite !Z.shiftr_div_pow2 by lia.
  change (2 ^ 24) with 16777216. change (2 ^ 16) with 65536. change (2 ^ 8) with 256.
  intros Hv Hw [= H1 H2 H3 H4]. Z.to_euclidean_division_equations. lia.
Qed.

Lemma Sum256_len msg : length (Sum256 msg) = 32%nat.
Proof. unfold Sum256. by rewrite !length_app, !PutUint32_len. Qed.

Lemma Sum256_bytes msg : Forall is_byte (Sum256 msg).
Proof. unfold Sum256. rewrite !Forall_app. ssplit; apply PutUint32_bytes. Qed.

Lemma EncodeToString_len bs : String.length (EncodeToString bs) = (2 * length bs)%nat.
Proof. induction bs as [|b bs IH]; simpl; [done|]. rewrite IH. lia. Qed.

Lemma hexdigit_inj c d : 0 <= c < 16 -> 0 <= d < 16 -> hexdigit c = hexdigit d -> c = d.
Proof.
  intros Hc Hd H.
  assert (Hall : forall n m : nat, (n < 16)%nat -> (m < 16)%nat ->
    hexdigit (Z.of_nat n) = hexdigit (Z.of_nat m) -> n = m).
  { intros n m Hn Hm. do 16 (destruct n as [|n]; [do 16 (destruct m as [|m]; [done|]); lia|]). lia. }
  rewrite <- (Z2Nat.id c), <- (Z2Nat.id d) in H |- * by lia. f_equal. apply Hall; [lia|lia|done].
Qed.

Lemma EncodeToString_inj bs cs :
  Forall is_byte bs -> Forall is_byte cs -> EncodeToString bs = EncodeToString cs -> bs = cs.
Proof.
  intros Hb. revert cs. induction Hb as [|b bs Hb _ IH]; intros cs Hc; destruct Hc as [|c cs Hc Hcs];
    [done..|]. simpl. intros [= H1 H2 H3]. f_equal; [|by apply IH].
  unfold is_byte in *. apply hexdigit_inj in H1; [|Z.to_euclidean_division_equations; lia..].
  apply hexdigit_inj in H2; [|Z.to_euclidean_division_equations; lia..].
  Z.to_euclidean_division_equations. lia.
Qed.

Lemma bytes_of_len s : length (bytes_of s) = String.length s.
Proof. induction s; simpl; congruence. Qed.

Lemma bytes_of_inj s t : bytes_of s = bytes_of t -> s = t.
Proof.
  revert t. induction s as [|c s IH]; intros [|d t]; try done. simpl. intros [= H1 H2].
  f_equal; [|by apply IH]. apply N2Z.inj in H1. by rewrite <- (Ascii.ascii_N_embedding c), H1, Ascii.ascii_N_embedding.
Qed.

(** FIPS 180-4 test vectors. *)
Example sha_abc : EncodeToString (Sum256 (bytes_of "abc"))
  = "ba7816bf8f01cfea414140de5dae2223b00361a396177a9cb410ff61f20015ad".
Proof. vm_compute. reflexivity. Qed.
Example sha_two_blocks :
  EncodeToString (Sum256 (bytes_of "abcdbcdecdefdefgefghfghighijhijkijkljklmklmnlmnomnopnopq"))
  = "248d6a61d20638b8e5c026930c3e6039a33ce45964ff2167f6ecedd419db06c1".
Proof. vm_compute. reflexivity. Qed.
