(* ===== verification/BlockManager.v ===== *)
(** * BlockManager: the paged KV block manager of one executor (internal/block/block.go)

    The operations of [manager] on top of the free list of FreeQueue: prefix
    matching, block tables with their pending allocations (commit and
    rollback), release of a request, and the pin, reserve, import and release
    steps of a KV transfer.  Every operation holds the manager's mutex from its
    first to its last access of the state, so it is one transition of the state
    monad; [None] is a run-time panic.

    Section [ownership] gives the invariant [Inv m pins]: the free list is well
    linked, the free blocks are the unreferenced ones, and a block's reference
    count is the number of times it occurs in the block tables of the requests
    and in [pins], the references of transfers. *)

From S2P Require Import Prelude Errors Model Metrics FreeQueue GoSha256.
Definition text (s : string) : error := TextError s.

(** ** block.go: construction *)

Definition observeBlockStats : M manager unit :=
  m ← getS;
  let free := m_freeCount m in
  let active := u64 (len (m_blocks m) - free) in
  let cached := Z.of_nat (size (m_cachedBlocks m)) in
  metric (ObserveBlockStats (m_executorID m) active free cached).

Definition initBlock (i : nat) : Block :=
  mkBlock "" 0 0 false true (i32 (Z.of_nat i - 1)) (i32 (Z.of_nat i + 1)).

(** The state of [newManager] before its [observeBlockStats]: the loop over the
    blocks, then the two sentinels. *)
Definition initManager (executorID : string) (blockSize n : Z) : option manager :=
  let blocks := initBlock <$> seq 0 (Z.to_nat n) in
  b0 ← idx blocks 0;
  blocks ← store blocks 0 (b0 <| blk_PrevFree := -1 |>);
  bl ← idx blocks (len blocks - 1);
  blocks ← store blocks (len blocks - 1) (bl <| blk_NextFree := -1 |>);
  Some {|
    m_executorID := executorID;
    m_blockSize := blockSize;
    m_blocks := blocks;
    m_freeHead := 0;
    m_freeTail := i32 (i32 n - 1);
    m_freeCount := n;
    m_requestBlocks := ∅;
    m_cachedBlocks := ∅;
    m_pendingAllocations := ∅;
    m_metrics := []
  |}.

Definition newManager (runtime : option ExecutorStats) : option (error + manager) :=
  match runtime with
  | None => Some (inl (text "executor runtime must not be nil"))
  | Some rt =>
      if String.eqb (es_ExecutorId rt) "" then Some (inl (text "executor ID must not be empty"))
      else if es_BlockSize rt =? 0 then Some (inl (text "block size must be greater than zero"))
      else if es_NumKvBlocks rt =? 0 then
        Some (inl (text "number of blocks must be greater than zero"))
      else
        m ← initManager (es_ExecutorId rt) (es_BlockSize rt) (es_NumKvBlocks rt);
        '(_, m) ← observeBlockStats m;
        Some (inr m)
  end.

(** ** Prefix hashes *)

Definition hashBlock (prevHash : string) (tokens : list Z) : string :=
  EncodeToString (Sum256 (bytes_of prevHash ++ tokens ≫= PutUint32)).

(** The loop of [blockHashes] from block [i], [n] iterations left. *)
Fixpoint blockHashesFrom (blockSize : Z) (tokens : list Z) (n : nat) (i : Z) (prev : string)
    : option (list string) :=
  match n with
  | O => Some []
  | S n' =>
      let start := i *u blockSize in
      let end_ := start +u blockSize in
      ts ← slice tokens start end_;
      let curr := hashBlock prev ts in
      rest ← blockHashesFrom blockSize tokens n' (i +u 1) curr;
      Some (curr :: rest)
  end.

Definition blockHashes (blockSize : Z) (req : Request) : option (list string) :=
  if blockSize =? 0 then None else
  let fullBlocks := u32 (len (req_TokenIDs req)) / blockSize in
  blockHashesFrom blockSize (req_TokenIDs req) (Z.to_nat fullBlocks) 0 (req_CacheSalt req).

Definition matchableBlockHashes (blockSize : Z) (req : Request)
    : option (list string * list string) :=
  hashesTotal ← blockHashes blockSize req;
  let maxMatchedBlocks :=
    if 0 <? len (req_TokenIDs req) then (len (req_TokenIDs req) - 1) / blockSize else 0 in
  matched ← slice hashesTotal 0 (Z.min (len hashesTotal) maxMatchedBlocks);
  Some (hashesTotal, matched).

(** ** Prefix matching *)

Fixpoint matchLoop (hashes : list string) (blockIDs : list Z) : M manager (list Z) :=
  match hashes with
  | [] => mret blockIDs
  | hash :: hashes' =>
      m ← getS;
      match m_cachedBlocks m !! hash with
      | None => mret blockIDs
      | Some blockId =>
          touch [blockId] ;;
          matchLoop hashes' (blockIDs ++ [blockId])
      end
  end.

(** Returns the match and the request with [Cache] set to it. *)
Definition MatchPrefix (req : Request) : M manager (PrefixMatch * Request) :=
  '(hashesTotal, hashesToMatch) ←
    getsO (fun m => matchableBlockHashes (m_blockSize m) req);
  blockIDs ← matchLoop hashesToMatch [];
  modS (fun m => m <| m_requestBlocks :=
    <[req_RequestId req := blockIDs]> (m_requestBlocks m) |>) ;;
  observeBlockStats ;;
  m ← getS;
  let cache := {|
    pm_Hit := negb (len blockIDs =? 0);
    pm_CachedTokens := u32 (len blockIDs) *u m_blockSize m;
    pm_BlockIDs := blockIDs;
    pm_HashesTotal := hashesTotal
  |} in
  mret (cache, req <| req_Cache := Some cache |>).

Fixpoint probeLoop (m : manager) (hashes : list string) : option (list string) :=
  match hashes with
  | [] => Some []
  | hash :: hashes' =>
      match m_cachedBlocks m !! hash with
      | None => Some []
      | Some blockID =>
          block ← idx (m_blocks m) blockID;
          if negb (blk_Cached block) || negb (String.eqb (blk_Hash block) hash)
             || negb (blk_TokenCount block =? m_blockSize m)
          then Some []
          else rest ← probeLoop m hashes'; Some (hash :: rest)
      end
  end.

Definition probePrefix (req : Request) (m : manager) : option PrefixCandidate :=
  '(_, hashesToMatch) ← matchableBlockHashes (m_blockSize m) req;
  matchedHashes ← probeLoop m hashesToMatch;
  Some {|
    pc_ExecutorID := m_executorID m;
    pc_CachedTokens := u32 (len matchedHashes) *u m_blockSize m;
    pc_MatchedHashes := matchedHashes
  |}.

(** ** Allocation for a work item, commit and rollback *)

Definition requiredKVTokens (work : WorkItem) : Z :=
  match wi_Phase work with
  | WorkPhasePrefill => wi_PrefillOffset work +u wi_NumNewTokens work
  | WorkPhaseDecode => wi_TokenCntTotal work
  | WorkPhaseOther _ => 0
  end.

(** [v + divisor - 1] wraps before the division. *)
Definition ceilDiv (v divisor : Z) : Z :=
  if v =? 0 then 0 else (v +u divisor -u 1) / divisor.

(** The block table the request has before this allocation. *)
Definition existingBlocks (work : WorkItem) : M manager (list Z) :=
  m ← getS;
  match m_requestBlocks m !! wi_RequestId work with
  | Some existBlocks => mret existBlocks
  | None =>
      cache ← getsO (fun _ => wi_Cache work);
      if 0 <? len (pm_BlockIDs cache) then
        modS (fun m => m <| m_requestBlocks :=
          <[wi_RequestId work := pm_BlockIDs cache]> (m_requestBlocks m) |>) ;;
        mret (pm_BlockIDs cache)
      else mret []
  end.

(** Returns whether the allocation succeeded and the work item, whose
    [BlockAllocation] is set on success. *)
Definition AllocateBlocks (work : WorkItem) : M manager (bool * WorkItem) :=
  existBlocks ← existingBlocks work;
  m ← getS;
  let requiredKVToken := requiredKVTokens work in
  let requiredTotalBlocks := ceilDiv requiredKVToken (m_blockSize m) in
  let requiredBlocks :=
    if u32 (len existBlocks) <? requiredTotalBlocks
    then requiredTotalBlocks -u u32 (len existBlocks) else 0 in
  '(allocatedBlockIds, ok) ← allocate requiredBlocks;
  if negb ok then
    metric (IncAllocationFailure (m_executorID m)) ;;
    mret (false, work)
  else
    let blockTable := existBlocks ++ allocatedBlockIds in
    modS (fun m => m <| m_requestBlocks :=
      <[wi_RequestId work := blockTable]> (m_requestBlocks m) |>) ;;
    cache ← getsO (fun _ => wi_Cache work);
    let ba := {|
      ba_RequestID := wi_RequestId work;
      ba_WorkID := wi_WorkId work;
      ba_BlockSize := m_blockSize m;
      ba_Phase := wi_Phase work;
      ba_BlockTable := blockTable;
      ba_BlockHashes := pm_HashesTotal cache;
      ba_AllocatedBlocks := allocatedBlockIds;
      ba_TokensAfterCommit := requiredKVToken
    |} in
    modS (fun m => m <| m_pendingAllocations :=
      <[wi_WorkId work := ba]> (m_pendingAllocations m) |>) ;;
    observeBlockStats ;;
    mret (true, work <| wi_BlockAllocation := Some ba |>).

(** The token count the first loop of [Commit] gives to the block at table
    index [i]. *)
Definition commitTokens (blockSize tokensAfter i : Z) : Z :=
  let start := u32 i *u blockSize in
  if tokensAfter <=? start then 0
  else
    let remaining := tokensAfter -u start in
    if blockSize <=? remaining then blockSize else remaining.

Fixpoint commitCounts (tokensAfter i : Z) (table : list Z) : M manager unit :=
  match table with
  | [] => mret tt
  | blockId :: table' =>
      m ← getS;
      setBlock blockId (fun b =>
        b <| blk_TokenCount := commitTokens (m_blockSize m) tokensAfter i |>) ;;
      commitCounts tokensAfter (i + 1) table'
  end.

(** One iteration of the second loop of [Commit]. *)
Definition cacheBlock (allocation : BlockAllocation) (i blockID : Z) : M manager unit :=
  m ← getS;
  block ← getBlock blockID;
  if negb (bool_decide (ba_Phase allocation = WorkPhasePrefill)) || blk_Cached block
     || negb (blk_TokenCount block =? ba_BlockSize allocation)
     || (len (ba_BlockHashes allocation) <=? i)
  then mret tt
  else
    hash ← getsO (fun _ => idx (ba_BlockHashes allocation) i);
    match m_cachedBlocks m !! hash with
    | Some _ => mret tt
    | None =>
        setBlock blockID (fun b => b <| blk_Hash := hash |> <| blk_Cached := true |>) ;;
        modS (fun m => m <| m_cachedBlocks := <[hash := blockID]> (m_cachedBlocks m) |>)
    end.

Fixpoint cacheBlocks (allocation : BlockAllocation) (i : Z) (table : list Z) : M manager unit :=
  match table with
  | [] => mret tt
  | blockID :: table' =>
      cacheBlock allocation i blockID ;;
      cacheBlocks allocation (i + 1) table'
  end.

Definition Commit (workId : string) : M manager unit :=
  m ← getS;
  match m_pendingAllocations m !! workId with
  | None => mret tt
  | Some allocation =>
      modS (fun m => m <| m_pendingAllocations := delete workId (m_pendingAllocations m) |>) ;;
      commitCounts (ba_TokensAfterCommit allocation) 0 (ba_BlockTable allocation) ;;
      cacheBlocks allocation 0 (ba_BlockTable allocation) ;;
      observeBlockStats
  end.

Definition Rollback (workID : string) : M manager unit :=
  m ← getS;
  match m_pendingAllocations m !! workID with
  | None => mret tt
  | Some allocation =>
      modS (fun m => m <| m_pendingAllocations := delete workID (m_pendingAllocations m) |>) ;;
      let blocks := default [] (m_requestBlocks m !! ba_RequestID allocation) in
      let n := len (ba_AllocatedBlocks allocation) in
      blocks ← getsO (fun _ =>
        if n <=? len blocks then slice blocks 0 (len blocks - n) else Some blocks);
      (if len blocks =? 0
       then modS (fun m => m <| m_requestBlocks :=
              delete (ba_RequestID allocation) (m_requestBlocks m) |>)
       else modS (fun m => m <| m_requestBlocks :=
              <[ba_RequestID allocation := blocks]> (m_requestBlocks m) |>)) ;;
      forM_ (ba_AllocatedBlocks allocation) pushFree ;;
      observeBlockStats
  end.

Definition FreeRequest (requestID : string) : M manager unit :=
  m ← getS;
  let blocks := default [] (m_requestBlocks m !! requestID) in
  modS (fun m => m <| m_requestBlocks := delete requestID (m_requestBlocks m) |>
     <| m_pendingAllocations :=
          filter (fun wa => ba_RequestID wa.2 <> requestID) (m_pendingAllocations m) |>) ;;
  forM_ blocks pushFree ;;
  observeBlockStats.

(** ** KV transfer *)

Fixpoint pinLoop (m : manager) (hashes : list string) : option (error + list Z) :=
  match hashes with
  | [] => Some (inr [])
  | hash :: hashes' =>
      match m_cachedBlocks m !! hash with
      | None => Some (inl (text ("cached block " +:+ hash +:+ " not found")))
      | Some blockID =>
          block ← idx (m_blocks m) blockID;
          if negb (blk_Cached block) || negb (String.eqb (blk_Hash block) hash)
             || negb (blk_TokenCount block =? m_blockSize m)
          then Some (inl (text ("cached block " +:+ hash +:+ " is not transferable")))
          else
            r ← pinLoop m hashes';
            Some (match r with inl err => inl err | inr ids => inr (blockID :: ids) end)
      end
  end.

Definition pinCachedBlocks (hashes : list string) : M manager (error + list Z) :=
  r ← getsO (fun m => pinLoop m hashes);
  match r with
  | inl err => mret (inl err)
  | inr blockIDs =>
      touch blockIDs ;;
      observeBlockStats ;;
      mret (inr blockIDs)
  end.

Definition reserveTransferBlocks (count : Z) : M manager (list Z * bool) :=
  r ← allocate count;
  observeBlockStats ;;
  mret r.

Fixpoint importCheck (m : manager) (blockIDs : list Z) : option error :=
  match blockIDs with
  | [] => None
  | blockID :: blockIDs' =>
      match idx (m_blocks m) blockID with
      | None => Some (text ("destination block " +:+ pretty blockID +:+ " is out of range"))
      | Some block =>
          if blk_InFreeQueue block || (blk_RefCount block =? 0)
          then Some (text ("destination block " +:+ pretty blockID +:+ " is not reserved"))
          else importCheck m blockIDs'
      end
  end.

Definition importBlock (blockID : Z) (hash : string) : M manager unit :=
  m ← getS;
  if match m_cachedBlocks m !! hash with
     | Some existingID => negb (existingID =? blockID)
     | None => false
     end
  then pushFree blockID
  else
    setBlock blockID (fun b => b <| blk_Hash := hash |> <| blk_TokenCount := m_blockSize m |>
                                 <| blk_Cached := true |>) ;;
    modS (fun m => m <| m_cachedBlocks := <[hash := blockID]> (m_cachedBlocks m) |>) ;;
    pushFree blockID.

Definition commitImportedBlocks (blockIDs : list Z) (hashes : list string)
    : M manager (option error) :=
  m ← getS;
  if negb (len blockIDs =? len hashes)
  then mret (Some (text "destination block and hash counts differ"))
  else match importCheck m blockIDs with
  | Some err => mret (Some err)
  | None =>
      forM_ (zip blockIDs hashes) (fun bh => importBlock bh.1 bh.2) ;;
      observeBlockStats ;;
      mret None
  end.

Definition releaseTransferBlocks (blockIDs : list Z) : M manager unit :=
  forM_ blockIDs pushFree ;;
  observeBlockStats.

(** ** The invariant *)

(** All references held by block tables. *)
Definition tab (t : gmap string (list Z)) : list Z := concat (snd <$> map_to_list t).

Lemma tab_insert_fresh t k l : t !! k = None -> tab (<[k := l]> t) ≡ₚ l ++ tab t.
Proof.
  intros Hk. unfold tab.
  rewrite (map_to_list_insert t k l Hk). done.
Qed.

Lemma tab_split t k : tab t ≡ₚ default [] (t !! k) ++ tab (delete k t).
Proof.
  destruct (t !! k) as [l|] eqn:Hk; simpl.
  - rewrite <- (insert_delete_id t k l Hk) at 1.
    by rewrite tab_insert_fresh by apply lookup_delete_eq.
  - by rewrite delete_id.
Qed.

Lemma tab_insert t k l : tab (<[k := l]> t) ≡ₚ l ++ tab (delete k t).
Proof.
  rewrite <- insert_delete_eq. by rewrite tab_insert_fresh by apply lookup_delete_eq.
Qed.

(** A pending allocation is the suffix of its request's block table, and a
    request has at most one. *)
Record PendingOK (rb : gmap string (list Z)) (pd : gmap string BlockAllocation) (bs : Z) : Prop := mkPendingOK {
  pd_table : forall w a, pd !! w = Some a ->
    ba_WorkID a = w /\ ba_BlockSize a = bs /\ rb !! ba_RequestID a = Some (ba_BlockTable a) /\
    exists old, ba_BlockTable a = old ++ ba_AllocatedBlocks a;
  pd_unique : forall w1 w2 a1 a2, pd !! w1 = Some a1 -> pd !! w2 = Some a2 ->
    ba_RequestID a1 = ba_RequestID a2 -> w1 = w2
}.

Definition no_pending (rid : string) (m : manager) : Prop :=
  forall w a, m_pendingAllocations m !! w = Some a -> ba_RequestID a <> rid.

Record Inv (m : manager) (pins : list Z) (p : Pool) : Prop := mkInv {
  inv_rep : Rep m p;
  inv_ok : PoolOK p (pins ++ tab (m_requestBlocks m));
  inv_bs : 0 < m_blockSize m < two32;
  inv_pending : PendingOK (m_requestBlocks m) (m_pendingAllocations m) (m_blockSize m)
}.

(** The manager is consistent, [pins] being the references of transfers. *)
Definition Consistent (m : manager) (pins : list Z) : Prop := exists p, Inv m pins p.

Lemma rep_ext m m' p :
  Rep m p -> m_blocks m' = m_blocks m -> m_freeHead m' = m_freeHead m ->
  m_freeTail m' = m_freeTail m -> m_freeCount m' = m_freeCount m ->
  m_cachedBlocks m' = m_cachedBlocks m -> Rep m' p.
Proof. intros [] Hb Hh Ht Hc Hca. split; rewrite ?Hb, ?Hh, ?Ht, ?Hc, ?Hca; done. Qed.

Lemma inv_with_metrics m pins p l : Inv m pins p -> Inv (m <| m_metrics := l |>) pins p.
Proof. intros [HR ? ? ?]. split; try done. by apply (rep_ext m). Qed.

(** The state without the metric calls. *)
Definition core (m : manager) : manager := m <| m_metrics := [] |>.

Lemma wp_observe Q m :
  (forall l, Q tt (m <| m_metrics := l |>)) -> wp observeBlockStats Q m.
Proof. intros HQ. unfold observeBlockStats, metric. wp_steps. apply HQ. Qed.

(** ** newManager *)

Lemma idx_seq n i : 0 <= i < Z.of_nat n -> idx (seq 0 n) i = Some (Z.to_nat i).
Proof.
  intros Hi. unfold idx. rewrite (proj2 (Z.ltb_ge i 0)) by lia.
  apply lookup_seq. lia.
Qed.

Definition init_pool (n : Z) : Pool :=
  mkPool (replicate (Z.to_nat n) (mkInfo "" 0 0 false)) (Z.of_nat <$> seq 0 (Z.to_nat n)) ∅.

Lemma init_blocks n e b :
  0 < n <= two31 ->
  exists m, initManager e b n = Some m /\
    m_executorID m = e /\ m_blockSize m = b /\ m_freeHead m = 0 /\ m_freeTail m = n - 1 /\
    m_freeCount m = n /\ m_requestBlocks m = ∅ /\ m_cachedBlocks m = ∅ /\
    m_pendingAllocations m = ∅ /\ len (m_blocks m) = n /\
    forall i, 0 <= i < n -> idx (m_blocks m) i =
      Some (mkBlock "" 0 0 false true (if i =? 0 then -1 else i - 1)
                    (if i =? n - 1 then -1 else i + 1)).
Proof.
  intros Hn. unfold initManager.
  set (bs := initBlock <$> seq 0 (Z.to_nat n)).
  assert (Hlen : len bs = n) by (unfold bs, len; rewrite length_fmap, length_seq; lia).
  assert (Hidx : forall i, 0 <= i < n -> idx bs i = Some (initBlock (Z.to_nat i))).
  { intros i Hi. unfold bs. by rewrite idx_fmap, idx_seq by lia. }
  rewrite (Hidx 0) by lia. cbn [mbind option_bind].
  erewrite store_upd by (apply Hidx; lia). cbn [mbind option_bind].
  set (b0 := initBlock _ <| blk_PrevFree := -1 |>).
  rewrite len_upd, Hlen, idx_upd, (Hidx (n - 1)) by lia.
  set (bl := if decide (0 = n - 1) then Some b0 else _).
  assert (Hbl : exists nx, bl =
    Some (mkBlock "" 0 0 false true (if n - 1 =? 0 then -1 else n - 1 - 1) nx)).
  { unfold bl. case_decide as Hd; eexists.
    - by rewrite (proj2 (Z.eqb_eq (n - 1) 0)) by lia.
    - rewrite (proj2 (Z.eqb_neq _ _)) by lia. unfold initBlock. rewrite Z2Nat.id by lia.
      rewrite (i32_small (n - 1 - 1)) by (unfold two31 in *; lia). done. }
  destruct Hbl as (nx & ->). cbn [mbind option_bind].
  destruct (proj2 (idx_is_Some (upd bs 0 b0) (n - 1))) as [y Hy]; [len_lia|].
  rewrite (store_upd _ _ _ _ Hy). cbn [mbind option_bind]. eexists. split; [done|]. cbn.
  ssplit; try done.
  - destruct (decide (n = two31)) as [->|]; [done|].
    rewrite (i32_small n), i32_small by (unfold two31 in *; lia). done.
  - by rewrite !len_upd.
  - intros i Hi. rewrite idx_upd by (len_lia). case_decide as H1.
    + subst i. by rewrite Z.eqb_refl.
    + rewrite idx_upd by lia. case_decide as H2.
      * subst i. rewrite (proj2 (Z.eqb_neq 0 (n - 1))) by done. done.
      * rewrite Hidx by done. unfold initBlock. rewrite Z2Nat.id by lia.
        rewrite !i32_small by (unfold two31 in *; lia).
        by rewrite (proj2 (Z.eqb_neq _ _)), (proj2 (Z.eqb_neq _ _)) by lia.
Qed.

Lemma seg_init bs n :
  (forall i, 0 <= i < n -> links bs i =
     Some (if i =? 0 then -1 else i - 1, if i =? n - 1 then -1 else i + 1)) ->
  forall k j : nat, Z.of_nat j + Z.of_nat k = n ->
  seg bs (Z.of_nat j - 1) (Z.of_nat <$> seq j k) (-1).
Proof.
  intros Hl k. induction k as [|k IH]; intros j Hjk; [done|]. cbn [seq fmap list_fmap seg].
  split.
  - rewrite Hl by lia. f_equal. f_equal.
    + destruct (Z.eqb_spec (Z.of_nat j) 0); lia.
    + destruct k; simpl; [rewrite (proj2 (Z.eqb_eq _ _)) by lia; done|].
      rewrite (proj2 (Z.eqb_neq _ _)) by lia. lia.
  - replace (Z.of_nat j) with (Z.of_nat (S j) - 1) by lia. apply IH. lia.
Qed.

Lemma hd_init n : 0 < n -> hd_or (-1) (p_free (init_pool n)) = 0.
Proof. intros. unfold init_pool. simpl. destruct (Z.to_nat n) eqn:E; [lia|done]. Qed.

Lemma last_init n : 0 < n -> last_or (-1) (p_free (init_pool n)) = n - 1.
Proof.
  intros. unfold init_pool. cbn [p_free]. destruct (Z.to_nat n) as [|k] eqn:E; [lia|].
  rewrite seq_S, fmap_app, last_or_app. simpl. lia.
Qed.

Lemma elem_init n id : id ∈ p_free (init_pool n) <-> 0 <= id < n.
Proof.
  unfold init_pool. cbn [p_free]. rewrite list_elem_of_fmap. split.
  - intros (k & -> & Hk%elem_of_seq). lia.
  - intros. exists (Z.to_nat id). rewrite elem_of_seq. lia.
Qed.

Lemma nodup_init n : NoDup (p_free (init_pool n)).
Proof. unfold init_pool. cbn [p_free]. apply NoDup_fmap_2; [exact _|apply NoDup_seq]. Qed.

Lemma info_init n id i : idx (p_info (init_pool n)) id = Some i ->
  i = mkInfo "" 0 0 false /\ 0 <= id < n.
Proof.
  unfold init_pool. cbn [p_info]. intros Hi. pose proof (idx_Some_range _ _ _ Hi) as Hr.
  unfold len in Hr. rewrite length_replicate in Hr. split; [|lia].
  apply idx_elem, elem_of_replicate in Hi. by destruct Hi.
Qed.

Lemma init_pool_ok n : 0 < n -> PoolOK (init_pool n) [].
Proof.
  intros Hn. split; [|by intros id i [-> _]%info_init|by intros id Hid%not_elem_of_nil|done].
  split.
  - apply nodup_init.
  - intros id i [-> Hr]%info_init. rewrite elem_init. done.
  - by intros id i [-> Hr]%info_init.
  - intros id. rewrite elem_init. cbn. unfold len. rewrite length_replicate. lia.
  - done.
  - by intros id i [-> Hr]%info_init.
Qed.

Lemma init_rep n e b m :
  0 < n <= two31 -> initManager e b n = Some m -> Rep m (init_pool n).
Proof.
  intros Hn Hm. destruct (init_blocks n e b Hn)
    as (m' & Hm' & He & Hb & Hh & Ht & Hc & Hrb & Hca & Hp & Hlen & Hidx).
  assert (m' = m) as -> by congruence. clear Hm'.
  split.
  - apply list_eq_idx. intros i. rewrite idx_fmap. cbn [p_info init_pool].
    destruct (decide (0 <= i < n)) as [Hr|Hr].
    + rewrite Hidx by done. simpl. unfold idx. rewrite (proj2 (Z.ltb_ge i 0)) by lia.
      apply lookup_replicate. split; [done|lia].
    + rewrite (idx_ge (m_blocks m)) by (rewrite Hlen; lia). apply idx_ge.
      unfold len. rewrite length_replicate. lia.
  - done.
  - rewrite Hlen. lia.
  - apply nodup_init.
  - apply (seg_init _ n) with (k := Z.to_nat n) (j := 0%nat); [|lia].
    intros i Hi. unfold links. by rewrite Hidx.
  - by rewrite Hh, hd_init by lia.
  - by rewrite Ht, last_init by lia.
  - rewrite Hc. cbn. unfold len. rewrite length_fmap, length_seq. lia.
  - intros id blk Hblk. pose proof (idx_Some_range _ _ _ Hblk). rewrite Hidx in Hblk by lia.
    injection Hblk as <-. rewrite elem_init. simpl. split; [lia|done].
Qed.

Lemma pending_empty rb bs : PendingOK rb ∅ bs.
Proof. split; intros *; rewrite lookup_empty; done. Qed.

Lemma newManager_inv rt :
  es_ExecutorId rt <> "" -> 0 < es_BlockSize rt < two32 -> 0 < es_NumKvBlocks rt <= two31 ->
  exists m, newManager (Some rt) = Some (inr m) /\ Inv m [] (init_pool (es_NumKvBlocks rt)) /\
    m_executorID m = es_ExecutorId rt /\ m_blockSize m = es_BlockSize rt /\
    m_requestBlocks m = ∅ /\ m_cachedBlocks m = ∅ /\ m_pendingAllocations m = ∅ /\
    m_freeCount m = es_NumKvBlocks rt /\ len (m_blocks m) = es_NumKvBlocks rt /\
    m_metrics m = [ObserveBlockStats (es_ExecutorId rt) 0 (es_NumKvBlocks rt) 0].
Proof.
  intros He Hb Hn. unfold newManager.
  rewrite (proj2 (String.eqb_neq _ _)) by done.
  rewrite (proj2 (Z.eqb_neq _ 0)), (proj2 (Z.eqb_neq (es_NumKvBlocks rt) 0)) by lia.
  destruct (init_blocks _ (es_ExecutorId rt) (es_BlockSize rt) Hn)
    as (m & Hm & Hme & Hmb & Hh & Ht & Hc & Hrb & Hca & Hp & Hlen & _).
  pose proof (init_rep _ _ _ _ Hn Hm) as HR. rewrite Hm. cbn [mbind option_bind].
  unfold observeBlockStats, metric. cbn. eexists. split; [done|]. cbn.
  rewrite Hlen, Hc, Hca, map_size_empty, Z.sub_diag, Hme. 
  assert (m_metrics m = []) as Hmet.
  { unfold initManager in Hm. repeat (apply bind_Some in Hm as (? & _ & Hm)). by injection Hm as <-. }
  rewrite Hmet. ssplit; try done. apply inv_with_metrics. split; cbn.
  - done.
  - rewrite Hrb. apply init_pool_ok. lia.
  - by rewrite Hmb.
  - rewrite Hp. apply pending_empty.
Qed.

(** ** Prefix hashes: the loop computes the hash chain of the full blocks *)

Fixpoint hashChain (prev : string) (chunks : list (list Z)) : list string :=
  match chunks with
  | [] => []
  | c :: chunks' => hashBlock prev c :: hashChain (hashBlock prev c) chunks'
  end.

Definition chunk (bs : Z) (tokens : list Z) (i : nat) : list Z :=
  take (Z.to_nat bs) (drop (i * Z.to_nat bs)%nat tokens).

Definition fullChunks (bs : Z) (tokens : list Z) : list (list Z) :=
  chunk bs tokens <$> seq 0 (Z.to_nat (len tokens / bs)).

Lemma len_hashChain prev cs : length (hashChain prev cs) = length cs.
Proof. revert prev. induction cs; intros; simpl; [done|]. by rewrite IHcs. Qed.

Lemma blockHashesFrom_chain bs tokens n i prev :
  0 < bs -> len tokens < two32 -> (Z.of_nat i + Z.of_nat n) * bs <= len tokens ->
  blockHashesFrom bs tokens n (Z.of_nat i) prev =
  Some (hashChain prev (chunk bs tokens <$> seq i n)).
Proof.
  intros Hbs Htok. revert i prev. induction n as [|n IH]; intros i prev Hn; [done|].
  assert (H1 : 0 <= Z.of_nat i * bs) by nia.
  assert (H2 : Z.of_nat i * bs + bs <= len tokens) by nia.
  cbn [blockHashesFrom]. rewrite (u32_small (Z.of_nat i * bs)) by lia.
  rewrite (u32_small (_ + bs)) by lia.
  assert (Hsl : slice tokens (Z.of_nat i * bs) (Z.of_nat i * bs + bs) = Some (chunk bs tokens i)).
  { unfold slice. rewrite !(proj2 (Z.ltb_ge _ _)) by lia. cbn. unfold chunk. f_equal. f_equal; [lia|].
    f_equal. lia. }
  rewrite Hsl. cbn [mbind option_bind seq fmap list_fmap hashChain].
  assert (H3 : (Z.of_nat i + Z.of_nat (S n)) * 1 <= (Z.of_nat i + Z.of_nat (S n)) * bs)
    by (apply Z.mul_le_mono_nonneg_l; lia).
  destruct n as [|n].
  - cbn. done.
  - rewrite (u32_small (Z.of_nat i + 1)) by lia.
    replace (Z.of_nat i + 1) with (Z.of_nat (S i)) by lia. rewrite IH; [done|lia].
Qed.

Lemma blockHashes_chain bs req :
  0 < bs -> len (req_TokenIDs req) < two32 ->
  blockHashes bs req = Some (hashChain (req_CacheSalt req) (fullChunks bs (req_TokenIDs req))).
Proof.
  intros Hbs Htok. pose proof (len_nonneg (req_TokenIDs req)). unfold blockHashes.
  rewrite (proj2 (Z.eqb_neq bs 0)), u32_small by lia.
  pose proof (Z.div_pos (len (req_TokenIDs req)) bs).
  apply (blockHashesFrom_chain bs _ _ 0); [done|done|].
  pose proof (Z.mul_div_le (len (req_TokenIDs req)) bs). lia.
Qed.

(** The number of blocks a prompt of [n] tokens may take from the cache. *)
Definition matchable (bs n : Z) : Z := if 0 <? n then (n - 1) / bs else 0.

Lemma matchable_bounds bs n :
  0 < bs -> 0 <= n -> 0 <= matchable bs n <= n / bs /\ (0 < n -> matchable bs n * bs < n).
Proof.
  intros Hbs Hn. unfold matchable. destruct (Z.ltb_spec 0 n) as [H|H].
  - pose proof (Z.div_pos (n - 1) bs). pose proof (Z.div_le_mono (n - 1) n bs).
    pose proof (Z.mul_div_le (n - 1) bs). lia.
  - pose proof (Z.div_pos n bs). lia.
Qed.

Lemma matchableBlockHashes_chain bs req :
  0 < bs -> len (req_TokenIDs req) < two32 ->
  let hs := hashChain (req_CacheSalt req) (fullChunks bs (req_TokenIDs req)) in
  matchableBlockHashes bs req =
    Some (hs, take (Z.to_nat (matchable bs (len (req_TokenIDs req)))) hs) /\
  len hs = len (req_TokenIDs req) / bs.
Proof.
  intros Hbs Htok hs. pose proof (len_nonneg (req_TokenIDs req)) as Hnn.
  pose proof (Z.div_pos (len (req_TokenIDs req)) bs) as Hdp.
  assert (Hlen : len hs = len (req_TokenIDs req) / bs).
  { unfold hs, len at 1. rewrite len_hashChain. unfold fullChunks. rewrite length_fmap, length_seq. lia. }
  split; [|done]. unfold matchableBlockHashes. rewrite blockHashes_chain by done.
  cbn [mbind option_bind]. fold hs. rewrite Hlen.
  change (if 0 <? len (req_TokenIDs req) then (len (req_TokenIDs req) - 1) / bs else 0)
    with (matchable bs (len (req_TokenIDs req))).
  destruct (matchable_bounds bs (len (req_TokenIDs req))) as [Hm _]; [done|done|].
  rewrite Z.min_r by lia. unfold slice. rewrite Hlen, !(proj2 (Z.ltb_ge _ _)) by lia.
  cbn [orb mbind option_bind]. by rewrite Z.sub_0_r, drop_0.
Qed.

(** ** MatchPrefix *)

(** The blocks of the longest run of indexed hashes. *)
Fixpoint cachedPrefix (c : gmap string Z) (hashes : list string) : list Z :=
  match hashes with
  | [] => []
  | h :: hashes' =>
      match c !! h with Some id => id :: cachedPrefix c hashes' | None => [] end
  end.

Lemma cachedPrefix_len c hs : len (cachedPrefix c hs) <= len hs.
Proof.
  induction hs as [|h hs IH]; cbn [cachedPrefix]; [done|]. destruct (c !! h); rewrite ?len_cons in *.
  - lia.
  - unfold len. cbn [length]. lia.
Qed.

Lemma cachedPrefix_lookup c hs k id :
  cachedPrefix c hs !! k = Some id -> exists h, hs !! k = Some h /\ c !! h = Some id.
Proof.
  revert k. induction hs as [|h hs IH]; intros k; simpl; [done|].
  destruct (c !! h) eqn:Hh; [|done]. destruct k as [|k]; simpl; [|apply IH].
  intros [= ->]. eauto.
Qed.

Lemma touch_ok_spec m p refs id :
  Rep m p -> PoolOK p refs -> 0 <= id < len (p_info p) -> len refs + 1 < two32 ->
  wp (touch [id]) (fun _ m' => exists p', Rep m' p' /\ PoolOK p' (id :: refs) /\
    content p' = content p /\ p_cached p' = p_cached p /\
    rest m' = rest m /\ m_metrics m' = m_metrics m) m.
Proof.
  intros HR HO Hid Hsm. destruct (pool_touch_ok _ _ _ HO Hid Hsm) as (p' & Hp & HO' & Hc & Hca).
  wp_use (touch_spec m p p' [id] HR).
  - cbn [pool_touches]. by rewrite Hp.
  - intros _ m' (HR' & Hr & Hm). exists p'. by ssplit.
Qed.

Lemma matchLoop_spec m p refs hashes acc :
  Rep m p -> PoolOK p refs -> len refs + len hashes < two32 ->
  wp (matchLoop hashes acc) (fun r m' => exists p',
    r = acc ++ cachedPrefix (p_cached p) hashes /\ Rep m' p' /\
    PoolOK p' (cachedPrefix (p_cached p) hashes ++ refs) /\
    content p' = content p /\ p_cached p' = p_cached p /\
    rest m' = rest m /\ m_metrics m' = m_metrics m) m.
Proof.
  revert m p refs acc. induction hashes as [|h hs IH]; intros m p refs acc HR HO Hsm.
  - simpl. wp_steps. exists p. rewrite app_nil_r. by ssplit.
  - cbn [matchLoop cachedPrefix]. wp_steps. rewrite (rep_cached _ _ HR), len_cons in *.
    pose proof (len_nonneg hs).
    destruct (p_cached p !! h) as [id|] eqn:Hh.
    + destruct (pi_cached _ (ok_inv _ _ HO) _ _ Hh) as (i & Hi & _).
      pose proof (idx_Some_range _ _ _ Hi) as Hr. wp_steps.
      wp_use (touch_ok_spec _ _ _ _ HR HO Hr); [lia|].
      intros _ m1 (p1 & HR1 & HO1 & Hc1 & Hca1 & Hr1 & Hm1).
      wp_use (IH m1 p1 (id :: refs) (acc ++ [id]) HR1 HO1); [len_lia|].
      intros r m' (p' & -> & HR' & HO' & Hc' & Hca' & Hr' & Hm').
      exists p'. rewrite Hca1 in *. rewrite <- app_assoc. ssplit; try congruence; [done| ].
      cbn. by rewrite Permutation_middle.
    + wp_steps. exists p. rewrite app_nil_r. by ssplit.
Qed.

Lemma pending_insert_fresh rb pd bs k l :
  rb !! k = None -> PendingOK rb pd bs -> PendingOK (<[k := l]> rb) pd bs.
Proof.
  intros Hk [Ht Hu]. split; [|done]. intros w a Ha.
  destruct (Ht w a Ha) as (? & ? & Htab & ?). ssplit; [done..| |done].
  rewrite lookup_insert_ne; [done|]. congruence.
Qed.

(** The fields the free list operations leave alone, one by one. *)
Lemma rest_fields m m' : rest m' = rest m ->
  m_executorID m' = m_executorID m /\ m_blockSize m' = m_blockSize m /\
  m_requestBlocks m' = m_requestBlocks m /\ m_pendingAllocations m' = m_pendingAllocations m.
Proof. unfold rest. intros [=]. by ssplit. Qed.

(** Reassemble the invariant after a change of the tables. *)
Lemma inv_intro m m' pins p bs :
  Rep m p -> m_blocks m' = m_blocks m -> m_freeHead m' = m_freeHead m ->
  m_freeTail m' = m_freeTail m -> m_freeCount m' = m_freeCount m ->
  m_cachedBlocks m' = m_cachedBlocks m ->
  PoolOK p (pins ++ tab (m_requestBlocks m')) ->
  m_blockSize m' = bs -> 0 < bs < two32 ->
  PendingOK (m_requestBlocks m') (m_pendingAllocations m') bs ->
  Inv m' pins p.
Proof. intros HR ??????<- ??. split; try done. by apply (rep_ext m). Qed.

Lemma MatchPrefix_inv m pins p req :
  Inv m pins p -> m_requestBlocks m !! req_RequestId req = None ->
  len (req_TokenIDs req) < two32 ->
  len (pins ++ tab (m_requestBlocks m)) + len (req_TokenIDs req) / m_blockSize m < two32 ->
  let hs := hashChain (req_CacheSalt req) (fullChunks (m_blockSize m) (req_TokenIDs req)) in
  let ids := cachedPrefix (m_cachedBlocks m)
    (take (Z.to_nat (matchable (m_blockSize m) (len (req_TokenIDs req)))) hs) in
  wp (MatchPrefix req) (fun r m' =>
    r = (mkPrefixMatch (negb (len ids =? 0)) (len ids * m_blockSize m) ids hs,
         req <| req_Cache := Some (mkPrefixMatch (negb (len ids =? 0))
                  (len ids * m_blockSize m) ids hs) |>) /\
    m_requestBlocks m' = <[req_RequestId req := ids]> (m_requestBlocks m) /\
    m_cachedBlocks m' = m_cachedBlocks m /\ m_blockSize m' = m_blockSize m /\
    m_executorID m' = m_executorID m /\
    m_pendingAllocations m' = m_pendingAllocations m /\
    exists p', Inv m' pins p' /\ content p' = content p) m.
Proof.
  intros HI Hfresh Htok Hsm hs ids. pose proof (inv_bs _ _ _ HI) as Hbs.
  destruct (matchableBlockHashes_chain (m_blockSize m) req) as [Hmh Hlen]; [lia|done|].
  fold hs in Hmh, Hlen. pose proof (len_nonneg (req_TokenIDs req)) as Hnn.
  set (hm := take _ hs) in *.
  assert (Hhm : len hm <= len (req_TokenIDs req) / m_blockSize m).
  { rewrite <- Hlen. unfold hm, len. rewrite length_take. lia. }
  assert (Hids : 0 <= len ids * m_blockSize m <= len (req_TokenIDs req)).
  { pose proof (cachedPrefix_len (m_cachedBlocks m) hm) as Hcl. fold ids in Hcl.
    pose proof (len_nonneg ids). pose proof (Z.mul_div_le (len (req_TokenIDs req)) (m_blockSize m)).
    nia. }
  assert (Hids2 : 0 <= len ids <= len (req_TokenIDs req)) by (pose proof (len_nonneg ids); nia).
  unfold MatchPrefix. wp_steps. eapply wp_getsO; [exact Hmh|]. wp_steps.
  wp_use (matchLoop_spec m p _ hm [] (inv_rep _ _ _ HI) (inv_ok _ _ _ HI)); [lia|].
  intros r m1 (p' & -> & HR' & HO' & Hc & Hca & Hr & Hm). cbn [app].
  rewrite <- (rep_cached _ _ (inv_rep _ _ _ HI)) in HO' |- *. fold ids in HO' |- *.
  apply rest_fields in Hr as (He1 & Hb1 & Hrb1 & Hp1).
  wp_steps. apply wp_observe. intros l. wp_steps. cbn. rewrite Hb1, (u32_small (len ids)), u32_small by lia.
  ssplit; [done|by rewrite Hrb1| |done..|].
  { rewrite (rep_cached _ _ HR'), Hca. symmetry. apply HI. }
  exists p'. split; [|done]. apply (inv_intro m1 _ _ _ (m_blockSize m)); [exact HR'|done..| |exact Hb1|apply HI|].
  - cbn. rewrite Hrb1, tab_insert_fresh by done.
    by rewrite (app_assoc pins ids), (Permutation_app_comm pins ids), <- app_assoc.
  - cbn. rewrite Hrb1, Hp1. by apply pending_insert_fresh, HI.
Qed.

(** ** FreeRequest *)

Lemma pending_filter rb pd bs rid :
  PendingOK rb pd bs ->
  PendingOK (delete rid rb) (filter (fun wa => ba_RequestID wa.2 <> rid) pd) bs.
Proof.
  intros [Ht Hu]. split.
  - intros w a [Ha Hne]%map_lookup_filter_Some. cbn in Hne.
    destruct (Ht w a Ha) as (? & ? & Htab & ?). ssplit; [done..| |done].
    by rewrite lookup_delete_ne.
  - intros w1 w2 a1 a2 [H1 _]%map_lookup_filter_Some [H2 _]%map_lookup_filter_Some. by apply Hu.
Qed.

Lemma push_all_spec m p refs ids :
  Rep m p -> PoolOK p (ids ++ refs) ->
  wp (forM_ ids pushFree) (fun _ m' => exists p', Rep m' p' /\ PoolOK p' refs /\
    content p' = content p /\ p_cached p' = p_cached p /\ rest m' = rest m /\
    m_metrics m' = m_metrics m) m.
Proof.
  intros HR HO. destruct (pool_pushes_ok _ _ _ HO) as (p' & Hp & HO' & Hc & Hca).
  wp_use (pushes_spec _ _ _ _ _ HR HO Hp). intros _ m' (HR' & Hr & Hm). exists p'. by ssplit.
Qed.

Lemma FreeRequest_inv m pins p rid :
  Inv m pins p ->
  wp (FreeRequest rid) (fun _ m' =>
    m_requestBlocks m' = delete rid (m_requestBlocks m) /\ no_pending rid m' /\
    m_pendingAllocations m' =
      filter (fun wa => ba_RequestID wa.2 <> rid) (m_pendingAllocations m) /\
    m_cachedBlocks m' = m_cachedBlocks m /\ m_blockSize m' = m_blockSize m /\
    m_executorID m' = m_executorID m /\
    exists p', Inv m' pins p' /\ content p' = content p) m.
Proof.
  intros HI. pose proof (inv_ok _ _ _ HI) as HO. unfold FreeRequest. wp_steps.
  set (m0 := m <| m_requestBlocks := _ |> <| m_pendingAllocations := _ |>).
  assert (HR0 : Rep m0 p) by (apply (rep_ext m); [apply HI|done..]).
  wp_use (push_all_spec m0 p (pins ++ tab (delete rid (m_requestBlocks m)))
            (default [] (m_requestBlocks m !! rid)) HR0).
  { rewrite (tab_split _ rid) in HO.
    by rewrite (app_assoc pins), (Permutation_app_comm pins), <- app_assoc in HO. }
  intros _ m1 (p' & HR' & HO' & Hc & Hca & Hr & Hm).
  apply rest_fields in Hr as (He1 & Hb1 & Hrb1 & Hp1). cbn in He1, Hb1, Hrb1, Hp1.
  apply wp_observe. intros l. cbn. ssplit; try done.
  - intros w a. cbn. rewrite Hp1. by intros [_ Hne]%map_lookup_filter_Some.
  - rewrite (rep_cached _ _ HR'), Hca. symmetry. apply HI.
  - exists p'. split; [|done].
    apply (inv_intro m1 _ _ _ (m_blockSize m)); [exact HR'|done..| |exact Hb1|apply HI|]; cbn.
    + by rewrite Hrb1.
    + rewrite Hrb1, Hp1. by apply pending_filter, HI.
Qed.

(** ** Rewriting the content of a block *)

Lemma pool_upd_ok p refs id i i' c :
  PoolOK p refs -> idx (p_info p) id = Some i -> i_RefCount i' = i_RefCount i ->
  (forall h x, c !! h = Some x <->
     if decide (x = id) then i_Cached i' = true /\ i_Hash i' = h else p_cached p !! h = Some x) ->
  PoolOK (p <| p_info := upd (p_info p) id i' |> <| p_cached := c |>) refs.
Proof.
  intros [HI Hct Hr Hs] Hi Hrc Hc. pose proof (idx_Some_range _ _ _ Hi) as Hid.
  assert (Hlk : forall x j, idx (upd (p_info p) id i') x = Some j ->
            exists j0, idx (p_info p) x = Some j0 /\ i_RefCount j = i_RefCount j0).
  { intros x j. rewrite idx_upd by done. case_decide; [intros [= <-]; subst x; eauto|eauto]. }
  split; [split|..]; cbn [p_free p_info p_cached setf].
  - apply HI.
  - intros x j (j0 & Hj0 & ->)%Hlk. by apply (pi_ref _ HI).
  - intros x j (j0 & Hj0 & ->)%Hlk. by eapply (pi_range _ HI).
  - intros x Hx. cbn. rewrite len_upd. by apply (pi_free _ HI).
  - intros h x. cbn. rewrite Hc, idx_upd by done. case_decide as Hx.
    + intros [??]. subst x. rewrite decide_True by done. eauto.
    + rewrite decide_False by done. intros Hh. by apply (pi_cached _ HI).
  - intros x j. cbn. rewrite idx_upd by done. rewrite Hc. case_decide as Hx.
    + intros [= <-]. subst x. by rewrite decide_True by done.
    + rewrite decide_False by done. by apply (pi_cached_rev _ HI).
  - intros x j (j0 & Hj0 & ->)%Hlk. by apply Hct.
  - intros x Hx. cbn. rewrite len_upd. by apply Hr.
  - done.
Qed.

Lemma cached_of p refs h x : PoolOK p refs -> p_cached p !! h = Some x <->
  exists i, idx (p_info p) x = Some i /\ i_Cached i = true /\ i_Hash i = h.
Proof.
  intros [HI _ _ _]. split; [apply (pi_cached _ HI)|].
  intros (i & Hi & Hc & <-). by apply (pi_cached_rev _ HI).
Qed.

Lemma pool_set_count p refs id i n :
  PoolOK p refs -> idx (p_info p) id = Some i ->
  PoolOK (p <| p_info := upd (p_info p) id (i <| i_TokenCount := n |>) |>) refs.
Proof.
  intros HO Hi.
  set (i' := i <| i_TokenCount := n |>).
  apply (pool_upd_ok p refs id i i' (p_cached p) HO Hi eq_refl). intros h x.
  rewrite (cached_of _ _ _ _ HO). case_decide as Hx; [|by rewrite (cached_of _ _ _ _ HO)]. subst x. cbn. split.
  - intros (j & Hj & ? & ?). assert (j = i) as -> by congruence. done.
  - intros [??]. eauto.
Qed.

Lemma pool_set_cached p refs id i h n :
  PoolOK p refs -> idx (p_info p) id = Some i ->
  (i_Cached i = false /\ p_cached p !! h = None \/ i_Cached i = true /\ i_Hash i = h) ->
  PoolOK (p <| p_info := upd (p_info p) id (mkInfo h (i_RefCount i) n true) |>
            <| p_cached := <[h := id]> (p_cached p) |>) refs.
Proof.
  intros HO Hi Hcase. apply (pool_upd_ok _ _ _ i); [done|done|done|]. intros g x. cbn.
  rewrite lookup_insert_Some. case_decide as Hx.
  - subst x. split; [intros [?|[Hne Hg]]; [naive_solver|exfalso]|intros [_ ->]; by left].
    apply (cached_of _ _ _ _ HO) in Hg as (j & Hj & Hjc & Hjh).
    assert (j = i) as -> by congruence. destruct Hcase as [[? _]|[_ ?]]; congruence.
  - split; [intros [[? ?]|[_ ?]]; congruence|]. intros Hg. right. split; [|done].
    intros <-. destruct Hcase as [[_ Hn]|[Hc <-]]; [congruence|].
    pose proof (pi_cached_rev _ (ok_inv _ _ HO) _ _ Hi Hc). congruence.
Qed.

(** A block assignment that keeps the links. *)
Lemma setBlock_info_spec m p id f i :
  Rep m p -> idx (p_info p) id = Some i ->
  (forall b, blk_InFreeQueue (f b) = blk_InFreeQueue b /\ blk_PrevFree (f b) = blk_PrevFree b /\
             blk_NextFree (f b) = blk_NextFree b) ->
  forall i', (forall b, info_of b = i -> info_of (f b) = i') ->
  wp (setBlock id f) (fun _ m' => Rep m' (p <| p_info := upd (p_info p) id i' |>) /\
    rest m' = rest m /\ m_metrics m' = m_metrics m /\ m_cachedBlocks m' = m_cachedBlocks m) m.
Proof.
  intros HR Hi Hf i' Hi'. destruct (rep_info_block _ _ HR _ _ Hi) as (b & Hb & Hbi).
  eapply wp_setBlock; [done|]. ssplit; [|done..]. destruct (Hf b) as (H1 & H2 & H3).
  rewrite <- (Hi' b) by done. by apply (rep_upd_info _ _ _ b).
Qed.

Lemma getBlock_info m p id i Q :
  Rep m p -> idx (p_info p) id = Some i ->
  (forall b, info_of b = i -> idx (m_blocks m) id = Some b -> Q b m) -> wp (getBlock id) Q m.
Proof.
  intros HR Hi HQ. destruct (rep_info_block _ _ HR _ _ Hi) as (b & Hb & Hbi).
  eapply wp_getBlock; [done|]. by apply HQ.
Qed.

(** ** Commit *)

(** What the first loop of [Commit] does to the pool: token counts only. *)
Record Counted (bs ta i : Z) (table : list Z) (p p' : Pool) : Prop := mkCounted {
  ct_free : p_free p' = p_free p;
  ct_cached : p_cached p' = p_cached p;
  ct_same : forall id j', idx (p_info p') id = Some j' -> exists j, idx (p_info p) id = Some j /\
    i_Hash j' = i_Hash j /\ i_RefCount j' = i_RefCount j /\ i_Cached j' = i_Cached j;
  ct_other : forall id, id ∉ table -> idx (p_info p') id = idx (p_info p) id;
  ct_count : NoDup table -> forall (k : nat) id, table !! k = Some id ->
    exists j', idx (p_info p') id = Some j' /\
      i_TokenCount j' = commitTokens bs ta (i + Z.of_nat k)
}.

Lemma commitCounts_spec m p refs ta i table :
  Rep m p -> PoolOK p refs -> (forall x, x ∈ table -> 0 <= x < len (p_info p)) ->
  wp (commitCounts ta i table) (fun _ m' => exists p', Rep m' p' /\ PoolOK p' refs /\
    Counted (m_blockSize m) ta i table p p' /\ rest m' = rest m) m.
Proof.
  revert m p i. induction table as [|x table IH]; intros m p i HR HO Hr.
  - simpl. wp_steps. exists p. ssplit; try done. split; try done; eauto.
  - destruct (proj2 (idx_is_Some (p_info p) x)) as [j Hj]; [apply Hr; by left|].
    pose proof (idx_Some_range _ _ _ Hj) as Hx.
    cbn [commitCounts]. wp_steps. set (n := commitTokens _ _ _).
    set (j1 := j <| i_TokenCount := n |>).
    eapply wp_mono; [apply (setBlock_info_spec m p x _ j HR Hj) with (i' := j1);
      [by intros; ssplit|by intros ? <-]|cbn beta].
    intros _ m1 (HR1 & Hr1 & _). pose proof (pool_set_count _ _ _ _ n HO Hj) as HO1.
    wp_use (IH m1 _ (i + 1) HR1 HO1).
    { intros y Hy. cbn. rewrite len_upd. apply Hr. by right. }
    intros _ m2 (p2 & HR2 & HO2 & [Hf Hc Hs Ho Hk] & Hr2).
    exists p2. ssplit; [done..| |congruence].
    replace (m_blockSize m1) with (m_blockSize m) in Hk by (unfold rest in Hr1; congruence).
    cbn in Hf, Hc, Hs, Ho. split; [done|done|..].
    + intros id j' (j0 & Hj0 & ? & ? & ?)%Hs. rewrite idx_upd in Hj0 by done.
      case_decide as Hid; [|by eauto]. injection Hj0 as <-. subst id. exists j. by ssplit.
    + intros id [Hne Hid]%not_elem_of_cons. rewrite Ho by done.
      apply idx_upd_ne; [done|lia].
    + intros [Hxt Hnd]%NoDup_cons [|k] id; simpl.
      * intros [= <-]. exists j1. rewrite Ho by done. rewrite Z.add_0_r.
        split; [by apply idx_upd_eq|done].
      * intros Hid. replace (i + Z.of_nat (S k)) with (i + 1 + Z.of_nat k) by lia. by apply Hk.
Qed.

(** What the second loop does: it marks full prefill blocks as cached. *)
Record CachedBy (a : BlockAllocation) (i : Z) (table : list Z) (p p' : Pool) : Prop := mkCachedBy {
  cb_free : p_free p' = p_free p;
  cb_len : len (p_info p') = len (p_info p);
  cb_same : forall id j', idx (p_info p') id = Some j' -> exists j, idx (p_info p) id = Some j /\
    i_RefCount j' = i_RefCount j /\ i_TokenCount j' = i_TokenCount j /\
    (j' = j \/ (ba_Phase a = WorkPhasePrefill /\ i_TokenCount j = ba_BlockSize a /\
       i_Cached j = false /\ i_Cached j' = true /\
       exists k : nat, table !! k = Some id /\
         idx (ba_BlockHashes a) (i + Z.of_nat k) = Some (i_Hash j')));
  cb_mono : p_cached p ⊆ p_cached p';
  cb_all : ba_Phase a = WorkPhasePrefill -> forall (k : nat) id j h, table !! k = Some id ->
    idx (p_info p) id = Some j -> i_TokenCount j = ba_BlockSize a ->
    idx (ba_BlockHashes a) (i + Z.of_nat k) = Some h ->
    is_Some (p_cached p' !! h) \/ exists h', p_cached p' !! h' = Some id
}.

Lemma cachedby_keep a i x p j :
  idx (p_info p) x = Some j ->
  (ba_Phase a = WorkPhasePrefill -> forall h, i_TokenCount j = ba_BlockSize a ->
     idx (ba_BlockHashes a) i = Some h ->
     is_Some (p_cached p !! h) \/ exists h', p_cached p !! h' = Some x) ->
  CachedBy a i [x] p p.
Proof.
  intros Hj Hall. split; try done.
  - intros id j' Hj'. exists j'. ssplit; try done. by left.
  - intros Hph [|k] id j0 h; simpl; [|done]. intros [= <-] Hj0 Ht Hh.
    rewrite Z.add_0_r in Hh. apply Hall; [done|congruence|done].
Qed.

Lemma cachedby_mark a i x p j h :
  idx (p_info p) x = Some j -> ba_Phase a = WorkPhasePrefill ->
  i_TokenCount j = ba_BlockSize a -> i_Cached j = false ->
  idx (ba_BlockHashes a) i = Some h -> p_cached p !! h = None ->
  CachedBy a i [x] p
    (p <| p_info := upd (p_info p) x (mkInfo h (i_RefCount j) (i_TokenCount j) true) |>
       <| p_cached := <[h := x]> (p_cached p) |>).
Proof.
  intros Hj Hph Ht Hc Hh Hn. pose proof (idx_Some_range _ _ _ Hj) as Hx. split; cbn.
  - done.
  - apply len_upd.
  - intros id j'. rewrite idx_upd by done. case_decide as Hid.
    + intros [= <-]. subst id. exists j. ssplit; [done..|]. right. ssplit; try done.
      exists 0%nat. by rewrite Z.add_0_r.
    + intros Hj'. exists j'. ssplit; try done. by left.
  - by apply insert_subseteq.
  - intros _ k id j0 h0. destruct k; [|done]. simpl. intros [= <-] _ _ _. right. exists h.
    apply lookup_insert_eq.
Qed.

Lemma cacheBlock_spec m p refs a i x :
  Rep m p -> PoolOK p refs -> 0 <= x < len (p_info p) -> 0 <= i ->
  wp (cacheBlock a i x) (fun _ m' => exists p', Rep m' p' /\ PoolOK p' refs /\
    CachedBy a i [x] p p' /\ rest m' = rest m) m.
Proof.
  intros HR HO Hx Hi. destruct (proj2 (idx_is_Some (p_info p) x) Hx) as [j Hj].
  unfold cacheBlock. wp_steps. eapply getBlock_info; [done..|]. intros b Hbj Hb.
  case_match eqn:Hcond.
  { wp_steps. exists p. ssplit; [done|done| |done]. eapply cachedby_keep; [done|].
    intros Hph h Ht Hh.
    rewrite !orb_true_iff, bool_decide_eq_true_2 in Hcond by done.
    destruct Hcond as [[[?|Hc]|Ht']|Hle].
    - done.
    - right. exists (i_Hash j). apply (pi_cached_rev _ (ok_inv _ _ HO)); [done|]. by rewrite <- Hbj.
    - apply negb_true_iff, Z.eqb_neq in Ht'. rewrite <- Hbj in Ht. done.
    - apply Z.leb_le in Hle. apply idx_Some_range in Hh. lia. }
  rewrite !orb_false_iff in Hcond. destruct Hcond as [[[Hph Hnc] Ht] Hlt].
  apply negb_false_iff, bool_decide_eq_true in Hph.
  apply negb_false_iff, Z.eqb_eq in Ht. apply Z.leb_gt in Hlt.
  destruct (proj2 (idx_is_Some (ba_BlockHashes a) i)) as [h Hh]; [lia|].
  wp_steps. eapply wp_getsO; [exact Hh|]. wp_steps. rewrite (rep_cached _ _ HR).
  destruct (p_cached p !! h) as [y|] eqn:Hy.
  { wp_steps. exists p. ssplit; [done|done| |done]. eapply cachedby_keep; [done|].
    intros _ h' _ Hh'. left. replace h' with h by congruence. eauto. }
  set (j1 := mkInfo h (i_RefCount j) (i_TokenCount j) true). wp_steps.
  eapply wp_mono; [apply (setBlock_info_spec m p x _ j HR Hj) with (i' := j1);
    [by intros; ssplit|by intros ? <-]|cbn beta].
  intros _ m1 (HR1 & Hr1 & Hm1 & Hca1). apply wp_mod.
  exists (p <| p_info := upd (p_info p) x j1 |> <| p_cached := <[h := x]> (p_cached p) |>).
  ssplit; [| | |exact Hr1].
  - apply (rep_set_cached _ _ (<[h := x]> (p_cached p))) in HR1.
    rewrite Hca1, (rep_cached _ _ HR). exact HR1.
  - apply pool_set_cached; [done|done|]. left. split; [by rewrite <- Hbj|done].
  - apply cachedby_mark; try done; by rewrite <- Hbj.
Qed.

Lemma cachedby_cons a i x table p p1 p2 :
  CachedBy a i [x] p p1 -> CachedBy a (i + 1) table p1 p2 -> CachedBy a i (x :: table) p p2.
Proof.
  intros [Hf1 Hl1 Hs1 Hm1 Ha1] [Hf2 Hl2 Hs2 Hm2 Ha2]. split.
  - congruence.
  - congruence.
  - intros id j' (j1 & Hj1 & Hr1 & Ht1 & Hc1)%Hs2.
    destruct (Hs1 _ _ Hj1) as (j & Hj & Hr & Ht & Hc). exists j. ssplit; [done|congruence..|].
    destruct Hc1 as [->|(Hph & ? & ? & ? & k & Hk & Hh)].
    + destruct Hc as [->|(? & ? & ? & ? & k & Hk & Hh)]; [by left|right]. ssplit; try done.
      destruct k; [|done]. simpl in Hk. exists 0%nat. by simplify_eq/=.
    + destruct Hc as [->|(? & ? & ? & ? & _)]; [|congruence]. right. ssplit; try done.
      exists (S k). split; [done|]. by replace (i + Z.of_nat (S k)) with (i + 1 + Z.of_nat k) by lia.
  - by transitivity (p_cached p1).
  - intros Hph [|k] id j h Hk Hj Ht Hh; simpl in Hk.
    + destruct (Ha1 Hph 0%nat id j h) as [[y Hy]|[h' Hh']]; try done.
      * left. exists y. by eapply lookup_weaken.
      * right. exists h'. by eapply lookup_weaken.
    + destruct (proj2 (idx_is_Some (p_info p1) id)) as [j1 Hj1];
        [rewrite Hl1; by eapply idx_Some_range|].
      destruct (Hs1 _ _ Hj1) as (j0 & Hj0 & _ & Ht0 & _).
      apply (Ha2 Hph k id j1 h); try done; [congruence|].
      by replace (i + 1 + Z.of_nat k) with (i + Z.of_nat (S k)) by lia.
Qed.

Lemma cacheBlocks_spec m p refs a i table :
  Rep m p -> PoolOK p refs -> (forall x, x ∈ table -> 0 <= x < len (p_info p)) -> 0 <= i ->
  wp (cacheBlocks a i table) (fun _ m' => exists p', Rep m' p' /\ PoolOK p' refs /\
    CachedBy a i table p p' /\ rest m' = rest m) m.
Proof.
  revert m p i. induction table as [|x table IH]; intros m p i HR HO Hr Hi.
  - simpl. wp_steps. exists p. ssplit; try done. split; try done.
    intros id j Hj. exists j. ssplit; try done. by left.
  - cbn [cacheBlocks]. wp_steps.
    wp_use (cacheBlock_spec _ _ _ a i x HR HO); [apply Hr; by left|done|].
    intros _ m1 (p1 & HR1 & HO1 & HC1 & Hr1).
    wp_use (IH m1 p1 (i + 1) HR1 HO1); [|lia|].
    { intros y Hy. rewrite (cb_len _ _ _ _ _ HC1). apply Hr. by right. }
    intros _ m2 (p2 & HR2 & HO2 & HC2 & Hr2). exists p2.
    ssplit; [done|done|by eapply cachedby_cons|congruence].
Qed.

Lemma pending_delete rb pd bs w : PendingOK rb pd bs -> PendingOK rb (delete w pd) bs.
Proof.
  intros [Ht Hu]. split.
  - intros v a [_ Ha]%lookup_delete_Some. by apply Ht.
  - intros w1 w2 a1 a2 [_ H1]%lookup_delete_Some [_ H2]%lookup_delete_Some. by apply Hu.
Qed.

Lemma ok_tab_range p pins rb k l x :
  PoolOK p (pins ++ tab rb) -> rb !! k = Some l -> x ∈ l -> 0 <= x < len (p_info p).
Proof.
  intros HO Hk Hx. apply (ok_range _ _ HO). rewrite (tab_split rb k), Hk. simpl.
  rewrite !elem_of_app. tauto.
Qed.

(** The pool after a commit of [a]. *)
Definition Committed (bs : Z) (a : BlockAllocation) (p p' : Pool) : Prop :=
  exists pc, Counted bs (ba_TokensAfterCommit a) 0 (ba_BlockTable a) p pc /\
             CachedBy a 0 (ba_BlockTable a) pc p'.

Lemma Commit_inv m pins p w a :
  Inv m pins p -> m_pendingAllocations m !! w = Some a ->
  wp (Commit w) (fun _ m' =>
    m_requestBlocks m' = m_requestBlocks m /\
    m_pendingAllocations m' = delete w (m_pendingAllocations m) /\
    m_blockSize m' = m_blockSize m /\ m_executorID m' = m_executorID m /\
    exists p', Inv m' pins p' /\ Committed (m_blockSize m) a p p') m.
Proof.
  intros HI Ha. destruct (pd_table _ _ _ (inv_pending _ _ _ HI) _ _ Ha) as (_ & Hbs & Htab & _).
  unfold Commit. wp_steps. rewrite Ha. wp_steps.
  set (m0 := m <| m_pendingAllocations := _ |>).
  assert (HR0 : Rep m0 p) by (apply (rep_ext m); [apply HI|done..]).
  assert (Hr0 : forall x, x ∈ ba_BlockTable a -> 0 <= x < len (p_info p))
    by (intros; by eapply ok_tab_range; [apply HI|..]).
  wp_use (commitCounts_spec m0 p _ (ba_TokensAfterCommit a) 0 (ba_BlockTable a) HR0 (inv_ok _ _ _ HI) Hr0).
  intros _ m1 (p1 & HR1 & HO1 & HC1 & Hr1). wp_steps.
  wp_use (cacheBlocks_spec m1 p1 _ a 0 (ba_BlockTable a) HR1 HO1); [|done|].
  { intros x Hx. by eapply (ok_tab_range p1). }
  intros _ m2 (p2 & HR2 & HO2 & HC2 & Hr2). apply wp_observe. intros l. cbn.
  rewrite Hr1 in Hr2. apply rest_fields in Hr2 as (He & Hb & Hrb & Hp). cbn in He, Hb, Hrb, Hp.
  ssplit; [done..|]. exists p2. split; [|by exists p1].
  apply (inv_intro m2 _ _ _ (m_blockSize m)); [exact HR2|done..| |exact Hb|apply HI|]; cbn.
  - by rewrite Hrb.
  - rewrite Hrb, Hp. by apply pending_delete, HI.
Qed.

Lemma Commit_unknown m w :
  m_pendingAllocations m !! w = None -> wp (Commit w) (fun _ m' => m' = m) m.
Proof. intros H. unfold Commit. wp_steps. rewrite H. by wp_steps. Qed.

(** The token count of the [i]-th block of a table after [ta] tokens. *)
Lemma commitTokens_full bs ta i :
  0 < bs < two32 -> 0 <= i -> (i + 1) * bs < two32 -> 0 <= ta < two32 ->
  commitTokens bs ta i = Z.max 0 (Z.min bs (ta - i * bs)) /\
  (commitTokens bs ta i = bs <-> (i + 1) * bs <= ta).
Proof.
  intros Hbs Hi Hov Hta.
  assert (H0 : 0 <= i * bs) by nia. assert (H1 : i * 1 <= i * bs) by nia.
  assert (Heq : commitTokens bs ta i = Z.max 0 (Z.min bs (ta - i * bs))).
  { unfold commitTokens. rewrite (u32_small i), (u32_small (i * bs)) by lia.
    destruct (Z.leb_spec ta (i * bs)); [lia|]. rewrite u32_small by lia.
    destruct (Z.leb_spec bs (ta - i * bs)); lia. }
  split; [done|]. rewrite Heq. lia.
Qed.

(** ** AllocateBlocks *)

(** The blocks a work item still needs on top of [old]. *)
Definition neededBlocks (m : manager) (work : WorkItem) (old : list Z) : Z :=
  Z.max 0 (ceilDiv (requiredKVTokens work) (m_blockSize m) - len old).

(** The work item's request has the table [old]: from an earlier step, or
    nothing at all and nothing matched. *)
Definition has_table (m : manager) (work : WorkItem) (old : list Z) : Prop :=
  m_requestBlocks m !! wi_RequestId work = Some old \/
  (m_requestBlocks m !! wi_RequestId work = None /\ old = [] /\
   exists c, wi_Cache work = Some c /\ pm_BlockIDs c = []).

Lemma existingBlocks_spec m work old Q :
  has_table m work old -> Q old m -> wp (existingBlocks work) Q m.
Proof.
  intros [Ht|(Ht & -> & c & Hc & Hb)] HQ; unfold existingBlocks; wp_steps; rewrite Ht.
  - by wp_steps.
  - wp_steps. eapply wp_getsO; [exact Hc|]. rewrite Hb. by wp_steps.
Qed.

Lemma ceilDiv_range v d : 0 < d -> 0 <= ceilDiv v d < two32.
Proof.
  intros Hd. unfold ceilDiv. destruct (v =? 0); [done|].
  pose proof (u32_range (u32 (v + d) - 1)) as Hr.
  pose proof (Z.div_pos (u32 (u32 (v + d) - 1)) d).
  pose proof (Z.div_le_upper_bound (u32 (u32 (v + d) - 1)) d (u32 (u32 (v + d) - 1))). nia.
Qed.

(** [ceilDiv] is the ceiling of the quotient as long as [v + divisor] fits. *)
Lemma ceilDiv_correct v d :
  0 <= v -> 0 < d -> v + d < two32 ->
  ceilDiv v d * d >= v /\ (ceilDiv v d - 1) * d < v.
Proof.
  intros Hv Hd Hs. unfold ceilDiv. destruct (Z.eqb_spec v 0) as [->|]; [lia|].
  rewrite (u32_small (v + d)), u32_small by lia.
  pose proof (Z.mul_div_le (v + d - 1) d). pose proof (Z.mul_succ_div_gt (v + d - 1) d). lia.
Qed.

Lemma pending_insert rb pd bs rid old a :
  PendingOK rb pd bs -> (forall w b, pd !! w = Some b -> ba_RequestID b <> rid) ->
  ba_RequestID a = rid -> ba_BlockSize a = bs -> ba_BlockTable a = old ++ ba_AllocatedBlocks a ->
  PendingOK (<[rid := ba_BlockTable a]> rb) (<[ba_WorkID a := a]> pd) bs.
Proof.
  intros [Ht Hu] Hno Hrid Hbs Htab. split.
  - intros w b [[<- <-]|[Hne Hb]]%lookup_insert_Some.
    + ssplit; [done|done| |by exists old]. rewrite Hrid. apply lookup_insert_eq.
    + destruct (Ht w b Hb) as (? & ? & Hl & ?). ssplit; [done|done| |done].
      rewrite lookup_insert_ne; [done|]. intros E. by apply (Hno w b Hb).
  - intros w1 w2 a1 a2 [[<- <-]|[Hne1 H1]]%lookup_insert_Some
      [[<- <-]|[Hne2 H2]]%lookup_insert_Some E; try done.
    + exfalso. apply (Hno _ _ H2). congruence.
    + exfalso. apply (Hno _ _ H1). congruence.
    + by eapply Hu.
Qed.

Lemma has_table_tab m work old :
  has_table m work old ->
  tab (m_requestBlocks m) ≡ₚ old ++ tab (delete (wi_RequestId work) (m_requestBlocks m)).
Proof.
  intros [Ht|(Ht & -> & _)]; rewrite (tab_split _ (wi_RequestId work)), Ht; done.
Qed.

(** What a successful [AllocateBlocks] records. *)
Definition allocationOf (m : manager) (work : WorkItem) (c : PrefixMatch) (old ids : list Z)
    : BlockAllocation := {|
  ba_RequestID := wi_RequestId work;
  ba_WorkID := wi_WorkId work;
  ba_BlockSize := m_blockSize m;
  ba_Phase := wi_Phase work;
  ba_BlockTable := old ++ ids;
  ba_BlockHashes := pm_HashesTotal c;
  ba_AllocatedBlocks := ids;
  ba_TokensAfterCommit := requiredKVTokens work
|}.

Definition Allocated (m : manager) (pins : list Z) (p : Pool) (work : WorkItem)
    (c : PrefixMatch) (old : list Z) (r : bool * WorkItem) (m' : manager) : Prop :=
  exists ids p', ids = take (Z.to_nat (neededBlocks m work old)) (p_free p) /\
    let a := allocationOf m work c old ids in
    r = (true, work <| wi_BlockAllocation := Some a |>) /\
    m_requestBlocks m' = <[wi_RequestId work := old ++ ids]> (m_requestBlocks m) /\
    m_pendingAllocations m' = <[wi_WorkId work := a]> (m_pendingAllocations m) /\
    m_blockSize m' = m_blockSize m /\ m_executorID m' = m_executorID m /\
    Inv m' pins p' /\ Popped p p' ids.

Lemma AllocateBlocks_inv m pins p work c old :
  Inv m pins p -> has_table m work old -> wi_Cache work = Some c ->
  no_pending (wi_RequestId work) m ->
  (neededBlocks m work old <= len (p_free p) ->
   len (pins ++ tab (m_requestBlocks m)) + neededBlocks m work old < two32) ->
  wp (AllocateBlocks work) (fun r m' =>
    if len (p_free p) <? neededBlocks m work old
    then r = (false, work) /\
         m' = m <| m_metrics := m_metrics m ++ [IncAllocationFailure (m_executorID m)] |>
    else Allocated m pins p work c old r m') m.
Proof.
  intros HI Hold Hc Hno Hsm. pose proof (inv_bs _ _ _ HI) as Hbs.
  pose proof (has_table_tab _ _ _ Hold) as Htab.
  pose proof (ceilDiv_range (requiredKVTokens work) (m_blockSize m)) as Hcd.
  assert (Holdlen : len old < two32).
  { pose proof (ok_small _ _ (inv_ok _ _ _ HI)) as Hs. rewrite Htab, !len_app in Hs.
    pose proof (len_nonneg pins). pose proof (len_nonneg (tab (delete (wi_RequestId work) (m_requestBlocks m)))).
    lia. }
  pose proof (len_nonneg old) as Hol.
  unfold AllocateBlocks. wp_steps. apply (existingBlocks_spec m work old); [done|]. wp_steps.
  assert (Hneed : (if u32 (len old) <? ceilDiv (requiredKVTokens work) (m_blockSize m)
    then ceilDiv (requiredKVTokens work) (m_blockSize m) -u u32 (len old) else 0)
    = neededBlocks m work old).
  { unfold neededBlocks. rewrite (u32_small (len old)) by lia.
    destruct (Z.ltb_spec (len old) (ceilDiv (requiredKVTokens work) (m_blockSize m))); [|lia].
    rewrite u32_small; lia. }
  rewrite Hneed.
  wp_use (allocate_spec (neededBlocks m work old) m p _ (inv_rep _ _ _ HI) (inv_ok _ _ _ HI));
    [unfold neededBlocks; lia|done|].
  intros r m1. destruct (len (p_free p) <? neededBlocks m work old).
  { intros [-> ->]. cbn [negb]. unfold metric. wp_steps. by split. }
  intros (p' & ids & Hids & -> & HR' & HO' & HP & Hr & Hm). cbn [negb].
  apply rest_fields in Hr as (He1 & Hb1 & Hrb1 & Hp1).
  wp_steps. eapply wp_getsO; [exact Hc|]. wp_steps. apply wp_observe. intros l. wp_steps.
  exists ids, p'. split; [done|]. cbn. ssplit; [done|by rewrite Hrb1|by rewrite Hp1|done..| |done].
  apply (inv_intro m1 _ _ _ (m_blockSize m)); [exact HR'|done..| |exact Hb1|done|]; cbn.
  - rewrite Hrb1, tab_insert. rewrite Htab in HO'.
    eapply PoolOK_perm; [|exact HO'].
    solve_Permutation.
  - rewrite Hrb1, Hp1.
    apply (pending_insert _ _ _ _ old (allocationOf m work c old ids));
      [apply HI|exact Hno|done..].
Qed.

(** ** Rollback *)

Lemma slice_prefix {A} (l1 l2 : list A) :
  (if len l2 <=? len (l1 ++ l2) then slice (l1 ++ l2) 0 (len (l1 ++ l2) - len l2)
   else Some (l1 ++ l2)) = Some l1.
Proof.
  rewrite len_app. pose proof (len_nonneg l1). pose proof (len_nonneg l2).
  rewrite (proj2 (Z.leb_le _ _)) by lia. unfold slice. rewrite len_app.
  rewrite !(proj2 (Z.ltb_ge _ _)) by lia. cbn [orb]. rewrite drop_0. f_equal.
  replace (Z.to_nat _) with (length l1) by (unfold len; lia). apply take_app_length.
Qed.

(** The tables after a rollback of [a]. *)
Definition rolledBack (rb : gmap string (list Z)) (rid : string) (old : list Z) : gmap string (list Z) :=
  if len old =? 0 then delete rid rb else <[rid := old]> rb.

Lemma tab_rolledBack rb rid old : tab (rolledBack rb rid old) ≡ₚ old ++ tab (delete rid rb).
Proof.
  unfold rolledBack. destruct (Z.eqb_spec (len old) 0) as [H|H].
  - destruct old; [done|]. rewrite len_cons in H. pose proof (len_nonneg old). lia.
  - apply tab_insert.
Qed.

Lemma pending_rolledBack rb pd bs w a old :
  PendingOK rb pd bs -> pd !! w = Some a ->
  PendingOK (rolledBack rb (ba_RequestID a) old) (delete w pd) bs.
Proof.
  intros [Ht Hu] Ha. split.
  - intros v b [Hne Hb]%lookup_delete_Some. destruct (Ht v b Hb) as (? & ? & Hl & ?).
    assert (Hrid : ba_RequestID a <> ba_RequestID b) by (intros E; by apply Hne, (Hu _ _ a b)).
    ssplit; [done|done| |done]. unfold rolledBack. case_match.
    + by rewrite lookup_delete_ne.
    + by rewrite lookup_insert_ne.
  - intros w1 w2 a1 a2 [_ H1]%lookup_delete_Some [_ H2]%lookup_delete_Some. by apply Hu.
Qed.

Lemma Rollback_inv m pins p w a :
  Inv m pins p -> m_pendingAllocations m !! w = Some a ->
  wp (Rollback w) (fun _ m' => exists old p',
    ba_BlockTable a = old ++ ba_AllocatedBlocks a /\
    m_requestBlocks m' = rolledBack (m_requestBlocks m) (ba_RequestID a) old /\
    m_pendingAllocations m' = delete w (m_pendingAllocations m) /\
    m_blockSize m' = m_blockSize m /\ m_executorID m' = m_executorID m /\
    m_cachedBlocks m' = m_cachedBlocks m /\
    Inv m' pins p' /\ content p' = content p) m.
Proof.
  intros HI Ha. pose proof (inv_ok _ _ _ HI) as HO.
  destruct (pd_table _ _ _ (inv_pending _ _ _ HI) _ _ Ha) as (_ & _ & Htab & old & Hold).
  unfold Rollback. wp_steps. rewrite Ha. wp_steps.
  eapply (wp_getsO _ old). { rewrite Htab. cbn. rewrite Hold. apply slice_prefix. }
  wp_steps.
  match goal with |- wp (if _ then modS ?f else modS ?g) _ ?s =>
    set (m0 := m <| m_requestBlocks := rolledBack (m_requestBlocks m) (ba_RequestID a) old |>
                 <| m_pendingAllocations := delete w (m_pendingAllocations m) |>);
    apply (wp_mono _ (fun _ s' => s' = m0)) end.
  { unfold rolledBack in m0. destruct (len old =? 0); wp_steps; done. }
  intros _ ? ->. wp_steps.
  assert (HR0 : Rep m0 p) by (apply (rep_ext m); [apply HI|done..]).
  wp_use (push_all_spec m0 p (pins ++ tab (m_requestBlocks m0)) (ba_AllocatedBlocks a) HR0).
  { cbn. eapply PoolOK_perm; [|exact HO]. rewrite tab_rolledBack.
    rewrite (tab_split (m_requestBlocks m) (ba_RequestID a)), Htab. cbn. rewrite Hold.
    solve_Permutation. }
  intros _ m1 (p' & HR' & HO' & Hc & Hca & Hr & Hm).
  apply rest_fields in Hr as (He1 & Hb1 & Hrb1 & Hp1). cbn in He1, Hb1, Hrb1, Hp1.
  apply wp_observe. intros l. exists old, p'. cbn. ssplit; try done.
  { rewrite (rep_cached _ _ HR'), Hca. symmetry. apply HI. }
  apply (inv_intro m1 _ _ _ (m_blockSize m)); [exact HR'|done..| |exact Hb1|apply HI|]; cbn.
  - by rewrite Hrb1.
  - rewrite Hrb1, Hp1. by apply pending_rolledBack, Ha; apply HI.
Qed.

Lemma Rollback_unknown m w :
  m_pendingAllocations m !! w = None -> wp (Rollback w) (fun _ m' => m' = m) m.
Proof. intros H. unfold Rollback. wp_steps. rewrite H. by wp_steps. Qed.

(** The references determine the free blocks. *)
Lemma free_determined p p' refs :
  PoolOK p refs -> PoolOK p' refs -> len (p_info p') = len (p_info p) ->
  p_free p' ≡ₚ p_free p.
Proof.
  intros HO HO' Hlen. apply NoDup_Permutation; [apply HO'|apply HO|].
  assert (Hin : forall q, PoolOK q refs -> forall x,
            x ∈ p_free q <-> 0 <= x < len (p_info q) /\ x ∉ refs).
  { intros q Hq x. split.
    - intros Hx. split; [by apply (pi_free _ (ok_inv _ _ Hq))|by apply (ok_free_unreferenced _ _ Hq)].
    - intros [Hr Hn]. by destruct (ok_free_or_ref _ _ Hq x Hr). }
  intros x. by rewrite (Hin _ HO), (Hin _ HO'), Hlen.
Qed.

(** ** Transfers *)

Lemma releaseTransferBlocks_inv m pins ids p :
  Inv m (ids ++ pins) p ->
  wp (releaseTransferBlocks ids) (fun _ m' => exists p',
    rest m' = rest m /\ m_cachedBlocks m' = m_cachedBlocks m /\
    Inv m' pins p' /\ content p' = content p) m.
Proof.
  intros HI. pose proof (inv_ok _ _ _ HI) as HO. rewrite <- app_assoc in HO.
  unfold releaseTransferBlocks. wp_steps.
  wp_use (push_all_spec _ _ _ _ (inv_rep _ _ _ HI) HO).
  intros _ m1 (p' & HR' & HO' & Hc & Hca & Hr & Hm). apply wp_observe. intros l. exists p'.
  pose proof (rest_fields _ _ Hr) as (He1 & Hb1 & Hrb1 & Hp1).
  ssplit; [done| | |done].
  { cbn. rewrite (rep_cached _ _ HR'), Hca. symmetry. apply HI. }
  apply (inv_intro m1 _ _ _ (m_blockSize m)); [exact HR'|done..| |exact Hb1|apply HI|]; cbn.
  - by rewrite Hrb1.
  - rewrite Hrb1, Hp1. apply HI.
Qed.

Lemma reserveTransferBlocks_inv m pins p n :
  Inv m pins p -> 0 <= n -> len (pins ++ tab (m_requestBlocks m)) + n < two32 ->
  wp (reserveTransferBlocks n) (fun r m' => rest m' = rest m /\
    if len (p_free p) <? n then r = ([], false) /\ Inv m' pins p
    else exists ids p', ids = take (Z.to_nat n) (p_free p) /\ r = (ids, true) /\
      Inv m' (ids ++ pins) p' /\ Popped p p' ids) m.
Proof.
  intros HI Hn Hsm. unfold reserveTransferBlocks. wp_steps.
  wp_use (allocate_spec n m p _ (inv_rep _ _ _ HI) (inv_ok _ _ _ HI) Hn); [done|].
  intros r m1. destruct (len (p_free p) <? n).
  { intros [-> ->]. wp_steps. apply wp_observe. intros l. wp_steps. ssplit; [done|done|].
    by apply inv_with_metrics. }
  intros (p' & ids & Hids & -> & HR' & HO' & HP & Hr & Hm). wp_steps.
  apply wp_observe. intros l. wp_steps. split; [done|]. exists ids, p'. ssplit; [done|done| |done].
  apply rest_fields in Hr as (He1 & Hb1 & Hrb1 & Hp1).
  apply (inv_intro m1 _ _ _ (m_blockSize m)); [exact HR'|done..| |exact Hb1|apply HI|]; cbn.
  - by rewrite Hrb1, <- app_assoc.
  - rewrite Hrb1, Hp1. apply HI.
Qed.

(** The hashes a transfer may pin: indexed, with a full block. *)
Definition transferable (m : manager) (h : string) (id : Z) : Prop :=
  m_cachedBlocks m !! h = Some id /\
  exists b, idx (m_blocks m) id = Some b /\ blk_TokenCount b = m_blockSize m.

Lemma pinLoop_spec m p refs hs :
  Rep m p -> PoolOK p refs ->
  match pinLoop m hs with
  | None => False
  | Some (inl _) => exists h, h ∈ hs /\ forall id, ~ transferable m h id
  | Some (inr ids) => Forall2 (transferable m) hs ids
  end.
Proof.
  intros HR HO. induction hs as [|h hs IH]; cbn [pinLoop]; [constructor|].
  destruct (m_cachedBlocks m !! h) as [id|] eqn:Hh; cycle 1.
  { exists h. split; [by left|]. intros id [? _]. congruence. }
  pose proof Hh as Hh'. rewrite (rep_cached _ _ HR) in Hh'.
  destruct (pi_cached _ (ok_inv _ _ HO) _ _ Hh') as (i & Hi & Hic & Hih).
  destruct (rep_info_block _ _ HR _ _ Hi) as (b & Hb & <-). rewrite Hb. cbn [mbind option_bind].
  cbn in Hic, Hih. rewrite Hic, Hih, String.eqb_refl. cbn [negb orb].
  destruct (Z.eqb_spec (blk_TokenCount b) (m_blockSize m)) as [Ht|Ht]; cbn [negb].
  - destruct (pinLoop m hs) as [[e|ids]|]; cbn [mbind option_bind].
    + destruct IH as (h' & ? & ?). exists h'. split; [by right|done].
    + constructor; [|done]. split; [done|]. by exists b.
    + done.
  - exists h. split; [by left|]. intros id' [? (b' & Hb' & ?)]. congruence.
Qed.

Lemma pinCachedBlocks_inv m pins p hs :
  Inv m pins p -> len (pins ++ tab (m_requestBlocks m)) + len hs < two32 ->
  wp (pinCachedBlocks hs) (fun r m' => rest m' = rest m /\ m_cachedBlocks m' = m_cachedBlocks m /\
    match r with
    | inl _ => m' = m /\ exists h, h ∈ hs /\ forall id, ~ transferable m h id
    | inr ids => Forall2 (transferable m) hs ids /\
        exists p', Inv m' (ids ++ pins) p' /\ content p' = content p
    end) m.
Proof.
  intros HI Hsm. pose proof (pinLoop_spec m p _ hs (inv_rep _ _ _ HI) (inv_ok _ _ _ HI)) as Hpin.
  unfold pinCachedBlocks. wp_steps.
  destruct (pinLoop m hs) as [[e|ids]|] eqn:Hl; [| |done].
  { eapply wp_getsO; [exact Hl|]. wp_steps. by ssplit. }
  eapply wp_getsO; [exact Hl|]. wp_steps.
  assert (Hlen : len ids = len hs) by (unfold len; by rewrite (Forall2_length _ _ _ Hpin)).
  destruct (pool_touches_ok ids p _ (inv_ok _ _ _ HI)) as (p' & Hp' & HO' & Hc & Hca); [|lia|].
  { intros x Hx. apply list_elem_of_lookup in Hx as [k Hk].
    destruct (Forall2_lookup_r _ _ _ _ _ Hpin Hk) as (h & _ & _ & b & Hb & _).
    rewrite (rep_info_len _ _ (inv_rep _ _ _ HI)). by eapply idx_Some_range. }
  wp_use (touch_spec _ _ _ _ (inv_rep _ _ _ HI) Hp'). intros _ m1 (HR' & Hr & Hm). wp_steps.
  apply wp_observe. intros l. wp_steps. split; [done|]. split.
  { cbn. rewrite (rep_cached _ _ HR'), Hca. symmetry. apply HI. }
  split; [done|]. exists p'. split; [|done].
  apply rest_fields in Hr as (He1 & Hb1 & Hrb1 & Hp1).
  apply (inv_intro m1 _ _ _ (m_blockSize m)); [exact HR'|done..| |exact Hb1|apply HI|]; cbn.
  - by rewrite Hrb1, <- app_assoc.
  - rewrite Hrb1, Hp1. apply HI.
Qed.

(** What an import of the pairs [l] of reserved blocks and hashes does. *)
Record Imported (bs : Z) (l : list (Z * string)) (p p' : Pool) : Prop := mkImported {
  im_len : len (p_info p') = len (p_info p);
  im_mono : p_cached p ⊆ p_cached p';
  im_new : forall h id, p_cached p' !! h = Some id -> p_cached p !! h = Some id \/
    ((id, h) ∈ l /\ exists i, idx (p_info p') id = Some i /\ i_TokenCount i = bs);
  im_all : forall id h, (id, h) ∈ l -> is_Some (p_cached p' !! h);
  im_other : forall id, id ∉ l.*1 -> stored <$> idx (p_info p') id = stored <$> idx (p_info p) id
}.

Lemma stored_idx_content p p' id :
  content p' = content p -> stored <$> idx (p_info p') id = stored <$> idx (p_info p) id.
Proof. unfold content. intros Hc. by rewrite <- !idx_fmap, Hc. Qed.

Lemma importBlock_spec m p refs x h i :
  Rep m p -> PoolOK p (x :: refs) -> idx (p_info p) x = Some i -> i_Cached i = false ->
  wp (importBlock x h) (fun _ m' => exists p', Rep m' p' /\ PoolOK p' refs /\
    Imported (m_blockSize m) [(x, h)] p p' /\ rest m' = rest m) m.
Proof.
  intros HR HO Hi Hc. pose proof (idx_Some_range _ _ _ Hi) as Hx.
  unfold importBlock. wp_steps. rewrite (rep_cached _ _ HR).
  destruct (p_cached p !! h) as [y|] eqn:Hy.
  - assert (Hne : y <> x).
    { intros ->. destruct (pi_cached _ (ok_inv _ _ HO) _ _ Hy) as (j & Hj & ? & _). congruence. }
    rewrite (proj2 (Z.eqb_neq y x)) by done. cbn [negb].
    destruct (pool_push_ok _ _ _ HO) as (p' & Hp & HO' & Hcn & Hca & _).
    wp_use (pushFree_spec _ _ _ _ HR (ok_inv _ _ HO) Hp). intros _ m1 (HR' & Hr & _).
    exists p'. ssplit; [done|done| |done]. split.
    + by apply content_len.
    + by rewrite Hca.
    + intros g id. rewrite Hca. by left.
    + intros id g [= -> ->]%list_elem_of_singleton. rewrite Hca. by exists y.
    + intros id _. by apply stored_idx_content.
  - set (j1 := mkInfo h (i_RefCount i) (m_blockSize m) true). wp_steps.
    eapply wp_mono; [apply (setBlock_info_spec m p x _ i HR Hi) with (i' := j1);
      [by intros; ssplit|by intros ? <-]|cbn beta].
    intros _ m1 (HR1 & Hr1 & _ & Hca1). wp_steps. rewrite Hca1, (rep_cached _ _ HR).
    apply (rep_set_cached _ _ (<[h := x]> (p_cached p))) in HR1.
    pose proof (pool_set_cached p _ x i h (m_blockSize m) HO Hi (or_introl (conj Hc Hy))) as HO1.
    destruct (pool_push_ok _ _ _ HO1) as (p' & Hp & HO' & Hcn & Hca & _).
    wp_use (pushFree_spec _ _ _ _ HR1 (ok_inv _ _ HO1) Hp). intros _ m2 (HR' & Hr & _).
    exists p'. ssplit; [done|done| |rewrite Hr; exact Hr1]. cbn in Hca. split.
    + rewrite (content_len _ _ Hcn). apply len_upd.
    + rewrite Hca. by apply insert_subseteq.
    + intros g id. rewrite Hca. intros [[<- <-]|[_ Hg]]%lookup_insert_Some; [right|by left].
      split; [by apply list_elem_of_singleton|].
      destruct (content_idx p' _ x j1 (eq_sym Hcn)) as (i' & Hi' & [= _ Ht _]).
      { cbn. by apply idx_upd_eq. }
      by exists i'.
    + intros id g [= -> ->]%list_elem_of_singleton. rewrite Hca. exists x. apply lookup_insert_eq.
    + intros id Hid%not_elem_of_cons. rewrite (stored_idx_content _ _ id Hcn). cbn.
      rewrite idx_upd_ne; [done|naive_solver|lia].
Qed.

Lemma imported_cons bs x h l p p1 p2 :
  x ∉ l.*1 -> Imported bs [(x, h)] p p1 -> Imported bs l p1 p2 -> Imported bs ((x, h) :: l) p p2.
Proof.
  intros Hx [Hl1 Hm1 Hn1 Ha1 Ho1] [Hl2 Hm2 Hn2 Ha2 Ho2]. split.
  - congruence.
  - by transitivity (p_cached p1).
  - intros g id [Hg|[Hin ?]]%Hn2; [|right; split; [by right|done]].
    apply Hn1 in Hg as [?|[[= -> ->]%list_elem_of_singleton (i & Hi & Ht)]]; [by left|right].
    split; [by left|]. pose proof (Ho2 x Hx) as Hs. rewrite Hi in Hs. cbn in Hs.
    apply fmap_Some in Hs as (i' & Hi' & Hs). unfold stored in Hs. exists i'. split; [done|congruence].
  - intros id g [[= -> ->]|Hin]%elem_of_cons; [|by eapply Ha2].
    destruct (Ha1 x h) as [y Hy]; [by left|]. exists y. by eapply lookup_weaken.
  - intros id [Hne Hid]%not_elem_of_cons. rewrite Ho2 by done. apply Ho1.
    apply not_elem_of_cons. split; [done|apply not_elem_of_nil].
Qed.

Lemma importBlocks_spec m p refs l :
  Rep m p -> PoolOK p (l.*1 ++ refs) -> NoDup l.*1 ->
  (forall x, x ∈ l.*1 -> exists i, idx (p_info p) x = Some i /\ i_Cached i = false) ->
  wp (forM_ l (fun bh => importBlock bh.1 bh.2)) (fun _ m' => exists p', Rep m' p' /\
    PoolOK p' refs /\ Imported (m_blockSize m) l p p' /\ rest m' = rest m) m.
Proof.
  revert m p. induction l as [|[x h] l IH]; intros m p HR HO Hnd Hun.
  - cbn. wp_steps. exists p. ssplit; try done. split; try done.
    + by left.
    + by intros id h Hin%not_elem_of_nil.
  - cbn [fmap list_fmap fst] in *. apply NoDup_cons in Hnd as [Hx Hnd].
    destruct (Hun x) as (i & Hi & Hc); [by left|]. cbn [forM_]. wp_steps. cbn [fst snd].
    wp_use (importBlock_spec m p _ x h i HR HO Hi Hc). intros _ m1 (p1 & HR1 & HO1 & HI1 & Hr1).
    wp_use (IH m1 p1 HR1 HO1 Hnd).
    { intros y Hy. destruct (Hun y) as (j & Hj & Hjc); [by right|].
      pose proof (im_other _ _ _ _ HI1 y) as Ho. rewrite Hj in Ho. cbn in Ho.
      destruct (proj1 (fmap_Some stored (idx (p_info p1) y) (stored j))) as (j' & Hj' & [= _ _ Hs]);
        [apply Ho, not_elem_of_cons; split; [by intros ->|apply not_elem_of_nil]|].
      exists j'. split; [done|]. congruence. }
    intros _ m2 (p2 & HR2 & HO2 & HI2 & Hr2). exists p2. ssplit; [done|done| |congruence].
    replace (m_blockSize m1) with (m_blockSize m) in HI2 by (unfold rest in Hr1; congruence).
    by eapply imported_cons.
Qed.

Lemma importCheck_none m p refs ids :
  Rep m p -> PoolOK p refs -> (forall x, x ∈ ids -> x ∈ refs) -> importCheck m ids = None.
Proof.
  intros HR HO. induction ids as [|x ids IH]; intros Hin; [done|]. cbn [importCheck].
  destruct (ok_lookup _ _ HO x) as (i & Hi & Hpos); [apply Hin; by left|].
  destruct (rep_info_block _ _ HR _ _ Hi) as (b & Hb & <-). rewrite Hb. cbn in Hpos.
  assert (Hf : blk_InFreeQueue b = false).
  { destruct (blk_InFreeQueue b) eqn:Hf; [|done]. exfalso.
    apply (rep_flag _ _ HR _ _ Hb) in Hf. apply (ok_free_unreferenced _ _ HO _ Hf).
    apply Hin. by left. }
  rewrite Hf, (proj2 (Z.eqb_neq _ 0)) by lia. apply IH. intros y Hy. apply Hin. by right.
Qed.

Lemma commitImportedBlocks_inv m pins p ids hs :
  Inv m (ids ++ pins) p -> length ids = length hs -> NoDup ids ->
  (forall x, x ∈ ids -> exists i, idx (p_info p) x = Some i /\ i_Cached i = false) ->
  wp (commitImportedBlocks ids hs) (fun r m' => r = None /\ rest m' = rest m /\
    exists p', Inv m' pins p' /\ Imported (m_blockSize m) (zip ids hs) p p') m.
Proof.
  intros HI Hlen Hnd Hun. pose proof (inv_ok _ _ _ HI) as HO. rewrite <- app_assoc in HO.
  unfold commitImportedBlocks. wp_steps. unfold len at 1 2.
  rewrite Hlen, Z.eqb_refl. cbn [negb].
  rewrite (importCheck_none m p _ ids (inv_rep _ _ _ HI) HO)
    by (intros x Hx; apply elem_of_app; by left).
  assert (Hfst : (zip ids hs).*1 = ids) by (apply fst_zip; lia).
  wp_steps. wp_use (importBlocks_spec m p (pins ++ tab (m_requestBlocks m)) (zip ids hs)
    (inv_rep _ _ _ HI)); [by rewrite Hfst|by rewrite Hfst|by rewrite Hfst|].
  intros _ m1 (p' & HR' & HO' & HIm & Hr). wp_steps. apply wp_observe. intros l. wp_steps.
  ssplit; [done|done|]. exists p'. split; [|done].
  pose proof (rest_fields _ _ Hr) as (He1 & Hb1 & Hrb1 & Hp1).
  apply (inv_intro m1 _ _ _ (m_blockSize m)); [exact HR'|done..| |exact Hb1|apply HI|]; cbn.
  - by rewrite Hrb1.
  - rewrite Hrb1, Hp1. apply HI.
Qed.

Lemma commitImportedBlocks_lengths m ids hs :
  length ids <> length hs ->
  wp (commitImportedBlocks ids hs) (fun r m' => m' = m /\
    r = Some (text "destination block and hash counts differ")) m.
Proof.
  intros Hne. unfold commitImportedBlocks. wp_steps.
  rewrite (proj2 (Z.eqb_neq _ _)) by (unfold len; lia). by wp_steps.
Qed.
