(* ===== verification/BlockProperties.v ===== *)
(** * BlockProperties: what the block manager guarantees (internal/block/block.go)

    The manager as a transition system ([Op], [run_op], [reachable]) and the
    theorems about its operations. *)

From S2P Require Import Prelude Errors Model Metrics FreeQueue GoSha256 BlockManager.
(** ** The transition system

    A state is a manager and the list [pins] of references that transfers
    hold.  [enabled] is what the callers guarantee: the scheduler creates a
    request's table once, allocates for one work item of a request at a time
    and only while the request's table is current, a transfer imports and
    releases what it pinned and reserved, and reference counts stay below
    2^32. *)

Inductive Op :=
| OpMatchPrefix (req : Request)
| OpAllocateBlocks (work : WorkItem) (c : PrefixMatch) (old : list Z)
| OpCommit (w : string)
| OpRollback (w : string)
| OpFreeRequest (rid : string)
| OpPin (hashes : list string)
| OpReserve (n : Z)
| OpImport (ids : list Z) (hashes : list string) (others : list Z)
| OpRelease (ids others : list Z).

Definition refs_of (m : manager) (pins : list Z) : list Z := pins ++ tab (m_requestBlocks m).

(** The block [id] is not in the prefix index. *)
Definition uncached (m : manager) (id : Z) : Prop :=
  exists b, idx (m_blocks m) id = Some b /\ blk_Cached b = false.

Definition enabled (o : Op) (m : manager) (pins : list Z) : Prop :=
  match o with
  | OpMatchPrefix req =>
      m_requestBlocks m !! req_RequestId req = None /\
      len (req_TokenIDs req) < two32 /\
      len (refs_of m pins) + len (req_TokenIDs req) / m_blockSize m < two32
  | OpAllocateBlocks work c old =>
      has_table m work old /\ wi_Cache work = Some c /\
      no_pending (wi_RequestId work) m /\
      (neededBlocks m work old <= m_freeCount m ->
       len (refs_of m pins) + neededBlocks m work old < two32)
  | OpCommit _ | OpRollback _ | OpFreeRequest _ => True
  | OpPin hashes => len (refs_of m pins) + len hashes < two32
  | OpReserve n => 0 <= n /\ len (refs_of m pins) + n < two32
  | OpImport ids hashes others =>
      pins ≡ₚ ids ++ others /\ length ids = length hashes /\ NoDup ids /\
      (forall x, x ∈ ids -> uncached m x)
  | OpRelease ids others => pins ≡ₚ ids ++ others
  end.

(** Run an operation; the result is the new list of pins. *)
Definition run_op (o : Op) (pins : list Z) : M manager (list Z) :=
  match o with
  | OpMatchPrefix req => MatchPrefix req ;; mret pins
  | OpAllocateBlocks work _ _ => AllocateBlocks work ;; mret pins
  | OpCommit w => Commit w ;; mret pins
  | OpRollback w => Rollback w ;; mret pins
  | OpFreeRequest rid => FreeRequest rid ;; mret pins
  | OpPin hashes =>
      r ← pinCachedBlocks hashes;
      mret (match r with inl _ => pins | inr ids => ids ++ pins end)
  | OpReserve n => r ← reserveTransferBlocks n; mret (r.1 ++ pins)
  | OpImport ids hashes others => commitImportedBlocks ids hashes ;; mret others
  | OpRelease ids others => releaseTransferBlocks ids ;; mret others
  end.

Inductive step : manager * list Z -> manager * list Z -> Prop :=
| step_op o m pins m' pins' :
    enabled o m pins -> run_op o pins m = Some (pins', m') -> step (m, pins) (m', pins').

(** States reached from a freshly built manager. *)
Definition reachable (rt : ExecutorStats) (s : manager * list Z) : Prop :=
  exists m0, newManager (Some rt) = Some (inr m0) /\ rtc step (m0, []) s.

Lemma inv_pins_perm m pins pins' p : pins ≡ₚ pins' -> Inv m pins p -> Inv m pins' p.
Proof. intros Hp [HR HO Hb Hpd]. split; [done| |done|done]. by rewrite <- Hp. Qed.

Lemma uncached_info m p id :
  Rep m p -> uncached m id -> exists i, idx (p_info p) id = Some i /\ i_Cached i = false.
Proof.
  intros HR (b & Hb & Hc). exists (info_of b). split; [|done].
  by rewrite (rep_info _ _ HR), idx_fmap, Hb.
Qed.

Lemma run_op_consistent o m pins :
  Consistent m pins -> enabled o m pins ->
  wp (run_op o pins) (fun pins' m' => Consistent m' pins') m.
Proof.
  intros [p HI] Hen. destruct o; cbn [enabled run_op] in *; wp_steps.
  - destruct Hen as (Hf & Ht & Hs).
    wp_use (MatchPrefix_inv _ _ _ _ HI Hf Ht Hs).
    intros r m' (_ & _ & _ & _ & _ & _ & p' & HI' & _). by exists p'.
  - destruct Hen as (Ho & Hc & Hn & Hs). rewrite (rep_count _ _ (inv_rep _ _ _ HI)) in Hs.
    wp_use (AllocateBlocks_inv _ _ _ _ _ _ HI Ho Hc Hn Hs).
    intros r m'. case_match.
    + intros [_ ->]. exists p. by apply inv_with_metrics.
    + intros (ids & p' & _ & _ & _ & _ & _ & _ & HI' & _). by exists p'.
  - destruct (m_pendingAllocations m !! w) as [a|] eqn:Ha.
    + wp_use (Commit_inv _ _ _ _ _ HI Ha).
      intros _ m' (_ & _ & _ & _ & p' & HI' & _). by exists p'.
    + wp_use (Commit_unknown _ _ Ha). intros _ m' ->. by exists p.
  - destruct (m_pendingAllocations m !! w) as [a|] eqn:Ha.
    + wp_use (Rollback_inv _ _ _ _ _ HI Ha).
      intros _ m' (old & p' & _ & _ & _ & _ & _ & _ & HI' & _). by exists p'.
    + wp_use (Rollback_unknown _ _ Ha). intros _ m' ->. by exists p.
  - wp_use (FreeRequest_inv _ _ _ rid HI).
    intros _ m' (_ & _ & _ & _ & _ & _ & p' & HI' & _). by exists p'.
  - wp_use (pinCachedBlocks_inv _ _ _ _ HI Hen). intros [e|ids] m' (_ & _ & H).
    + destruct H as [-> _]. by exists p.
    + destruct H as (_ & p' & HI' & _). by exists p'.
  - destruct Hen as [Hn Hs]. wp_use (reserveTransferBlocks_inv _ _ _ _ HI Hn Hs).
    intros r m' [_ H]. case_match.
    + destruct H as [-> HI']. by exists p.
    + destruct H as (ids & p' & _ & -> & HI' & _). by exists p'.
  - destruct Hen as (Hp & Hl & Hnd & Hun). apply (inv_pins_perm _ _ _ _ Hp) in HI.
    wp_use (commitImportedBlocks_inv _ others _ _ _ HI Hl Hnd).
    + intros x Hx. apply (uncached_info m); [apply HI|by apply Hun].
    + intros r m' (_ & _ & p' & HI' & _). by exists p'.
  - apply (inv_pins_perm _ _ _ _ Hen) in HI.
    wp_use (releaseTransferBlocks_inv _ others _ _ HI).
    intros _ m' (p' & _ & _ & HI' & _). by exists p'.
Qed.

Lemma reachable_consistent rt m pins :
  es_ExecutorId rt <> "" -> 0 < es_BlockSize rt < two32 -> 0 < es_NumKvBlocks rt <= two31 ->
  reachable rt (m, pins) -> Consistent m pins.
Proof.
  intros He Hb Hn (m0 & Hm0 & Hs).
  destruct (newManager_inv rt He Hb Hn) as (m1 & Hm1 & HI & _).
  assert (m1 = m0) as -> by congruence.
  assert (H0 : Consistent m0 []) by (by eexists).
  remember (m0, []) as s0 eqn:E0. remember (m, pins) as s1 eqn:E1.
  cut (Consistent s1.1 s1.2); [by subst|].
  assert (Hc : Consistent s0.1 s0.2) by (by subst). clear E0 E1 H0.
  induction Hs as [|s s' s'' Hst _ IH]; [done|]. apply IH.
  destruct Hst as [o ma pa mb pb Hen Hrun]. cbn in *.
  pose proof (run_op_consistent o ma pa Hc Hen) as Hw. unfold wp in Hw. by rewrite Hrun in Hw.
Qed.

(** What consistency says about the blocks. *)
Lemma consistent_blocks m pins id b :
  Consistent m pins -> idx (m_blocks m) id = Some b ->
  blk_RefCount b = cnt id (refs_of m pins) /\
  (blk_InFreeQueue b = true <-> blk_RefCount b = 0) /\
  (blk_Cached b = true <-> m_cachedBlocks m !! blk_Hash b = Some id).
Proof.
  intros [p HI] Hb. pose proof (inv_rep _ _ _ HI) as HR. pose proof (inv_ok _ _ _ HI) as HO.
  assert (Hi : idx (p_info p) id = Some (info_of b)) by (by rewrite (rep_info _ _ HR), idx_fmap, Hb).
  split; [exact (ok_count _ _ HO _ _ Hi)|]. split.
  - rewrite (rep_flag _ _ HR _ _ Hb). symmetry. exact (pi_ref _ (ok_inv _ _ HO) _ _ Hi).
  - rewrite (rep_cached _ _ HR), (cached_of _ _ _ _ HO). split.
    + intros Hc. by exists (info_of b).
    + intros (i & Hi' & Hc & _). assert (i = info_of b) as -> by congruence. done.
Qed.

Lemma consistent_index m pins h id :
  Consistent m pins -> m_cachedBlocks m !! h = Some id ->
  exists b, idx (m_blocks m) id = Some b /\ blk_Cached b = true /\ blk_Hash b = h.
Proof.
  intros [p HI] Hh. pose proof (inv_rep _ _ _ HI) as HR.
  rewrite (rep_cached _ _ HR) in Hh.
  destruct (pi_cached _ (ok_inv _ _ (inv_ok _ _ _ HI)) _ _ Hh) as (i & Hi & Hc & Hhash).
  destruct (rep_info_block _ _ HR _ _ Hi) as (b & Hb & <-). by exists b.
Qed.

(** ** The free list as the code reads it: follow [NextFree] from [freeHead] *)

Fixpoint walk (bs : list Block) (n : nat) (x : Z) : list Z :=
  match n with
  | O => []
  | S n' => match idx bs x with Some b => x :: walk bs n' (blk_NextFree b) | None => [] end
  end.

Definition free_list (m : manager) : list Z :=
  walk (m_blocks m) (Z.to_nat (m_freeCount m)) (m_freeHead m).

Lemma walk_seg bs prev fl : seg bs prev fl (-1) -> walk bs (length fl) (hd_or (-1) fl) = fl.
Proof.
  revert prev. induction fl as [|x fl IH]; intros prev; [done|]. intros [Hx Hs].
  apply links_idx in Hx as (b & Hb & [= _ Hn]). simpl. rewrite Hb, <- Hn. f_equal. by eapply IH.
Qed.

Lemma rep_free_list m p : Rep m p -> free_list m = p_free p.
Proof.
  intros HR. unfold free_list. rewrite (rep_head _ _ HR), (rep_count _ _ HR).
  unfold len. rewrite Nat2Z.id. eapply walk_seg, HR.
Qed.

Lemma freeCount_len m pins : Consistent m pins -> m_freeCount m = len (free_list m).
Proof. intros [p HI]. by rewrite (rep_free_list m p), (rep_count m p) by apply HI. Qed.

Lemma consistent_free m pins id :
  Consistent m pins -> (id ∈ free_list m <-> 0 <= id < len (m_blocks m) /\ id ∉ refs_of m pins).
Proof.
  intros [p HI]. pose proof (inv_rep _ _ _ HI) as HR. pose proof (inv_ok _ _ _ HI) as HO.
  rewrite (rep_free_list _ _ HR), <- (rep_info_len _ _ HR). split.
  - intros Hx. split; [by apply (pi_free _ (ok_inv _ _ HO))|by apply (ok_free_unreferenced _ _ HO)].
  - intros [Hr Hn]. by destruct (ok_free_or_ref _ _ HO id Hr).
Qed.


(** [allocate] hands out the blocks at the front of the free list, that is
    the blocks that were freed longest ago, and fails exactly when fewer blocks
    are free, leaving the state as it was.  The blocks it hands out carry one
    reference, no hash and no tokens, and only their entries leave the prefix
    index; no other block's content changes. *)
Theorem allocate_takes_oldest m pins n
  (HC : Consistent m pins) (Hn : 0 <= n) (Hs : len (refs_of m pins) + n < two32) :
  wp (allocate n) (fun r m' =>
    if m_freeCount m <? n then r = ([], false) /\ m' = m
    else let ids := take (Z.to_nat n) (free_list m) in
      r = (ids, true) /\ free_list m = ids ++ free_list m' /\
      m_freeCount m' = m_freeCount m - n /\ rest m' = rest m /\
      (forall h id, m_cachedBlocks m' !! h = Some id <->
         m_cachedBlocks m !! h = Some id /\ id ∉ ids) /\
      (forall id b', idx (m_blocks m') id = Some b' ->
         if decide (id ∈ ids) then info_of b' = mkInfo "" 1 0 false
         else exists b, idx (m_blocks m) id = Some b /\ info_of b' = info_of b)) m.
Proof.
  destruct HC as [p HI]. pose proof (inv_rep _ _ _ HI) as HR.
  wp_use (allocate_spec n m p _ HR (inv_ok _ _ _ HI) Hn); [done|].
  rewrite (rep_count _ _ HR). intros r m'. case_match eqn:Hlt; [done|].
  intros (p' & ids & Hids & -> & HR' & HO' & HP & Hr & _).
  rewrite (rep_free_list _ _ HR), (rep_free_list _ _ HR'), <- Hids, (rep_count _ _ HR').
  apply Z.ltb_ge in Hlt. cbv zeta. ssplit; try done.
  - apply HP.
  - rewrite (pop_free _ _ _ HP), len_app, Hids. unfold len at 2. rewrite length_take.
    unfold len in Hlt. lia.
  - intros h id. rewrite (rep_cached _ _ HR), (rep_cached _ _ HR'). apply HP.
  - intros id b' Hb'.
    assert (Hi' : idx (p_info p') id = Some (info_of b'))
      by (by rewrite (rep_info _ _ HR'), idx_fmap, Hb').
    case_decide as Hin.
    + rewrite (pop_fresh _ _ _ HP) in Hi' by done. by apply (inj Some) in Hi'.
    + rewrite (pop_other _ _ _ HP) in Hi' by done.
      destruct (rep_info_block _ _ HR _ _ Hi') as (b & Hb & <-). by exists b.
Qed.

(** Managers with the same references have the same free blocks and counts. *)
Lemma same_refs m m' pins p p' :
  Inv m pins p -> Inv m' pins p' -> len (m_blocks m') = len (m_blocks m) ->
  refs_of m' pins ≡ₚ refs_of m pins ->
  m_freeCount m' = m_freeCount m /\ free_list m' ≡ₚ free_list m /\
  (forall id b b', idx (m_blocks m) id = Some b -> idx (m_blocks m') id = Some b' ->
     blk_RefCount b' = blk_RefCount b /\ blk_InFreeQueue b' = blk_InFreeQueue b).
Proof.
  intros HI HI' Hlen Hrefs.
  assert (HC : Consistent m pins) by (by exists p). assert (HC' : Consistent m' pins) by (by exists p').
  assert (Hfl : free_list m' ≡ₚ free_list m).
  { rewrite (rep_free_list _ p (inv_rep _ _ _ HI)), (rep_free_list _ p' (inv_rep _ _ _ HI')).
    apply (free_determined _ _ (refs_of m pins)); [apply HI| |].
    - rewrite <- Hrefs. apply HI'.
    - by rewrite (rep_info_len _ _ (inv_rep _ _ _ HI)), (rep_info_len _ _ (inv_rep _ _ _ HI')). }
  ssplit; [by rewrite (freeCount_len _ _ HC), (freeCount_len _ _ HC'), Hfl|done|].
  intros id b b' Hb Hb'.
  destruct (consistent_blocks _ _ _ _ HC Hb) as (Hr & Hf & _).
  destruct (consistent_blocks _ _ _ _ HC' Hb') as (Hr' & Hf' & _).
  rewrite Hrefs in Hr'. split; [congruence|]. apply eq_bool_prop_intro.
  rewrite !Is_true_true, Hf, Hf'. split; congruence.
Qed.

(** C10: [AllocateBlocks] followed by [Rollback] of the same work item gives back
    exactly what it took: no reference count, no other block table and no other
    pending allocation has changed, the request is left with the table it had,
    and the same blocks are free. *)
Theorem allocate_rollback_roundtrip m pins work c old
  (HC : Consistent m pins) (Ht : has_table m work old) (Hc : wi_Cache work = Some c)
  (Hno : no_pending (wi_RequestId work) m)
  (Hfresh : m_pendingAllocations m !! wi_WorkId work = None)
  (Hs : len (refs_of m pins) + neededBlocks m work old < two32) :
  wp ('(ok, _) ← AllocateBlocks work; if ok : bool then Rollback (wi_WorkId work) else mret tt)
    (fun _ m' =>
      Consistent m' pins /\ m_freeCount m' = m_freeCount m /\
      free_list m' ≡ₚ free_list m /\
      m_pendingAllocations m' = m_pendingAllocations m /\
      default [] (m_requestBlocks m' !! wi_RequestId work) = old /\
      (forall rid, rid <> wi_RequestId work ->
         m_requestBlocks m' !! rid = m_requestBlocks m !! rid) /\
      (forall id b b', idx (m_blocks m) id = Some b -> idx (m_blocks m') id = Some b' ->
         blk_RefCount b' = blk_RefCount b /\ blk_InFreeQueue b' = blk_InFreeQueue b)) m.
Proof.
  pose proof HC as [p HI].
  wp_steps. wp_use (AllocateBlocks_inv _ _ _ _ _ _ HI Ht Hc Hno (fun _ => Hs)).
  intros [ok work'] m1. case_match eqn:Hlt.
  { intros [[= -> ->] ->]. wp_steps. ssplit; try done.
    - exists p. by apply inv_with_metrics.
    - destruct Ht as [E|(E & -> & _)]; cbn; by rewrite E.
    - intros id b b' Hb Hb'. cbn in Hb'. by simplify_eq. }
  intros (ids & p1 & Hids & [= -> ->] & Hrb1 & Hpd1 & Hb1 & He1 & HI1 & HP).
  set (a := allocationOf m work c old ids) in *. wp_steps.
  assert (Ha : m_pendingAllocations m1 !! wi_WorkId work = Some a)
    by (rewrite Hpd1; apply lookup_insert_eq).
  wp_use (Rollback_inv _ _ _ _ _ HI1 Ha).
  intros _ m2 (old' & p2 & Hold & Hrb2 & Hpd2 & Hb2 & He2 & Hca2 & HI2 & Hcn).
  apply app_inv_tail in Hold as <-. cbn [ba_RequestID a allocationOf] in Hrb2.
  assert (Hlen : len (m_blocks m2) = len (m_blocks m)).
  { rewrite <- (rep_info_len _ _ (inv_rep _ _ _ HI2)), <- (rep_info_len _ _ (inv_rep _ _ _ HI)).
    by rewrite (content_len _ _ Hcn), (pop_len _ _ _ HP). }
  assert (Hrefs : refs_of m2 pins ≡ₚ refs_of m pins).
  { unfold refs_of. rewrite Hrb2, tab_rolledBack, Hrb1, delete_insert_eq.
    by rewrite (has_table_tab _ _ _ Ht). }
  destruct (same_refs _ _ _ _ _ HI HI2 Hlen Hrefs) as (Hfc & Hfl & Hblk).
  ssplit; [by exists p2|done|done| | | |done].
  - rewrite Hpd2, Hpd1. by apply delete_insert_id.
  - rewrite Hrb2. unfold rolledBack. destruct (Z.eqb_spec (len old) 0) as [H0|H0].
    + rewrite lookup_delete_eq. destruct old; [done|].
      rewrite len_cons in H0. pose proof (len_nonneg old). lia.
    + by rewrite lookup_insert_eq.
  - intros rid Hrid. rewrite Hrb2, Hrb1. unfold rolledBack. case_match.
    + by rewrite lookup_delete_ne, lookup_insert_ne.
    + by rewrite !lookup_insert_ne.
Qed.

(** C11: [Commit] settles exactly the pending allocation of its work item and
    never moves a block: the tables and the free list stay.  Each block of the
    table gets the number of its tokens that are computed after the work.  An
    index entry that appears is the hash of a block of the table that is full
    after a prefill, at the same position; every such block ends up indexed, or
    its hash already was; no entry disappears. *)
Theorem commit_caches_full_prefill m pins w a
  (HC : Consistent m pins) (Ha : m_pendingAllocations m !! w = Some a)
  (Hnd : NoDup (ba_BlockTable a))
  (Hov : len (ba_BlockTable a) * m_blockSize m < two32)
  (Hta : 0 <= ba_TokensAfterCommit a < two32) :
  let bs := m_blockSize m in
  let full (k : nat) := (Z.of_nat k + 1) * bs <= ba_TokensAfterCommit a in
  wp (Commit w) (fun _ m' =>
    Consistent m' pins /\ m_requestBlocks m' = m_requestBlocks m /\
    m_pendingAllocations m' = delete w (m_pendingAllocations m) /\
    free_list m' = free_list m /\
    (forall h id, m_cachedBlocks m !! h = Some id -> m_cachedBlocks m' !! h = Some id) /\
    (forall h id, m_cachedBlocks m' !! h = Some id ->
       m_cachedBlocks m !! h = Some id \/
       (ba_Phase a = WorkPhasePrefill /\ exists k : nat,
          ba_BlockTable a !! k = Some id /\ ba_BlockHashes a !! k = Some h /\ full k)) /\
    (ba_Phase a = WorkPhasePrefill -> forall (k : nat) id h,
       ba_BlockTable a !! k = Some id -> ba_BlockHashes a !! k = Some h -> full k ->
       is_Some (m_cachedBlocks m' !! h) \/ exists h', m_cachedBlocks m' !! h' = Some id) /\
    (forall (k : nat) id, ba_BlockTable a !! k = Some id ->
       exists b, idx (m_blocks m') id = Some b /\
         blk_TokenCount b = Z.max 0 (Z.min bs (ba_TokensAfterCommit a - Z.of_nat k * bs)))) m.
Proof.
  intros bs full. pose proof HC as [p HI]. pose proof (inv_rep _ _ _ HI) as HR.
  pose proof (inv_bs _ _ _ HI) as Hbs.
  destruct (pd_table _ _ _ (inv_pending _ _ _ HI) _ _ Ha) as (_ & Hbsa & Htab & _).
  assert (Hfull : forall k id, ba_BlockTable a !! k = Some id ->
    commitTokens bs (ba_TokensAfterCommit a) (0 + Z.of_nat k) =
      Z.max 0 (Z.min bs (ba_TokensAfterCommit a - Z.of_nat k * bs)) /\
    (commitTokens bs (ba_TokensAfterCommit a) (0 + Z.of_nat k) = bs <-> full k)).
  { intros k id Hk%lookup_lt_Some. rewrite Z.add_0_l. apply commitTokens_full; [done|lia| |done].
    unfold len in Hov. fold bs in Hov. nia. }
  wp_use (Commit_inv _ _ _ _ _ HI Ha).
  intros _ m' (Hrb & Hpd & Hb & He & p' & HI' & pc & [Hcf Hcc Hcs Hco Hck] & [Hbf Hbl Hbsm Hbm Hba]).
  pose proof (inv_rep _ _ _ HI') as HR'. specialize (Hck Hnd).
  rewrite (rep_free_list _ _ HR), (rep_free_list _ _ HR'), (rep_cached _ _ HR), (rep_cached _ _ HR').
  ssplit; [by exists p'|done|done|congruence| | | |].
  - intros h id Hh. eapply lookup_weaken; [|exact Hbm]. by rewrite Hcc.
  - intros h id (i' & Hi' & Hci' & Hhi')%(cached_of _ _ _ _ (inv_ok _ _ _ HI')).
    destruct (Hbsm _ _ Hi') as (j & Hj & _ & Ht & [->|(Hph & Htj & _ & _ & k & Hk & Hh)]).
    + left. destruct (Hcs _ _ Hj) as (i & Hi & Heh & _ & Hec).
      apply (cached_of _ _ _ _ (inv_ok _ _ _ HI)). exists i. ssplit; [done|congruence..].
    + right. split; [done|]. exists k. rewrite Z.add_0_l, idx_nat, Hhi' in Hh. ssplit; [done|done|].
      destruct (Hck _ _ Hk) as (j2 & Hj2 & Htj2). apply (Hfull _ _ Hk).
      assert (j2 = j) as -> by congruence. transitivity (i_TokenCount j); [done|].
      by rewrite Htj.
  - intros Hph k id h Hk Hh Hkf. destruct (Hck _ _ Hk) as (j & Hj & Htj).
    apply (Hba Hph k id j h Hk Hj); [|by rewrite Z.add_0_l, idx_nat].
    rewrite Htj, Hbsa. by apply (Hfull _ _ Hk).
  - intros k id Hk. destruct (Hck _ _ Hk) as (j & Hj & Htj).
    destruct (proj2 (idx_is_Some (p_info p') id)) as [i' Hi'];
      [rewrite Hbl; by eapply idx_Some_range|].
    destruct (rep_info_block _ _ HR' _ _ Hi') as (b & Hbk & <-). exists b. split; [done|].
    destruct (Hbsm _ _ Hi') as (j2 & Hj2 & _ & Ht & _). cbn in Ht.
    rewrite Ht. assert (j2 = j) as -> by congruence. rewrite Htj. by apply (Hfull _ _ Hk).
Qed.

(** ** The prefix index holds full blocks *)

Definition index_full (m : manager) : Prop :=
  forall h id, m_cachedBlocks m !! h = Some id -> transferable m h id.

Definition pool_full (bs : Z) (p : Pool) : Prop :=
  forall h id, p_cached p !! h = Some id ->
    exists i, idx (p_info p) id = Some i /\ i_TokenCount i = bs.

Lemma index_full_pool m p : Rep m p -> index_full m <-> pool_full (m_blockSize m) p.
Proof.
  intros HR. unfold index_full, pool_full, transferable. rewrite (rep_cached _ _ HR). split.
  - intros H h id Hh. destruct (H h id Hh) as (_ & b & Hb & Ht). exists (info_of b).
    split; [|done]. by rewrite (rep_info _ _ HR), idx_fmap, Hb.
  - intros H h id Hh. split; [done|]. destruct (H h id Hh) as (i & Hi & Ht).
    destruct (rep_info_block _ _ HR _ _ Hi) as (b & Hb & <-). by exists b.
Qed.

Lemma pool_full_content bs p p' :
  content p' = content p -> p_cached p' = p_cached p -> pool_full bs p -> pool_full bs p'.
Proof.
  intros Hc Hca H h id. rewrite Hca. intros (i & Hi & Ht)%H.
  destruct (content_idx p' p id i (eq_sym Hc) Hi) as (i' & Hi' & [= _ Htt _]).
  exists i'. split; [done|congruence].
Qed.

Lemma pool_full_popped bs p p' ids : Popped p p' ids -> pool_full bs p -> pool_full bs p'.
Proof.
  intros HP H h id [Hh Hn]%(pop_cached _ _ _ HP). rewrite (pop_other _ _ _ HP) by done. by eapply H.
Qed.

Lemma pool_full_imported bs l p p' refs :
  PoolOK p refs -> NoDup l.*1 ->
  (forall x, x ∈ l.*1 -> exists i, idx (p_info p) x = Some i /\ i_Cached i = false) ->
  Imported bs l p p' -> pool_full bs p -> pool_full bs p'.
Proof.
  intros HO Hnd Hun HIm H h id [Hh|[_ ?]]%(im_new _ _ _ _ HIm); [|done].
  destruct (pi_cached _ (ok_inv _ _ HO) _ _ Hh) as (i & Hi & Hc & _).
  assert (Hid : id ∉ l.*1) by (intros (j & ? & ?)%Hun; congruence).
  pose proof (im_other _ _ _ _ HIm _ Hid) as Ho. destruct (H _ _ Hh) as (i2 & Hi2 & Ht).
  assert (i2 = i) as -> by congruence. rewrite Hi in Ho. cbn in Ho.
  apply fmap_Some in Ho as (i' & Hi' & Hs). unfold stored in Hs. exists i'. split; [done|congruence].
Qed.

(** The tokens a commit accounts for reach over the cached blocks of its
    table: cached blocks are full, and a request never forgets tokens. *)
Definition commit_covers (m : manager) (a : BlockAllocation) : Prop :=
  NoDup (ba_BlockTable a) /\ len (ba_BlockTable a) * m_blockSize m < two32 /\
  0 <= ba_TokensAfterCommit a < two32 /\
  forall (k : nat) id b, ba_BlockTable a !! k = Some id -> idx (m_blocks m) id = Some b ->
    blk_Cached b = true -> (Z.of_nat k + 1) * m_blockSize m <= ba_TokensAfterCommit a.

Lemma pool_full_committed m p p' a refs refs' :
  Rep m p -> PoolOK p refs -> PoolOK p' refs' -> 0 < m_blockSize m < two32 ->
  ba_BlockSize a = m_blockSize m ->
  commit_covers m a -> Committed (m_blockSize m) a p p' ->
  pool_full (m_blockSize m) p -> pool_full (m_blockSize m) p'.
Proof.
  intros HR HO HO' Hbs Hbsa (Hnd & Hov & Hta & Hcov) (pc & [Hcf Hcc Hcs Hco Hck] & [Hbf Hbl Hbsm Hbm Hba]) H h id.
  intros (i' & Hi' & Hci' & Hhi')%(cached_of _ _ _ _ HO'). exists i'. split; [done|].
  destruct (Hbsm _ _ Hi') as (j & Hj & _ & Ht & [->|(Hph & Htj & _)]); [|congruence].
  destruct (Hcs _ _ Hj) as (i & Hi & Heh & _ & Hec).
  destruct (decide (id ∈ ba_BlockTable a)) as [[k Hk]%list_elem_of_lookup|Hn].
  - destruct (Hck Hnd _ _ Hk) as (j2 & Hj2 & Htj). assert (j2 = j) as -> by congruence.
    rewrite Htj, Z.add_0_l. pose proof (lookup_lt_Some _ _ _ Hk) as Hlt.
    destruct (rep_info_block _ _ HR _ _ Hi) as (b & Hb & <-).
    apply commitTokens_full; [done|lia| |done|].
    + unfold len in Hov. nia.
    + apply (Hcov k id b); [done|done|]. cbn in Hec. congruence.
  - rewrite (Hco _ Hn) in Hj. assert (j = i) as -> by congruence.
    destruct (H (i_Hash i) id) as (i2 & Hi2 & Hti); [|congruence].
    apply (cached_of _ _ _ _ HO). exists i. by ssplit.
Qed.

(** The prefix index only ever offers full blocks: every operation keeps
    the token count of each indexed block at the block size (for [Commit], when
    the tokens it accounts for cover the cached blocks of the table). *)
Theorem index_stays_full o m pins
  (HC : Consistent m pins) (Hen : enabled o m pins) (Hfull : index_full m)
  (Hcov : forall w a, o = OpCommit w -> m_pendingAllocations m !! w = Some a -> commit_covers m a) :
  wp (run_op o pins) (fun _ m' => index_full m') m.
Proof.
  pose proof HC as [p HI]. pose proof (inv_rep _ _ _ HI) as HR. pose proof (inv_ok _ _ _ HI) as HO.
  pose proof (proj1 (index_full_pool _ _ HR) Hfull) as HF.
  assert (Hkeep : forall m' pins' p', Inv m' pins' p' -> m_blockSize m' = m_blockSize m ->
            pool_full (m_blockSize m) p' -> index_full m').
  { intros m' pins' p' HI' Hb Hp. apply (index_full_pool m' p'); [apply HI'|by rewrite Hb]. }
  assert (Hsame : forall m' pins' p', Inv m' pins' p' -> m_blockSize m' = m_blockSize m ->
            m_cachedBlocks m' = m_cachedBlocks m -> content p' = content p -> index_full m').
  { intros m' pins' p' HI' Hb Hca Hc. apply (Hkeep _ _ _ HI' Hb). eapply pool_full_content; [done| |done].
    by rewrite <- (rep_cached _ _ HR), <- Hca, (rep_cached _ _ (inv_rep _ _ _ HI')). }
  destruct o; cbn [enabled run_op] in *; wp_steps.
  - destruct Hen as (Hf & Ht & Hs). wp_use (MatchPrefix_inv _ _ _ _ HI Hf Ht Hs).
    intros r m' (_ & _ & Hca & Hb & _ & _ & p' & HI' & Hc). by eapply Hsame.
  - destruct Hen as (Ho & Hc & Hn & Hs). rewrite (rep_count _ _ (inv_rep _ _ _ HI)) in Hs.
    wp_use (AllocateBlocks_inv _ _ _ _ _ _ HI Ho Hc Hn Hs).
    intros r m'. case_match; [by intros [_ ->]|].
    intros (ids & p' & _ & _ & _ & _ & Hb & _ & HI' & HP). apply (Hkeep _ _ _ HI' Hb).
    by eapply pool_full_popped.
  - destruct (m_pendingAllocations m !! w) as [a|] eqn:Ha.
    + destruct (pd_table _ _ _ (inv_pending _ _ _ HI) _ _ Ha) as (_ & Hbsa & _).
      wp_use (Commit_inv _ _ _ _ _ HI Ha). intros _ m' (_ & _ & Hb & _ & p' & HI' & Hcm).
      apply (Hkeep _ _ _ HI' Hb). eapply pool_full_committed; try done;
        [apply HI'|apply HI|by eapply Hcov].
    + wp_use (Commit_unknown _ _ Ha). by intros _ m' ->.
  - destruct (m_pendingAllocations m !! w) as [a|] eqn:Ha.
    + wp_use (Rollback_inv _ _ _ _ _ HI Ha).
      intros _ m' (old & p' & _ & _ & _ & Hb & _ & Hca & HI' & Hc). by eapply Hsame.
    + wp_use (Rollback_unknown _ _ Ha). by intros _ m' ->.
  - wp_use (FreeRequest_inv _ _ _ rid HI).
    intros _ m' (_ & _ & _ & Hca & Hb & _ & p' & HI' & Hc). by eapply Hsame.
  - wp_use (pinCachedBlocks_inv _ _ _ _ HI Hen). intros [e|ids] m' (Hr & Hca & H).
    + by destruct H as [-> _].
    + destruct H as (_ & p' & HI' & Hc). apply rest_fields in Hr as (_ & Hb & _). by eapply Hsame.
  - destruct Hen as [Hn Hs]. wp_use (reserveTransferBlocks_inv _ _ _ _ HI Hn Hs).
    intros r m' [Hr H]. apply rest_fields in Hr as (_ & Hb & _). case_match.
    + destruct H as [_ HI']. by apply (Hkeep _ _ _ HI' Hb).
    + destruct H as (ids & p' & _ & _ & HI' & HP). apply (Hkeep _ _ _ HI' Hb).
      by eapply pool_full_popped.
  - destruct Hen as (Hp & Hl & Hnd & Hun). apply (inv_pins_perm _ _ _ _ Hp) in HI.
    assert (Hun' : forall x, x ∈ ids -> exists i, idx (p_info p) x = Some i /\ i_Cached i = false)
      by (intros x Hx; apply (uncached_info m); [done|by apply Hun]).
    wp_use (commitImportedBlocks_inv _ others _ _ _ HI Hl Hnd Hun').
    intros r m' (_ & Hr & p' & HI' & HIm). apply rest_fields in Hr as (_ & Hb & _).
    apply (Hkeep _ _ _ HI' Hb).
    assert (Hfst : (zip ids hashes).*1 = ids) by (apply fst_zip; lia).
    eapply pool_full_imported; [exact HO| | |exact HIm|done]; by rewrite Hfst.
  - apply (inv_pins_perm _ _ _ _ Hen) in HI. wp_use (releaseTransferBlocks_inv _ others _ _ HI).
    intros _ m' (p' & Hr & Hca & HI' & Hc). apply rest_fields in Hr as (_ & Hb & _). by eapply Hsame.
Qed.
