(* ===== verification/PrefixProperties.v ===== *)
(** * PrefixProperties: what a prefix hash stands for (internal/block/block.go)

    The hash of a block is chained: it covers the previous block's hash and the
    block's tokens, and the first one covers the request's cache salt.  The
    theorems say that two requests that meet in a hash have the same salt and
    the same tokens up to there, unless they exhibit a collision of SHA-256,
    and that the salts of the wire conversion keep users apart. *)

From S2P Require Import Prelude Errors Model Metrics FreeQueue GoSha256 BlockManager BlockProperties.
(** The message hashed for a block, and the pair it is made of at position [i]. *)
Definition block_message (prev : string) (tokens : list Z) : list Z :=
  bytes_of prev ++ tokens ≫= PutUint32.

Fixpoint chain_input (prev : string) (chunks : list (list Z)) (i : nat) : option (string * list Z) :=
  match chunks with
  | [] => None
  | c :: chunks' =>
      match i with
      | O => Some (prev, c)
      | S i' => chain_input (hashBlock prev c) chunks' i'
      end
  end.

(** Two block messages of the two chains collide under SHA-256. *)
Definition chains_collide (s1 s2 : string) (c1 c2 : list (list Z)) : Prop :=
  exists i j p1 t1 p2 t2,
    chain_input s1 c1 i = Some (p1, t1) /\ chain_input s2 c2 j = Some (p2, t2) /\
    block_message p1 t1 <> block_message p2 t2 /\
    Sum256 (block_message p1 t1) = Sum256 (block_message p2 t2).

(** A salt that is not itself the text of a SHA-256 digest. *)
Definition salt_ok (s : string) : Prop := forall msg, s <> EncodeToString (Sum256 msg).

Definition token (t : Z) : Prop := 0 <= t < two32.

Lemma hashBlock_message p c : hashBlock p c = EncodeToString (Sum256 (block_message p c)).
Proof. done. Qed.

Lemma chain_lookup s cs i h :
  hashChain s cs !! i = Some h ->
  exists p c, chain_input s cs i = Some (p, c) /\ h = hashBlock p c /\ cs !! i = Some c /\
    match i with O => p = s | S i' => hashChain s cs !! i' = Some p end.
Proof.
  revert s i. induction cs as [|c cs IH]; intros s i; [done|]. simpl. destruct i as [|i]; simpl.
  - intros [= <-]. by exists s, c.
  - intros (p & c' & Hin & Hh & Hc & Hp)%IH. exists p, c'. ssplit; try done.
    destruct i; [by subst|done].
Qed.

Lemma bytes_tokens_inj t1 t2 :
  Forall token t1 -> Forall token t2 -> t1 ≫= PutUint32 = t2 ≫= PutUint32 -> t1 = t2.
Proof.
  intros H1. revert t2. induction H1 as [|x t1 Hx _ IH]; intros t2 H2; destruct H2 as [|y t2 Hy H2];
    [done..|]. cbn [mbind list_bind]. intros [Hp Ht]%app_inj_1; [|done].
  apply PutUint32_inj in Hp as ->; [|done|done]. f_equal. by apply IH.
Qed.

Lemma bytes_tokens_len t : length (t ≫= PutUint32) = (4 * length t)%nat.
Proof. induction t as [|x t IH]; [done|]. csimpl. rewrite IH. lia. Qed.

Lemma block_message_inj p1 t1 p2 t2 :
  length t1 = length t2 -> Forall token t1 -> Forall token t2 ->
  block_message p1 t1 = block_message p2 t2 -> p1 = p2 /\ t1 = t2.
Proof.
  intros Hl H1 H2 H. apply app_inj_2 in H as [Hp Ht].
  - split; [by apply bytes_of_inj|by apply bytes_tokens_inj].
  - by rewrite !bytes_tokens_len, Hl.
Qed.

Section chains.
Context (s1 s2 : string) (c1 c2 : list (list Z)) (b : nat).
Context (Hl1 : Forall (fun c => length c = b) c1) (Hl2 : Forall (fun c => length c = b) c2).
Context (Ht1 : Forall (Forall token) c1) (Ht2 : Forall (Forall token) c2).

(** Equal hashes come from equal inputs, or the inputs collide. *)
Lemma chain_step i j h :
  hashChain s1 c1 !! i = Some h -> hashChain s2 c2 !! j = Some h ->
  chains_collide s1 s2 c1 c2 \/
  exists p c, c1 !! i = Some c /\ c2 !! j = Some c /\
    match i with O => p = s1 | S i' => hashChain s1 c1 !! i' = Some p end /\
    match j with O => p = s2 | S j' => hashChain s2 c2 !! j' = Some p end.
Proof.
  intros (p & c & Hin & Hh & Hc & Hp)%chain_lookup (p' & c' & Hin' & Hh' & Hc' & Hp')%chain_lookup.
  rewrite Hh, !hashBlock_message in Hh'. apply EncodeToString_inj in Hh'; [|apply Sum256_bytes..].
  destruct (decide (block_message p c = block_message p' c')) as [He|Hne].
  - right. apply block_message_inj in He as [<- <-].
    + by exists p, c.
    + rewrite Forall_lookup in Hl1, Hl2. by rewrite (Hl1 _ _ Hc), (Hl2 _ _ Hc').
    + rewrite Forall_lookup in Ht1. by eapply Ht1.
    + rewrite Forall_lookup in Ht2. by eapply Ht2.
  - left. by exists i, j, p, c, p', c'.
Qed.

Lemma chain_sound i j h :
  salt_ok s1 -> salt_ok s2 ->
  hashChain s1 c1 !! i = Some h -> hashChain s2 c2 !! j = Some h ->
  chains_collide s1 s2 c1 c2 \/
  (i = j /\ s1 = s2 /\ forall k, (k <= i)%nat -> is_Some (c1 !! k) /\ c1 !! k = c2 !! k).
Proof.
  intros Hs1 Hs2. revert j h. induction i as [|i IH]; intros j h Hi Hj.
  - destruct (chain_step _ _ _ Hi Hj) as [?|(p & c & Hc1 & Hc2 & -> & Hp)]; [by left|].
    destruct j as [|j]; [right|exfalso].
    + ssplit; [done|done|]. intros k Hk. assert (k = O) as -> by lia.
      split; [by exists c|congruence].
    + apply chain_lookup in Hp as (q & d & _ & Hq & _). by eapply Hs1.
  - destruct (chain_step _ _ _ Hi Hj) as [?|(p & c & Hc1 & Hc2 & Hp & Hp')]; [by left|].
    destruct j as [|j].
    + exfalso. subst p. apply chain_lookup in Hp as (q & d & _ & Hq & _). by eapply Hs2.
    + destruct (IH _ _ Hp Hp') as [?|(-> & -> & Hall)]; [by left|right].
      ssplit; [done|done|]. intros k Hk. destruct (decide (k = S j)) as [->|].
      * split; [by exists c|congruence].
      * apply Hall. lia.
Qed.
End chains.

(** ** The chunks of a prompt *)

Lemma fullChunks_lookup bs tokens k c :
  0 < bs -> fullChunks bs tokens !! k = Some c ->
  c = chunk bs tokens k /\ (Z.of_nat k + 1) * bs <= len tokens.
Proof.
  intros Hbs. unfold fullChunks. intros (i & -> & [-> Hk]%lookup_seq)%list_lookup_fmap_Some.
  split; [done|]. pose proof (Z.mul_div_le (len tokens) bs).
  assert (Z.of_nat k + 1 <= len tokens / bs) by lia. nia.
Qed.

Lemma fullChunks_len bs tokens :
  0 < bs -> Forall (fun c => length c = Z.to_nat bs) (fullChunks bs tokens).
Proof.
  intros Hbs. apply Forall_lookup. intros k c [-> Hk]%fullChunks_lookup; [|done].
  unfold chunk. rewrite length_take, length_drop. unfold len in Hk. nia.
Qed.

Lemma fullChunks_tokens bs tokens :
  0 < bs -> Forall token tokens -> Forall (Forall token) (fullChunks bs tokens).
Proof.
  intros Hbs Ht. apply Forall_lookup. intros k c [-> _]%fullChunks_lookup; [|done].
  by apply Forall_take, Forall_drop.
Qed.

Lemma take_chunks b (l1 l2 : list Z) n :
  (forall k, (k < n)%nat -> take b (drop (k * b) l1) = take b (drop (k * b) l2)) ->
  take (n * b) l1 = take (n * b) l2.
Proof.
  induction n as [|n IH]; intros H; [done|].
  replace (S n * b)%nat with (n * b + b)%nat by lia.
  rewrite <- !(take_take_drop _ (n * b) b). f_equal; [apply IH; intros; apply H; lia|apply H; lia].
Qed.

(** C23: The hash chain is sound: when block [i] of one request and block [j] of
    another have the same hash, the two requests exhibit a collision of SHA-256
    among the messages they hash, or they have the same salt, [i] and [j] are
    equal, and the two prompts agree on every token up to the end of the block. *)
Theorem prefix_hash_sound bs r1 r2 hs1 hs2 i j h
  (Hbs : 0 < bs)
  (Hl1 : len (req_TokenIDs r1) < two32) (Hl2 : len (req_TokenIDs r2) < two32)
  (Ht1 : Forall token (req_TokenIDs r1)) (Ht2 : Forall token (req_TokenIDs r2))
  (Hs1 : salt_ok (req_CacheSalt r1)) (Hs2 : salt_ok (req_CacheSalt r2))
  (Hh1 : blockHashes bs r1 = Some hs1) (Hh2 : blockHashes bs r2 = Some hs2)
  (Hi : hs1 !! i = Some h) (Hj : hs2 !! j = Some h) :
  chains_collide (req_CacheSalt r1) (req_CacheSalt r2)
    (fullChunks bs (req_TokenIDs r1)) (fullChunks bs (req_TokenIDs r2)) \/
  (i = j /\ req_CacheSalt r1 = req_CacheSalt r2 /\
   take (S i * Z.to_nat bs)%nat (req_TokenIDs r1) = take (S i * Z.to_nat bs)%nat (req_TokenIDs r2)).
Proof.
  rewrite blockHashes_chain in Hh1 by done. rewrite blockHashes_chain in Hh2 by done.
  injection Hh1 as <-. injection Hh2 as <-.
  destruct (chain_sound _ _ _ _ (Z.to_nat bs) (fullChunks_len bs _ Hbs) (fullChunks_len bs _ Hbs)
    (fullChunks_tokens bs _ Hbs Ht1) (fullChunks_tokens bs _ Hbs Ht2) i j h Hs1 Hs2 Hi Hj)
    as [?|(Hij & Hs & Hall)]; [by left|right]. ssplit; [done|done|].
  apply take_chunks. intros k Hk. destruct (Hall k) as [[c Hc] Heq]; [lia|].
  pose proof Hc as Hc2. rewrite Heq in Hc2.
  apply fullChunks_lookup in Hc as [-> _]; [|done].
  apply fullChunks_lookup in Hc2 as [Hc2 _]; [exact Hc2|done].
Qed.

(** ** Salts of the wire conversion *)

Lemma hexdigit_cases d : 0 <= d < 16 ->
  hexdigit d <> Ascii.ascii_of_nat 117 /\ hexdigit d <> Ascii.ascii_of_nat 114.
Proof.
  intros Hd. assert (Hall : forall n : nat, (n < 16)%nat ->
    hexdigit (Z.of_nat n) <> Ascii.ascii_of_nat 117 /\ hexdigit (Z.of_nat n) <> Ascii.ascii_of_nat 114).
  { intros n Hn. do 16 (destruct n as [|n]; [done|]). lia. }
  rewrite <- (Z2Nat.id d) by lia. apply Hall. lia.
Qed.

Lemma digest_head msg c s :
  EncodeToString (Sum256 msg) = String c s -> c <> Ascii.ascii_of_nat 117 /\ c <> Ascii.ascii_of_nat 114.
Proof.
  pose proof (Sum256_bytes msg) as Hb. pose proof (Sum256_len msg) as Hl.
  destruct (Sum256 msg) as [|b bs]; [done|]. apply Forall_cons in Hb as [Hb _].
  cbn [EncodeToString]. intros [= <- _]. apply hexdigit_cases.
  unfold is_byte in Hb. Z.to_euclidean_division_equations. lia.
Qed.

Lemma wire_salt now g r :
  ProtoMsgToModel now g = inr r ->
  req_CacheSalt r = if String.eqb (gr_UserId g) "" then "request:" +:+ gr_RequestId g
                    else "user:" +:+ gr_UserId g.
Proof.
  unfold ProtoMsgToModel. destruct (ParseModelID (gr_ModelId g)); [done|]. by intros [= <-].
Qed.

Lemma wire_salt_ok now g r : ProtoMsgToModel now g = inr r -> salt_ok (req_CacheSalt r).
Proof.
  intros Hr msg Hs. rewrite (wire_salt _ _ _ Hr) in Hs. symmetry in Hs.
  destruct (String.eqb (gr_UserId g) ""); apply digest_head in Hs as [??]; done.
Qed.

(** The scope a request's cached blocks can be found in: its user, or the
    request itself when it names no user. *)
Definition cache_scope (g : GenerateRequest) : string + string :=
  if String.eqb (gr_UserId g) "" then inr (gr_RequestId g) else inl (gr_UserId g).

(** C24: Cached blocks are isolated between users: two wire requests, converted
    and tokenized, that share a block hash are requests of the same user, or
    the same request when they name no user (unless their messages collide
    under SHA-256). *)
Theorem cache_isolation bs now1 now2 g1 g2 r1 r2 t1 t2 hs1 hs2 i j h
  (Hbs : 0 < bs)
  (Hr1 : ProtoMsgToModel now1 g1 = inr r1) (Hr2 : ProtoMsgToModel now2 g2 = inr r2)
  (Hl1 : len t1 < two32) (Hl2 : len t2 < two32)
  (Ht1 : Forall token t1) (Ht2 : Forall token t2)
  (Hh1 : blockHashes bs (r1 <| req_TokenIDs := t1 |>) = Some hs1)
  (Hh2 : blockHashes bs (r2 <| req_TokenIDs := t2 |>) = Some hs2)
  (Hi : hs1 !! i = Some h) (Hj : hs2 !! j = Some h) :
  chains_collide (req_CacheSalt r1) (req_CacheSalt r2) (fullChunks bs t1) (fullChunks bs t2) \/
  cache_scope g1 = cache_scope g2.
Proof.
  rewrite blockHashes_chain in Hh1, Hh2 by done. injection Hh1 as <-. injection Hh2 as <-.
  destruct (chain_sound _ _ _ _ (Z.to_nat bs) (fullChunks_len bs _ Hbs) (fullChunks_len bs _ Hbs)
    (fullChunks_tokens bs _ Hbs Ht1) (fullChunks_tokens bs _ Hbs Ht2) i j h
    (wire_salt_ok _ _ _ Hr1) (wire_salt_ok _ _ _ Hr2) Hi Hj) as [?|(_ & Hs & _)]; [by left|right].
  rewrite (wire_salt _ _ _ Hr1), (wire_salt _ _ _ Hr2) in Hs. unfold cache_scope.
  destruct (String.eqb (gr_UserId g1) ""), (String.eqb (gr_UserId g2) ""); try done.
  - injection Hs as Hs. by rewrite (Hs : gr_RequestId g1 = gr_RequestId g2).
  - injection Hs as Hs. by rewrite (Hs : gr_UserId g1 = gr_UserId g2).
Qed.

Lemma cachedPrefix_matched c hs :
  let ids := cachedPrefix c hs in
  Forall2 (fun h id => c !! h = Some id) (take (length ids) hs) ids /\
  forall h, hs !! length ids = Some h -> c !! h = None.
Proof.
  induction hs as [|h hs [IH1 IH2]]; cbn [cachedPrefix]; [split; [constructor|done]|].
  destruct (c !! h) as [id|] eqn:Hh; cbn [length take].
  - split; [by constructor|]. intros g. cbn [lookup list_lookup]. apply IH2.
  - split; [constructor|]. intros g [= <-]. done.
Qed.

(** C25: A prompt never comes out of [MatchPrefix] fully cached.  The match is
    the longest run of indexed hashes among the blocks before the final one, its
    tokens are fewer than the prompt's, so a prefill of at least one token
    remains, and [MatchPrefix] gives the request a table of exactly the matched
    blocks and touches neither the index nor the content of a block. *)
Theorem match_prefix_longest m pins req
  (HC : Consistent m pins) (Hfresh : m_requestBlocks m !! req_RequestId req = None)
  (Htok : len (req_TokenIDs req) < two32)
  (Hs : len (pins ++ tab (m_requestBlocks m)) + len (req_TokenIDs req) / m_blockSize m < two32) :
  let n := len (req_TokenIDs req) in
  let bs := m_blockSize m in
  wp (MatchPrefix req) (fun r m' => exists hs matched,
    blockHashes bs req = Some hs /\ matched `prefix_of` hs /\
    len matched = len (pm_BlockIDs r.1) /\
    Forall2 (fun h id => m_cachedBlocks m !! h = Some id) matched (pm_BlockIDs r.1) /\
    (forall h, hs !! length matched = Some h -> (Z.of_nat (length matched) + 1) * bs < n ->
       m_cachedBlocks m !! h = None) /\
    pm_CachedTokens r.1 = len (pm_BlockIDs r.1) * bs /\
    (0 < n -> pm_CachedTokens r.1 < n) /\ (n = 0 -> pm_CachedTokens r.1 = 0) /\
    req_Cache r.2 = Some r.1 /\
    m_requestBlocks m' = <[req_RequestId req := pm_BlockIDs r.1]> (m_requestBlocks m) /\
    m_cachedBlocks m' = m_cachedBlocks m /\ Consistent m' pins) m.
Proof.
  intros n bs. destruct HC as [p HI]. pose proof (inv_bs _ _ _ HI) as Hbs. fold bs in Hbs.
  wp_use (MatchPrefix_inv _ _ _ _ HI Hfresh Htok Hs).
  fold n bs. set (hs := hashChain _ _). set (hm := take _ hs). set (ids := cachedPrefix _ hm).
  intros r m' (-> & Hrb & Hca & _ & _ & _ & p' & HI' & _). cbn [fst snd pm_BlockIDs pm_CachedTokens].
  destruct (cachedPrefix_matched (m_cachedBlocks m) hm) as [Hf2 Hmax]. fold ids in Hf2, Hmax.
  pose proof (matchable_bounds bs n ltac:(lia) (len_nonneg _)) as [Hm Hmn].
  assert (Hids : len ids <= matchable bs n).
  { pose proof (cachedPrefix_len (m_cachedBlocks m) hm) as Hl. fold ids in Hl.
    unfold hm, len at 2 in Hl. rewrite length_take in Hl. lia. }
  pose proof (len_nonneg ids) as Hi0.
  exists hs, (take (length ids) hm).
  assert (Hlm : length (take (length ids) hm) = length ids) by (by apply Forall2_length in Hf2).
  ssplit; try done.
  - apply blockHashes_chain; [lia|done].
  - unfold hm. rewrite take_take. exists (drop (length ids `min` Z.to_nat (matchable bs n)) hs).
    by rewrite take_drop.
  - unfold len. by rewrite Hlm.
  - rewrite Hlm. intros h Hh Hlt. apply Hmax. unfold hm. rewrite lookup_take_lt; [done|].
    unfold matchable. fold n. rewrite (proj2 (Z.ltb_lt 0 n)) by lia.
    assert (Z.of_nat (length ids) + 1 <= (n - 1) / bs); [|lia].
    apply Z.div_le_lower_bound; lia.
  - intros Hn. specialize (Hmn Hn). nia.
  - intros Hn. unfold matchable in Hids. rewrite Hn in Hids. cbn in Hids. nia.
  - by exists p'.
Qed.

(** ** Probing *)

Lemma probeLoop_spec m p refs hs :
  Rep m p -> PoolOK p refs -> index_full m ->
  exists l, probeLoop m hs = Some l /\ l `prefix_of` hs /\
    len l = len (cachedPrefix (m_cachedBlocks m) hs).
Proof.
  intros HR HO Hfull. induction hs as [|h hs (l & Hl & Hpre & Hlen)]; cbn [probeLoop cachedPrefix].
  { by exists []. }
  destruct (m_cachedBlocks m !! h) as [id|] eqn:Hh.
  - destruct (Hfull _ _ Hh) as (_ & b & Hb & Ht).
    pose proof Hh as Hh'. rewrite (rep_cached _ _ HR) in Hh'.
    destruct (pi_cached _ (ok_inv _ _ HO) _ _ Hh') as (i & Hi & Hic & Hih).
    destruct (rep_info_block _ _ HR _ _ Hi) as (b' & Hb' & <-).
    rewrite Hb in Hb'. injection Hb' as <-. cbn in Hic, Hih.
    rewrite Hb. cbn [mbind option_bind]. rewrite Hic, Hih, String.eqb_refl, Ht, Z.eqb_refl.
    cbn [negb orb]. rewrite Hl. cbn [mbind option_bind]. exists (h :: l).
    ssplit; [done|by apply prefix_cons|by rewrite !len_cons, Hlen].
  - exists []. ssplit; [done|apply prefix_nil|done].
Qed.

(** C34: [probePrefix] predicts [MatchPrefix]: on a consistent manager whose
    index holds full blocks, the candidate names the manager's executor and
    offers as many blocks and cached tokens as a [MatchPrefix] of the same
    request then takes. *)
Theorem probe_predicts_match m pins req
  (HC : Consistent m pins) (Hfull : index_full m)
  (Hfresh : m_requestBlocks m !! req_RequestId req = None)
  (Htok : len (req_TokenIDs req) < two32)
  (Hs : len (pins ++ tab (m_requestBlocks m)) + len (req_TokenIDs req) / m_blockSize m < two32) :
  exists c, probePrefix req m = Some c /\ pc_ExecutorID c = m_executorID m /\
    wp (MatchPrefix req) (fun r _ =>
      len (pc_MatchedHashes c) = len (pm_BlockIDs r.1) /\
      pc_CachedTokens c = pm_CachedTokens r.1 /\
      pc_MatchedHashes c `prefix_of` pm_HashesTotal r.1) m.
Proof.
  destruct HC as [p HI]. pose proof (inv_bs _ _ _ HI) as Hbs.
  destruct (matchableBlockHashes_chain (m_blockSize m) req) as [Hmh Hhl]; [lia|done|].
  unfold probePrefix. rewrite Hmh. cbn [mbind option_bind].
  destruct (probeLoop_spec m p _ (take (Z.to_nat (matchable (m_blockSize m) (len (req_TokenIDs req))))
    (hashChain (req_CacheSalt req) (fullChunks (m_blockSize m) (req_TokenIDs req))))
    (inv_rep _ _ _ HI) (inv_ok _ _ _ HI) Hfull) as (l & -> & Hpre & Hlen).
  cbn [mbind option_bind]. eexists. split; [done|]. split; [done|].
  wp_use (MatchPrefix_inv _ _ _ _ HI Hfresh Htok Hs). intros r m' (-> & _).
  cbn [fst pm_BlockIDs pm_CachedTokens pc_MatchedHashes pc_CachedTokens pm_HashesTotal].
  rewrite <- Hlen in *. ssplit; [done| |].
  - assert (Hle : len l <= len (req_TokenIDs req) / m_blockSize m).
    { rewrite <- Hhl. rewrite Hlen. etransitivity; [apply cachedPrefix_len|].
      unfold len. rewrite length_take. lia. }
    pose proof (len_nonneg l). pose proof (Z.mul_div_le (len (req_TokenIDs req)) (m_blockSize m)).
    assert (0 <= len l * m_blockSize m <= len (req_TokenIDs req)) by nia.
    rewrite (u32_small (len l)), u32_small by nia. done.
  - etransitivity; [exact Hpre|]. apply prefix_take.
Qed.

(** [ceilDiv] gives the least number of blocks that hold [v] tokens exactly
    when [v + divisor] does not exceed 2^32; beyond that the sum wraps and the
    result is too small to hold them. *)
Theorem ceilDiv_exact v d (Hv : 0 <= v < two32) (Hd : 0 < d < two32) :
  (v + d <= two32 <-> v <= ceilDiv v d * d) /\
  (v + d <= two32 -> forall k, v <= k * d -> ceilDiv v d <= k).
Proof.
  assert (Hcase : v + d <= two32 /\ ceilDiv v d = (v + d - 1) / d \/
                  two32 < v + d /\ ceilDiv v d = (v + d - 1 - two32) / d).
  { unfold ceilDiv. destruct (Z.eqb_spec v 0) as [->|Hv0].
    - left. split; [lia|]. rewrite Z.div_small; lia.
    - destruct (decide (v + d < two32)) as [H1|H1]; [left|].
      + split; [lia|]. by rewrite (u32_small (v + d)), u32_small by lia.
      + destruct (decide (v + d = two32)) as [E|]; [left|right]; (split; [lia|]).
        * rewrite E. change (u32 two32) with 0. change (0 -u 1) with (two32 - 1). done.
        * assert (u32 (v + d) = v + d - two32) as ->.
          { unfold u32. rewrite <- (Z_mod_plus_full (v + d) (-1) two32). apply Z.mod_small. lia. }
          rewrite u32_small by lia. f_equal. lia. }
  pose proof (Z.mul_div_le (v + d - 1) d). pose proof (Z.mul_succ_div_gt (v + d - 1) d).
  pose proof (Z.mul_div_le (v + d - 1 - two32) d).
  destruct Hcase as [[Hle ->]|[Hgt ->]].
  - split; [lia|]. intros _ k Hk. assert ((v + d - 1) / d < k + 1); [|lia].
    apply Z.div_lt_upper_bound; nia.
  - split; [lia|]. lia.
Qed.
