(* ===== verification/BlockExamples.v ===== *)
(** * BlockExamples: the block manager on a concrete executor

    A manager with four blocks of two tokens, a request of three tokens that is
    matched, allocated and committed, and the witnesses: the theorems of
    BlockProperties and PrefixProperties applied to these states. *)

From S2P Require Import Prelude Errors Model Metrics FreeQueue GoSha256 BlockManager BlockProperties PrefixProperties.
Definition rt0 : ExecutorStats :=
  mkExecutorStats "e0" 1 "mock" "qwen3" "bf16" "cpu" 1 2 4 1 1 1 0 0 0 "r" 1 "kv" "".

Definition wire0 : GenerateRequest := mkGenerateRequest "r0" "alice" "mock" "abc" 4 1000 ∅.
Definition tokens0 : list Z := [97; 98; 99].
Definition req0 : Request :=
  match ProtoMsgToModel 0 wire0 with
  | inr r => r <| req_TokenIDs := tokens0 |>
  | inl _ => mkRequest "" "" "" "" "" 0 0 0 "" None [] 0 0 0 RequestPhaseQueued
               FinishReasonUnspecified "" 0 0 0 Usage0 ∅
  end.
Definition hashes0 : list string := default [] (blockHashes 2 req0).
Definition match0 : PrefixMatch := mkPrefixMatch false 0 [] hashes0.
Definition work0 : WorkItem :=
  mkWorkItem "w0" "r0" "e0" WorkPhasePrefill 0 4 "mock" (Some match0) tokens0 3 None 0 0 3 0 0.

Definition noManager : manager := mkManager "" 1 [] (-1) (-1) 0 ∅ ∅ ∅ [].
Definition m0 : manager :=
  match newManager (Some rt0) with Some (inr m) => m | _ => noManager end.
Definition after {A} (c : M manager A) (m : manager) : manager :=
  match c m with Some (_, m') => m' | None => noManager end.
Definition m1 : manager := after (MatchPrefix req0) m0.
Definition m2 : manager := after (AllocateBlocks work0) m1.
Definition m3 : manager := after (Commit "w0") m2.

(** The three steps, evaluated: two blocks are allocated, the full one is
    indexed by the commit. *)
Example m3_state :
  m_requestBlocks m3 !! "r0" = Some [0; 1] /\ m_freeCount m3 = 2 /\ free_list m3 = [2; 3] /\
  (blk_TokenCount <$> m_blocks m3) = [2; 1; 0; 0] /\
  (blk_RefCount <$> m_blocks m3) = [1; 1; 0; 0] /\
  map_to_list (m_cachedBlocks m3) = (fun h => (h, 0)) <$> hashes0.
Proof. vm_compute. by ssplit. Qed.

Lemma no_pending_empty rid m : m_pendingAllocations m = ∅ -> no_pending rid m.
Proof. intros H w a. by rewrite H, lookup_empty. Qed.

Definition runs {A} (c : M manager A) (m : manager) : bool :=
  match c m with Some _ => true | None => false end.

Lemma run_after {A B} (c : M manager A) (b : B) m :
  runs c m = true -> (c ≫= fun _ => mret b) m = Some (b, after c m).
Proof. unfold runs, after, mbind, M_bind, mret, M_ret. by destruct (c m) as [[a m']|]. Qed.

(** The manager operation inside an [Op] that keeps the pins. *)
Lemma step_after {A} o m pins (c : M manager A) :
  enabled o m pins -> run_op o pins = (c ≫= fun _ => mret pins) -> runs c m = true ->
  step (m, pins) (after c m, pins).
Proof. intros He Hrun Hc. apply (step_op o); [done|]. rewrite Hrun. by apply run_after. Qed.

Lemma reachable_step rt m m' pins pins' :
  reachable rt (m, pins) -> step (m, pins) (m', pins') -> reachable rt (m', pins').
Proof. intros (m00 & Hm & Hs) Hst. exists m00. split; [done|]. by eapply rtc_r. Qed.

Lemma m0_reachable : reachable rt0 (m0, []).
Proof. exists m0. split; [by vm_compute|apply rtc_refl]. Qed.

Lemma m1_pending : m_pendingAllocations m1 = ∅.
Proof. by vm_compute. Qed.

Lemma enabled_m0 : enabled (OpMatchPrefix req0) m0 [].
Proof. vm_compute. by ssplit. Qed.

Lemma enabled_m1 : enabled (OpAllocateBlocks work0 match0 []) m1 [].
Proof.
  cbn [enabled]. ssplit; [left; by vm_compute|by vm_compute|apply no_pending_empty, m1_pending|by vm_compute].
Qed.

Lemma m1_reachable : reachable rt0 (m1, []).
Proof.
  apply (reachable_step _ _ _ _ _ m0_reachable).
  exact (step_after (OpMatchPrefix req0) m0 [] (MatchPrefix req0) enabled_m0 eq_refl
           ltac:(by vm_compute)).
Qed.

Lemma m2_reachable : reachable rt0 (m2, []).
Proof.
  apply (reachable_step _ _ _ _ _ m1_reachable).
  exact (step_after (OpAllocateBlocks work0 match0 []) m1 [] (AllocateBlocks work0) enabled_m1
           eq_refl ltac:(by vm_compute)).
Qed.

Lemma m3_reachable : reachable rt0 (m3, []).
Proof.
  apply (reachable_step _ _ _ _ _ m2_reachable).
  exact (step_after (OpCommit "w0") m2 [] (Commit "w0") I eq_refl ltac:(by vm_compute)).
Qed.

Lemma rt0_reachable_consistent m : reachable rt0 (m, []) -> Consistent m [].
Proof. intros H. apply (reachable_consistent rt0); [done|by split|by split|done]. Qed.

(** ** A second request of the same user, with the same prompt *)

Definition wire1 : GenerateRequest := mkGenerateRequest "r1" "alice" "mock" "abc" 4 1000 ∅.
Definition conv (g : GenerateRequest) : Request :=
  match ProtoMsgToModel 0 g with inr r => r | inl _ => req0 end.
Definition req1 : Request := conv wire1 <| req_TokenIDs := tokens0 |>.
Definition hash00 : string := default "" (hashes0 !! 0%nat).
Definition alloc0 : BlockAllocation := allocationOf m1 work0 match0 [] [0; 1].

Lemma m3_index_full : index_full m3.
Proof.
  intros h id Hh. apply elem_of_map_to_list in Hh.
  assert (map_to_list (m_cachedBlocks m3) = [(hash00, 0)]) as E by (by vm_compute).
  rewrite E in Hh. apply list_elem_of_singleton in Hh. injection Hh as -> ->.
  split; [by vm_compute|]. exists (mkBlock hash00 1 2 true false (-1) (-1)).
  split; by vm_compute.
Qed.

#[local] Opaque Sum256 hashBlock m0 m1 m2 m3 hashes0 hash00 conv req0 req1 after.

Lemma tokens0_ok : Forall token tokens0.
Proof. unfold tokens0, token, two32. repeat (apply Forall_cons; split; [lia|]). constructor. Qed.

(** ** Witnesses *)


Lemma allocate_takes_oldest_witness :
  wp (allocate 1) (fun r m' => r = ([2], true) /\ m_freeCount m' = 1) m3.
Proof.
  eapply wp_mono; [apply (allocate_takes_oldest m3 [] 1 (rt0_reachable_consistent _ m3_reachable));
    [done|by vm_compute]|].
  intros r m' H. cbv beta in H. replace (m_freeCount m3) with 2 in H by (by vm_compute).
  destruct H as (-> & _ & -> & _). split; by vm_compute.
Defined.

Lemma allocate_rollback_roundtrip_witness :
  wp ('(ok, _) ← AllocateBlocks work0; if ok : bool then Rollback "w0" else mret tt)
    (fun _ m' => Consistent m' [] /\ m_freeCount m' = m_freeCount m1) m1.
Proof.
  eapply wp_mono; [apply (allocate_rollback_roundtrip m1 [] work0 match0 []
    (rt0_reachable_consistent _ m1_reachable))|].
  - left. by vm_compute.
  - reflexivity.
  - apply no_pending_empty, m1_pending.
  - by rewrite m1_pending, lookup_empty.
  - by vm_compute.
  - intros r m' (H1 & H2 & _). exact (conj H1 H2).
Defined.

Lemma commit_caches_full_prefill_witness :
  wp (Commit "w0") (fun _ m' => Consistent m' [] /\ free_list m' = free_list m2) m2.
Proof.
  eapply wp_mono; [apply (commit_caches_full_prefill m2 [] "w0" alloc0
    (rt0_reachable_consistent _ m2_reachable))|].
  - by vm_compute.
  - apply (bool_decide_unpack _). by vm_compute.
  - by vm_compute.
  - by vm_compute.
  - intros r m' (H1 & _ & _ & H2 & _). exact (conj H1 H2).
Defined.

Lemma index_stays_full_witness :
  wp (run_op (OpMatchPrefix req1) []) (fun _ m' => index_full m') m3.
Proof.
  apply (index_stays_full (OpMatchPrefix req1) m3 [] (rt0_reachable_consistent _ m3_reachable)).
  - cbn [enabled]. ssplit; by vm_compute.
  - apply m3_index_full.
  - intros w a H. discriminate H.
Defined.

Lemma req0_hashes : blockHashes 2 req0 = Some hashes0.
Proof. by vm_compute. Qed.

Lemma req1_hashes : blockHashes 2 req1 = Some hashes0.
Proof. by vm_compute. Qed.

Lemma hashes0_first : hashes0 !! 0%nat = Some hash00.
Proof. by vm_compute. Qed.

Lemma prefix_hash_sound_witness :
  chains_collide (req_CacheSalt req0) (req_CacheSalt req1)
    (fullChunks 2 (req_TokenIDs req0)) (fullChunks 2 (req_TokenIDs req1)) \/
  (0%nat = 0%nat /\ req_CacheSalt req0 = req_CacheSalt req1 /\
   take (1 * Z.to_nat 2)%nat (req_TokenIDs req0) = take (1 * Z.to_nat 2)%nat (req_TokenIDs req1)).
Proof.
  assert (Hl0 : len (req_TokenIDs req0) < two32) by (by vm_compute).
  assert (Hl1 : len (req_TokenIDs req1) < two32) by (by vm_compute).
  assert (Hs0 : salt_ok (req_CacheSalt req0)) by exact (wire_salt_ok 0 wire0 (conv wire0) eq_refl).
  assert (Hs1 : salt_ok (req_CacheSalt req1)) by exact (wire_salt_ok 0 wire1 (conv wire1) eq_refl).
  exact (prefix_hash_sound 2 req0 req1 hashes0 hashes0 0 0 hash00 eq_refl Hl0 Hl1
    tokens0_ok tokens0_ok Hs0 Hs1 req0_hashes req1_hashes hashes0_first hashes0_first).
Defined.

Lemma cache_isolation_witness :
  chains_collide (req_CacheSalt (conv wire0)) (req_CacheSalt (conv wire1))
    (fullChunks 2 tokens0) (fullChunks 2 tokens0) \/
  cache_scope wire0 = cache_scope wire1.
Proof.
  assert (Hl : len tokens0 < two32) by (by vm_compute).
  exact (cache_isolation 2 0 0 wire0 wire1 (conv wire0) (conv wire1) tokens0 tokens0
    hashes0 hashes0 0 0 hash00 eq_refl eq_refl eq_refl Hl Hl tokens0_ok tokens0_ok
    req0_hashes req1_hashes hashes0_first hashes0_first).
Defined.

Lemma match_prefix_longest_witness :
  wp (MatchPrefix req1) (fun r m' => pm_CachedTokens r.1 < 3 /\ Consistent m' []) m3.
Proof.
  eapply wp_mono; [apply (match_prefix_longest m3 [] req1
    (rt0_reachable_consistent _ m3_reachable)); by vm_compute|].
  cbv beta. intros r m' (hs & ms & _ & _ & _ & _ & _ & _ & Hlt & _ & _ & _ & _ & HC).
  split; [by apply Hlt|done].
Defined.

Lemma probe_predicts_match_witness : exists c, probePrefix req1 m3 = Some c /\
  pc_ExecutorID c = "e0" /\ pc_CachedTokens c = 2.
Proof.
  destruct (probe_predicts_match m3 [] req1 (rt0_reachable_consistent _ m3_reachable)
    m3_index_full) as (c & Hc & He & _); [by vm_compute..|].
  exists c. split; [done|]. split; [done|].
  assert (Hc' : pc_CachedTokens <$> probePrefix req1 m3 = Some 2) by (by vm_compute).
  rewrite Hc in Hc'. by injection Hc'.
Defined.

Lemma ceilDiv_exact_witness : 7 <= ceilDiv 7 4 * 4 /\ ceilDiv (two32 - 1) 16 = 0.
Proof.
  split; [|by vm_compute]. by apply (ceilDiv_exact 7 4 ltac:(done) ltac:(done)).
Defined.

(** ** Allocation after the request is gone *)

Definition match1 : PrefixMatch := mkPrefixMatch true 2 [0] hashes0.
Definition work1 : WorkItem :=
  mkWorkItem "w1" "r1" "e0" WorkPhasePrefill 0 4 "mock" (Some match1) tokens0 3 None 2 0 1 0 0.

