(* ===== verification/BlockRegistry.v ===== *)
(** * BlockRegistry: one block manager per executor and the KV transfer
    transactions between two of them (internal/block/registry.go)

    The registry holds a manager per executor and the plans of the transfers in
    progress.  Its methods run as transitions of the state monad over
    [registry]; [onManager] runs an operation of one manager.  A transfer pins
    cached blocks on the source and reserves as many blocks on the destination
    ([PrepareTransfer]); [CommitTransfer] indexes the destination blocks under
    the transferred hashes and [RollbackTransfer] gives both sides back. *)

From stdpp Require Import sorting.
From S2P Require Import Prelude Errors Model Metrics FreeQueue GoSha256 BlockManager BlockProperties.
Record registry := mkRegistry {
  r_managers : gmap string manager;
  r_executorIDs : list string;
  r_pendingTransfers : gmap string TransferPlan
}.
#[export] Instance registry_eta : Eta registry := fun r =>
  mkRegistry (r_managers r) (r_executorIDs r) (r_pendingTransfers r).

(** [sort.Strings]: byte-wise lexicographic order. *)
Definition string_le (a b : string) : Prop := String.leb a b = true.
#[export] Instance string_le_dec : RelDecision string_le.
Proof. intros a b. unfold string_le. apply _. Defined.
Definition sortStrings : list string -> list string := merge_sort string_le.

(** The loop of [NewRegistry] over the sorted ids. *)
Fixpoint buildManagers (runtimes : gmap string (option ExecutorStats)) (ids : list string)
    (managers : gmap string manager) : option (error + gmap string manager) :=
  match ids with
  | [] => Some (inr managers)
  | executorID :: ids' =>
      match default None (runtimes !! executorID) with
      | None => Some (inl (text ("executor " +:+ executorID +:+ " returned no runtime")))
      | Some runtime =>
          if negb (String.eqb (es_ExecutorId runtime) executorID)
          then Some (inl (text ("executor runtime ID " +:+ es_ExecutorId runtime
                 +:+ " does not match registered ID " +:+ executorID)))
          else
            r ← newManager (Some runtime);
            match r with
            | inl err => Some (inl (WrapError ("create block manager for executor " +:+ executorID) err))
            | inr manager => buildManagers runtimes ids' (<[executorID := manager]> managers)
            end
      end
  end.

Definition NewRegistry (runtimes : gmap string (option ExecutorStats))
    : option (error + registry) :=
  if Nat.eqb (size runtimes) 0
  then Some (inl (text "block registry requires at least one executor"))
  else
    let executorIDs := sortStrings (map_to_list runtimes).*1 in
    r ← buildManagers runtimes executorIDs ∅;
    Some (match r with
          | inl err => inl err
          | inr managers => inr (mkRegistry managers executorIDs ∅)
          end).

(** Run a manager's operation; a missing manager is a nil dereference. *)
Definition onManager {A} (executorID : string) (c : M manager A) : M registry A := fun r =>
  m ← r_managers r !! executorID;
  '(a, m') ← c m;
  Some (a, r <| r_managers := <[executorID := m']> (r_managers r) |>).

Definition notFound (executorID : string) : error :=
  text ("block manager for executor " +:+ executorID +:+ " not found").

(** [managerFor], then the operation on the manager it returns. *)
Definition withManager {A} (executorID : string) (c : M manager A) : M registry (error + A) :=
  r ← getS;
  match r_managers r !! executorID with
  | None => mret (inl (notFound executorID))
  | Some _ => a ← onManager executorID c; mret (inr a)
  end.

Definition ExecutorIDs (r : registry) : list string := r_executorIDs r.

Definition ProbePrefixes (req : Request) (r : registry) : option (list PrefixCandidate) :=
  mapM (fun executorID => m ← r_managers r !! executorID; probePrefix req m) (r_executorIDs r).

Definition RegMatchPrefix (req : Request) : M registry (error + (PrefixMatch * Request)) :=
  withManager (req_ExecutorID req) (MatchPrefix req).
Definition RegAllocateBlocks (work : WorkItem) : M registry (error + (bool * WorkItem)) :=
  withManager (wi_ExecutorID work) (AllocateBlocks work).
Definition RegCommit (executorID workID : string) : M registry (error + unit) :=
  withManager executorID (Commit workID).
Definition RegRollback (executorID workID : string) : M registry (error + unit) :=
  withManager executorID (Rollback workID).
Definition RegFreeRequest (executorID requestID : string) : M registry (error + unit) :=
  withManager executorID (FreeRequest requestID).

(** The copy [cloneTransferPlan] makes of a plan is the plan: the model's lists
    are values. *)
Definition cloneTransferPlan (plan : TransferPlan) : TransferPlan := {|
  tp_TransferID := tp_TransferID plan;
  tp_SourceExecutorID := tp_SourceExecutorID plan;
  tp_SourceBlockIDs := tp_SourceBlockIDs plan;
  tp_DestinationExecutorID := tp_DestinationExecutorID plan;
  tp_DestinationBlockIDs := tp_DestinationBlockIDs plan;
  tp_BlockHashes := tp_BlockHashes plan
|}.

Definition PrepareTransfer (transferID sourceExecutorID destinationExecutorID : string)
    (blockHashes : list string) : M registry (error + TransferPlan) :=
  if String.eqb transferID "" then mret (inl (text "transfer ID must not be empty"))
  else if String.eqb sourceExecutorID destinationExecutorID
  then mret (inl (text "source and destination executors must differ"))
  else if len blockHashes =? 0
  then mret (inl (text "transfer requires at least one block hash"))
  else
    r ← getS;
    match r_managers r !! sourceExecutorID with
    | None => mret (inl (notFound sourceExecutorID))
    | Some source =>
    match r_managers r !! destinationExecutorID with
    | None => mret (inl (notFound destinationExecutorID))
    | Some destination =>
    if negb (m_blockSize source =? m_blockSize destination)
    then mret (inl (text "source and destination block sizes differ"))
    else match r_pendingTransfers r !! transferID with
    | Some _ => mret (inl (text ("transfer " +:+ transferID +:+ " already exists")))
    | None =>
        pinned ← onManager sourceExecutorID (pinCachedBlocks blockHashes);
        match pinned with
        | inl err => mret (inl err)
        | inr sourceBlockIDs =>
            '(destinationBlockIDs, ok) ←
              onManager destinationExecutorID (reserveTransferBlocks (u32 (len blockHashes)));
            if negb ok then
              onManager sourceExecutorID (releaseTransferBlocks sourceBlockIDs) ;;
              mret (inl (text ("destination executor " +:+ destinationExecutorID
                                +:+ " has insufficient free blocks")))
            else
              let plan := mkTransferPlan transferID sourceExecutorID sourceBlockIDs
                            destinationExecutorID destinationBlockIDs blockHashes in
              modS (fun r => r <| r_pendingTransfers :=
                <[transferID := plan]> (r_pendingTransfers r) |>) ;;
              mret (inr (cloneTransferPlan plan))
        end
    end end end.

Definition transferNotFound (transferID : string) : error :=
  text ("transfer " +:+ transferID +:+ " not found").

Definition CommitTransfer (transferID : string) : M registry (option error) :=
  r ← getS;
  match r_pendingTransfers r !! transferID with
  | None => mret (Some (transferNotFound transferID))
  | Some plan =>
      err ← onManager (tp_DestinationExecutorID plan)
              (commitImportedBlocks (tp_DestinationBlockIDs plan) (tp_BlockHashes plan));
      match err with
      | Some e => mret (Some e)
      | None =>
          onManager (tp_SourceExecutorID plan) (releaseTransferBlocks (tp_SourceBlockIDs plan)) ;;
          modS (fun r => r <| r_pendingTransfers := delete transferID (r_pendingTransfers r) |>) ;;
          mret None
      end
  end.

Definition RollbackTransfer (transferID : string) : M registry (option error) :=
  r ← getS;
  match r_pendingTransfers r !! transferID with
  | None => mret (Some (transferNotFound transferID))
  | Some plan =>
      onManager (tp_DestinationExecutorID plan) (releaseTransferBlocks (tp_DestinationBlockIDs plan)) ;;
      onManager (tp_SourceExecutorID plan) (releaseTransferBlocks (tp_SourceBlockIDs plan)) ;;
      modS (fun r => r <| r_pendingTransfers := delete transferID (r_pendingTransfers r) |>) ;;
      mret None
  end.

(** ** Reserved blocks stay out of reach

    A block reserved on the destination is referenced by its transfer only: it
    is not indexed and in no block table.  Every other operation of the manager
    leaves it so. *)

Definition isolated (m : manager) (id : Z) : Prop :=
  uncached m id /\ id ∉ tab (m_requestBlocks m).

Lemma uncached_pool m p id : Rep m p ->
  uncached m id <-> exists i, idx (p_info p) id = Some i /\ i_Cached i = false.
Proof.
  intros HR. split; [by apply uncached_info|].
  intros (i & Hi & Hc). destruct (rep_info_block _ _ HR _ _ Hi) as (b & Hb & <-). by exists b.
Qed.

Lemma tab_elem t x : x ∈ tab t <-> exists k l, t !! k = Some l /\ x ∈ l.
Proof.
  unfold tab. rewrite list_elem_of_In, in_concat. split.
  - intros (l & Hl & Hx). apply list_elem_of_In, list_elem_of_fmap in Hl as ([k l'] & -> & Hk).
    apply elem_of_map_to_list in Hk. exists k, l'. split; [done|]. by apply list_elem_of_In.
  - intros (k & l & Hk & Hx). exists l. split; [|by apply list_elem_of_In].
    apply list_elem_of_In, list_elem_of_fmap. exists (k, l). split; [done|].
    by apply elem_of_map_to_list.
Qed.

Lemma tab_insert_notin t k l x : x ∉ tab t -> x ∉ l -> x ∉ tab (<[k := l]> t).
Proof.
  intros Ht Hl (k' & l' & Hk & Hx)%tab_elem. apply lookup_insert_Some in Hk as [[_ <-]|[_ Hk]]; [done|].
  apply Ht, tab_elem. by exists k', l'.
Qed.

Lemma tab_delete_notin t k x : x ∉ tab t -> x ∉ tab (delete k t).
Proof.
  intros Ht (k' & l' & [_ Hk]%lookup_delete_Some & Hx)%tab_elem. apply Ht, tab_elem. by exists k', l'.
Qed.

Section isolated.
Context (m : manager) (pins : list Z) (p : Pool) (HI : Inv m pins p).
Context (id : Z) (Hpin : id ∈ pins) (Hiso : isolated m id).

Lemma isolated_content m' pins' p' :
  Inv m' pins' p' -> content p' = content p -> id ∉ tab (m_requestBlocks m') -> isolated m' id.
Proof.
  intros HI' Hc Ht. split; [|done]. apply (uncached_pool _ _ _ (inv_rep _ _ _ HI')).
  destruct (proj1 (uncached_pool _ _ _ (inv_rep _ _ _ HI)) (proj1 Hiso)) as (i & Hi & Hci).
  destruct (content_idx p' p id i (eq_sym Hc) Hi) as (i' & Hi' & [= _ _ Hcc]).
  exists i'. split; [done|congruence].
Qed.

Lemma isolated_not_free : id ∉ p_free p.
Proof.
  intros Hf. apply (ok_free_unreferenced _ _ (inv_ok _ _ _ HI) _ Hf). apply elem_of_app. by left.
Qed.

Lemma isolated_popped m' pins' p' ids :
  Inv m' pins' p' -> Popped p p' ids -> id ∉ tab (m_requestBlocks m') -> isolated m' id.
Proof.
  intros HI' HP Ht. split; [|done]. apply (uncached_pool _ _ _ (inv_rep _ _ _ HI')).
  destruct (proj1 (uncached_pool _ _ _ (inv_rep _ _ _ HI)) (proj1 Hiso)) as (i & Hi & Hci).
  exists i. split; [|done]. rewrite (pop_other _ _ _ HP); [done|].
  intros Hin. apply isolated_not_free. rewrite (pop_free _ _ _ HP). apply elem_of_app. by left.
Qed.

Lemma isolated_committed m' pins' p' a :
  Inv m' pins' p' -> Committed (m_blockSize m) a p p' -> id ∉ ba_BlockTable a ->
  id ∉ tab (m_requestBlocks m') -> isolated m' id.
Proof.
  intros HI' (pc & HC & HB) Hta Ht. split; [|done].
  apply (uncached_pool _ _ _ (inv_rep _ _ _ HI')).
  destruct (proj1 (uncached_pool _ _ _ (inv_rep _ _ _ HI)) (proj1 Hiso)) as (i & Hi & Hci).
  rewrite <- (ct_other _ _ _ _ _ _ HC _ Hta) in Hi.
  destruct (proj2 (idx_is_Some (p_info p') id)) as [i' Hi'].
  { rewrite (cb_len _ _ _ _ _ HB). by eapply idx_Some_range. }
  exists i'. split; [done|].
  destruct (cb_same _ _ _ _ _ HB _ _ Hi') as (j & Hj & _ & _ & [->|(_ & _ & _ & _ & k & Hk & _)]).
  - congruence.
  - exfalso. by apply Hta, list_elem_of_lookup_2 with k.
Qed.

Lemma isolated_imported m' pins' p' l :
  Inv m' pins' p' -> Imported (m_blockSize m) l p p' -> id ∉ l.*1 ->
  id ∉ tab (m_requestBlocks m') -> isolated m' id.
Proof.
  intros HI' HIm Hl Ht. split; [|done]. apply (uncached_pool _ _ _ (inv_rep _ _ _ HI')).
  destruct (proj1 (uncached_pool _ _ _ (inv_rep _ _ _ HI)) (proj1 Hiso)) as (i & Hi & Hci).
  pose proof (im_other _ _ _ _ HIm _ Hl) as Ho. rewrite Hi in Ho. cbn in Ho.
  apply fmap_Some in Ho as (i' & Hi' & Hs). unfold stored in Hs. exists i'. split; [done|congruence].
Qed.
End isolated.

Lemma cachedPrefix_uncached m p pins id hs :
  Inv m pins p -> uncached m id -> id ∉ cachedPrefix (m_cachedBlocks m) hs.
Proof.
  intros HI Hun (k & Hk)%list_elem_of_lookup.
  apply cachedPrefix_lookup in Hk as (h & _ & Hh).
  rewrite (rep_cached _ _ (inv_rep _ _ _ HI)) in Hh.
  destruct (pi_cached _ (ok_inv _ _ (inv_ok _ _ _ HI)) _ _ Hh) as (i & Hi & Hc & _).
  destruct (proj1 (uncached_pool _ _ _ (inv_rep _ _ _ HI)) Hun) as (i' & Hi' & Hc'). congruence.
Qed.

Lemma run_op_isolated o m pins id :
  Consistent m pins -> enabled o m pins -> id ∈ pins -> isolated m id ->
  (forall ids hs others, o = OpImport ids hs others -> id ∉ ids) ->
  wp (run_op o pins) (fun _ m' => isolated m' id) m.
Proof.
  intros [p HI] Hen Hpin Hiso Himp. pose proof Hiso as [Hun Htab].
  destruct o; cbn [enabled run_op] in *; wp_steps.
  - destruct Hen as (Hf & Ht & Hs). wp_use (MatchPrefix_inv _ _ _ _ HI Hf Ht Hs).
    intros r m' (_ & Hrb & _ & _ & _ & _ & p' & HI' & Hc).
    eapply isolated_content; [exact HI|done|exact HI'|done|]. rewrite Hrb.
    apply tab_insert_notin; [done|]. by eapply cachedPrefix_uncached.
  - destruct Hen as (Ho & Hc & Hn & Hs). rewrite (rep_count _ _ (inv_rep _ _ _ HI)) in Hs.
    wp_use (AllocateBlocks_inv _ _ _ _ _ _ HI Ho Hc Hn Hs).
    intros r m'. case_match; [by intros [_ ->]|].
    intros (ids & p' & Hids & _ & Hrb & _ & _ & _ & HI' & HP).
    eapply isolated_popped; [exact HI|exact Hpin|done|exact HI'|exact HP|]. rewrite Hrb.
    apply tab_insert_notin; [done|]. intros [Hin|Hin]%elem_of_app.
    + apply Htab. rewrite (has_table_tab _ _ _ Ho). apply elem_of_app. by left.
    + apply (isolated_not_free _ _ _ HI _ Hpin). rewrite (pop_free _ _ _ HP).
      apply elem_of_app. by left.
  - destruct (m_pendingAllocations m !! w) as [a|] eqn:Ha.
    + destruct (pd_table _ _ _ (inv_pending _ _ _ HI) _ _ Ha) as (_ & _ & Hta & _).
      wp_use (Commit_inv _ _ _ _ _ HI Ha). intros _ m' (Hrb & _ & _ & _ & p' & HI' & Hcm).
      eapply isolated_committed; [exact HI|done|exact HI'|done| |by rewrite Hrb].
      intros Hin. apply Htab, tab_elem. eauto.
    + wp_use (Commit_unknown _ _ Ha). by intros _ m' ->.
  - destruct (m_pendingAllocations m !! w) as [a|] eqn:Ha.
    + destruct (pd_table _ _ _ (inv_pending _ _ _ HI) _ _ Ha) as (_ & _ & Hta & _).
      wp_use (Rollback_inv _ _ _ _ _ HI Ha).
      intros _ m' (old & p' & Hold & Hrb & _ & _ & _ & _ & HI' & Hc).
      eapply isolated_content; [exact HI|done|exact HI'|done|]. rewrite Hrb. unfold rolledBack.
      case_match; [by apply tab_delete_notin|]. apply tab_insert_notin; [done|].
      intros Hin. apply Htab, tab_elem. exists (ba_RequestID a), (ba_BlockTable a).
      split; [done|]. rewrite Hold. apply elem_of_app. by left.
    + wp_use (Rollback_unknown _ _ Ha). by intros _ m' ->.
  - wp_use (FreeRequest_inv _ _ _ rid HI). intros _ m' (Hrb & _ & _ & _ & _ & _ & p' & HI' & Hc).
    eapply isolated_content; [exact HI|done|exact HI'|done|]. rewrite Hrb. by apply tab_delete_notin.
  - wp_use (pinCachedBlocks_inv _ _ _ _ HI Hen). intros [e|ids] m' (Hr & _ & H).
    + by destruct H as [-> _].
    + destruct H as (_ & p' & HI' & Hc). apply rest_fields in Hr as (_ & _ & Hrb & _).
      eapply isolated_content; [exact HI|done|exact HI'|done|by rewrite Hrb].
  - destruct Hen as [Hn Hs]. wp_use (reserveTransferBlocks_inv _ _ _ _ HI Hn Hs).
    intros r m' [Hr H]. apply rest_fields in Hr as (_ & _ & Hrb & _). case_match.
    + destruct H as [_ HI']. eapply isolated_content; [exact HI|done|exact HI'|done|by rewrite Hrb].
    + destruct H as (ids & p' & _ & _ & HI' & HP).
      eapply isolated_popped; [exact HI|exact Hpin|done|exact HI'|exact HP|by rewrite Hrb].
  - destruct Hen as (Hp & Hl & Hnd & Hun'). apply (inv_pins_perm _ _ _ _ Hp) in HI.
    assert (Hun2 : forall x, x ∈ ids -> exists i, idx (p_info p) x = Some i /\ i_Cached i = false)
      by (intros x Hx; apply (uncached_info m); [apply HI|by apply Hun']).
    wp_use (commitImportedBlocks_inv _ others _ _ _ HI Hl Hnd Hun2).
    intros r m' (_ & Hr & p' & HI' & HIm). apply rest_fields in Hr as (_ & _ & Hrb & _).
    eapply isolated_imported; [exact HI|done|exact HI'|exact HIm| |by rewrite Hrb].
    rewrite fst_zip by lia. by eapply Himp.
  - apply (inv_pins_perm _ _ _ _ Hen) in HI. wp_use (releaseTransferBlocks_inv _ others _ _ HI).
    intros _ m' (p' & Hr & _ & HI' & Hc). apply rest_fields in Hr as (_ & _ & Hrb & _).
    eapply isolated_content; [exact HI|done|exact HI'|done|by rewrite Hrb].
Qed.

(** ** The registry's invariant *)

Definition plan_pins (e : string) (plan : TransferPlan) : list Z :=
  (if decide (tp_SourceExecutorID plan = e) then tp_SourceBlockIDs plan else []) ++
  (if decide (tp_DestinationExecutorID plan = e) then tp_DestinationBlockIDs plan else []).

(** The references that pending transfers hold on the manager of [e]. *)
Definition pinsOf (e : string) (pending : gmap string TransferPlan) : list Z :=
  tab (plan_pins e <$> pending).

Record PlanOK (r : registry) (id : string) (plan : TransferPlan) : Prop := mkPlanOK {
  pl_id : tp_TransferID plan = id;
  pl_differ : tp_SourceExecutorID plan <> tp_DestinationExecutorID plan;
  pl_source : is_Some (r_managers r !! tp_SourceExecutorID plan);
  pl_len : length (tp_DestinationBlockIDs plan) = length (tp_BlockHashes plan);
  pl_dest : exists m, r_managers r !! tp_DestinationExecutorID plan = Some m /\
    forall x, x ∈ tp_DestinationBlockIDs plan -> isolated m x;
  pl_exclusive : forall x, x ∈ tp_DestinationBlockIDs plan ->
    cnt x (pinsOf (tp_DestinationExecutorID plan) (r_pendingTransfers r)) = 1
}.

Record RegOK (r : registry) : Prop := mkRegOK {
  rg_managers : forall e m, r_managers r !! e = Some m ->
    Consistent m (pinsOf e (r_pendingTransfers r));
  rg_plans : forall id plan, r_pendingTransfers r !! id = Some plan -> PlanOK r id plan
}.

Lemma wp_onManager {A} e (c : M manager A) m (Q : A -> registry -> Prop) r :
  r_managers r !! e = Some m ->
  wp c (fun a m' => Q a (r <| r_managers := <[e := m']> (r_managers r) |>)) m ->
  wp (onManager e c) Q r.
Proof.
  intros He H. unfold wp, onManager in *. rewrite He. cbn.
  destruct (c m) as [[a m']|]; done.
Qed.

Lemma pinsOf_split e pending id plan :
  pending !! id = Some plan -> pinsOf e pending ≡ₚ plan_pins e plan ++ pinsOf e (delete id pending).
Proof.
  intros H. unfold pinsOf. rewrite (tab_split _ id), lookup_fmap, H, fmap_delete. done.
Qed.

Lemma pinsOf_insert e pending id plan :
  pending !! id = None -> pinsOf e (<[id := plan]> pending) ≡ₚ plan_pins e plan ++ pinsOf e pending.
Proof.
  intros H. unfold pinsOf. rewrite fmap_insert, tab_insert_fresh; [done|].
  by rewrite lookup_fmap, H.
Qed.

Lemma pinsOf_elem e pending id plan x :
  pending !! id = Some plan -> x ∈ plan_pins e plan -> x ∈ pinsOf e pending.
Proof. intros H Hx. rewrite (pinsOf_split _ _ _ _ H). apply elem_of_app. by left. Qed.

Lemma consistent_perm m pins pins' : pins ≡ₚ pins' -> Consistent m pins -> Consistent m pins'.
Proof. intros Hp [p HI]. exists p. by eapply inv_pins_perm. Qed.

(** Change one manager. *)
Lemma regok_update r e m m' :
  RegOK r -> r_managers r !! e = Some m ->
  Consistent m' (pinsOf e (r_pendingTransfers r)) ->
  (forall x, x ∈ pinsOf e (r_pendingTransfers r) -> isolated m x -> isolated m' x) ->
  RegOK (r <| r_managers := <[e := m']> (r_managers r) |>).
Proof.
  intros [Hm Hp] He HC Hiso. split; cbn.
  - intros e' m0 [[<- <-]|[_ Hm0]]%lookup_insert_Some; [done|by apply Hm].
  - intros id plan Hid. destruct (Hp _ _ Hid) as [H1 H2 [ms Hms] H4 (md & Hmd & Hx) H6]. split; cbn; try done.
    + destruct (decide (e = tp_SourceExecutorID plan)) as [->|Hne];
        [rewrite lookup_insert_eq|rewrite lookup_insert_ne by done]; eauto.
    + destruct (decide (e = tp_DestinationExecutorID plan)) as [E|Hne].
      * exists m'. split; [by rewrite E, lookup_insert_eq|]. intros x Hin. apply Hiso.
        -- apply (pinsOf_elem _ _ _ _ _ Hid). unfold plan_pins. apply elem_of_app. right.
           by rewrite decide_True.
        -- rewrite <- E in Hmd. replace m with md by congruence. by apply Hx.
      * exists md. split; [by rewrite lookup_insert_ne|done].
Qed.

(** A request operation run through the registry. *)
Definition request_op (o : Op) : bool :=
  match o with
  | OpMatchPrefix _ | OpAllocateBlocks _ _ _ | OpCommit _ | OpRollback _ | OpFreeRequest _ => true
  | _ => false
  end.

Lemma withManager_regok r e m o :
  RegOK r -> r_managers r !! e = Some m -> request_op o = true ->
  enabled o m (pinsOf e (r_pendingTransfers r)) ->
  wp (withManager e (run_op o (pinsOf e (r_pendingTransfers r)))) (fun a r' =>
    (exists pins, a = inr pins) /\ RegOK r' /\ r_pendingTransfers r' = r_pendingTransfers r /\
    forall e', e' <> e -> r_managers r' !! e' = r_managers r !! e') r.
Proof.
  intros HR He Ho Hen. pose proof (rg_managers _ HR _ _ He) as HC.
  set (pins := pinsOf e (r_pendingTransfers r)) in *.
  assert (Hpins : forall pins' m', run_op o pins m = Some (pins', m') -> pins' = pins).
  { intros pins' m'. destruct o; try done; cbn [run_op]; unfold mbind, M_bind, mret, M_ret;
      case_match; try done; case_match; intros [=]; done. }
  unfold withManager. wp_steps. rewrite He. wp_steps. eapply wp_onManager; [exact He|].
  pose proof (run_op_consistent o m pins HC Hen) as Hc.
  destruct (run_op o pins m) as [[pins' m']|] eqn:Hrun;
    [|by unfold wp in Hc; rewrite Hrun in Hc].
  assert (pins' = pins) as -> by (by eapply Hpins).
  assert (Hiso : forall x, x ∈ pins -> isolated m x -> isolated m' x).
  { intros x Hx Hi. assert (Hw : wp (run_op o pins) (fun _ m' => isolated m' x) m).
    { apply run_op_isolated; [done..|]. intros ids hs others ->. done. }
    unfold wp in Hw. by rewrite Hrun in Hw. }
  unfold wp in Hc |- *. rewrite Hrun in Hc |- *.
  split; [by exists pins|]. split; [by eapply regok_update|]. split; [done|].
  intros e' Hne. cbn. by apply lookup_insert_ne.
Qed.

(** ** The transfer transactions *)

Lemma plan_pins_source plan : tp_SourceExecutorID plan <> tp_DestinationExecutorID plan ->
  plan_pins (tp_SourceExecutorID plan) plan = tp_SourceBlockIDs plan.
Proof. intros H. unfold plan_pins. by rewrite decide_True, decide_False, app_nil_r. Qed.

Lemma plan_pins_dest plan : tp_SourceExecutorID plan <> tp_DestinationExecutorID plan ->
  plan_pins (tp_DestinationExecutorID plan) plan = tp_DestinationBlockIDs plan.
Proof. intros H. unfold plan_pins. by rewrite decide_False, decide_True. Qed.

Lemma plan_pins_other e plan : tp_SourceExecutorID plan <> e -> tp_DestinationExecutorID plan <> e ->
  plan_pins e plan = [].
Proof. intros H1 H2. unfold plan_pins. by rewrite !decide_False. Qed.

Lemma cnt_split x l1 l2 l : l ≡ₚ l1 ++ l2 -> cnt x l = cnt x l1 + cnt x l2.
Proof. intros ->. apply cnt_app. Qed.

Lemma cnt_pos x l : x ∈ l -> 1 <= cnt x l.
Proof.
  intros Hx. pose proof (cnt_nonneg x l). assert (cnt x l <> 0); [by intros ?%cnt_zero|lia].
Qed.

Lemma nodup_cnt l : (forall x, x ∈ l -> cnt x l = 1) -> NoDup l.
Proof.
  induction l as [|y l IH]; intros H; [constructor|]. apply NoDup_cons.
  pose proof (H y ltac:(by left)) as Hy. rewrite cnt_cons, decide_True in Hy by done.
  split; [apply cnt_zero; lia|]. apply IH. intros x Hx. pose proof (H x ltac:(by right)) as Hc.
  rewrite cnt_cons in Hc. case_decide; [|lia]. subst. pose proof (cnt_pos _ _ Hx). lia.
Qed.

(** Removing a plan once both managers have let its blocks go. *)
Lemma regok_delete r tid plan ms md ms' md' :
  RegOK r -> r_pendingTransfers r !! tid = Some plan ->
  r_managers r !! tp_SourceExecutorID plan = Some ms ->
  r_managers r !! tp_DestinationExecutorID plan = Some md ->
  Consistent ms' (pinsOf (tp_SourceExecutorID plan) (delete tid (r_pendingTransfers r))) ->
  Consistent md' (pinsOf (tp_DestinationExecutorID plan) (delete tid (r_pendingTransfers r))) ->
  (forall x, x ∈ pinsOf (tp_SourceExecutorID plan) (r_pendingTransfers r) ->
     isolated ms x -> isolated ms' x) ->
  (forall x, x ∈ pinsOf (tp_DestinationExecutorID plan) (r_pendingTransfers r) ->
     x ∉ tp_DestinationBlockIDs plan -> isolated md x -> isolated md' x) ->
  RegOK (r <| r_managers := <[tp_SourceExecutorID plan := ms']>
                              (<[tp_DestinationExecutorID plan := md']> (r_managers r)) |>
           <| r_pendingTransfers := delete tid (r_pendingTransfers r) |>).
Proof.
  intros [Hm Hp] Ht Hms Hmd HCs HCd His Hid.
  pose proof (Hp _ _ Ht) as [_ Hdiff _ _ _ Hex].
  split; cbn.
  - intros e m [[<- <-]|[Hs Hl]]%lookup_insert_Some; [done|].
    apply lookup_insert_Some in Hl as [[<- <-]|[Hd Hl]]; [done|].
    apply (consistent_perm _ (pinsOf e (r_pendingTransfers r))); [|by apply Hm].
    by rewrite (pinsOf_split e _ _ _ Ht), plan_pins_other.
  - intros id q [Hne Hq]%lookup_delete_Some.
    destruct (Hp _ _ Hq) as [H1 H2 Hsrc H4 (mq & Hmq & Hx) Hexq].
    assert (Hcnt : forall e x, x ∈ plan_pins e q ->
              1 <= cnt x (pinsOf e (delete tid (r_pendingTransfers r)))).
    { intros e x Hxq. apply cnt_pos. eapply pinsOf_elem; [|exact Hxq]. by rewrite lookup_delete_ne. }
    split; cbn; try done.
    + destruct (decide (tp_SourceExecutorID plan = tp_SourceExecutorID q)) as [->|];
        [rewrite lookup_insert_eq; eauto|rewrite lookup_insert_ne by done].
      destruct (decide (tp_DestinationExecutorID plan = tp_SourceExecutorID q)) as [->|];
        [rewrite lookup_insert_eq; eauto|by rewrite lookup_insert_ne by done].
    + destruct (decide (tp_SourceExecutorID plan = tp_DestinationExecutorID q)) as [E|].
      { exists ms'. split; [by rewrite E, lookup_insert_eq|]. intros x Hxq. apply His.
        - rewrite E. eapply pinsOf_elem; [exact Hq|]. by rewrite plan_pins_dest.
        - replace ms with mq by congruence. by apply Hx. }
      rewrite lookup_insert_ne by done.
      destruct (decide (tp_DestinationExecutorID plan = tp_DestinationExecutorID q)) as [E|].
      * exists md'. split; [by rewrite E, lookup_insert_eq|]. intros x Hxq. apply Hid.
        -- rewrite E. eapply pinsOf_elem; [exact Hq|]. by rewrite plan_pins_dest.
        -- intros Hxp. pose proof (Hexq x Hxq) as Hc.
           rewrite (cnt_split _ _ _ _ (pinsOf_split _ _ _ _ Ht)), <- E in Hc.
           rewrite plan_pins_dest in Hc by done. pose proof (cnt_pos _ _ Hxp).
           pose proof (Hcnt (tp_DestinationExecutorID plan) x) as Hc2. rewrite E, plan_pins_dest in Hc2 by done.
           specialize (Hc2 Hxq). rewrite <- E in Hc2. lia.
        -- replace md with mq by congruence. by apply Hx.
      * exists mq. split; [by rewrite lookup_insert_ne|done].
    + intros x Hxq. pose proof (Hexq x Hxq) as Hc.
      rewrite (cnt_split _ _ _ _ (pinsOf_split _ _ _ _ Ht)) in Hc.
      pose proof (Hcnt (tp_DestinationExecutorID q) x) as Hc2. rewrite plan_pins_dest in Hc2 by done.
      specialize (Hc2 Hxq). pose proof (cnt_nonneg x (plan_pins (tp_DestinationExecutorID q) plan)). lia.
Qed.

Lemma release_isolated m ids others x :
  Consistent m (ids ++ others) -> x ∈ ids ++ others -> isolated m x ->
  wp (releaseTransferBlocks ids) (fun _ m' => isolated m' x) m.
Proof.
  intros HC Hx Hi. pose proof (run_op_isolated (OpRelease ids others) m (ids ++ others) x HC) as H.
  cbn [enabled run_op] in H. specialize (H ltac:(done) Hx Hi ltac:(done)).
  unfold wp, mbind, M_bind in *. destruct (releaseTransferBlocks ids m) as [[[] m']|]; done.
Qed.

Lemma wp_and {S A} (c : M S A) P Q s : wp c P s -> wp c Q s -> wp c (fun a s' => P a s' /\ Q a s') s.
Proof. unfold wp. destruct (c s) as [[a s']|]; [by split|done]. Qed.

Lemma wp_forall {S A B} (c : M S A) (D : B -> Prop) (Q : B -> A -> S -> Prop) s :
  (exists a s', c s = Some (a, s')) -> (forall b, D b -> wp c (Q b) s) ->
  wp c (fun a s' => forall b, D b -> Q b a s') s.
Proof. unfold wp. intros (a & s' & ->) H b Hb. by apply H. Qed.

Lemma zip_elem {A B} (l1 : list A) (l2 : list B) x : length l1 = length l2 -> x ∈ l2 ->
  exists y, (y, x) ∈ zip l1 l2.
Proof.
  revert l2. induction l1 as [|y l1 IH]; intros [|z l2] Hl Hx; try done.
  - by apply not_elem_of_nil in Hx.
  - apply elem_of_cons in Hx as [->|Hx]; [exists y; by left|].
    destruct (IH l2) as [w Hw]; [simpl in Hl; lia|done|]. exists w. by right.
Qed.

Lemma inv_blocks_len m m' pins pins' p p' :
  Inv m pins p -> Inv m' pins' p' -> content p' = content p ->
  len (m_blocks m') = len (m_blocks m).
Proof.
  intros HI HI' Hc. rewrite <- (rep_info_len _ _ (inv_rep _ _ _ HI)).
  rewrite <- (rep_info_len _ _ (inv_rep _ _ _ HI')). by apply content_len.
Qed.

Lemma release_len m pins ids others :
  Consistent m pins -> pins ≡ₚ ids ++ others ->
  wp (releaseTransferBlocks ids) (fun _ m' => len (m_blocks m') = len (m_blocks m)) m.
Proof.
  intros [p HI] Hp. apply (inv_pins_perm _ _ _ _ Hp) in HI.
  wp_use (releaseTransferBlocks_inv m others ids p HI). intros _ m' (p' & _ & _ & HI' & Hc).
  by eapply inv_blocks_len.
Qed.

Lemma release_full m pins ids others :
  Consistent m pins -> pins ≡ₚ ids ++ others ->
  wp (releaseTransferBlocks ids) (fun _ m' => Consistent m' others /\ rest m' = rest m /\
    m_cachedBlocks m' = m_cachedBlocks m /\
    forall x, x ∈ pins -> isolated m x -> isolated m' x) m.
Proof.
  intros HC Hp. pose proof HC as [p HI]. apply (inv_pins_perm _ _ _ _ Hp) in HI.
  pose proof (releaseTransferBlocks_inv m others ids p HI) as Hr.
  assert (Hi : forall x, x ∈ pins -> isolated m x ->
            wp (releaseTransferBlocks ids) (fun _ m' => isolated m' x) m).
  { intros x Hx Hix. eapply (release_isolated _ _ others).
    - by eapply consistent_perm.
    - by rewrite <- Hp.
    - done. }
  unfold wp in *. destruct (releaseTransferBlocks ids m) as [[[] m']|]; [|done].
  destruct Hr as (p' & Hrest & Hca & HI' & _). ssplit; [by exists p'|done|done|done].
Qed.

Lemma import_full m pins ids hs others :
  Consistent m pins -> pins ≡ₚ ids ++ others -> length ids = length hs -> NoDup ids ->
  (forall x, x ∈ ids -> isolated m x) ->
  wp (commitImportedBlocks ids hs) (fun r m' => r = None /\ Consistent m' others /\ rest m' = rest m /\
    (forall h, h ∈ hs -> is_Some (m_cachedBlocks m' !! h)) /\
    (forall h id, m_cachedBlocks m !! h = Some id -> m_cachedBlocks m' !! h = Some id) /\
    (forall h id, m_cachedBlocks m' !! h = Some id ->
       m_cachedBlocks m !! h = Some id \/ transferable m' h id) /\
    forall x, x ∈ pins -> x ∉ ids -> isolated m x -> isolated m' x) m.
Proof.
  intros HC Hp Hl Hnd Hiso. pose proof HC as [p HI]. pose proof (inv_rep _ _ _ HI) as HR.
  pose proof HI as HI0. apply (inv_pins_perm _ _ _ _ Hp) in HI0.
  assert (Hun : forall x, x ∈ ids -> exists i, idx (p_info p) x = Some i /\ i_Cached i = false).
  { intros x Hx. apply (uncached_info m); [done|]. by apply Hiso. }
  wp_use (commitImportedBlocks_inv m others p ids hs HI0 Hl Hnd Hun).
  intros r m' (-> & Hr & p' & HI' & HIm). pose proof (inv_rep _ _ _ HI') as HR'.
  apply rest_fields in Hr as Hrf. destruct Hrf as (_ & Hb & Hrb & _).
  rewrite (rep_cached _ _ HR). unfold transferable. rewrite (rep_cached _ _ HR').
  ssplit; [done|by exists p'|done| | | |].
  - intros h Hh. destruct (zip_elem ids hs h Hl Hh) as [x Hx]. by apply (im_all _ _ _ _ HIm x).
  - intros h id Hh. eapply lookup_weaken; [exact Hh|]. apply HIm.
  - intros h id Hh. destruct (im_new _ _ _ _ HIm _ _ Hh) as [?|(_ & i & Hi & Ht)]; [by left|right].
    split; [done|]. destruct (rep_info_block _ _ HR' _ _ Hi) as (b & Hbk & <-). exists b.
    split; [done|]. rewrite Hb. done.
  - intros x Hx Hxi Hix. eapply isolated_imported; [exact HI|done|exact HI'|exact HIm| |].
    + by rewrite fst_zip by lia.
    + rewrite Hrb. apply Hix.
Qed.

(** [CommitTransfer] of a pending transfer succeeds, whatever requests did on
    the two managers since it was prepared: it settles the transfer, every hash
    of the plan is indexed on the destination, no index entry disappears, an
    entry that appears is a full block, the block tables of both managers are
    untouched, and the registry stays consistent (the references the transfer
    held are given back). *)
Lemma CommitTransfer_spec r tid plan
  (HR : RegOK r) (Ht : r_pendingTransfers r !! tid = Some plan) :
  wp (CommitTransfer tid) (fun err r' => err = None /\ RegOK r' /\
    r_pendingTransfers r' = delete tid (r_pendingTransfers r) /\
    exists md md', r_managers r !! tp_DestinationExecutorID plan = Some md /\
      r_managers r' !! tp_DestinationExecutorID plan = Some md' /\
      rest md' = rest md /\
      (forall h, h ∈ tp_BlockHashes plan -> is_Some (m_cachedBlocks md' !! h)) /\
      (forall h id, m_cachedBlocks md !! h = Some id -> m_cachedBlocks md' !! h = Some id) /\
      (forall h id, m_cachedBlocks md' !! h = Some id ->
         m_cachedBlocks md !! h = Some id \/ transferable md' h id) /\
      (forall e ms ms', e <> tp_DestinationExecutorID plan -> r_managers r !! e = Some ms ->
         r_managers r' !! e = Some ms' -> rest ms' = rest ms /\
         m_cachedBlocks ms' = m_cachedBlocks ms)) r.
Proof.
  destruct (rg_plans _ HR _ _ Ht) as [_ Hdiff [ms Hms] Hlen (md & Hmd & Hiso) Hex].
  pose proof (pinsOf_split (tp_DestinationExecutorID plan) _ _ _ Ht) as Hpd.
  pose proof (pinsOf_split (tp_SourceExecutorID plan) _ _ _ Ht) as Hps.
  rewrite plan_pins_dest in Hpd by done. rewrite plan_pins_source in Hps by done.
  assert (Hnd : NoDup (tp_DestinationBlockIDs plan)).
  { apply nodup_cnt. intros x Hx. pose proof (Hex x Hx) as Hc. rewrite (cnt_split _ _ _ _ Hpd) in Hc.
    pose proof (cnt_pos _ _ Hx).
    pose proof (cnt_nonneg x (pinsOf (tp_DestinationExecutorID plan) (delete tid (r_pendingTransfers r)))).
    lia. }
  unfold CommitTransfer. wp_steps. rewrite Ht. wp_steps. eapply wp_onManager; [exact Hmd|].
  wp_use (import_full md _ _ _ _ (rg_managers _ HR _ _ Hmd) Hpd Hlen Hnd Hiso).
  intros err md' (-> & HCd & Hrd & Hall & Hmono & Hnew & Hid). wp_steps.
  eapply wp_onManager; [cbn; rewrite lookup_insert_ne by done; exact Hms|].
  wp_use (release_full ms _ _ _ (rg_managers _ HR _ _ Hms) Hps).
  intros _ ms' (HCs & Hrs & Hcs & His). wp_steps. ssplit; [done| |done|].
  { by apply (regok_delete r tid plan ms md ms' md'). }
  exists md, md'. cbn. ssplit; [done| |done|done|done|done|].
  { by rewrite lookup_insert_ne, lookup_insert_eq by done. }
  intros e m1 m2 Hne H1 [[<- <-]|[_ H2]]%lookup_insert_Some.
  - replace m1 with ms by congruence. done.
  - rewrite lookup_insert_ne in H2 by done. by replace m2 with m1 by congruence.
Qed.

(** [RollbackTransfer] of a pending transfer succeeds and gives back on both
    sides the references the transfer held: the registry stays consistent with
    the transfer gone, and neither an index nor a block table changes. *)
Lemma RollbackTransfer_spec r tid plan
  (HR : RegOK r) (Ht : r_pendingTransfers r !! tid = Some plan) :
  wp (RollbackTransfer tid) (fun err r' => err = None /\ RegOK r' /\
    r_pendingTransfers r' = delete tid (r_pendingTransfers r) /\
    forall e m m', r_managers r !! e = Some m -> r_managers r' !! e = Some m' ->
      rest m' = rest m /\ m_cachedBlocks m' = m_cachedBlocks m /\
      len (m_blocks m') = len (m_blocks m)) r.
Proof.
  destruct (rg_plans _ HR _ _ Ht) as [_ Hdiff [ms Hms] Hlen (md & Hmd & Hiso) Hex].
  pose proof (pinsOf_split (tp_DestinationExecutorID plan) _ _ _ Ht) as Hpd.
  pose proof (pinsOf_split (tp_SourceExecutorID plan) _ _ _ Ht) as Hps.
  rewrite plan_pins_dest in Hpd by done. rewrite plan_pins_source in Hps by done.
  unfold RollbackTransfer. wp_steps. rewrite Ht. wp_steps. eapply wp_onManager; [exact Hmd|].
  eapply wp_mono; [apply wp_and; [apply (release_full md _ _ _ (rg_managers _ HR _ _ Hmd) Hpd)|
    apply (release_len md _ _ _ (rg_managers _ HR _ _ Hmd) Hpd)]|].
  intros _ md' [(HCd & Hrd & Hcd & Hid) Hld]. wp_steps.
  eapply wp_onManager; [cbn; rewrite lookup_insert_ne by done; exact Hms|].
  eapply wp_mono; [apply wp_and; [apply (release_full ms _ _ _ (rg_managers _ HR _ _ Hms) Hps)|
    apply (release_len ms _ _ _ (rg_managers _ HR _ _ Hms) Hps)]|].
  intros _ ms' [(HCs & Hrs & Hcs & His) Hls]. wp_steps. ssplit; [done| |done|].
  { apply (regok_delete r tid plan ms md ms' md'); try done. intros x Hx _. by apply Hid. }
  intros e m1 m2 H1. cbn. intros [[<- <-]|[_ H2]]%lookup_insert_Some.
  { by replace m1 with ms by congruence. }
  apply lookup_insert_Some in H2 as [[<- <-]|[_ H2]].
  - by replace m1 with md by congruence.
  - by replace m2 with m1 by congruence.
Qed.

(** Two consistent states with the same references have the same free list up
    to order. *)
Lemma same_free m m' pins :
  Consistent m pins -> Consistent m' pins -> rest m' = rest m ->
  len (m_blocks m') = len (m_blocks m) ->
  m_freeCount m' = m_freeCount m /\ forall x, x ∈ free_list m' <-> x ∈ free_list m.
Proof.
  intros [p HI] [p' HI'] (_ & _ & Hrb & _)%rest_fields Hl.
  destruct (same_refs m m' pins p p' HI HI' Hl) as (? & Hf & _); [unfold refs_of; by rewrite Hrb|].
  split; [done|]. intros x. by rewrite Hf.
Qed.

Lemma pin_full m pins hs :
  Consistent m pins -> len (refs_of m pins) + len hs < two32 ->
  wp (pinCachedBlocks hs) (fun r m' => rest m' = rest m /\
    len (m_blocks m') = len (m_blocks m) /\
    match r with
    | inl _ => m' = m
    | inr ids => Forall2 (transferable m) hs ids /\ Consistent m' (ids ++ pins) /\
        (forall x, x ∈ ids -> ~ uncached m x)
    end /\ forall x, x ∈ pins -> isolated m x -> isolated m' x) m.
Proof.
  intros HC Hs. pose proof HC as [p HI]. pose proof (inv_rep _ _ _ HI) as HR.
  wp_use (pinCachedBlocks_inv m pins p hs HI Hs). intros [e|ids] m' (Hr & _ & H).
  - destruct H as [-> _]. by ssplit.
  - destruct H as (Hf & p' & HI' & Hc). ssplit; [done| |done|by exists p'| |].
    + by eapply inv_blocks_len.
    + intros x [k Hk]%list_elem_of_lookup Hun.
      destruct (Forall2_lookup_r _ _ _ _ _ Hf Hk) as (h & _ & Hh & _).
      rewrite (rep_cached _ _ (inv_rep _ _ _ HI)) in Hh.
      destruct (pi_cached _ (ok_inv _ _ (inv_ok _ _ _ HI)) _ _ Hh) as (i & Hi & Hci & _).
      destruct (uncached_info _ _ _ (inv_rep _ _ _ HI) Hun) as (i' & Hi' & Hci'). congruence.
    + intros x Hx Hix. apply rest_fields in Hr as (_ & _ & Hrb & _).
      eapply isolated_content; [exact HI|exact Hix|exact HI'|exact Hc|]. rewrite Hrb. apply Hix.
Qed.

Lemma reserve_full m pins n :
  Consistent m pins -> 0 <= n -> len (refs_of m pins) + n < two32 ->
  wp (reserveTransferBlocks n) (fun r m' => rest m' = rest m /\
    len (m_blocks m') = len (m_blocks m) /\
    (forall x, x ∈ pins -> isolated m x -> isolated m' x) /\
    if m_freeCount m <? n then r = ([], false) /\ Consistent m' pins
    else let ids := take (Z.to_nat n) (free_list m) in
      r = (ids, true) /\ Consistent m' (ids ++ pins) /\ NoDup ids /\ len ids = n /\
      (forall x, x ∈ ids -> isolated m' x /\ x ∉ refs_of m pins)) m.
Proof.
  intros HC Hn Hs. pose proof HC as [p HI]. pose proof (inv_rep _ _ _ HI) as HR.
  rewrite (rep_count _ _ HR), (rep_free_list _ _ HR).
  wp_use (reserveTransferBlocks_inv m pins p n HI Hn Hs). intros r m' [Hr H].
  pose proof (rest_fields _ _ Hr) as (_ & _ & Hrb & _). destruct (Z.ltb_spec (len (p_free p)) n).
  - destruct H as [-> HI']. ssplit; [done|by eapply inv_blocks_len| |done|by exists p].
    intros x Hx Hix. eapply isolated_content; [exact HI|done|exact HI'|done|]. rewrite Hrb. apply Hix.
  - destruct H as (ids & p' & Hids & -> & HI' & HP). rewrite <- Hids. cbv zeta.
    assert (Hfree : forall x, x ∈ ids -> x ∈ p_free p)
      by (intros x Hx; rewrite (pop_free _ _ _ HP); apply elem_of_app; by left).
    assert (Hnr : forall x, x ∈ ids -> x ∉ refs_of m pins)
      by (intros x Hx%Hfree; by apply (ok_free_unreferenced _ _ (inv_ok _ _ _ HI))).
    ssplit; [done| | |done|by exists p'| | |].
    + rewrite <- (rep_info_len _ _ HR), <- (rep_info_len _ _ (inv_rep _ _ _ HI')). apply HP.
    + intros x Hx Hix. eapply isolated_popped; [exact HI|exact Hx|done|exact HI'|exact HP|].
      rewrite Hrb. apply Hix.
    + pose proof (pi_nodup _ (ok_inv _ _ (inv_ok _ _ _ HI))) as Hnd.
      rewrite (pop_free _ _ _ HP) in Hnd. by apply NoDup_app in Hnd as [? _].
    + rewrite Hids. unfold len. rewrite length_take. unfold len in *. lia.
    + intros x Hx. split; [|by apply Hnr]. split.
      * apply (uncached_pool _ _ _ (inv_rep _ _ _ HI')). exists fresh_info.
        split; [by apply (pop_fresh _ _ _ HP)|done].
      * rewrite Hrb. intros Hin. apply (Hnr _ Hx). unfold refs_of. apply elem_of_app. by right.
Qed.

(** Adding a plan whose blocks both managers have set aside. *)
Lemma regok_insert r tid plan ms md ms' md' :
  RegOK r -> r_pendingTransfers r !! tid = None -> tp_TransferID plan = tid ->
  tp_SourceExecutorID plan <> tp_DestinationExecutorID plan ->
  r_managers r !! tp_SourceExecutorID plan = Some ms ->
  r_managers r !! tp_DestinationExecutorID plan = Some md ->
  length (tp_DestinationBlockIDs plan) = length (tp_BlockHashes plan) ->
  Consistent ms' (tp_SourceBlockIDs plan ++ pinsOf (tp_SourceExecutorID plan) (r_pendingTransfers r)) ->
  Consistent md' (tp_DestinationBlockIDs plan ++
                  pinsOf (tp_DestinationExecutorID plan) (r_pendingTransfers r)) ->
  (forall x, x ∈ tp_SourceBlockIDs plan -> ~ uncached ms x) ->
  NoDup (tp_DestinationBlockIDs plan) ->
  (forall x, x ∈ tp_DestinationBlockIDs plan -> isolated md' x /\
     x ∉ pinsOf (tp_DestinationExecutorID plan) (r_pendingTransfers r)) ->
  (forall x, x ∈ pinsOf (tp_SourceExecutorID plan) (r_pendingTransfers r) ->
     isolated ms x -> isolated ms' x) ->
  (forall x, x ∈ pinsOf (tp_DestinationExecutorID plan) (r_pendingTransfers r) ->
     isolated md x -> isolated md' x) ->
  RegOK (r <| r_managers := <[tp_DestinationExecutorID plan := md']>
                              (<[tp_SourceExecutorID plan := ms']> (r_managers r)) |>
           <| r_pendingTransfers := <[tid := plan]> (r_pendingTransfers r) |>).
Proof.
  intros [Hm Hp] Ht Hid Hdiff Hms Hmd Hlen HCs HCd Hcached Hnd Hdst His Hids.
  assert (Hpi : forall e, pinsOf e (<[tid := plan]> (r_pendingTransfers r)) ≡ₚ
    plan_pins e plan ++ pinsOf e (r_pendingTransfers r)) by (intros; by apply pinsOf_insert).
  split; cbn.
  - intros e m [[<- <-]|[Hd Hl]]%lookup_insert_Some.
    { eapply consistent_perm; [|exact HCd]. by rewrite Hpi, plan_pins_dest. }
    apply lookup_insert_Some in Hl as [[<- <-]|[Hs Hl]].
    { eapply consistent_perm; [|exact HCs]. by rewrite Hpi, plan_pins_source. }
    eapply consistent_perm; [|by apply Hm]. by rewrite Hpi, plan_pins_other.
  - intros id q [[<- <-]|[Hne Hq]]%lookup_insert_Some.
    + split; cbn; try done.
      * rewrite lookup_insert_ne, lookup_insert_eq by done. eauto.
      * exists md'. split; [by rewrite lookup_insert_eq|]. intros x Hx. by apply Hdst.
      * intros x Hx. rewrite (cnt_split _ _ _ _ (Hpi _)), plan_pins_dest by done.
        rewrite (proj2 (cnt_zero x (pinsOf _ _))) by (by apply Hdst).
        pose proof (cnt_pos _ _ Hx). rewrite Z.add_0_r.
        clear -Hnd Hx. induction (tp_DestinationBlockIDs plan) as [|y l IH]; [by apply not_elem_of_nil in Hx|].
        apply NoDup_cons in Hnd as [Hy Hnd]. rewrite cnt_cons. apply elem_of_cons in Hx as [->|Hx].
        -- rewrite decide_True by done. rewrite (proj2 (cnt_zero y l)) by done. done.
        -- rewrite decide_False by (intros ->; done). rewrite IH by done. done.
    + destruct (Hp _ _ Hq) as [H1 H2 Hsrc H4 (mq & Hmq & Hx) Hexq]. split; cbn; try done.
      * destruct (decide (tp_DestinationExecutorID plan = tp_SourceExecutorID q)) as [->|];
          [rewrite lookup_insert_eq; eauto|rewrite lookup_insert_ne by done].
        destruct (decide (tp_SourceExecutorID plan = tp_SourceExecutorID q)) as [->|];
          [rewrite lookup_insert_eq; eauto|by rewrite lookup_insert_ne by done].
      * assert (Hin : forall x, x ∈ tp_DestinationBlockIDs q ->
          x ∈ pinsOf (tp_DestinationExecutorID q) (r_pendingTransfers r)).
        { intros x Hxq. eapply pinsOf_elem; [exact Hq|]. by rewrite plan_pins_dest. }
        destruct (decide (tp_DestinationExecutorID plan = tp_DestinationExecutorID q)) as [E|].
        { exists md'. split; [by rewrite E, lookup_insert_eq|]. intros x Hxq. apply Hids.
          - rewrite E. by apply Hin.
          - replace md with mq by congruence. by apply Hx. }
        rewrite lookup_insert_ne by done.
        destruct (decide (tp_SourceExecutorID plan = tp_DestinationExecutorID q)) as [E|].
        { exists ms'. split; [by rewrite E, lookup_insert_eq|]. intros x Hxq. apply His.
          - rewrite E. by apply Hin.
          - replace ms with mq by congruence. by apply Hx. }
        exists mq. split; [by rewrite lookup_insert_ne|done].
      * intros x Hxq. pose proof (Hexq x Hxq) as Hc. rewrite (cnt_split _ _ _ _ (Hpi _)), Hc.
        assert (Hn : x ∉ plan_pins (tp_DestinationExecutorID q) plan); [|by rewrite (proj2 (cnt_zero _ _) Hn)].
        unfold plan_pins. intros [Hin|Hin]%elem_of_app; case_decide as E; try by apply not_elem_of_nil in Hin.
        -- apply (Hcached x Hin). rewrite E in Hms. replace ms with mq by congruence. by apply Hx.
        -- destruct (Hdst x Hin) as [_ Hno]. apply Hno. rewrite E. eapply pinsOf_elem; [exact Hq|].
           by rewrite plan_pins_dest.
Qed.

(** [PrepareTransfer] sets a transfer up or leaves everything as it was.  On
    success every hash of the request is indexed with a full block on the
    source, which is pinned, and the oldest free blocks of the destination are
    reserved, one per hash, out of the prefix index and of every block table;
    on failure no transfer is recorded, and block tables and free lists are
    unchanged on all managers.  The registry stays consistent either way. *)
Lemma PrepareTransfer_spec r tid src dst hs ms md
  (HR : RegOK r) (Htid : tid <> "") (Hdiff : src <> dst) (Hhs : 0 < len hs < two32)
  (Hms : r_managers r !! src = Some ms) (Hmd : r_managers r !! dst = Some md)
  (Hbs : m_blockSize ms = m_blockSize md)
  (Hfresh : r_pendingTransfers r !! tid = None)
  (Hss : len (refs_of ms (pinsOf src (r_pendingTransfers r))) + len hs < two32)
  (Hsd : len (refs_of md (pinsOf dst (r_pendingTransfers r))) + len hs < two32) :
  wp (PrepareTransfer tid src dst hs) (fun res r' => RegOK r' /\
    match res with
    | inr plan =>
        r_pendingTransfers r' = <[tid := plan]> (r_pendingTransfers r) /\
        (exists ids, Forall2 (transferable ms) hs ids /\
           plan = mkTransferPlan tid src ids dst (take (length hs) (free_list md)) hs) /\
        (exists md', r_managers r' !! dst = Some md' /\
          forall x, x ∈ tp_DestinationBlockIDs plan -> isolated md' x) /\
        forall e m, r_managers r !! e = Some m -> exists m', r_managers r' !! e = Some m' /\
          rest m' = rest m /\ len (m_blocks m') = len (m_blocks m)
    | inl _ =>
        r_pendingTransfers r' = r_pendingTransfers r /\
        forall e m m', r_managers r !! e = Some m -> r_managers r' !! e = Some m' ->
          rest m' = rest m /\ m_freeCount m' = m_freeCount m /\
          (forall x, x ∈ free_list m' <-> x ∈ free_list m)
    end) r.
Proof.
  set (pend := r_pendingTransfers r) in *.
  assert (Hlen : u32 (len hs) = len hs) by (apply u32_small; lia).
  unfold PrepareTransfer. rewrite (proj2 (String.eqb_neq tid "")), (proj2 (String.eqb_neq src dst)) by done.
  rewrite (proj2 (Z.eqb_neq (len hs) 0)) by lia. wp_steps. rewrite Hms, Hmd, Hbs, Z.eqb_refl.
  cbn [negb]. fold pend. rewrite Hfresh. wp_steps. eapply wp_onManager; [exact Hms|].
  wp_use (pin_full ms (pinsOf src pend) hs (rg_managers _ HR _ _ Hms) Hss).
  intros [err|ids] ms' (Hrs & Hls & Hs & His).
  { subst ms'. wp_steps. cbn. ssplit; [apply (regok_update r src ms); [done|done|by apply (rg_managers _ HR)|done]|done|].
    intros e m m' Hm. rewrite insert_id by done. intros Hm'. assert (m' = m) as -> by congruence. by ssplit. }
  destruct Hs as (Hf2 & HCs & Hcached). wp_steps. rewrite Hlen.
  eapply wp_onManager; [cbn; rewrite lookup_insert_ne by done; exact Hmd|].
  wp_use (reserve_full md (pinsOf dst pend) (len hs) (rg_managers _ HR _ _ Hmd)); [lia|done|].
  intros res md' (Hrd & Hld & Hid & Hres). destruct (m_freeCount md <? len hs).
  - destruct Hres as [-> HCd]. wp_steps. cbn [negb]. wp_steps.
    eapply (wp_onManager _ _ ms'); [cbn; by rewrite lookup_insert_ne, lookup_insert_eq by done|].
    eapply wp_mono; [apply wp_and; [apply (release_full ms' _ ids (pinsOf src pend) HCs); done|
      apply (release_len ms' _ ids (pinsOf src pend) HCs); done]|].
    intros _ ms2 [(HCs2 & Hrs2 & _ & His2) Hls2]. wp_steps. cbn [r_managers setf].
    assert (E : <[src:=ms2]> (<[dst:=md']> (<[src:=ms']> (r_managers r))) =
                <[dst:=md']> (<[src:=ms2]> (r_managers r)))
      by (by rewrite insert_insert_ne, insert_insert_eq).
    assert (HR1 : RegOK (r <| r_managers := <[src:=ms2]> (r_managers r) |>)).
    { apply (regok_update r src ms); [done|done|exact HCs2|]. intros x Hx Hix.
      apply His2; [apply elem_of_app; by right|by apply His]. }
    split.
    { assert (Hmd1 : r_managers (r <| r_managers := <[src:=ms2]> (r_managers r) |>) !! dst = Some md)
        by (cbn; by rewrite lookup_insert_ne).
      pose proof (regok_update _ dst md md' HR1 Hmd1 HCd Hid) as HR2. cbn. rewrite E. exact HR2. }
    split; [done|]. intros e m m' Hm. cbn. rewrite E.
    intros [[<- <-]|[_ [[<- <-]|[_ Hm']]%lookup_insert_Some]]%lookup_insert_Some.
    + replace m with md by congruence. split; [done|].
      apply (same_free _ _ (pinsOf dst pend)); [by apply (rg_managers _ HR)|done|done|done].
    + replace m with ms by congruence. split; [congruence|].
      apply (same_free _ _ (pinsOf src pend)); [by apply (rg_managers _ HR)|done|congruence|congruence].
    + by replace m' with m by congruence.
  - destruct Hres as (-> & HCd & Hnd & Hln & Hdst). cbn [negb]. wp_steps. cbn [negb]. wp_steps.
    set (dids := take (Z.to_nat (len hs)) (free_list md)) in *.
    set (plan := mkTransferPlan tid src ids dst dids hs).
    assert (Hd' : forall x, x ∈ dids -> isolated md' x /\ x ∉ pinsOf dst pend).
    { intros x [? Hn]%Hdst. split; [done|]. intros Hx. apply Hn. unfold refs_of.
      apply elem_of_app. by left. }
    split; [|split; [|split; [|split]]].
    + apply (regok_insert r tid plan ms md ms' md'); try done. cbn. unfold len in Hln. lia.
    + done.
    + exists ids. split; [done|]. unfold plan, dids. unfold cloneTransferPlan. cbn.
      unfold len. by rewrite Nat2Z.id.
    + exists md'. cbn. split; [by rewrite lookup_insert_eq|]. intros x Hx. by apply Hd'.
    + intros e m Hm. cbn. destruct (decide (dst = e)) as [<-|Hd].
      { exists md'. rewrite lookup_insert_eq. by replace m with md by congruence. }
      rewrite lookup_insert_ne by done. destruct (decide (src = e)) as [<-|Hs].
      { exists ms'. rewrite lookup_insert_eq. by replace m with ms by congruence. }
      exists m. by rewrite lookup_insert_ne.
Qed.

(** ** NewRegistry *)

(** The runtime an executor reported can be managed. *)
Definition valid_runtime (e : string) (o : option ExecutorStats) : Prop :=
  exists rt, o = Some rt /\ es_ExecutorId rt = e /\ e <> "" /\ es_BlockSize rt <> 0 /\ es_NumKvBlocks rt <> 0.

(** Field ranges of the wire message, and a block count that an int32 link can
    address. *)
Definition in_range (o : option ExecutorStats) : Prop :=
  forall rt, o = Some rt -> 0 <= es_BlockSize rt < two32 /\ 0 <= es_NumKvBlocks rt <= two31.

(** A manager of whose blocks none is in use yet. *)
Definition newborn (m : manager) : Prop :=
  Consistent m [] /\ m_requestBlocks m = ∅ /\ m_pendingAllocations m = ∅ /\ len (m_blocks m) <= two31.

Lemma newManager_valid e rt : valid_runtime e (Some rt) -> in_range (Some rt) ->
  exists m, newManager (Some rt) = Some (inr m) /\ newborn m.
Proof.
  intros (rt' & [= <-] & He & Hne & Hb & Hn) Hr. destruct (Hr rt eq_refl) as [Hrb Hrn].
  destruct (newManager_inv rt) as (m & Hm & HI & _ & _ & Hrq & _ & Hpd & _ & Hlen & _); [congruence|lia|lia|].
  exists m. split; [done|]. split; [by eexists|]. split; [done|]. split; [done|lia].
Qed.

Lemma newManager_invalid rt : es_ExecutorId rt = "" \/ es_BlockSize rt = 0 \/ es_NumKvBlocks rt = 0 ->
  exists err, newManager (Some rt) = Some (inl err).
Proof.
  intros H. unfold newManager.
  destruct (String.eqb_spec (es_ExecutorId rt) ""); [eauto|].
  destruct (Z.eqb_spec (es_BlockSize rt) 0); [eauto|].
  destruct (Z.eqb_spec (es_NumKvBlocks rt) 0); [eauto|]. tauto.
Qed.

Lemma valid_or_not e rt : valid_runtime e (Some rt) \/
  (es_ExecutorId rt <> e \/ es_ExecutorId rt = "" \/ es_BlockSize rt = 0 \/ es_NumKvBlocks rt = 0).
Proof.
  destruct (decide (es_ExecutorId rt = e)) as [He|]; [|by right; left].
  destruct (decide (e = "")); [right; right; left; congruence|].
  destruct (decide (es_BlockSize rt = 0)); [right; tauto|].
  destruct (decide (es_NumKvBlocks rt = 0)); [right; tauto|]. left. exists rt. by ssplit.
Qed.

Lemma buildManagers_spec runtimes ids ms :
  (forall e, e ∈ ids -> is_Some (runtimes !! e) /\ in_range (default None (runtimes !! e))) ->
  (forall e m, ms !! e = Some m -> newborn m) ->
  exists res, buildManagers runtimes ids ms = Some res /\
    match res with
    | inl _ => exists e o, e ∈ ids /\ runtimes !! e = Some o /\ ~ valid_runtime e o
    | inr ms' => (forall e m, ms' !! e = Some m -> newborn m) /\
        (forall e, is_Some (ms' !! e) <-> is_Some (ms !! e) \/ e ∈ ids) /\
        (forall e o, e ∈ ids -> runtimes !! e = Some o -> valid_runtime e o)
    end.
Proof.
  revert ms. induction ids as [|e ids IH]; intros ms Hids Hms; cbn [buildManagers].
  { eexists. split; [done|]. cbv beta iota. ssplit; [done| |by intros e o Hin%not_elem_of_nil].
    intros e. split; [by left|]. by intros [?|Hin%not_elem_of_nil]. }
  destruct (Hids e) as [[o Ho] Hr]; [by left|]. rewrite Ho in *. cbn [default from_option id] in *.
  assert (Hbad : forall (err : error), ~ valid_runtime e o ->
    exists res, Some (inl err : error + gmap string manager) = Some res /\
      match res with
      | inl _ => exists e' o', e' ∈ e :: ids /\ runtimes !! e' = Some o' /\ ~ valid_runtime e' o'
      | inr ms' => (forall e' m, ms' !! e' = Some m -> newborn m) /\
          (forall e', is_Some (ms' !! e') <-> is_Some (ms !! e') \/ e' ∈ e :: ids) /\
          (forall e' o', e' ∈ e :: ids -> runtimes !! e' = Some o' -> valid_runtime e' o')
      end).
  { intros err Hn. eexists. split; [done|]. exists e, o. ssplit; [by left|done|done]. }
  change (default None (Some o)) with o in *.
  destruct o as [rt|]; [|apply Hbad; by intros (? & ? & _)].
  destruct (valid_or_not e rt) as [Hv|Hnv]; cycle 1.
  { assert (Hn : ~ valid_runtime e (Some rt)) by (intros (rt' & [= <-] & ? & ? & ? & ?); intuition congruence).
    destruct (String.eqb_spec (es_ExecutorId rt) e) as [He|He]; cbn [negb]; [|by apply Hbad].
    destruct (newManager_invalid rt) as [err ->]; [tauto|]. cbn [mbind option_bind]. by apply Hbad. }
  destruct (newManager_valid e rt Hv Hr) as (m & Hm & HC).
  pose proof Hv as (rt' & [= <-] & He & _). rewrite (proj2 (String.eqb_eq _ _) He). cbn [negb].
  rewrite Hm. cbn [mbind option_bind].
  destruct (IH (<[e:=m]> ms)) as (res & Hres & H).
  { intros e' He'. apply Hids. by right. }
  { intros e' m' [[<- <-]|[_ Hl]]%lookup_insert_Some; [done|by eapply Hms]. }
  exists res. split; [done|]. destruct res as [err|ms'].
  - destruct H as (e' & o' & ? & ? & ?). exists e', o'. ssplit; [by right|done|done].
  - destruct H as (H1 & H2 & H3). ssplit; [done| |].
    + intros e'. rewrite H2, elem_of_cons. destruct (decide (e = e')) as [->|Hne].
      * rewrite lookup_insert_eq. split; [by right; left|by left].
      * rewrite lookup_insert_ne by done. intuition congruence.
    + intros e' o' [->|He']%elem_of_cons Ho'; [|by apply H3]. by replace o' with (Some rt) by congruence.
Qed.

#[export] Instance string_le_total : Total string_le.
Proof.
  intros a b. unfold string_le, String.leb. rewrite (String.compare_antisym b a).
  destruct (String.compare a b); cbn; tauto.
Qed.

Lemma new_registry_spec runtimes
  (Hrange : forall e o, runtimes !! e = Some o -> in_range o) :
  exists res, NewRegistry runtimes = Some res /\
    match res with
    | inl _ => runtimes = ∅ \/ exists e o, runtimes !! e = Some o /\ ~ valid_runtime e o
    | inr r =>
        runtimes <> ∅ /\ (forall e o, runtimes !! e = Some o -> valid_runtime e o) /\
        RegOK r /\ r_pendingTransfers r = ∅ /\
        (forall e m, r_managers r !! e = Some m -> newborn m) /\
        (forall e, is_Some (r_managers r !! e) <-> is_Some (runtimes !! e)) /\
        NoDup (ExecutorIDs r) /\ Sorted string_le (ExecutorIDs r) /\
        (forall e, e ∈ ExecutorIDs r <-> is_Some (runtimes !! e))
    end.
Proof.
  unfold NewRegistry. destruct (Nat.eqb_spec (size runtimes) 0) as [Hz|Hz].
  { eexists. split; [done|]. left. by apply map_size_empty_inv. }
  set (ids := sortStrings (map_to_list runtimes).*1).
  assert (Hperm : ids ≡ₚ (map_to_list runtimes).*1) by apply merge_sort_Permutation.
  assert (Hin : forall e, e ∈ ids <-> is_Some (runtimes !! e)).
  { intros e. rewrite Hperm. rewrite list_elem_of_fmap. split.
    - intros ([e' o] & -> & He%elem_of_map_to_list). eauto.
    - intros [o Ho]. exists (e, o). split; [done|]. by apply elem_of_map_to_list. }
  destruct (buildManagers_spec runtimes ids ∅) as (res & Hres & H).
  { intros e [o Ho]%Hin. rewrite Ho. split; [eauto|]. by eapply Hrange. }
  { intros e m. by rewrite lookup_empty. }
  rewrite Hres. cbn [mbind option_bind]. eexists. split; [done|]. destruct res as [err|ms].
  - destruct H as (e & o & _ & ? & ?). right. by exists e, o.
  - destruct H as (H1 & H2 & H3).
    assert (Hdom : forall e, is_Some (ms !! e) <-> is_Some (runtimes !! e)).
    { intros e. rewrite H2, <- Hin, lookup_empty. split; [by intros [[? ?]|]|by right]. }
    cbv beta iota. ssplit.
    + intros ->. by rewrite map_size_empty in Hz.
    + intros e o Ho. apply H3; [|done]. apply Hin. eauto.
    + split; cbn; [|done]. intros e m Hm. by apply (H1 e m Hm).
    + done.
    + done.
    + done.
    + unfold ExecutorIDs. cbn. rewrite Hperm. apply NoDup_fst_map_to_list.
    + apply Sorted_merge_sort. apply _.
    + done.
Qed.

(** C35: [NewRegistry] builds one manager per registered executor, under its own
    id, exactly when there is an executor and every executor reported a runtime
    with its id, a positive block size and at least one block; otherwise it
    returns an error.  The executor ids are kept sorted, without repetition, and
    the new registry is consistent and has no transfer. *)
Theorem new_registry runtimes
  (Hrange : forall e o, runtimes !! e = Some o -> in_range o) :
  exists res, NewRegistry runtimes = Some res /\
    match res with
    | inl _ => runtimes = ∅ \/ exists e o, runtimes !! e = Some o /\ ~ valid_runtime e o
    | inr r =>
        runtimes <> ∅ /\ (forall e o, runtimes !! e = Some o -> valid_runtime e o) /\
        RegOK r /\ r_pendingTransfers r = ∅ /\
        (forall e, is_Some (r_managers r !! e) <-> is_Some (runtimes !! e)) /\
        NoDup (ExecutorIDs r) /\ Sorted string_le (ExecutorIDs r) /\
        (forall e, e ∈ ExecutorIDs r <-> is_Some (runtimes !! e))
    end.
Proof.
  destruct (new_registry_spec runtimes Hrange) as (res & Hres & H). exists res. split; [done|].
  destruct res; [done|]. destruct_and! H. by ssplit.
Qed.
