(* ===== verification/Placement.v ===== *)
(** * Placement: replication of a cached prefix (internal/placement/coordinator.go)

    [Replicate] runs one KV replication transaction: it checks the two executors'
    runtimes, prepares a transfer in the registry, asks the source executor to
    push the blocks, checks the confirmation, and commits or rolls back.

    The executors are remote: [control] gives what [GetRuntimeStates] returns
    and, for a push request, the response or error of [TriggerKVPush].  The
    transfer id is the one [MustGenerateUUIDv7] drew. *)

From S2P Require Import Prelude Errors Model Metrics FreeQueue GoSha256 BlockManager BlockProperties BlockRegistry.
(** The wire messages of gen/go/kvtide/v1/executor.pb.go. *)
Record TriggerKVPushRequest := mkTriggerKVPushRequest {
  kq_TransferId : string;
  kq_SourceExecutorId : string;
  kq_SourceRuntimeEpoch : Z;
  kq_SourceBlockIds : list Z;
  kq_DestinationExecutorId : string;
  kq_DestinationRuntimeEpoch : Z;
  kq_DestinationTransferEndpoint : string;
  kq_KvCompatibilityId : string;
  kq_BlockHashes : list string;
  kq_DestinationBlockIds : list Z
}.
Record TriggerKVPushResponse := mkTriggerKVPushResponse {
  kr_TransferId : string;
  kr_SourceExecutorId : string;
  kr_SourceRuntimeEpoch : Z;
  kr_DestinationExecutorId : string;
  kr_DestinationRuntimeEpoch : Z
}.

(** The interface [executorControl]. *)
Record executorControl := mkExecutorControl {
  GetRuntimeStates : gmap string (option ExecutorStats);
  TriggerKVPush : TriggerKVPushRequest -> error + option TriggerKVPushResponse
}.

Definition runtimeFor (runtimes : gmap string (option ExecutorStats)) (executorID : string)
    : error + ExecutorStats :=
  match runtimes !! executorID with
  | Some (Some runtime) =>
      if negb (String.eqb (es_ExecutorId runtime) executorID)
      then inl (text ("runtime executor ID " +:+ es_ExecutorId runtime
                       +:+ " does not match requested executor " +:+ executorID))
      else inr runtime
  | _ => inl (text ("runtime for executor " +:+ executorID +:+ " not found"))
  end.

Definition validateResponse (response : option TriggerKVPushResponse) (plan : TransferPlan)
    (sourceRuntimeEpoch destinationRuntimeEpoch : Z) : option error :=
  match response with
  | None => Some (text "executor returned no transfer response")
  | Some response =>
      if negb (String.eqb (kr_TransferId response) (tp_TransferID plan))
         || negb (String.eqb (kr_SourceExecutorId response) (tp_SourceExecutorID plan))
         || negb (kr_SourceRuntimeEpoch response =? sourceRuntimeEpoch)
         || negb (String.eqb (kr_DestinationExecutorId response) (tp_DestinationExecutorID plan))
         || negb (kr_DestinationRuntimeEpoch response =? destinationRuntimeEpoch)
      then Some (text ("executor returned mismatched confirmation for transfer " +:+ tp_TransferID plan))
      else None
  end.

Definition rollback (transferID : string) (cause : error) : M registry error :=
  err ← RollbackTransfer transferID;
  mret (match err with
        | Some e => JoinError cause (WrapError "rollback transfer" e)
        | None => cause
        end).

Definition pushRequest (plan : TransferPlan) (source destination : ExecutorStats)
    : TriggerKVPushRequest := {|
  kq_TransferId := tp_TransferID plan;
  kq_SourceExecutorId := tp_SourceExecutorID plan;
  kq_SourceRuntimeEpoch := es_RuntimeEpoch source;
  kq_SourceBlockIds := tp_SourceBlockIDs plan;
  kq_DestinationExecutorId := tp_DestinationExecutorID plan;
  kq_DestinationRuntimeEpoch := es_RuntimeEpoch destination;
  kq_DestinationTransferEndpoint := es_TransferEndpoint destination;
  kq_KvCompatibilityId := es_KVCompatibilityID source;
  kq_BlockHashes := tp_BlockHashes plan;
  kq_DestinationBlockIds := tp_DestinationBlockIDs plan
|}.

(** The two halves of [Replicate], before and after the remote push. *)
Definition replicatePrepare (c : executorControl) (uuid src dst : string) (blockHashes : list string)
    : M registry (error + (TransferPlan * ExecutorStats * ExecutorStats)) :=
  match runtimeFor (GetRuntimeStates c) src with
  | inl err => mret (inl err)
  | inr source =>
  match runtimeFor (GetRuntimeStates c) dst with
  | inl err => mret (inl err)
  | inr destination =>
  if String.eqb (es_KVCompatibilityID source) ""
     || negb (String.eqb (es_KVCompatibilityID source) (es_KVCompatibilityID destination))
  then mret (inl (text ("executors " +:+ src +:+ " and " +:+ dst +:+ " are not KV compatible")))
  else if String.eqb (es_TransferEndpoint destination) ""
  then mret (inl (text ("destination executor " +:+ dst +:+ " has no transfer endpoint")))
  else
    p ← PrepareTransfer uuid src dst blockHashes;
    mret (match p with
          | inl err => inl err
          | inr plan => inr (plan, source, destination)
          end)
  end end.

Definition replicateFinish (plan : TransferPlan) (source destination : ExecutorStats)
    (answer : error + option TriggerKVPushResponse) : M registry (error + TransferPlan) :=
  match answer with
  | inl err => e ← rollback (tp_TransferID plan) (WrapError "trigger KV push" err); mret (inl e)
  | inr response =>
      match validateResponse response plan (es_RuntimeEpoch source) (es_RuntimeEpoch destination) with
      | Some err => e ← rollback (tp_TransferID plan) err; mret (inl e)
      | None =>
          err ← CommitTransfer (tp_TransferID plan);
          match err with
          | Some err => e ← rollback (tp_TransferID plan) (WrapError "commit transfer" err); mret (inl e)
          | None => mret (inr plan)
          end
      end
  end.

Definition Replicate (c : executorControl) (uuid src dst : string) (blockHashes : list string)
    : M registry (error + TransferPlan) :=
  p ← replicatePrepare c uuid src dst blockHashes;
  match p with
  | inl err => mret (inl err)
  | inr (plan, source, destination) =>
      replicateFinish plan source destination (TriggerKVPush c (pushRequest plan source destination))
  end.

(** ** Theorems *)

Lemma validateResponse_ok response plan se de :
  validateResponse response plan se de = None <->
  response = Some (mkTriggerKVPushResponse (tp_TransferID plan) (tp_SourceExecutorID plan) se
                     (tp_DestinationExecutorID plan) de).
Proof.
  unfold validateResponse. destruct response as [[a b x d y]|]; cbn; [|done].
  destruct (String.eqb_spec a (tp_TransferID plan)), (String.eqb_spec b (tp_SourceExecutorID plan)),
    (Z.eqb_spec x se), (String.eqb_spec d (tp_DestinationExecutorID plan)), (Z.eqb_spec y de);
    cbn; split; intros H; try done; congruence.
Qed.

Lemma runtimeFor_ok runtimes e rt :
  runtimeFor runtimes e = inr rt <-> runtimes !! e = Some (Some rt) /\ es_ExecutorId rt = e.
Proof.
  unfold runtimeFor. destruct (runtimes !! e) as [[rt'|]|]; [|split; [done|by intros [? _]]..].
  destruct (String.eqb_spec (es_ExecutorId rt') e); cbn; split; try done.
  - by intros [= ->].
  - by intros [[= ->] _].
  - intros [[= ->] ?]. done.
Qed.

(** What a transfer that came to nothing leaves behind: the tables and the free
    lists of all managers as they were. *)
Definition undone (r r' : registry) : Prop :=
  r_pendingTransfers r' = r_pendingTransfers r /\
  forall e m m', r_managers r !! e = Some m -> r_managers r' !! e = Some m' ->
    rest m' = rest m /\ m_freeCount m' = m_freeCount m /\
    (forall x, x ∈ free_list m' <-> x ∈ free_list m).

Lemma rollback_spec r0 r tid plan cause :
  RegOK r0 -> RegOK r -> r_pendingTransfers r0 !! tid = None ->
  r_pendingTransfers r = <[tid := plan]> (r_pendingTransfers r0) ->
  (forall e m, r_managers r0 !! e = Some m -> exists m', r_managers r !! e = Some m' /\
     rest m' = rest m /\ len (m_blocks m') = len (m_blocks m)) ->
  wp (rollback tid cause) (fun e r' => e = cause /\ RegOK r' /\ undone r0 r') r.
Proof.
  intros HR0 HR Hfresh Hp Hsame. unfold rollback. wp_steps.
  assert (Ht : r_pendingTransfers r !! tid = Some plan) by (rewrite Hp; apply lookup_insert_eq).
  wp_use (RollbackTransfer_spec _ _ _ HR Ht). intros err r' (-> & HR' & Hp' & Hm). wp_steps.
  assert (Hpend : r_pendingTransfers r' = r_pendingTransfers r0).
  { rewrite Hp', Hp. by apply delete_insert_id. }
  ssplit; [done|done|]. split; [done|]. intros e m0 m' Hm0 Hm'.
  destruct (Hsame _ _ Hm0) as (m1 & Hm1 & Hr1 & Hl1). destruct (Hm _ _ _ Hm1 Hm') as (Hr2 & _ & Hl2).
  split; [congruence|].
  apply (same_free _ _ (pinsOf e (r_pendingTransfers r0))); [by apply (rg_managers _ HR0)| |congruence|congruence].
  rewrite <- Hpend. by apply (rg_managers _ HR').
Qed.

Section replicate.
Context (c : executorControl) (uuid src dst : string) (hs : list string) (r : registry).
Context (ms md : manager) (HR : RegOK r).
Context (Huuid : uuid <> "") (Hfresh : r_pendingTransfers r !! uuid = None).
Context (Hdiff : src <> dst) (Hhs : 0 < len hs < two32).
Context (Hms : r_managers r !! src = Some ms) (Hmd : r_managers r !! dst = Some md).
Context (Hbs : m_blockSize ms = m_blockSize md).
Context (Hss : len (refs_of ms (pinsOf src (r_pendingTransfers r))) + len hs < two32).
Context (Hsd : len (refs_of md (pinsOf dst (r_pendingTransfers r))) + len hs < two32).

Lemma replicatePrepare_spec :
  wp (replicatePrepare c uuid src dst hs) (fun res r' => RegOK r' /\
    match res with
    | inl _ => undone r r'
    | inr (plan, s, d) =>
        runtimeFor (GetRuntimeStates c) src = inr s /\ runtimeFor (GetRuntimeStates c) dst = inr d /\
        es_KVCompatibilityID s <> "" /\ es_KVCompatibilityID s = es_KVCompatibilityID d /\
        es_TransferEndpoint d <> "" /\
        tp_TransferID plan = uuid /\ tp_SourceExecutorID plan = src /\
        tp_DestinationExecutorID plan = dst /\ tp_BlockHashes plan = hs /\
        Forall2 (transferable ms) hs (tp_SourceBlockIDs plan) /\
        r_pendingTransfers r' = <[uuid := plan]> (r_pendingTransfers r) /\
        (forall e m, r_managers r !! e = Some m -> exists m', r_managers r' !! e = Some m' /\
           rest m' = rest m /\ len (m_blocks m') = len (m_blocks m))
    end) r.
Proof.
  assert (Hun : undone r r).
  { split; [done|]. intros e m m' H1 H2. assert (m' = m) as -> by congruence. by ssplit. }
  unfold replicatePrepare. destruct (runtimeFor (GetRuntimeStates c) src) as [err|s]; [by wp_steps|].
  destruct (runtimeFor (GetRuntimeStates c) dst) as [err|d]; [by wp_steps|].
  destruct (String.eqb_spec (es_KVCompatibilityID s) ""); cbn [orb]; [by wp_steps|].
  destruct (String.eqb_spec (es_KVCompatibilityID s) (es_KVCompatibilityID d)); cbn [negb]; [|by wp_steps].
  destruct (String.eqb_spec (es_TransferEndpoint d) ""); [by wp_steps|]. wp_steps.
  wp_use (PrepareTransfer_spec r uuid src dst hs ms md HR Huuid Hdiff Hhs Hms Hmd Hbs Hfresh Hss Hsd).
  intros [err|plan] r' [HR' H]; wp_steps.
  - by split.
  - destruct H as (Hp & (ids & Hf2 & ->) & _ & Hsame). by ssplit.
Qed.

(** C12: [Replicate] is a transaction.  It never leaves a transfer behind.  When
    it returns a plan, the two executors report the same non-empty KV
    compatibility, the source confirmed exactly this transfer in the epochs the
    runtimes report, every hash was a full cached block of the source, and now
    is indexed on the destination.  When it returns an error, whether the
    checks, the push or the confirmation failed, the block tables and the free
    lists of all managers are what they were. *)
Theorem replicate_transaction :
  wp (Replicate c uuid src dst hs) (fun res r' => RegOK r' /\
    r_pendingTransfers r' = r_pendingTransfers r /\
    match res with
    | inr plan =>
        exists s d, runtimeFor (GetRuntimeStates c) src = inr s /\
          runtimeFor (GetRuntimeStates c) dst = inr d /\
          es_KVCompatibilityID s <> "" /\ es_KVCompatibilityID s = es_KVCompatibilityID d /\
          Forall2 (transferable ms) hs (tp_SourceBlockIDs plan) /\
          TriggerKVPush c (pushRequest plan s d) = inr (Some (mkTriggerKVPushResponse uuid src
            (es_RuntimeEpoch s) dst (es_RuntimeEpoch d))) /\
          exists md', r_managers r' !! dst = Some md' /\
            forall h, h ∈ hs -> is_Some (m_cachedBlocks md' !! h)
    | inl _ => undone r r'
    end) r.
Proof.
  unfold Replicate. wp_steps. wp_use replicatePrepare_spec.
  intros [err|[[plan s] d]] r1 [HR1 H]; [wp_steps; by destruct H|].
  destruct H as (Hs & Hd & Hc1 & Hc2 & He & Htid & Hsrc & Hdst & Hhsp & Hf2 & Hp1 & Hsame).
  assert (Hrb : forall cause, wp (rollback uuid cause) (fun e r' => e = cause /\ RegOK r' /\ undone r r') r1)
    by (intros; by eapply rollback_spec).
  assert (Ht1 : r_pendingTransfers r1 !! uuid = Some plan) by (rewrite Hp1; apply lookup_insert_eq).
  unfold replicateFinish. rewrite Htid. wp_steps.
  destruct (TriggerKVPush c (pushRequest plan s d)) as [err|response] eqn:Hpush.
  { wp_steps. wp_use Hrb. intros e r' (-> & HR' & Hun). wp_steps. ssplit; [done|by destruct Hun|done]. }
  destruct (validateResponse response plan (es_RuntimeEpoch s) (es_RuntimeEpoch d)) as [err|] eqn:Hv.
  { wp_steps. wp_use Hrb. intros e r' (-> & HR' & Hun). wp_steps. ssplit; [done|by destruct Hun|done]. }
  apply validateResponse_ok in Hv. wp_steps.
  wp_use (CommitTransfer_spec _ _ _ HR1 Ht1).
  intros err r' (-> & HR' & Hp' & md1 & md' & Hmd1 & Hmd' & _ & Hall & _). wp_steps.
  ssplit; [done| |].
  { rewrite Hp', Hp1. by apply delete_insert_id. }
  exists s, d. ssplit; try done.
  - by rewrite Hpush, Hv, Htid, Hsrc, Hdst.
  - rewrite Hdst in Hmd'. exists md'. split; [done|]. by rewrite <- Hhsp.
Qed.
End replicate.

(** ** A transfer in progress does not disturb requests, nor they it *)

(** A request operation on one manager of the registry. *)
Inductive request_step : registry -> registry -> Prop :=
| request_step_op r e m o a r' :
    r_managers r !! e = Some m -> request_op o = true ->
    enabled o m (pinsOf e (r_pendingTransfers r)) ->
    withManager e (run_op o (pinsOf e (r_pendingTransfers r))) r = Some (a, r') ->
    request_step r r'.

Lemma request_steps_ok r r' : RegOK r -> rtc request_step r r' ->
  RegOK r' /\ r_pendingTransfers r' = r_pendingTransfers r.
Proof.
  intros HR Hs. induction Hs as [|r r1 r' Hst _ IH]; [done|].
  destruct Hst as [r e m o a r1 He Ho Hen Hrun].
  pose proof (withManager_regok r e m o HR He Ho Hen) as Hw. unfold wp in Hw. rewrite Hrun in Hw.
  destruct Hw as (_ & HR1 & Hp & _). destruct (IH HR1) as [HR' Hp']. split; [done|congruence].
Qed.

(** C13: A transfer can be settled at any later time.  After [PrepareTransfer]
    returned a plan and any number of request operations (matches, allocations,
    commits, rollbacks, releases) ran on any of the managers, [CommitTransfer]
    succeeds and indexes every hash of the plan on the destination, and so does
    [RollbackTransfer], which leaves every block table and index as it found
    them; both give the transfer's references back. *)
Theorem transfer_survives_requests r tid src dst hs ms md plan r1 r2
  (HR : RegOK r) (Htid : tid <> "") (Hdiff : src <> dst) (Hhs : 0 < len hs < two32)
  (Hms : r_managers r !! src = Some ms) (Hmd : r_managers r !! dst = Some md)
  (Hbs : m_blockSize ms = m_blockSize md)
  (Hfresh : r_pendingTransfers r !! tid = None)
  (Hss : len (refs_of ms (pinsOf src (r_pendingTransfers r))) + len hs < two32)
  (Hsd : len (refs_of md (pinsOf dst (r_pendingTransfers r))) + len hs < two32)
  (Hprep : PrepareTransfer tid src dst hs r = Some (inr plan, r1))
  (Hreqs : rtc request_step r1 r2) :
  wp (CommitTransfer tid) (fun err r' => err = None /\ RegOK r' /\
    r_pendingTransfers r' = r_pendingTransfers r /\
    exists md', r_managers r' !! dst = Some md' /\
      forall h, h ∈ hs -> is_Some (m_cachedBlocks md' !! h)) r2 /\
  wp (RollbackTransfer tid) (fun err r' => err = None /\ RegOK r' /\
    r_pendingTransfers r' = r_pendingTransfers r /\
    forall e m m', r_managers r2 !! e = Some m -> r_managers r' !! e = Some m' ->
      m_requestBlocks m' = m_requestBlocks m /\ m_cachedBlocks m' = m_cachedBlocks m) r2.
Proof.
  pose proof (PrepareTransfer_spec r tid src dst hs ms md HR Htid Hdiff Hhs Hms Hmd Hbs Hfresh Hss Hsd) as Hw.
  unfold wp in Hw at 1. rewrite Hprep in Hw. destruct Hw as (HR1 & Hp1 & (ids & _ & ->) & _).
  destruct (request_steps_ok _ _ HR1 Hreqs) as [HR2 Hp2]. rewrite Hp1 in Hp2.
  pose proof (f_equal (fun t => t !! tid) Hp2) as Ht2. cbn beta in Ht2. rewrite lookup_insert_eq in Ht2.
  assert (Hdel : delete tid (r_pendingTransfers r2) = r_pendingTransfers r)
    by (rewrite Hp2; by apply delete_insert_id).
  split.
  - wp_use (CommitTransfer_spec _ _ _ HR2 Ht2).
    intros err r' (-> & HR' & Hp' & _ & md' & _ & Hmd' & _ & Hall & _).
    ssplit; [done|done|congruence|]. by exists md'.
  - wp_use (RollbackTransfer_spec _ _ _ HR2 Ht2). intros err r' (-> & HR' & Hp' & Hall).
    ssplit; [done|done|congruence|]. intros e m m' H1 H2.
    destruct (Hall _ _ _ H1 H2) as (Hr & Hc & _). by apply rest_fields in Hr as (_ & _ & -> & _).
Qed.
