(* ===== verification/TransferExamples.v ===== *)
(** * TransferExamples: a replication between two concrete executors

    The executor "e0" of BlockExamples, whose manager has one cached block, and
    a second executor "e1" with an empty manager; the witnesses of the theorems
    of BlockRegistry and Placement. *)

From S2P Require Import Prelude Errors Model Metrics FreeQueue GoSha256 BlockManager BlockProperties BlockExamples BlockRegistry Placement.
Definition stats (e : string) (epoch : Z) : ExecutorStats :=
  mkExecutorStats e epoch "mock" "qwen3" "bf16" "cpu" 1 2 4 1 1 1 0 0 0 "r" 1 "kv" "grpc://e".

Definition runtimes0 : gmap string (option ExecutorStats) :=
  <["e0" := Some (stats "e0" 7)]> (<["e1" := Some (stats "e1" 9)]> ∅).

Definition me1 : manager :=
  match newManager (Some (stats "e1" 9)) with Some (inr m) => m | _ => noManager end.

Definition reg0 : registry := mkRegistry (<["e0" := m3]> (<["e1" := me1]> ∅)) ["e0"; "e1"] ∅.

(** Source executor that confirms every push. *)
Definition control0 : executorControl := mkExecutorControl runtimes0 (fun q =>
  inr (Some (mkTriggerKVPushResponse (kq_TransferId q) (kq_SourceExecutorId q)
    (kq_SourceRuntimeEpoch q) (kq_DestinationExecutorId q) (kq_DestinationRuntimeEpoch q)))).

Lemma me1_consistent : Consistent me1 [].
Proof.
  apply (reachable_consistent (stats "e1" 9)); [done|by split|by split|].
  exists me1. split; [by vm_compute|apply rtc_refl].
Qed.

Lemma reg0_ok : RegOK reg0.
Proof.
  split; [|intros id plan; cbn; by rewrite lookup_empty].
  intros e m. cbn [r_managers r_pendingTransfers reg0].
  intros [[<- <-]|[_ [[<- <-]|[_ H]]%lookup_insert_Some]]%lookup_insert_Some.
  - exact (rt0_reachable_consistent _ m3_reachable).
  - exact me1_consistent.
  - by rewrite lookup_empty in H.
Qed.

#[local] Opaque m3 me1 hash00.

Lemma reg0_e0 : r_managers reg0 !! "e0" = Some m3.
Proof. exact (lookup_insert_eq _ _ _). Qed.

Lemma reg0_e1 : r_managers reg0 !! "e1" = Some me1.
Proof.
  transitivity ((<["e1":=me1]> ∅ : gmap string manager) !! "e1").
  - apply lookup_insert_ne. done.
  - apply lookup_insert_eq.
Qed.

Lemma reg0_fresh : r_pendingTransfers reg0 !! "t" = None.
Proof. apply lookup_empty. Qed.

Lemma replicate_transaction_witness :
  wp (Replicate control0 "t" "e0" "e1" [hash00]) (fun res r' => RegOK r') reg0.
Proof.
  assert (Hd : "e0" <> "e1") by done. assert (Hu : "t" <> "") by done.
  assert (Hl : 0 < len [hash00] < two32) by (by vm_compute).
  assert (Hb : m_blockSize m3 = m_blockSize me1) by (by vm_compute).
  assert (Hs : len (refs_of m3 (pinsOf "e0" (r_pendingTransfers reg0))) + len [hash00] < two32)
    by (by vm_compute).
  assert (Ht : len (refs_of me1 (pinsOf "e1" (r_pendingTransfers reg0))) + len [hash00] < two32)
    by (by vm_compute).
  eapply wp_mono; [exact (replicate_transaction control0 "t" "e0" "e1" [hash00] reg0 m3 me1 reg0_ok
    Hu reg0_fresh Hd Hl reg0_e0 reg0_e1 Hb Hs Ht)|].
  intros res r' H. exact (proj1 H).
Defined.

Lemma new_registry_witness : exists res, NewRegistry runtimes0 = Some res /\
  match res with inl _ => False | inr r => RegOK r /\ ExecutorIDs r = ["e0"; "e1"] end.
Proof.
  assert (Hr : forall e o, runtimes0 !! e = Some o -> in_range o).
  { intros e o. unfold runtimes0.
    intros [[_ <-]|[_ [[_ <-]|[_ H]]%lookup_insert_Some]]%lookup_insert_Some.
    - intros rt [= <-]. done.
    - intros rt [= <-]. done.
    - by rewrite lookup_empty in H. }
  destruct (new_registry runtimes0 Hr) as (res & Hres & H). exists res. split; [exact Hres|].
  assert (Hc : (match res with inr r => ExecutorIDs r | inl _ => [] end) = ["e0"; "e1"]).
  { replace res with (default (inl (text "")) (NewRegistry runtimes0)) by (by rewrite Hres).
    by vm_compute. }
  destruct res as [err|r]; [done|]. split; [apply H|exact Hc].
Defined.

Definition plan0 : error + TransferPlan :=
  match PrepareTransfer "t" "e0" "e1" [hash00] reg0 with Some (p, _) => p | None => inl (text "") end.
Definition reg1 : registry :=
  match PrepareTransfer "t" "e0" "e1" [hash00] reg0 with Some (_, r) => r | None => reg0 end.
Definition transfer0 : TransferPlan :=
  match plan0 with inr p => p | inl _ => mkTransferPlan "" "" [] "" [] [] end.

(** The plan pins block 0 of the source and reserves block 0 of the destination. *)
Example transfer0_blocks :
  tp_SourceBlockIDs transfer0 = [0] /\ tp_DestinationBlockIDs transfer0 = [0].
Proof. vm_compute. by split. Qed.

Lemma prepare0 : PrepareTransfer "t" "e0" "e1" [hash00] reg0 = Some (inr transfer0, reg1).
Proof.
  unfold transfer0, plan0, reg1.
  assert (H : (match PrepareTransfer "t" "e0" "e1" [hash00] reg0 with
               | Some (inr _, _) => true | _ => false end) = true) by (by vm_compute).
  destruct (PrepareTransfer "t" "e0" "e1" [hash00] reg0) as [[[?|p] r]|]; done.
Qed.

Lemma transfer_survives_requests_witness :
  wp (CommitTransfer "t") (fun err r' => err = None) reg1.
Proof.
  assert (Hd : "e0" <> "e1") by done. assert (Hu : "t" <> "") by done.
  assert (Hl : 0 < len [hash00] < two32) by (by vm_compute).
  assert (Hb : m_blockSize m3 = m_blockSize me1) by (by vm_compute).
  assert (Hs : len (refs_of m3 (pinsOf "e0" (r_pendingTransfers reg0))) + len [hash00] < two32)
    by (by vm_compute).
  assert (Ht : len (refs_of me1 (pinsOf "e1" (r_pendingTransfers reg0))) + len [hash00] < two32)
    by (by vm_compute).
  eapply wp_mono; [exact (proj1 (transfer_survives_requests reg0 "t" "e0" "e1" [hash00] m3 me1
    transfer0 reg1 reg1 reg0_ok Hu Hd Hl reg0_e0 reg0_e1 Hb reg0_fresh Hs Ht prepare0
    (rtc_refl _ _)))|].
  intros res r' H. exact (proj1 H).
Defined.
