(* ===== verification/StateMachine.v ===== *)
(** * StateMachine: the life cycle of requests (internal/state/state_machine.go)

    The request manager keeps the live requests, a channel per request on which
    its events are published, and the number of active requests; it matches
    prefixes and frees blocks in the block registry.  [stateManager] is its
    state; the requests of the map are the shared [*model.Request] objects.

    A channel is the sequence of events sent to it and whether it is closed; a
    send on a closed channel and a second close panic.  A send that finds the
    five places of the buffer taken waits for the subscriber, which the sequence
    does not show.  [time.Now] is the clock [sm_now], constant during one
    operation, and the UUIDs drawn are the sequence [sm_uuids]. *)

From S2P Require Import Prelude Errors Model Metrics FreeQueue BlockManager BlockProperties BlockRegistry.
Record channel := mkChannel { ch_sent : list Event; ch_closed : bool }.
#[export] Instance channel_eta : Eta channel := fun c => mkChannel (ch_sent c) (ch_closed c).

Record stateManager := mkStateManager {
  sm_requests : gmap string Request;
  sm_subscribeCh : gmap string nat;       (* the channel of a request *)
  sm_channels : gmap nat channel;         (* all channels ever made *)
  sm_registry : registry;
  sm_activeRequests : Z;
  sm_metrics : MetricLog;
  sm_now : Time;
  sm_uuids : nat -> string;
  sm_drawn : nat
}.
#[export] Instance stateManager_eta : Eta stateManager := fun s =>
  mkStateManager (sm_requests s) (sm_subscribeCh s) (sm_channels s) (sm_registry s)
    (sm_activeRequests s) (sm_metrics s) (sm_now s) (sm_uuids s) (sm_drawn s).

Definition NewRequestLifecycleStateManager (reg : registry) (now : Time) (uuids : nat -> string)
    : stateManager :=
  mkStateManager ∅ ∅ ∅ reg 0 [] now uuids 0.

(** ** Effects *)

Definition sm_metric (c : MetricCall) : M stateManager unit :=
  modS (fun s => s <| sm_metrics := sm_metrics s ++ [c] |>).

Definition now_ : M stateManager Time := s ← getS; mret (sm_now s).

Definition newUUID : M stateManager string :=
  s ← getS;
  modS (fun s => s <| sm_drawn := S (sm_drawn s) |>) ;;
  mret (sm_uuids s (sm_drawn s)).

(** An operation of the block registry. *)
Definition onRegistry {A} (c : M registry A) : M stateManager A := fun s =>
  match c (sm_registry s) with
  | Some (a, r) => Some (a, s <| sm_registry := r |>)
  | None => None
  end.

Definition send (ch : nat) (e : Event) : M stateManager unit :=
  modO (fun s =>
    c ← sm_channels s !! ch;
    if ch_closed c then None
    else Some (s <| sm_channels := <[ch := c <| ch_sent := ch_sent c ++ [e] |>]> (sm_channels s) |>)).

Definition closeCh (ch : nat) : M stateManager unit :=
  modO (fun s =>
    c ← sm_channels s !! ch;
    if ch_closed c then None
    else Some (s <| sm_channels := <[ch := c <| ch_closed := true |>]> (sm_channels s) |>)).

Definition makeCh : M stateManager nat :=
  s ← getS;
  let ch := fresh (dom (sm_channels s)) in
  modS (fun s => s <| sm_channels := <[ch := mkChannel [] false]> (sm_channels s) |>) ;;
  mret ch.

Definition setRequest (id : string) (req : Request) : M stateManager unit :=
  modS (fun s => s <| sm_requests := <[id := req]> (sm_requests s) |>).

(** [delete(r.requests, id); delete(r.subscribeCh, id)] *)
Definition forget (id : string) : M stateManager unit :=
  modS (fun s => s <| sm_requests := delete id (sm_requests s) |>
                   <| sm_subscribeCh := delete id (sm_subscribeCh s) |>).

(** ** Operations *)

Definition increaseActiveRequestAndCacheHit (hit : bool) (cachedTokens : Z) : M stateManager unit :=
  modS (fun s => s <| sm_activeRequests := sm_activeRequests s + 1 |>) ;;
  s ← getS;
  sm_metric (SetActiveRequests (sm_activeRequests s)) ;;
  sm_metric (IncPrefixCacheRequests hit) ;;
  if hit then sm_metric (AddPrefixCacheTokensSaved cachedTokens) else mret tt.

Definition deleteRequest (requestId : string) : M stateManager unit :=
  s ← getS;
  let req := sm_requests s !! requestId in
  forget requestId ;;
  match req with
  | Some req =>
      (* an unknown executor is only logged *)
      onRegistry (RegFreeRequest (req_ExecutorID req) requestId) ;; mret tt
  | None => mret tt
  end ;;
  modS (fun s => s <| sm_activeRequests := sm_activeRequests s - 1 |>) ;;
  s ← getS;
  sm_metric (SetActiveRequests (sm_activeRequests s)).

Definition Create (req : Request) : M stateManager (error + WorkItem) :=
  s ← getS;
  match sm_requests s !! req_RequestId req with
  | Some _ => mret (inl (New CodeInvalidArgument "request already exists"))
  | None =>
      let req := req <| req_Phase := RequestPhasePrefillReady |> in
      let id := req_RequestId req in
      setRequest id req ;;
      ch ← makeCh;
      modS (fun s => s <| sm_subscribeCh := <[id := ch]> (sm_subscribeCh s) |>) ;;
      let executorIDs := ExecutorIDs (sm_registry s) in
      if String.eqb (req_ExecutorID req) "" && negb (len executorIDs =? 1)
      then
        forget id ;;
        mret (inl (New CodeExecutorUnavailable "request has no executor binding"))
      else
        executorID ← getsO (fun _ =>
          if String.eqb (req_ExecutorID req) "" then idx executorIDs 0
          else Some (req_ExecutorID req));
        let req := req <| req_ExecutorID := executorID |> in
        setRequest id req ;;
        r ← onRegistry (RegMatchPrefix req);
        match r with
        | inl err => forget id ;; mret (inl err)
        | inr (prefixMatch, req) =>
            let cached := pm_CachedTokens prefixMatch in
            let req := req <| req_ComputedTokens := cached |> in
            setRequest id req ;;
            increaseActiveRequestAndCacheHit (pm_Hit prefixMatch) cached ;;
            now ← now_;
            uuid ← newUUID;
            tokenIDs ← getsO (fun _ => slice (req_TokenIDs req) cached (len (req_TokenIDs req)));
            let full := req_PromptTokens req <=? cached in
            mret (inr {|
              wi_WorkId := uuid;
              wi_RequestId := id;
              wi_ExecutorID := req_ExecutorID req;
              wi_Phase := if full then WorkPhaseDecode else WorkPhasePrefill;
              wi_Deadline := req_Deadline req;
              wi_MaxTokens := req_MaxTokens req;
              wi_ModelID := req_ModelID req;
              wi_Cache := Some prefixMatch;
              wi_TokenIDs := tokenIDs;
              wi_TokenCntTotal := u32 (len (req_TokenIDs req));
              wi_BlockAllocation := None;
              wi_PrefillOffset := cached;
              wi_GeneratedTokens := 0;
              wi_NumNewTokens := if full then 1 else req_PromptTokens req -u cached;
              wi_EnqueuedAt := 0;
              wi_ReadyAt := now
            |})
        end
  end.

Definition Get (requestId : string) (s : stateManager) : option Request :=
  sm_requests s !! requestId.

Definition Subscribe (requestId : string) (s : stateManager) : error + nat :=
  match sm_subscribeCh s !! requestId with
  | None => inl (New CodeInternal "subscribe channel doesn't exist")
  | Some ch => inr ch
  end.

(** The event that reports a failure to the subscriber. *)
Definition failureEvent (uuid requestId : string) (at_ : Time) (err : error) : Event := {|
  ev_WorkId := uuid; ev_RequestId := requestId; ev_BatchId := ""; ev_ExecutorId := "";
  ev_Type := EventTypeRequestFailed; ev_ChunkIndex := 0; ev_TokenId := 0; ev_Done := true;
  ev_Usage := Usage0; ev_Timing := Timing0; ev_FinishReason := FinishReasonError;
  ev_At := at_; ev_Err := Some err
|}.

Definition terminal (p : RequestPhase) : bool :=
  match p with
  | RequestPhaseFinished | RequestPhaseCanceled | RequestPhaseTimeout | RequestPhaseFailed => true
  | _ => false
  end.

(** Publish a failure on the channel of a request that has just been removed,
    and close it. *)
Definition failChannel (ch : option nat) (requestId : string) (err : error) : M stateManager unit :=
  match ch with
  | Some ch =>
      uuid ← newUUID;
      now ← now_;
      send ch (failureEvent uuid requestId now err) ;;
      closeCh ch
  | None => mret tt
  end.

Definition CanSchedule (work : WorkItem) : M stateManager bool :=
  s ← getS;
  match sm_requests s !! wi_RequestId work with
  | None => mret false
  | Some req =>
      if negb (IsZero (req_Deadline req)) && (req_Deadline req <? sm_now s)
      then
        setRequest (wi_RequestId work) (req <| req_Phase := RequestPhaseTimeout |>) ;;
        let subCh := sm_subscribeCh s !! wi_RequestId work in
        deleteRequest (wi_RequestId work) ;;
        failChannel subCh (wi_RequestId work) (New CodeRequestTimeout "request timeout") ;;
        mret false
      else mret (negb (terminal (req_Phase req)))
  end.

(** The locked part of [Cancel], [Fail] and [Finish]: the request leaves in
    phase [p]; the result is its channel. *)
Definition endRequest (p : RequestPhase) (requestId : string) : M stateManager (option nat) :=
  s ← getS;
  let subCh := sm_subscribeCh s !! requestId in
  match sm_requests s !! requestId with
  | Some req =>
      setRequest requestId (req <| req_Phase := p |>) ;;
      deleteRequest requestId
  | None => modS (fun s => s <| sm_subscribeCh := delete requestId (sm_subscribeCh s) |>)
  end ;;
  mret subCh.

Definition closeOpt (ch : option nat) : M stateManager unit :=
  match ch with Some ch => closeCh ch | None => mret tt end.

Definition Cancel (requestId : string) : M stateManager unit :=
  ch ← endRequest RequestPhaseCanceled requestId; closeOpt ch.

Definition Fail_ (requestId : string) (err : error) : M stateManager unit :=
  ch ← endRequest RequestPhaseFailed requestId; failChannel ch requestId err.

Definition Finish (requestId : string) : M stateManager unit :=
  ch ← endRequest RequestPhaseFinished requestId; closeOpt ch.

(** The decode item that follows a sampled token. *)
Definition decodeItem (req : Request) (uuid requestId : string) (now : Time) : WorkItem := {|
  wi_WorkId := uuid;
  wi_RequestId := requestId;
  wi_ExecutorID := req_ExecutorID req;
  wi_Phase := WorkPhaseDecode;
  wi_Deadline := req_Deadline req;
  wi_MaxTokens := req_MaxTokens req;
  wi_ModelID := req_ModelID req;
  wi_Cache := req_Cache req;
  wi_TokenIDs := req_TokenIDs req;
  wi_TokenCntTotal := u32 (len (req_TokenIDs req));
  wi_BlockAllocation := None;
  wi_PrefillOffset := 0;
  wi_GeneratedTokens := req_GeneratedTokens req;
  wi_NumNewTokens := 1;
  wi_EnqueuedAt := 0;
  wi_ReadyAt := now
|}.

(** The prefill item for the rest of the prompt. *)
Definition prefillItem (req : Request) (uuid requestId : string) (now : Time)
    (offset numNew : Z) (tokenIDs : list Z) : WorkItem := {|
  wi_WorkId := uuid;
  wi_RequestId := requestId;
  wi_ExecutorID := req_ExecutorID req;
  wi_Phase := WorkPhasePrefill;
  wi_Deadline := req_Deadline req;
  wi_MaxTokens := req_MaxTokens req;
  wi_ModelID := req_ModelID req;
  wi_Cache := req_Cache req;
  wi_TokenIDs := tokenIDs;
  wi_TokenCntTotal := req_PromptTokens req;
  wi_BlockAllocation := None;
  wi_PrefillOffset := offset;
  wi_GeneratedTokens := 0;
  wi_NumNewTokens := numNew;
  wi_EnqueuedAt := 0;
  wi_ReadyAt := now
|}.

(** The request after a prefill chunk, before the next item is built. *)
Definition afterPrefillChunk (req : Request) (e : Event) : Request :=
  let computed := req_ComputedTokens req +u us_InputTokens (ev_Usage e) in
  req <| req_ComputedTokens := computed |>
      <| req_Usage := mkUsage computed (us_OutputTokens (req_Usage req))
                        (computed +u req_GeneratedTokens req) |>
      <| req_Phase := RequestPhasePrefillRunning |>.

Definition afterPrefillFinished (req : Request) (e : Event) : Request :=
  let computed := req_ComputedTokens req +u us_InputTokens (ev_Usage e) in
  let computed := if req_PromptTokens req <? computed then req_PromptTokens req else computed in
  let generated := req_GeneratedTokens req +u us_OutputTokens (ev_Usage e) in
  req <| req_ComputedTokens := computed |>
      <| req_GeneratedTokens := generated |>
      <| req_TokenIDs := req_TokenIDs req ++ [ev_TokenId e] |>
      <| req_Usage := mkUsage computed generated (computed +u generated) |>
      <| req_Phase := RequestPhaseDecodeReady |>.

Definition afterDecodeChunk (req : Request) (e : Event) : Request :=
  let generated := req_GeneratedTokens req +u us_OutputTokens (ev_Usage e) in
  req <| req_GeneratedTokens := generated |>
      <| req_Usage := mkUsage (req_PromptTokens req) generated (req_PromptTokens req +u generated) |>
      <| req_TokenIDs := req_TokenIDs req ++ [ev_TokenId e] |>.

Definition setUsage (e : Event) (req : Request) : Event := e <| ev_Usage := req_Usage req |>.

(** The [switch] of [OnEvent] on a live request: the next work items, the
    request and the event, which it completes. *)
Definition transition (e : Event) (req : Request) : M stateManager (list WorkItem * Request * Event) :=
  now ← now_;
  match ev_Type e with
  | EventTypePrefillChunk =>
      let req := afterPrefillChunk req e in
      let e := setUsage e req in
      let prefillOffset := req_ComputedTokens req in
      let numNewTokens := req_PromptTokens req -u prefillOffset in
      uuid ← newUUID;
      tokenIDs ← getsO (fun _ =>
        slice (req_TokenIDs req) prefillOffset (prefillOffset +u numNewTokens));
      mret ([prefillItem req uuid (ev_RequestId e) now prefillOffset numNewTokens tokenIDs], req, e)
  | EventTypePrefillFinished =>
      let req := afterPrefillFinished req e in
      let e := setUsage e req in
      uuid ← newUUID;
      mret ([decodeItem req uuid (ev_RequestId e) now], req, e)
  | EventTypeDecodeChunk =>
      let req := afterDecodeChunk req e in
      let e := setUsage e req in
      if ev_Done e || (req_MaxTokens req <=? req_GeneratedTokens req)
      then
        let e := (if decide (ev_FinishReason e = FinishReasonUnspecified)
                  then e <| ev_FinishReason := FinishReasonLength |> else e) <| ev_Done := true |> in
        let req := req <| req_Phase := RequestPhaseFinished |> <| req_FinishedAt := now |>
                       <| req_FinishReason := ev_FinishReason e |> in
        mret ([], req, e)
      else
        let req := req <| req_Phase := RequestPhaseDecodeRunning |> in
        uuid ← newUUID;
        mret ([decodeItem req uuid (ev_RequestId e) now], req, e)
  | EventTypeRequestFinished => mret ([], req <| req_Phase := RequestPhaseFinished |>, e)
  | EventTypeRequestFailed => mret ([], req <| req_Phase := RequestPhaseFailed |>, e)
  | EventTypeRequestCanceled => mret ([], req <| req_Phase := RequestPhaseCanceled |>, e)
  | EventTypeOther _ => mret ([], req, e)
  end.

(** The first critical section of [OnEvent]: [None] for a request that is not
    live. *)
Definition recordEvent (e : Event) : M stateManager (option (list WorkItem * Event)) :=
  s ← getS;
  match sm_requests s !! ev_RequestId e with
  | None => mret None
  | Some req =>
      '(items, req, e) ← transition e req;
      setRequest (ev_RequestId e) req ;;
      mret (Some (items, e))
  end.

(** The second one: the channel to publish on. *)
Definition subscriber (requestId : string) : M stateManager (option nat) :=
  s ← getS; mret (sm_subscribeCh s !! requestId).

(** The send, under no lock. *)
Definition publish (subCh : option nat) (e : Event) : M stateManager unit :=
  match subCh with
  | Some subCh => send subCh e
  | None => mret tt   (* logged *)
  end.

(** Returns the next work items and the event as the caller sees it afterwards. *)
Definition OnEvent (e : Event) : M stateManager (list WorkItem * Event) :=
  r ← recordEvent e;
  match r with
  | None => mret ([], e)
  | Some (items, e) =>
      subCh ← subscriber (ev_RequestId e);
      publish subCh e ;;
      mret (items, e)
  end.

(** ** The invariant of the request manager *)

Record SMOK (s : stateManager) : Prop := mkSMOK {
  so_reg : RegOK (sm_registry s);
  (** Live requests are exactly those with a channel, and no two share one. *)
  so_dom : forall id, is_Some (sm_requests s !! id) <-> is_Some (sm_subscribeCh s !! id);
  so_open : forall id ch, sm_subscribeCh s !! id = Some ch ->
    exists c, sm_channels s !! ch = Some c /\ ch_closed c = false;
  so_inj : forall id1 id2 ch, sm_subscribeCh s !! id1 = Some ch ->
    sm_subscribeCh s !! id2 = Some ch -> id1 = id2;
  so_active : sm_activeRequests s = Z.of_nat (size (sm_requests s));
  so_exec : forall id req, sm_requests s !! id = Some req ->
    req_RequestId req = id /\ is_Some (r_managers (sm_registry s) !! req_ExecutorID req);
  (** Only live requests own KV blocks, and only on their executor. *)
  so_tables : forall e m id, r_managers (sm_registry s) !! e = Some m ->
    is_Some (m_requestBlocks m !! id) ->
    exists req, sm_requests s !! id = Some req /\ req_ExecutorID req = e
}.

Lemma wp_onRegistry {A} (c : M registry A) (Q : A -> stateManager -> Prop) s :
  wp c (fun a r => Q a (s <| sm_registry := r |>)) (sm_registry s) -> wp (onRegistry c) Q s.
Proof. unfold wp, onRegistry. by destruct (c (sm_registry s)) as [[a r]|]. Qed.

Lemma wp_withManager {A} e (c : M manager A) m (Q : error + A -> registry -> Prop) r :
  r_managers r !! e = Some m ->
  wp c (fun a m' => Q (inr a) (r <| r_managers := <[e := m']> (r_managers r) |>)) m ->
  wp (withManager e c) Q r.
Proof.
  intros He H. unfold withManager. wp_steps. rewrite He. wp_steps.
  eapply wp_onManager; [exact He|]. eapply wp_mono; [exact H|]. intros a m' HQ. by wp_steps.
Qed.

(** A manager operation that is a request operation keeps the registry. *)
Lemma regok_request {A} r e m o (c : M manager A) :
  RegOK r -> r_managers r !! e = Some m -> request_op o = true ->
  enabled o m (pinsOf e (r_pendingTransfers r)) ->
  run_op o (pinsOf e (r_pendingTransfers r)) =
    (c ≫= fun _ => mret (pinsOf e (r_pendingTransfers r))) ->
  wp c (fun _ m' => RegOK (r <| r_managers := <[e := m']> (r_managers r) |>)) m.
Proof.
  intros HR He Ho Hen Hrun.
  pose proof (withManager_regok r e m o HR He Ho Hen) as H. rewrite Hrun in H.
  unfold withManager, onManager, wp, mbind, M_bind, mret, M_ret, getS in *. cbn in H.
  rewrite He in H. cbn in H. rewrite He in H. cbn in H.
  destruct (c m) as [[a m']|]; cbn in H; [|done]. by destruct H as (_ & H & _).
Qed.

(** What [FreeRequest] of a live request does to the registry. *)
Lemma RegFreeRequest_spec r e m id :
  RegOK r -> r_managers r !! e = Some m ->
  wp (RegFreeRequest e id) (fun _ r' => RegOK r' /\ r_pendingTransfers r' = r_pendingTransfers r /\
    exists m', r_managers r' = <[e := m']> (r_managers r) /\
      m_requestBlocks m' = delete id (m_requestBlocks m)) r.
Proof.
  intros HR He. unfold RegFreeRequest. eapply wp_withManager; [exact He|].
  destruct (rg_managers _ HR _ _ He) as [p HI].
  eapply wp_mono; [apply wp_and; [apply (FreeRequest_inv _ _ _ id HI)|
    apply (regok_request r e m (OpFreeRequest id) (FreeRequest id) HR He eq_refl I eq_refl)]|].
  cbn beta. intros _ m' [(Hrb & _) HR']. ssplit; [done|done|]. exists m'. by split.
Qed.

(** Removing a live request. *)
Lemma deleteRequest_spec s id req :
  SMOK s -> sm_requests s !! id = Some req ->
  wp (deleteRequest id) (fun _ s' => SMOK s' /\
    sm_requests s' = delete id (sm_requests s) /\
    sm_subscribeCh s' = delete id (sm_subscribeCh s) /\
    sm_channels s' = sm_channels s /\ sm_now s' = sm_now s /\
    sm_activeRequests s' = sm_activeRequests s - 1) s.
Proof.
  intros HS Hreq. pose proof HS as [Hreg Hdom Hopen Hinj Hact Hexec Htab].
  destruct (Hexec _ _ Hreq) as [Hid [m Hm]].
  unfold deleteRequest, forget. wp_steps. rewrite Hreq. wp_steps. apply wp_onRegistry. cbn.
  wp_use (RegFreeRequest_spec _ _ _ id Hreg Hm).
  intros _ r' (HR' & Hp' & m' & Hms & Hrb). unfold sm_metric. wp_steps. cbn.
  ssplit; try done. split; cbn.
  - done.
  - intros id'. rewrite !lookup_delete_is_Some. by rewrite Hdom.
  - intros id' ch [_ Hch]%lookup_delete_Some. by eapply Hopen.
  - intros id1 id2 ch [_ H1]%lookup_delete_Some [_ H2]%lookup_delete_Some. by eapply Hinj.
  - rewrite map_size_delete, Hreq, Hact. cbn.
    assert (size (sm_requests s) <> 0%nat); [|lia].
    intros E%map_size_empty_inv. by rewrite E, lookup_empty in Hreq.
  - intros id' req' [_ Hr']%lookup_delete_Some. destruct (Hexec _ _ Hr') as [? [m0 Hm0]].
    split; [done|]. rewrite Hms.
    destruct (decide (req_ExecutorID req = req_ExecutorID req')) as [->|];
      [rewrite lookup_insert_eq; eauto|rewrite lookup_insert_ne by done; eauto].
  - intros e m0 id'. rewrite Hms. intros [[<- <-]|[Hne Hm0]]%lookup_insert_Some Hsome.
    + rewrite Hrb in Hsome. apply lookup_delete_is_Some in Hsome as [Hne Hsome].
      destruct (Htab _ _ _ Hm Hsome) as (req' & Hr' & He'). exists req'.
      by rewrite lookup_delete_ne.
    + destruct (Htab _ _ _ Hm0 Hsome) as (req' & Hr' & He'). exists req'. split; [|done].
      rewrite lookup_delete_ne; [done|]. intros ->. congruence.
Qed.

Lemma smok_channel s ch c :
  SMOK s -> (ch_closed c = false \/ forall id, sm_subscribeCh s !! id <> Some ch) ->
  SMOK (s <| sm_channels := <[ch := c]> (sm_channels s) |>).
Proof.
  intros [Hreg Hdom Hopen Hinj Hact Hexec Htab] Hc. split; cbn; try done.
  intros id ch' Hch. destruct (decide (ch = ch')) as [<-|].
  - exists c. split; [apply lookup_insert_eq|]. destruct Hc as [?|Hn]; [done|]. by destruct (Hn id).
  - destruct (Hopen _ _ Hch) as (c' & ? & ?). exists c'. by rewrite lookup_insert_ne.
Qed.

Lemma smok_drawn s n : SMOK s -> SMOK (s <| sm_drawn := n |>).
Proof. intros []. by split. Qed.

Lemma smok_request s id req req' :
  SMOK s -> sm_requests s !! id = Some req ->
  req_RequestId req' = req_RequestId req -> req_ExecutorID req' = req_ExecutorID req ->
  SMOK (s <| sm_requests := <[id := req']> (sm_requests s) |>).
Proof.
  intros [Hreg Hdom Hopen Hinj Hact Hexec Htab] Hreq Hid Hex. split; cbn; try done.
  - intros id'. rewrite <- Hdom. destruct (decide (id = id')) as [<-|].
    + rewrite lookup_insert_eq, Hreq. split; eauto.
    + by rewrite lookup_insert_ne.
  - rewrite map_size_insert_Some; [done|by rewrite Hreq].
  - intros id' r' [[<- <-]|[_ Hr']]%lookup_insert_Some; [|by apply Hexec].
    rewrite Hid, Hex. by apply Hexec.
  - intros e m id' Hm Hs. destruct (Htab _ _ _ Hm Hs) as (r & Hr & He).
    destruct (decide (id = id')) as [<-|].
    + exists req'. rewrite lookup_insert_eq. split; [done|]. congruence.
    + exists r. by rewrite lookup_insert_ne.
Qed.

(** [endRequest] on any id: the request is gone and its channel is handed over,
    still open and no longer reachable. *)
Lemma endRequest_spec p s id :
  SMOK s ->
  wp (endRequest p id) (fun ch s' => SMOK s' /\ ch = sm_subscribeCh s !! id /\
    sm_requests s' = delete id (sm_requests s) /\
    sm_subscribeCh s' = delete id (sm_subscribeCh s) /\
    sm_channels s' = sm_channels s /\ sm_now s' = sm_now s) s.
Proof.
  intros HS. unfold endRequest. wp_steps. destruct (sm_requests s !! id) as [req|] eqn:Hreq.
  - unfold setRequest. wp_steps.
    set (req' := req <| req_Phase := p |>).
    assert (HS' : SMOK (s <| sm_requests := <[id := req']> (sm_requests s) |>))
      by (by apply (smok_request s id req)).
    wp_use (deleteRequest_spec _ id req' HS'); [cbn; apply lookup_insert_eq|].
    intros _ s' (HS1 & Hr & Hs & Hc & Hn & _). cbn in Hr, Hs, Hc, Hn. wp_steps.
    rewrite delete_insert_eq in Hr. by ssplit.
  - wp_steps. assert (Hsub : sm_subscribeCh s !! id = None).
    { apply eq_None_not_Some. rewrite <- (so_dom _ HS), Hreq. by intros [? ?]. }
    cbn. rewrite Hsub. rewrite (delete_id (sm_subscribeCh s)) by done.
    rewrite (delete_id (sm_requests s)) by done. ssplit; try done. by destruct s.
Qed.

(** After a request ended, its channel belongs to nobody. *)
Lemma ended_channel s s' id ch :
  SMOK s -> sm_subscribeCh s !! id = Some ch -> sm_subscribeCh s' = delete id (sm_subscribeCh s) ->
  forall id', sm_subscribeCh s' !! id' <> Some ch.
Proof.
  intros HS Hch Hs id'. rewrite Hs. intros [Hne H]%lookup_delete_Some.
  by apply Hne, (so_inj _ HS _ _ ch).
Qed.

(** What ending a request leaves, with the events [evs] published last. *)
Definition ended (s s' : stateManager) (id : string) (evs : list Event) : Prop :=
  sm_requests s' = delete id (sm_requests s) /\
  sm_subscribeCh s' = delete id (sm_subscribeCh s) /\
  forall ch, sm_subscribeCh s !! id = Some ch -> exists c,
    sm_channels s !! ch = Some c /\ ch_closed c = false /\
    sm_channels s' = <[ch := mkChannel (ch_sent c ++ evs) true]> (sm_channels s).

Lemma closeOpt_spec p s id :
  SMOK s ->
  wp (ch ← endRequest p id; closeOpt ch) (fun _ s' => SMOK s' /\ ended s s' id []) s.
Proof.
  intros HS. wp_steps. wp_use (endRequest_spec p s id HS).
  intros ch s1 (HS1 & -> & Hr & Hs & Hc & _). unfold closeOpt.
  destruct (sm_subscribeCh s !! id) as [ch|] eqn:Hch.
  - destruct (so_open _ HS _ _ Hch) as (c & Hcc & Hopen).
    unfold closeCh. eapply wp_modO; [rewrite Hc, Hcc; cbn; by rewrite Hopen|]. split.
    + rewrite <- Hc. apply smok_channel; [done|right]. by apply (ended_channel s s1 id).
    + split; [done|]. split; [done|]. rewrite Hch. intros ch' [= <-]. exists c. ssplit; [done..|].
      cbn. rewrite app_nil_r. by destruct c.
  - wp_steps. split; [done|]. split; [done|]. split; [done|]. by rewrite Hch.
Qed.

Lemma failChannel_spec s s1 id err :
  SMOK s -> SMOK s1 -> sm_requests s1 = delete id (sm_requests s) ->
  sm_subscribeCh s1 = delete id (sm_subscribeCh s) -> sm_channels s1 = sm_channels s ->
  sm_now s1 = sm_now s ->
  wp (failChannel (sm_subscribeCh s !! id) id err) (fun _ s' => SMOK s' /\
    exists uuid, ended s s' id [failureEvent uuid id (sm_now s) err]) s1.
Proof.
  intros HS HS1 Hr Hs Hc Hn. unfold failChannel.
  destruct (sm_subscribeCh s !! id) as [ch|] eqn:Hch.
  - destruct (so_open _ HS _ _ Hch) as (c & Hcc & Hopen).
    unfold newUUID, now_, send, closeCh. wp_steps. cbn. rewrite Hn.
    eapply wp_modO; [cbn; rewrite Hc, Hcc; cbn; by rewrite Hopen|].
    eapply wp_modO; [cbn; rewrite lookup_insert_eq; cbn; by rewrite Hopen|]. split.
    + cbn. rewrite insert_insert_eq, <- Hc.
      exact (smok_channel (s1 <| sm_drawn := S (sm_drawn s1) |>) ch _ (smok_drawn s1 _ HS1)
        (or_intror (ended_channel s s1 id ch HS Hch Hs))).
    + exists (sm_uuids s1 (sm_drawn s1)). split; [done|]. split; [done|]. rewrite Hch.
      intros ch' [= <-]. exists c. ssplit; [done..|]. cbn. by rewrite insert_insert_eq.
  - wp_steps. split; [done|]. exists "". split; [done|]. split; [done|]. by rewrite Hch.
Qed.

Lemma Fail_spec s id err :
  SMOK s ->
  wp (Fail_ id err) (fun _ s' => SMOK s' /\
    exists uuid, ended s s' id [failureEvent uuid id (sm_now s) err]) s.
Proof.
  intros HS. unfold Fail_. wp_steps. wp_use (endRequest_spec RequestPhaseFailed s id HS).
  intros ch s1 (HS1 & -> & Hr & Hs & Hc & Hn). by apply failChannel_spec.
Qed.

Definition expired (s : stateManager) (req : Request) : bool :=
  negb (IsZero (req_Deadline req)) && (req_Deadline req <? sm_now s).

Lemma CanSchedule_spec s work :
  SMOK s ->
  wp (CanSchedule work) (fun ok s' => SMOK s' /\
    match sm_requests s !! wi_RequestId work with
    | None => ok = false /\ s' = s
    | Some req =>
        if expired s req then ok = false /\ exists uuid, ended s s' (wi_RequestId work)
          [failureEvent uuid (wi_RequestId work) (sm_now s) (New CodeRequestTimeout "request timeout")]
        else ok = negb (terminal (req_Phase req)) /\ s' = s
    end) s.
Proof.
  intros HS. unfold CanSchedule. wp_steps.
  destruct (sm_requests s !! wi_RequestId work) as [req|] eqn:Hreq; [|by wp_steps].
  fold (expired s req). destruct (expired s req); [|by wp_steps].
  unfold setRequest. wp_steps. set (req' := req <| req_Phase := RequestPhaseTimeout |>).
  assert (HS' : SMOK (s <| sm_requests := <[wi_RequestId work := req']> (sm_requests s) |>))
    by (by apply (smok_request s _ req)).
  wp_use (deleteRequest_spec _ (wi_RequestId work) req' HS'); [cbn; apply lookup_insert_eq|].
  intros _ s1 (HS1 & Hr & Hs & Hc & Hn & _). cbn in Hr, Hs, Hc, Hn.
  rewrite delete_insert_eq in Hr. wp_steps.
  wp_use (failChannel_spec s s1 (wi_RequestId work) (New CodeRequestTimeout "request timeout") HS HS1 Hr Hs Hc Hn).
  intros _ s2 (HS2 & uuid & He). wp_steps. ssplit; [done|done|by exists uuid].
Qed.

(** ** OnEvent *)

(** The executor reports at most the tokens the prompt has left. *)
Definition chunk_ok (e : Event) (req : Request) : Prop :=
  ev_Type e = EventTypePrefillChunk ->
  0 <= req_ComputedTokens req /\ 0 <= us_InputTokens (ev_Usage e) /\
  req_ComputedTokens req + us_InputTokens (ev_Usage e) <= req_PromptTokens req <= len (req_TokenIDs req) /\
  req_PromptTokens req < two32.

Lemma slice_some {A} (l : list A) lo hi : 0 <= lo <= hi -> hi <= len l ->
  slice l lo hi = Some (take (Z.to_nat (hi - lo)) (drop (Z.to_nat lo) l)).
Proof. intros. unfold slice. by rewrite !(proj2 (Z.ltb_ge _ _)) by lia. Qed.

Lemma transition_spec e req s :
  chunk_ok e req ->
  wp (transition e req) (fun r s' => exists n, s' = s <| sm_drawn := n |> /\
    req_RequestId r.1.2 = req_RequestId req /\ req_ExecutorID r.1.2 = req_ExecutorID req /\
    Forall (fun w => wi_RequestId w = ev_RequestId e /\ wi_ExecutorID w = req_ExecutorID req) r.1.1 /\
    ev_RequestId r.2 = ev_RequestId e) s.
Proof.
  intros Hok. unfold transition, now_, newUUID. wp_steps.
  destruct (ev_Type e) eqn:Ht.
  - destruct (Hok Ht) as (Hc & Hi & Hle & Hp). wp_steps.
    assert (Hcomp : req_ComputedTokens (afterPrefillChunk req e) =
      req_ComputedTokens req + us_InputTokens (ev_Usage e)) by (cbn; apply u32_small; lia).
    assert (Hprompt : req_PromptTokens (afterPrefillChunk req e) = req_PromptTokens req) by done.
    rewrite Hcomp, Hprompt.
    rewrite (u32_small (req_PromptTokens req - _)), (u32_small (_ + (_ - _))) by lia.
    eapply wp_getsO; [apply slice_some; cbn; lia|]. wp_steps.
    exists (S (sm_drawn s)). cbn. ssplit; try done. by constructor.
  - wp_steps. exists (S (sm_drawn s)). cbn. ssplit; try done. by constructor.
  - wp_steps. match goal with |- wp (if ?b then _ else _) _ _ => destruct b end.
    + wp_steps. exists (sm_drawn s). cbn. ssplit; try done; [by destruct s|by case_decide].
    + wp_steps. exists (S (sm_drawn s)). cbn. ssplit; try done. by constructor.
  - wp_steps. exists (sm_drawn s). cbn. ssplit; try done. by destruct s.
  - wp_steps. exists (sm_drawn s). cbn. ssplit; try done. by destruct s.
  - wp_steps. exists (sm_drawn s). cbn. ssplit; try done. by destruct s.
  - wp_steps. exists (sm_drawn s). cbn. ssplit; try done. by destruct s.
Qed.

(** [OnEvent] on a live request is its transition, stored and published. *)
Lemma OnEvent_live s e req items req' e' n ch c :
  sm_requests s !! ev_RequestId e = Some req ->
  sm_subscribeCh s !! ev_RequestId e = Some ch -> sm_channels s !! ch = Some c ->
  ch_closed c = false -> ev_RequestId e' = ev_RequestId e ->
  transition e req s = Some ((items, req', e'), s <| sm_drawn := n |>) ->
  OnEvent e s = Some ((items, e'), s <| sm_drawn := n |>
    <| sm_requests := <[ev_RequestId e := req']> (sm_requests s) |>
    <| sm_channels := <[ch := c <| ch_sent := ch_sent c ++ [e'] |>]> (sm_channels s) |>).
Proof.
  intros Hreq Hch Hc Hopen Hid Ht. unfold OnEvent, recordEvent, subscriber, publish, mbind, M_bind, getS.
  cbn. rewrite Hreq, Ht. cbn. rewrite Hid, Hch. unfold send, modO. cbn. rewrite Hc. cbn. rewrite Hopen. done.
Qed.

Lemma OnEvent_spec s e :
  SMOK s -> (forall req, sm_requests s !! ev_RequestId e = Some req -> chunk_ok e req) ->
  wp (OnEvent e) (fun r s' => SMOK s' /\ sm_registry s' = sm_registry s /\
    sm_subscribeCh s' = sm_subscribeCh s /\ sm_now s' = sm_now s /\
    match sm_requests s !! ev_RequestId e with
    | None => r = ([], e) /\ s' = s
    | Some req => exists req' n ch c,
        transition e req s = Some ((r.1, req', r.2), s <| sm_drawn := n |>) /\
        sm_requests s' = <[ev_RequestId e := req']> (sm_requests s) /\
        req_ExecutorID req' = req_ExecutorID req /\
        Forall (fun w => wi_RequestId w = ev_RequestId e /\ wi_ExecutorID w = req_ExecutorID req) r.1 /\
        sm_subscribeCh s !! ev_RequestId e = Some ch /\ sm_channels s !! ch = Some c /\
        sm_channels s' = <[ch := c <| ch_sent := ch_sent c ++ [r.2] |>]> (sm_channels s)
    end) s.
Proof.
  intros HS Hok. destruct (sm_requests s !! ev_RequestId e) as [req|] eqn:Hreq; cycle 1.
  { unfold OnEvent, recordEvent. wp_steps. rewrite Hreq. wp_steps. by ssplit. }
  pose proof (transition_spec e req s (Hok _ eq_refl)) as Ht.
  unfold wp in Ht. destruct (transition e req s) as [[[[items req'] e'] s1]|] eqn:Hrun; [|done].
  destruct Ht as (n & -> & Hid & Hex & Hall & Hev). cbn [fst snd] in *.
  destruct (proj1 (so_dom _ HS (ev_RequestId e))) as [ch Hch]; [rewrite Hreq; eauto|].
  destruct (so_open _ HS _ _ Hch) as (c & Hc & Hopen).
  unfold wp. rewrite (OnEvent_live s e req items req' e' n ch c) by done. cbn [fst snd].
  split; [|ssplit; try done].
  - set (s1 := s <| sm_drawn := n |> <| sm_requests := <[ev_RequestId e := req']> (sm_requests s) |>).
    assert (HS1 : SMOK s1)
      by exact (smok_request (s <| sm_drawn := n |>) (ev_RequestId e) req req' (smok_drawn s n HS) Hreq Hid Hex).
    set (c' := c <| ch_sent := ch_sent c ++ [e'] |>).
    exact (smok_channel s1 ch c' HS1 (or_introl Hopen)).
  - exists req', n, ch, c. by ssplit.
Qed.

(** ** Create *)

(** Room for the references of one more request. *)
Definition room (r : registry) (req : Request) : Prop :=
  len (req_TokenIDs req) < two32 /\
  forall e m, r_managers r !! e = Some m ->
    len (refs_of m (pinsOf e (r_pendingTransfers r))) + len (req_TokenIDs req) / m_blockSize m < two32.

(** The executor [Create] binds a request to. *)
Definition bound_executor (r : registry) (req : Request) : option string :=
  if String.eqb (req_ExecutorID req) ""
  then match r_executorIDs r with [e] => Some e | _ => None end
  else Some (req_ExecutorID req).

Lemma smok_forget_new s id req :
  sm_requests s !! id = None -> sm_subscribeCh s !! id = None ->
  delete id (<[id := req]> (sm_requests s)) = sm_requests s.
Proof. intros. by apply delete_insert_id. Qed.

Lemma smok_new_channel s c : SMOK s ->
  SMOK (s <| sm_channels := <[fresh (dom (sm_channels s)) := c]> (sm_channels s) |>).
Proof.
  intros HS. apply smok_channel; [done|right]. intros id Hid.
  destruct (so_open _ HS _ _ Hid) as (c' & Hc' & _).
  apply (is_fresh (dom (sm_channels s))). apply elem_of_dom. eauto.
Qed.

(** What a successful [Create] returns and records. *)
Definition created (s s' : stateManager) (req : Request) (e : string) (pm : PrefixMatch)
    (w : WorkItem) : Prop :=
  let id := req_RequestId req in
  let n := len (req_TokenIDs req) in
  exists m m' ids,
    r_managers (sm_registry s) !! e = Some m /\
    r_managers (sm_registry s') = <[e := m']> (r_managers (sm_registry s)) /\
    m_requestBlocks m' = <[id := ids]> (m_requestBlocks m) /\
    pm_BlockIDs pm = ids /\ pm_CachedTokens pm = len ids * m_blockSize m /\
    0 <= pm_CachedTokens pm /\ (0 < n -> pm_CachedTokens pm < n) /\
    sm_requests s' = <[id := req <| req_Phase := RequestPhasePrefillReady |>
      <| req_ExecutorID := e |> <| req_Cache := Some pm |>
      <| req_ComputedTokens := pm_CachedTokens pm |>]> (sm_requests s) /\
    wi_RequestId w = id /\ wi_ExecutorID w = e /\ wi_Cache w = Some pm /\
    wi_PrefillOffset w = pm_CachedTokens pm /\
    wi_TokenIDs w = drop (Z.to_nat (pm_CachedTokens pm)) (req_TokenIDs req) /\
    wi_TokenCntTotal w = n /\ wi_GeneratedTokens w = 0 /\
    wi_MaxTokens w = req_MaxTokens req /\
    (if req_PromptTokens req <=? pm_CachedTokens pm
     then wi_Phase w = WorkPhaseDecode /\ wi_NumNewTokens w = 1
     else wi_Phase w = WorkPhasePrefill /\
          wi_NumNewTokens w = req_PromptTokens req -u pm_CachedTokens pm).

Lemma RegMatchPrefix_spec r req e m :
  RegOK r -> req_ExecutorID req = e -> r_managers r !! e = Some m ->
  m_requestBlocks m !! req_RequestId req = None -> room r req ->
  wp (RegMatchPrefix req) (fun res r' => exists pm m' ids, RegOK r' /\
    res = inr (pm, req <| req_Cache := Some pm |>) /\
    r_managers r' = <[e := m']> (r_managers r) /\ r_pendingTransfers r' = r_pendingTransfers r /\
    r_executorIDs r' = r_executorIDs r /\
    m_requestBlocks m' = <[req_RequestId req := ids]> (m_requestBlocks m) /\
    pm_BlockIDs pm = ids /\ pm_CachedTokens pm = len ids * m_blockSize m /\
    0 <= pm_CachedTokens pm /\
    (0 < len (req_TokenIDs req) -> pm_CachedTokens pm < len (req_TokenIDs req)) /\
    pm_CachedTokens pm <= len (req_TokenIDs req)) r.
Proof.
  intros HR <- Hm Hf [Htok Hroom]. unfold RegMatchPrefix. eapply wp_withManager; [exact Hm|].
  pose proof (Hroom _ _ Hm) as Hs. pose proof (rg_managers _ HR _ _ Hm) as [p HI].
  set (pins := pinsOf (req_ExecutorID req) (r_pendingTransfers r)) in *.
  pose proof (inv_bs _ _ _ HI) as Hbs.
  eapply wp_mono; [apply wp_and; [apply (MatchPrefix_inv _ _ _ _ HI Hf Htok Hs)|
    apply (regok_request r _ m (OpMatchPrefix req) (MatchPrefix req) HR Hm eq_refl); [done|done]]|].
  cbn beta zeta. intros res m' [(-> & Hrb & _) HR'].
  set (hs := hashChain _ _) in *. set (hm := take _ hs) in *. set (ids := cachedPrefix _ hm) in *.
  pose proof (matchable_bounds (m_blockSize m) (len (req_TokenIDs req)) ltac:(lia) (len_nonneg _)) as [Hmb Hmn].
  assert (Hids : len ids <= matchable (m_blockSize m) (len (req_TokenIDs req))).
  { pose proof (cachedPrefix_len (m_cachedBlocks m) hm) as Hl. fold ids in Hl.
    unfold hm, len at 2 in Hl. rewrite length_take in Hl. lia. }
  pose proof (len_nonneg ids) as Hi0. pose proof (Z.mul_div_le (len (req_TokenIDs req)) (m_blockSize m)).
  eexists _, m', ids. split; [exact HR'|]. split; [reflexivity|].
  cbn [pm_BlockIDs pm_CachedTokens r_managers r_pendingTransfers r_executorIDs setf].
  ssplit; try done.
  - nia.
  - intros Hn. specialize (Hmn Hn). nia.
  - nia.
Qed.

Lemma bound_executor_code r req :
  String.eqb (req_ExecutorID req) "" && negb (len (r_executorIDs r) =? 1) = true <->
  bound_executor r req = None.
Proof.
  unfold bound_executor. destruct (String.eqb (req_ExecutorID req) ""); cbn [andb]; [|done].
  destruct (r_executorIDs r) as [|e [|e' l]]; [done..|]. rewrite !len_cons.
  pose proof (len_nonneg l). rewrite (proj2 (Z.eqb_neq _ 1)) by lia. done.
Qed.

(** A [Create] that returned an error left no trace of the request. *)
Definition refused (s s' : stateManager) : Prop :=
  sm_requests s' = sm_requests s /\ sm_subscribeCh s' = sm_subscribeCh s /\
  sm_registry s' = sm_registry s /\ sm_activeRequests s' = sm_activeRequests s.

Lemma smok_refused s ch c :
  SMOK s -> ch = fresh (dom (sm_channels s)) ->
  SMOK (s <| sm_channels := <[ch := c]> (sm_channels s) |>).
Proof. intros HS ->. by apply smok_new_channel. Qed.

Lemma smok_created s s' req e pm w :
  SMOK s -> sm_requests s !! req_RequestId req = None ->
  created s s' req e pm w -> RegOK (sm_registry s') ->
  sm_subscribeCh s' = <[req_RequestId req := fresh (dom (sm_channels s))]> (sm_subscribeCh s) ->
  sm_channels s' = <[fresh (dom (sm_channels s)) := mkChannel [] false]> (sm_channels s) ->
  sm_activeRequests s' = sm_activeRequests s + 1 ->
  SMOK s'.
Proof.
  intros HS Hnew (m & m' & ids & Hm & Hms & Hrb & _ & _ & _ & _ & Hreqs & _) HR Hsub Hch Hact.
  assert (Hfresh : forall id ch, sm_subscribeCh s !! id = Some ch -> ch <> fresh (dom (sm_channels s))).
  { intros id ch Hid ->. destruct (so_open _ HS _ _ Hid) as (c' & Hc' & _).
    apply (is_fresh (dom (sm_channels s))). apply elem_of_dom. eauto. }
  split.
  - done.
  - intros id. rewrite Hreqs, Hsub, !lookup_insert_is_Some, (so_dom _ HS). done.
  - intros id ch. rewrite Hsub, Hch. intros [[<- <-]|[Hne Hid]]%lookup_insert_Some.
    + eexists. split; [apply lookup_insert_eq|done].
    + destruct (so_open _ HS _ _ Hid) as (c & Hc & Ho). exists c. split; [|done].
      rewrite lookup_insert_ne; [done|]. symmetry. by eapply Hfresh.
  - intros id1 id2 ch. rewrite Hsub.
    intros [[<- <-]|[_ H1]]%lookup_insert_Some [[<- E]|[_ H2]]%lookup_insert_Some; try done.
    + by destruct (Hfresh _ _ H2).
    + destruct (Hfresh _ _ H1). congruence.
    + by eapply (so_inj _ HS).
  - rewrite Hact, Hreqs, (so_active _ HS), map_size_insert_None by done. lia.
  - intros id r. rewrite Hreqs, Hms. intros [[<- <-]|[_ Hid]]%lookup_insert_Some.
    + split; [done|]. cbn. rewrite lookup_insert_eq. eauto.
    + destruct (so_exec _ HS _ _ Hid) as [? [m1 Hm1]]. split; [done|].
      destruct (decide (e = req_ExecutorID r)) as [->|];
        [rewrite lookup_insert_eq|rewrite lookup_insert_ne by done]; eauto.
  - intros e1 m1 id. rewrite Hms, Hreqs. intros [[<- <-]|[_ Hm1]]%lookup_insert_Some Hs.
    + rewrite Hrb in Hs. destruct (decide (req_RequestId req = id)) as [<-|Hne].
      * eexists. split; [apply lookup_insert_eq|done].
      * rewrite lookup_insert_ne in Hs by done. destruct (so_tables _ HS _ _ _ Hm Hs) as (r & Hr & He).
        exists r. by rewrite lookup_insert_ne.
    + destruct (so_tables _ HS _ _ _ Hm1 Hs) as (r & Hr & He). exists r.
      rewrite lookup_insert_ne; [done|]. congruence.
Qed.

Lemma Create_spec s req :
  SMOK s -> room (sm_registry s) req ->
  wp (Create req) (fun res s' => SMOK s' /\
    match res with
    | inl _ => refused s s' /\ (is_Some (sm_requests s !! req_RequestId req) \/
        forall e, bound_executor (sm_registry s) req = Some e -> r_managers (sm_registry s) !! e = None)
    | inr w => sm_requests s !! req_RequestId req = None /\
        exists e pm, bound_executor (sm_registry s) req = Some e /\ created s s' req e pm w /\
          sm_activeRequests s' = sm_activeRequests s + 1 /\
          exists ch, sm_subscribeCh s' = <[req_RequestId req := ch]> (sm_subscribeCh s) /\
            sm_channels s' !! ch = Some (mkChannel [] false)
    end) s.
Proof.
  intros HS Hroom. unfold Create. wp_steps.
  destruct (sm_requests s !! req_RequestId req) as [old|] eqn:Hnew.
  { wp_steps. split; [done|]. split; [done|]. left. eauto. }
  assert (Hnsub : sm_subscribeCh s !! req_RequestId req = None).
  { apply eq_None_not_Some. rewrite <- (so_dom _ HS), Hnew. by intros [? ?]. }
  unfold setRequest, makeCh. wp_steps. cbn. set (ch := fresh (dom (sm_channels s))).
  unfold ExecutorIDs.
  destruct (String.eqb (req_ExecutorID req) "" && negb (len (r_executorIDs (sm_registry s)) =? 1)) eqn:Hcond.
  { apply bound_executor_code in Hcond. unfold forget. wp_steps. cbn.
    rewrite !delete_insert_id by done. split; [|split].
    - exact (smok_channel s ch (mkChannel [] false) HS (or_introl eq_refl)).
    - done.
    - right. intros e. by rewrite Hcond. }
  assert (Hb : exists e, bound_executor (sm_registry s) req = Some e).
  { destruct (bound_executor (sm_registry s) req) as [e|] eqn:E; [eauto|].
    apply bound_executor_code in E. congruence. }
  destruct Hb as [e Hb].
  wp_steps. eapply (wp_getsO _ e).
  { unfold bound_executor in Hb. destruct (String.eqb (req_ExecutorID req) ""); [|done].
    destruct (r_executorIDs (sm_registry s)) as [|? [|? ?]]; try done. }
  set (req1 := req <| req_Phase := RequestPhasePrefillReady |> <| req_ExecutorID := e |>).
  wp_steps. apply wp_onRegistry. cbn [sm_registry setf].
  destruct (r_managers (sm_registry s) !! e) as [m|] eqn:Hm; cycle 1.
  { unfold RegMatchPrefix, withManager. wp_steps. cbn. rewrite Hm. unfold forget. wp_steps. cbn.
    rewrite insert_insert_eq, !delete_insert_id by done. split; [|split].
    - exact (smok_channel s ch (mkChannel [] false) HS (or_introl eq_refl)).
    - done.
    - right. intros e'. rewrite Hb. by intros [= <-]. }
  assert (Hnt : m_requestBlocks m !! req_RequestId req1 = None).
  { apply eq_None_not_Some. intros Hs. destruct (so_tables _ HS _ _ _ Hm Hs) as (r & Hr & _).
    cbn in Hr. congruence. }
  wp_use (RegMatchPrefix_spec (sm_registry s) req1 e m (so_reg _ HS) eq_refl Hm Hnt Hroom).
  intros res r' (pm & m' & ids & HR' & -> & Hms & Hp & Hex & Hrb & Hids & Hct & Hc0 & Hclt & Hcle).
  unfold increaseActiveRequestAndCacheHit, sm_metric, now_, newUUID. wp_steps. cbn.
  eapply (wp_mono _ (fun _ s' => exists l, s' = s
    <| sm_requests := <[req_RequestId req := req1 <| req_Cache := Some pm |>
         <| req_ComputedTokens := pm_CachedTokens pm |>]> (sm_requests s) |>
    <| sm_channels := <[ch := mkChannel [] false]> (sm_channels s) |>
    <| sm_subscribeCh := <[req_RequestId req := ch]> (sm_subscribeCh s) |>
    <| sm_registry := r' |> <| sm_activeRequests := sm_activeRequests s + 1 |> <| sm_metrics := l |>)).
  { destruct (pm_Hit pm); wp_steps; eexists; cbn; by rewrite !insert_insert_eq. }
  intros _ s1 (l & ->). wp_steps. eapply wp_getsO.
  { apply slice_some; [split; [done|exact Hcle]|lia]. }
  wp_steps. cbn.
  set (s2 := s <| sm_requests := _ |> <| sm_channels := _ |> <| sm_subscribeCh := _ |>
    <| sm_registry := _ |> <| sm_activeRequests := _ |> <| sm_metrics := _ |> <| sm_drawn := _ |>).
  match goal with |- _ /\ _ /\ exists e0 pm0, _ = Some e0 /\ created _ _ _ e0 pm0 ?w /\ _ => set (w0 := w) end.
  assert (HC : created s s2 req e pm w0).
  { exists m, m', ids. ssplit; try done; cbn [w0 wi_TokenIDs wi_TokenCntTotal wi_Phase wi_NumNewTokens].
    - apply firstn_all2. rewrite length_drop. cbn in Hcle. unfold len in *. cbn. lia.
    - apply u32_small. split; [apply len_nonneg|]. apply Hroom.
    - cbn. by case_match. }
  split; [by eapply (smok_created s s2 req e pm w0)|]. split; [done|].
  exists e, pm. ssplit; [done|done|done|]. exists ch. split; [done|]. cbn. apply lookup_insert_eq.
Qed.
