(* ===== verification/RequestProperties.v ===== *)
(** * RequestProperties: what the request manager guarantees
    (internal/state/state_machine.go)

    The request manager as a transition system and the theorems about the life
    of a request: creation, events, expiry, cancellation and failure. *)

From S2P Require Import Prelude Errors Model Metrics FreeQueue BlockManager BlockProperties BlockRegistry StateMachine.
Inductive SMOp :=
| SMCreate (req : Request)
| SMCanSchedule (work : WorkItem)
| SMOnEvent (e : Event)
| SMCancel (id : string)
| SMFail (id : string) (err : error)
| SMFinish (id : string).

Definition run_sm (o : SMOp) : M stateManager unit :=
  match o with
  | SMCreate req => Create req ;; mret tt
  | SMCanSchedule work => CanSchedule work ;; mret tt
  | SMOnEvent e => OnEvent e ;; mret tt
  | SMCancel id => Cancel id
  | SMFail id err => Fail_ id err
  | SMFinish id => Finish id
  end.

(** What the callers guarantee: room for a request's references, and an executor
    that reports at most the tokens a prompt has left. *)
Definition sm_enabled (o : SMOp) (s : stateManager) : Prop :=
  match o with
  | SMCreate req => room (sm_registry s) req
  | SMOnEvent e => forall req, sm_requests s !! ev_RequestId e = Some req -> chunk_ok e req
  | _ => True
  end.

(** One operation, at a clock that only moves between operations. *)
Inductive sm_step : stateManager -> stateManager -> Prop :=
| sm_step_op o s s' : sm_enabled o s -> run_sm o s = Some (tt, s') -> sm_step s s'
| sm_step_clock s t : sm_step s (s <| sm_now := t |>).

Lemma smok_now s t : SMOK s -> SMOK (s <| sm_now := t |>).
Proof. intros []. by split. Qed.

Lemma run_sm_ok o s : SMOK s -> sm_enabled o s -> wp (run_sm o) (fun _ s' => SMOK s') s.
Proof.
  intros HS Hen. destruct o; cbn [run_sm sm_enabled] in *.
  - wp_steps. wp_use (Create_spec s req HS Hen). intros res s' [HS' _]. by wp_steps.
  - wp_steps. wp_use (CanSchedule_spec s work HS). intros ok s' [HS' _]. by wp_steps.
  - wp_steps. wp_use (OnEvent_spec s e HS Hen). intros res s' [HS' _]. by wp_steps.
  - wp_use (closeOpt_spec RequestPhaseCanceled s id HS). by intros _ s' [HS' _].
  - wp_use (Fail_spec s id err HS). by intros _ s' [HS' _].
  - wp_use (closeOpt_spec RequestPhaseFinished s id HS). by intros _ s' [HS' _].
Qed.

Lemma new_smok reg now uuids :
  RegOK reg -> (forall e m, r_managers reg !! e = Some m -> m_requestBlocks m = ∅) ->
  SMOK (NewRequestLifecycleStateManager reg now uuids).
Proof.
  intros HR He. split; cbn.
  - done.
  - intros id. rewrite !lookup_empty. done.
  - intros id ch. by rewrite lookup_empty.
  - intros id1 id2 ch. by rewrite lookup_empty.
  - by rewrite map_size_empty.
  - intros id req. by rewrite lookup_empty.
  - intros e m id Hm. rewrite (He _ _ Hm), lookup_empty. by intros [? ?].
Qed.

(** C2: In every state the request manager reaches from an empty one, live
    requests and open channels correspond one to one, [activeRequests] counts
    the live requests, every live request is bound to a registered executor,
    only live requests own KV blocks and only on their executor (no operation
    leaks a block table), and the block registry is consistent.  No enabled
    operation panics: no send on a closed channel, no channel closed twice. *)
Theorem request_manager_invariant reg now uuids s
  (Hreg : RegOK reg) (Hempty : forall e m, r_managers reg !! e = Some m -> m_requestBlocks m = ∅)
  (Hreach : rtc sm_step (NewRequestLifecycleStateManager reg now uuids) s) :
  RegOK (sm_registry s) /\
  sm_activeRequests s = Z.of_nat (size (sm_requests s)) /\
  (forall id, is_Some (sm_requests s !! id) <-> exists ch c, sm_subscribeCh s !! id = Some ch /\
     sm_channels s !! ch = Some c /\ ch_closed c = false) /\
  (forall id1 id2 ch, sm_subscribeCh s !! id1 = Some ch -> sm_subscribeCh s !! id2 = Some ch -> id1 = id2) /\
  (forall id req, sm_requests s !! id = Some req -> req_RequestId req = id /\
     is_Some (r_managers (sm_registry s) !! req_ExecutorID req)) /\
  (forall e m id, r_managers (sm_registry s) !! e = Some m -> is_Some (m_requestBlocks m !! id) ->
     exists req, sm_requests s !! id = Some req /\ req_ExecutorID req = e) /\
  (forall o, sm_enabled o s -> exists s', run_sm o s = Some (tt, s')).
Proof.
  assert (HS : SMOK s).
  { pose proof (new_smok reg now uuids Hreg Hempty) as H0. revert H0.
    induction Hreach as [|s0 s1 s2 Hst _ IH]; [done|]. intros H0. apply IH.
    destruct Hst as [o s0 s1 Hen Hrun|s0 t]; [|by apply smok_now].
    pose proof (run_sm_ok o s0 H0 Hen) as Hw. unfold wp in Hw. by rewrite Hrun in Hw. }
  ssplit; try apply HS.
  - intros id. rewrite (so_dom _ HS). split.
    + intros [ch Hch]. destruct (so_open _ HS _ _ Hch) as (c & ? & ?). eauto.
    + intros (ch & c & ? & _). eauto.
  - intros o Hen. pose proof (run_sm_ok o s HS Hen) as ([] & s' & Hr & _)%wp_run. eauto.
Qed.

(** C26: [Create] of a new request on an executor starts it with exactly the work
    the cache does not cover: a prefill of the tokens after the cached prefix,
    at least one for a non-empty prompt, with the prefix match and the executor
    in the work item; the request is recorded with as many computed tokens, a
    fresh empty channel is subscribed and the active count grows by one.  A
    refused [Create] leaves requests, channels, blocks and count as they were. *)
Theorem create_starts_prefill s req
  (HS : SMOK s) (Hroom : room (sm_registry s) req)
  (Hprompt : req_PromptTokens req = len (req_TokenIDs req)) (Hpos : 0 < len (req_TokenIDs req)) :
  wp (Create req) (fun res s' =>
    match res with
    | inl _ => refused s s' /\ (is_Some (sm_requests s !! req_RequestId req) \/
        forall e, bound_executor (sm_registry s) req = Some e -> r_managers (sm_registry s) !! e = None)
    | inr w => exists e pm req',
        bound_executor (sm_registry s) req = Some e /\
        wi_Phase w = WorkPhasePrefill /\ wi_RequestId w = req_RequestId req /\ wi_ExecutorID w = e /\
        wi_Cache w = Some pm /\ wi_PrefillOffset w = pm_CachedTokens pm /\
        wi_TokenIDs w = drop (Z.to_nat (pm_CachedTokens pm)) (req_TokenIDs req) /\
        0 < wi_NumNewTokens w /\ wi_NumNewTokens w = len (wi_TokenIDs w) /\
        wi_PrefillOffset w + wi_NumNewTokens w = wi_TokenCntTotal w /\
        wi_TokenCntTotal w = req_PromptTokens req /\
        sm_requests s' = <[req_RequestId req := req']> (sm_requests s) /\
        req_ComputedTokens req' = pm_CachedTokens pm /\ req_ExecutorID req' = e /\
        req_Cache req' = Some pm /\ req_TokenIDs req' = req_TokenIDs req /\
        sm_activeRequests s' = sm_activeRequests s + 1 /\
        exists ch, sm_subscribeCh s' = <[req_RequestId req := ch]> (sm_subscribeCh s) /\
          sm_channels s' !! ch = Some (mkChannel [] false)
    end) s.
Proof.
  wp_use (Create_spec s req HS Hroom). intros [err|w] s' [_ H]; [done|].
  destruct H as (_ & e & pm & Hb & (m & m' & ids & _ & _ & _ & _ & _ & Hc0 & Hlt & Hreq &
    Hid & Hex & Hca & Hoff & Htok & Htot & _ & _ & Hph) & Hact & Hch).
  specialize (Hlt Hpos). rewrite (proj2 (Z.leb_gt _ _)) in Hph by lia. destruct Hph as [Hph Hnew].
  rewrite u32_small in Hnew by (destruct Hroom; lia).
  eexists e, pm, _. ssplit; try done; try lia.
  rewrite Htok, Hnew, Hprompt. unfold len in *. rewrite length_drop. lia.
Qed.

(** C29: Cancelling, finishing or failing a request ends it for good: it is no
    longer live, no manager keeps a block table for it, and its channel is
    closed; [Fail] first publishes exactly one event, a failure with the error
    and [Done] set, and the other two publish nothing.  Other requests, their
    channels and the metrics of the count are untouched apart from the count. *)
Theorem request_end s id err (HS : SMOK s) :
  let gone (evs : string -> list Event) (s' : stateManager) :=
    sm_requests s' = delete id (sm_requests s) /\
    sm_subscribeCh s' = delete id (sm_subscribeCh s) /\
    (forall e m, r_managers (sm_registry s') !! e = Some m -> m_requestBlocks m !! id = None) /\
    sm_activeRequests s' = sm_activeRequests s - (if sm_requests s !! id then 1 else 0) /\
    exists uuid, forall ch, sm_subscribeCh s !! id = Some ch -> exists c,
      sm_channels s !! ch = Some c /\
      sm_channels s' = <[ch := mkChannel (ch_sent c ++ evs uuid) true]> (sm_channels s) in
  wp (Cancel id) (fun _ s' => gone (fun _ => []) s') s /\
  wp (Finish id) (fun _ s' => gone (fun _ => []) s') s /\
  wp (Fail_ id err) (fun _ s' => gone (fun uuid => [failureEvent uuid id (sm_now s) err]) s') s.
Proof.
  intros gone.
  assert (H : forall evs s' uuid, SMOK s' -> ended s s' id (evs uuid) -> gone evs s').
  { intros evs s' uuid HS' (Hr & Hs & Hc). split; [done|]. split; [done|]. split; [|split].
    - intros e m Hm. apply eq_None_not_Some. intros Hsome.
      destruct (so_tables _ HS' _ _ _ Hm Hsome) as (req & Hreq & _).
      rewrite Hr in Hreq. by rewrite lookup_delete_eq in Hreq.
    - rewrite (so_active _ HS'), (so_active _ HS), Hr, map_size_delete.
      destruct (sm_requests s !! id) eqn:E; cbn; [|lia].
      assert (size (sm_requests s) <> 0%nat); [|lia].
      intros E0%map_size_empty_inv. by rewrite E0, lookup_empty in E.
    - exists uuid. intros ch Hch. destruct (Hc ch Hch) as (c & Hcc & _ & Hcs). by exists c. }
  split; [|split].
  - wp_use (closeOpt_spec RequestPhaseCanceled s id HS). intros _ s' [HS' He]. by apply (H _ s' "").
  - wp_use (closeOpt_spec RequestPhaseFinished s id HS). intros _ s' [HS' He]. by apply (H _ s' "").
  - wp_use (Fail_spec s id err HS). intros _ s' [HS' (uuid & He)]. by apply (H _ s' uuid).
Qed.
