(* ===== verification/RequestRuns.v ===== *)
(** * RequestRuns: whole runs of a request (internal/state/state_machine.go)

    The executor answers every work item with an event and [OnEvent] answers
    every event with the next item.  The theorems follow a request over any
    number of events: a chunked prefill covers its prompt, generation stops at
    the token limit, late events change nothing. *)

From S2P Require Import Prelude Errors Model Metrics FreeQueue BlockManager BlockProperties BlockRegistry StateMachine.
(** The events handed to [OnEvent] one after the other, with its answers. *)
Fixpoint feed (es : list Event) : M stateManager (list (list WorkItem * Event)) :=
  match es with
  | [] => mret []
  | e :: es => r ← OnEvent e; rs ← feed es; mret (r :: rs)
  end.

(** [rs] is what the subscriber of [id] received, in order. *)
Definition published (s s' : stateManager) (id : string) (rs : list (list WorkItem * Event)) : Prop :=
  sm_subscribeCh s' = sm_subscribeCh s /\
  exists ch c, sm_subscribeCh s !! id = Some ch /\ sm_channels s !! ch = Some c /\
    sm_channels s' = <[ch := c <| ch_sent := ch_sent c ++ rs.*2 |>]> (sm_channels s).

Lemma published_nil s id : SMOK s -> is_Some (sm_requests s !! id) -> published s s id [].
Proof.
  intros HS [ch Hch]%(so_dom _ HS). destruct (so_open _ HS _ _ Hch) as (c & Hc & _).
  split; [done|]. exists ch, c. ssplit; try done. cbn. rewrite app_nil_r, insert_id; [done|].
  rewrite Hc. by destruct c.
Qed.

Lemma published_trans s s1 s2 id rs1 rs2 :
  published s s1 id rs1 -> published s1 s2 id rs2 -> published s s2 id (rs1 ++ rs2).
Proof.
  intros [H1 (ch & c & Hch & Hc & Hs1)] [H2 (ch' & c' & Hch' & Hc' & Hs2)].
  split; [congruence|]. exists ch, c. ssplit; try done.
  rewrite H1, Hch in Hch'. injection Hch' as <-. rewrite Hs1, lookup_insert_eq in Hc'.
  injection Hc' as <-. rewrite Hs2, Hs1, insert_insert_eq. f_equal.
  unfold setf. cbn. by rewrite <- app_assoc, fmap_app.
Qed.

(** One event of a live request, as its transition. *)
Lemma OnEvent_step s e req :
  SMOK s -> sm_requests s !! ev_RequestId e = Some req -> chunk_ok e req ->
  wp (OnEvent e) (fun r s' => SMOK s' /\ published s s' (ev_RequestId e) [r] /\
    exists req' n, transition e req s = Some ((r.1, req', r.2), s <| sm_drawn := n |>) /\
      sm_requests s' = <[ev_RequestId e := req']> (sm_requests s)) s.
Proof.
  intros HS Hreq Hok. eapply wp_mono; [apply (OnEvent_spec s e HS)|].
  { intros r Hr. rewrite Hreq in Hr. by injection Hr as <-. }
  cbn beta. rewrite Hreq.
  intros r s' (HS' & _ & Hsub & _ & req' & n & ch & c & Ht & Hr & _ & _ & Hch & Hc & Hcs).
  split; [done|]. split; [split; [done|]; by exists ch, c|]. by exists req', n.
Qed.

(** ** Chunked prefill *)

Definition prefill_chunk (id : string) (e : Event) : Prop :=
  ev_RequestId e = id /\ ev_Type e = EventTypePrefillChunk /\ 0 <= us_InputTokens (ev_Usage e).

Definition inputs (es : list Event) : Z := zsum (fun e => us_InputTokens (ev_Usage e)) es.

Lemma transition_prefill_chunk e req s :
  ev_Type e = EventTypePrefillChunk -> chunk_ok e req ->
  let off := req_ComputedTokens req + us_InputTokens (ev_Usage e) in
  let req' := afterPrefillChunk req e in
  req_ComputedTokens req' = off /\
  transition e req s = Some (([prefillItem req' (sm_uuids s (sm_drawn s)) (ev_RequestId e) (sm_now s)
    off (req_PromptTokens req - off)
    (drop (Z.to_nat off) (take (Z.to_nat (req_PromptTokens req)) (req_TokenIDs req)))],
    req', setUsage e req'), s <| sm_drawn := S (sm_drawn s) |>).
Proof.
  intros Ht Hok off req'. destruct (Hok Ht) as (Hc & Hi & Hle & Hp).
  assert (Hoff : req_ComputedTokens req' = off) by (cbn; apply u32_small; lia).
  split; [done|]. unfold transition, now_, newUUID, mbind, M_bind, getS, getsO, modS. cbn.
  rewrite Ht. cbn. change (u32 (_ + us_InputTokens _)) with (req_ComputedTokens req').
  rewrite Hoff, (u32_small (req_PromptTokens req - off)), (u32_small (off + _)) by lia.
  replace (off + (req_PromptTokens req - off)) with (req_PromptTokens req) by lia.
  rewrite slice_some, take_drop_commute by lia.
  by replace (_ + _)%nat with (Z.to_nat (req_PromptTokens req)) by lia.
Qed.

(** C27: A chunked prefill covers the prompt.  However the executor cuts it into
    chunks, as long as they fit the prompt, every chunk event is answered by
    exactly one prefill item for exactly the tokens of the prompt not computed
    yet, its offset the number computed so far; the subscriber receives every
    event, in order, its usage showing that number; the request has computed the
    sum of the chunks at the end. *)
Theorem chunked_prefill_covers s id req es
  (HS : SMOK s) (Hreq : sm_requests s !! id = Some req) (Hes : Forall (prefill_chunk id) es)
  (Hcomp : 0 <= req_ComputedTokens req)
  (Hfit : req_ComputedTokens req + inputs es <= req_PromptTokens req)
  (Hprompt : req_PromptTokens req <= len (req_TokenIDs req)) (Hwidth : req_PromptTokens req < two32) :
  wp (feed es) (fun rs s' => published s s' id rs /\ length rs = length es /\
    (exists req', sm_requests s' = <[id := req']> (sm_requests s) /\
       req_ComputedTokens req' = req_ComputedTokens req + inputs es /\
       req_PromptTokens req' = req_PromptTokens req /\ req_TokenIDs req' = req_TokenIDs req) /\
    forall i r, rs !! i = Some r ->
      let off := req_ComputedTokens req + inputs (take (S i) es) in
      us_InputTokens (ev_Usage r.2) = off /\
      exists w, r.1 = [w] /\ wi_Phase w = WorkPhasePrefill /\ wi_RequestId w = id /\
        wi_PrefillOffset w = off /\ wi_NumNewTokens w = req_PromptTokens req - off /\
        wi_TokenIDs w = drop (Z.to_nat off) (take (Z.to_nat (req_PromptTokens req)) (req_TokenIDs req))) s.
Proof.
  revert s req HS Hreq Hcomp Hfit Hprompt Hwidth.
  induction Hes as [|e es (<- & Ht & Hin) Hes IH]; intros s req HS Hreq Hcomp Hfit Hprompt Hwidth; cbn [feed].
  { wp_steps. split; [by apply published_nil|]. split; [done|]. split; [|done].
    exists req. rewrite insert_id by done. ssplit; try done. unfold inputs. cbn. lia. }
  unfold inputs in Hfit. cbn [zsum] in Hfit. fold (inputs es) in Hfit.
  assert (0 <= inputs es).
  { apply zsum_nonneg. eapply Forall_impl; [exact Hes|]. by intros e' (_ & _ & ?). }
  assert (Hok : chunk_ok e req) by (intros _; lia).
  destruct (transition_prefill_chunk e req s Ht Hok) as [Hoff Hrun].
  wp_steps. wp_use (OnEvent_step s e req HS Hreq Hok).
  intros r s1 (HS1 & Hpub & req1 & n & Hrun' & Hr1). rewrite Hrun in Hrun'.
  injection Hrun' as Hw <- He _.
  wp_steps. eapply wp_mono; [apply (IH s1 (afterPrefillChunk req e) HS1)|cbn beta zeta].
  - rewrite Hr1. apply lookup_insert_eq.
  - lia.
  - rewrite Hoff. change (req_PromptTokens (afterPrefillChunk req e)) with (req_PromptTokens req). lia.
  - done.
  - done.
  - intros rs s2 (Hpub2 & Hlen & (req2 & Hr2 & Hc2 & Hp2 & Ht2) & Hall). wp_steps.
    split; [by apply (published_trans s s1 s2 _ [r] rs)|]. split; [by cbn; f_equal|]. split.
    { exists req2. rewrite Hr2, Hr1, insert_insert_eq. ssplit; try done.
      rewrite Hc2, Hoff. unfold inputs. cbn. lia. }
    intros [|i] r' Hi; cbn in Hi.
    + injection Hi as <-. unfold inputs. cbn [take zsum]. rewrite take_0. cbn [zsum]. rewrite Z.add_0_r.
      rewrite <- He, <- Hw. split; [done|]. eexists. by ssplit.
    + specialize (Hall i r' Hi). rewrite Hoff in Hall. unfold inputs in *. cbn [take zsum] in *.
      rewrite Z.add_assoc. exact Hall.
Qed.

(** ** Generation *)

(** A decoded token, the executor not asking to stop. *)
Definition decoded (id : string) (e : Event) : Prop :=
  ev_RequestId e = id /\ ev_Type e = EventTypeDecodeChunk /\ ev_Done e = false /\
  us_OutputTokens (ev_Usage e) = 1.


(** The request and the event when generation ends. *)
Definition stopped (e : Event) (req : Request) (now : Time) : Request * Event :=
  let e := (if decide (ev_FinishReason e = FinishReasonUnspecified)
            then e <| ev_FinishReason := FinishReasonLength |> else e) <| ev_Done := true |> in
  (req <| req_Phase := RequestPhaseFinished |> <| req_FinishedAt := now |>
       <| req_FinishReason := ev_FinishReason e |>, e).

Lemma transition_decode_stop e req s :
  let req' := afterDecodeChunk req e in
  ev_Type e = EventTypeDecodeChunk ->
  ev_Done e || (req_MaxTokens req <=? req_GeneratedTokens req') = true ->
  let r := stopped (setUsage e req') req' (sm_now s) in
  transition e req s = Some (([], r.1, r.2), s).
Proof.
  intros req' Ht Hb r. unfold transition, now_, mbind, M_bind, getS. cbn. rewrite Ht. cbn.
  cbn in Hb. by rewrite Hb.
Qed.

Lemma transition_decode_next e req s :
  let req' := afterDecodeChunk req e <| req_Phase := RequestPhaseDecodeRunning |> in
  ev_Type e = EventTypeDecodeChunk ->
  ev_Done e || (req_MaxTokens req <=? req_GeneratedTokens req') = false ->
  transition e req s = Some (([decodeItem req' (sm_uuids s (sm_drawn s)) (ev_RequestId e) (sm_now s)],
    req', setUsage e req'), s <| sm_drawn := S (sm_drawn s) |>).
Proof.
  intros req' Ht Hb. unfold transition, now_, newUUID, mbind, M_bind, getS. cbn. rewrite Ht. cbn.
  cbn in Hb. by rewrite Hb.
Qed.

Lemma chunk_ok_decode e req : ev_Type e = EventTypeDecodeChunk -> chunk_ok e req.
Proof. unfold chunk_ok. congruence. Qed.


(** ** Ends and late events *)

(** [CanSchedule] lets a work item run exactly when its request is live, not
    past its deadline and not in a final phase, and then changes nothing.  A live
    request past its deadline is removed: its blocks are freed, its subscriber
    receives one timeout failure marked [Done] and then the channel is closed.
    For a request that is not live it answers no and changes nothing, and neither
    does a late event of such a request: [OnEvent] gives it no work. *)
Theorem can_schedule_exact s work e (HS : SMOK s)
  (Hlate : ev_RequestId e = wi_RequestId work) :
  let id := wi_RequestId work in
  match sm_requests s !! id with
  | None => CanSchedule work s = Some (false, s) /\ OnEvent e s = Some (([], e), s)
  | Some req =>
      if expired s req then
        wp (CanSchedule work) (fun ok s' => ok = false /\
          sm_requests s' = delete id (sm_requests s) /\
          (forall ex m, r_managers (sm_registry s') !! ex = Some m -> m_requestBlocks m !! id = None) /\
          exists uuid ch c, sm_subscribeCh s !! id = Some ch /\ sm_channels s !! ch = Some c /\
            sm_channels s' = <[ch := mkChannel (ch_sent c ++
              [failureEvent uuid id (sm_now s) (New CodeRequestTimeout "request timeout")]) true]>
              (sm_channels s)) s
      else CanSchedule work s = Some (negb (terminal (req_Phase req)), s)
  end.
Proof.
  intros id. pose proof (CanSchedule_spec s work HS) as H. subst id.
  destruct (sm_requests s !! wi_RequestId work) as [req|] eqn:Hreq; [destruct (expired s req)|].
  - wp_use H. intros ok s' (HS' & -> & uuid & Hr & _ & Hc). split; [done|]. split; [done|]. split.
    + intros ex m Hm. apply eq_None_not_Some. intros Hs.
      destruct (so_tables _ HS' _ _ _ Hm Hs) as (req' & Hreq' & _).
      by rewrite Hr, lookup_delete_eq in Hreq'.
    + destruct (proj1 (so_dom _ HS (wi_RequestId work))) as [ch Hch]; [rewrite Hreq; eauto|].
      destruct (Hc ch Hch) as (c & Hcc & _ & Hcs). by exists uuid, ch, c.
  - apply wp_run in H as (ok & s' & -> & _ & -> & ->). done.
  - apply wp_run in H as (ok & s' & -> & _ & -> & ->). split; [done|].
    pose proof (OnEvent_spec s e HS) as H. rewrite Hlate, Hreq in H.
    apply wp_run in H as (r & s'' & -> & _ & _ & _ & _ & -> & ->); done.
Qed.

(** The token limit is not looked at when the prefill finishes: whatever
    [MaxTokens] and however many tokens are generated already, the event is not
    marked [Done] and a decode item follows.  A request for one token gets the
    token of the prefill and one decoded token. *)
Theorem prefill_ignores_max_tokens s id req e
  (HS : SMOK s) (Hreq : sm_requests s !! id = Some req) (Hid : ev_RequestId e = id)
  (Htype : ev_Type e = EventTypePrefillFinished) :
  wp (OnEvent e) (fun r s' => ev_Done r.2 = ev_Done e /\
    (exists w, r.1 = [w] /\ wi_RequestId w = id /\ wi_Phase w = WorkPhaseDecode /\
       wi_NumNewTokens w = 1 /\ wi_TokenIDs w = req_TokenIDs req ++ [ev_TokenId e] /\
       wi_GeneratedTokens w = req_GeneratedTokens req +u us_OutputTokens (ev_Usage e)) /\
    exists req', sm_requests s' !! id = Some req' /\ req_Phase req' = RequestPhaseDecodeReady /\
      req_ComputedTokens req' <= Z.max (req_PromptTokens req) 0) s.
Proof.
  subst id. assert (Hok : chunk_ok e req) by (unfold chunk_ok; congruence).
  wp_use (OnEvent_step s e req HS Hreq Hok).
  intros r s' (_ & _ & req' & n & Hrun & Hr).
  unfold transition, now_, newUUID, mbind, M_bind, getS in Hrun. cbn in Hrun. rewrite Htype in Hrun.
  injection Hrun as Hw <- He _. rewrite <- Hw, <- He. cbn. split; [done|]. split.
  - eexists. by ssplit.
  - eexists. rewrite Hr, lookup_insert_eq. split; [done|]. split; [done|]. cbn.
    case_match; lia.
Qed.

(** C36: The send of [OnEvent] can panic.  It runs under no lock; when the request
    is cancelled between recording the event and sending it, every operation
    succeeds and the send finds the channel closed.  This holds in every
    consistent state for every event of a live request. *)
Theorem send_after_cancel_panics s id req e
  (HS : SMOK s) (Hreq : sm_requests s !! id = Some req) (Hid : ev_RequestId e = id)
  (Hok : chunk_ok e req) :
  exists items e' s1 ch s2,
    recordEvent e s = Some (Some (items, e'), s1) /\
    subscriber id s1 = Some (Some ch, s1) /\
    Cancel id s1 = Some (tt, s2) /\
    publish (Some ch) e' s2 = None.
Proof.
  subst id. pose proof (transition_spec e req s Hok) as Ht.
  apply wp_run in Ht as ([[items req'] e'] & s0 & Hrun & n & -> & Hi & Hex & _ & Hid). cbn in Hi, Hex, Hid.
  set (s1 := s <| sm_drawn := n |> <| sm_requests := <[ev_RequestId e := req']> (sm_requests s) |>).
  assert (HS1 : SMOK s1)
    by exact (smok_request (s <| sm_drawn := n |>) (ev_RequestId e) req req' (smok_drawn s n HS) Hreq Hi Hex).
  destruct (proj1 (so_dom _ HS (ev_RequestId e))) as [ch Hch]; [rewrite Hreq; eauto|].
  pose proof (closeOpt_spec RequestPhaseCanceled s1 (ev_RequestId e) HS1) as Hc.
  apply wp_run in Hc as ([] & s2 & Hcancel & _ & _ & _ & Hchan).
  destruct (Hchan ch Hch) as (c & _ & _ & Hcs).
  exists items, e', s1, ch, s2. split; [|split; [|split; [exact Hcancel|]]].
  - unfold recordEvent, mbind, M_bind, getS. cbn. rewrite Hreq, Hrun. cbn. by rewrite Hid.
  - unfold subscriber, mbind, M_bind, getS, mret, M_ret. cbn. by rewrite Hch.
  - unfold publish, send, modO. rewrite Hcs, lookup_insert_eq. cbn. done.
Qed.
