(* ===== verification/RequestExamples.v ===== *)
(** * RequestExamples: a request on a concrete executor

    The request manager over one executor of four blocks, before and after the
    creation of a request of three tokens; the witnesses of the theorems of
    RequestProperties and RequestRuns. *)

From S2P Require Import Prelude Errors Model Metrics FreeQueue GoSha256 BlockManager BlockProperties BlockExamples BlockRegistry StateMachine RequestProperties RequestRuns.
Definition reg1 : registry := mkRegistry (<["e0" := m0]> ∅) ["e0"] ∅.
Definition sm0 : stateManager := NewRequestLifecycleStateManager reg1 100 (fun n => pretty n).
Definition prompt0 : Request := req0 <| req_PromptTokens := 3 |> <| req_ExecutorID := "e0" |>.

Definition smAfter {A} (c : M stateManager A) (s : stateManager) : stateManager :=
  match c s with Some (_, s') => s' | None => s end.
Definition sm1 : stateManager := smAfter (Create prompt0) sm0.

Definition event0 (t : EventType) (tok in_ out : Z) : Event := {|
  ev_WorkId := "w"; ev_RequestId := "r0"; ev_BatchId := "b"; ev_ExecutorId := "e0";
  ev_Type := t; ev_ChunkIndex := 0; ev_TokenId := tok; ev_Done := false;
  ev_Usage := mkUsage in_ out 0; ev_Timing := Timing0; ev_FinishReason := FinishReasonUnspecified;
  ev_At := 0; ev_Err := None |}.
Definition chunk1 : Event := event0 EventTypePrefillChunk 0 2 0.
Definition finished1 : Event := event0 EventTypePrefillFinished 7 1 1.
Definition token1 : Event := event0 EventTypeDecodeChunk 8 0 1.

Definition live (s : stateManager) : Request :=
  match sm_requests s !! "r0" with Some r => r | None => req0 end.
Definition live1 : Request := live sm1.

(** The whole life of the request: a prefill in
    two events, then decoding up to the limit of four tokens. *)
Example whole_life :
  match feed [chunk1; finished1; token1; token1; token1] sm1 with
  | Some (rs, _) => map (fun r => (map wi_Phase r.1, map wi_NumNewTokens r.1, ev_Done r.2)) rs
  | None => []
  end =
  [ ([WorkPhasePrefill], [1], false); ([WorkPhaseDecode], [1], false);
    ([WorkPhaseDecode], [1], false); ([WorkPhaseDecode], [1], false); ([], [], true) ].
Proof. vm_compute. reflexivity. Qed.

Lemma reg1_ok : RegOK reg1.
Proof.
  split; [|intros id plan; cbn; by rewrite lookup_empty].
  intros e m. cbn [r_managers r_pendingTransfers reg1].
  intros [[<- <-]|[_ H]]%lookup_insert_Some; [|by rewrite lookup_empty in H].
  exact (rt0_reachable_consistent _ m0_reachable).
Qed.

Lemma reg1_empty e m : r_managers reg1 !! e = Some m -> m_requestBlocks m = ∅.
Proof.
  cbn [r_managers reg1]. intros [[_ <-]|[_ H]]%lookup_insert_Some; [by vm_compute|].
  by rewrite lookup_empty in H.
Qed.

Lemma sm0_ok : SMOK sm0.
Proof. exact (new_smok reg1 100 _ reg1_ok reg1_empty). Qed.

Lemma prompt0_room : room (sm_registry sm0) prompt0.
Proof.
  split; [by vm_compute|]. intros e m. cbn [sm_registry sm0 NewRequestLifecycleStateManager r_managers reg1].
  intros [[<- <-]|[_ H]]%lookup_insert_Some; [by vm_compute|by rewrite lookup_empty in H].
Qed.

Lemma sm_run_after {A} (c : M stateManager A) s :
  (match c s with Some _ => true | None => false end) = true ->
  (c ;; mret tt) s = Some (tt, smAfter c s).
Proof. unfold smAfter, mbind, M_bind, mret, M_ret. by destruct (c s) as [[a s']|]. Qed.

Lemma sm1_run : run_sm (SMCreate prompt0) sm0 = Some (tt, sm1).
Proof. apply (sm_run_after (Create prompt0)). by vm_compute. Qed.

Lemma sm1_ok : SMOK sm1.
Proof.
  pose proof (run_sm_ok (SMCreate prompt0) sm0 sm0_ok prompt0_room) as H.
  unfold wp in H. by rewrite sm1_run in H.
Qed.

Lemma sm1_live : sm_requests sm1 !! "r0" = Some live1.
Proof.
  assert (H : is_Some (sm_requests sm1 !! "r0")).
  { apply not_eq_None_Some. by vm_compute. }
  destruct H as [r Hr]. unfold live1, live. by rewrite Hr.
Qed.

Lemma live1_fields : req_PromptTokens live1 = 3 /\ req_ComputedTokens live1 = 0 /\
  req_GeneratedTokens live1 = 0 /\ req_MaxTokens live1 = 4 /\ len (req_TokenIDs live1) = 3.
Proof. by vm_compute. Qed.

#[local] Opaque sm0 sm1 live1 reg1.

Lemma request_manager_invariant_witness : sm_activeRequests sm1 = Z.of_nat (size (sm_requests sm1)).
Proof.
  apply (request_manager_invariant reg1 100 (fun n => pretty n) sm1 reg1_ok reg1_empty).
  exact (rtc_once _ _ (sm_step_op (SMCreate prompt0) sm0 sm1 prompt0_room sm1_run)).
Defined.

Lemma create_starts_prefill_witness :
  wp (Create prompt0) (fun res s' => match res with
    | inl _ => refused sm0 s'
    | inr w => wi_Phase w = WorkPhasePrefill /\ wi_PrefillOffset w + wi_NumNewTokens w = wi_TokenCntTotal w
    end) sm0.
Proof.
  eapply wp_mono; [exact (create_starts_prefill sm0 prompt0 sm0_ok prompt0_room eq_refl eq_refl)|].
  intros [err|w] s'; [by intros [? _]|].
  intros (e & pm & req' & _ & Hp & _ & _ & _ & _ & _ & _ & _ & Ht & _). by split.
Defined.

Lemma request_end_witness : wp (Cancel "r0") (fun _ s' => sm_requests s' = delete "r0" (sm_requests sm1)) sm1.
Proof.
  eapply wp_mono; [exact (proj1 (request_end sm1 "r0" (New CodeInternal "stop") sm1_ok))|].
  by intros _ s' [H _].
Defined.

Lemma chunked_prefill_covers_witness :
  wp (feed [chunk1]) (fun rs _ => exists r w, rs = [r] /\ r.1 = [w] /\ wi_PrefillOffset w = 2 /\
    wi_NumNewTokens w = 1) sm1.
Proof.
  destruct live1_fields as (Hp & Hc & _ & _ & Hl).
  assert (Hes : Forall (prefill_chunk "r0") [chunk1]) by (repeat constructor; done).
  eapply wp_mono; [apply (chunked_prefill_covers sm1 "r0" live1 [chunk1] sm1_ok sm1_live Hes);
    rewrite ?Hp, ?Hc, ?Hl; try lia; by vm_compute|].
  intros rs s' (_ & Hlen & _ & Hall). destruct rs as [|r [|]]; try done.
  destruct (Hall 0%nat r eq_refl) as (_ & w & Hw & _ & _ & Ho & Hn & _).
  exists r, w. rewrite Hp, Hc in Hn. rewrite Hc in Ho. by ssplit.
Defined.


Lemma can_schedule_exact_witness : CanSchedule (work0 <| wi_RequestId := "gone" |>) sm1 = Some (false, sm1).
Proof.
  pose proof (can_schedule_exact sm1 (work0 <| wi_RequestId := "gone" |>)
    (chunk1 <| ev_RequestId := "gone" |>) sm1_ok eq_refl) as H.
  assert (E : sm_requests sm1 !! "gone" = None) by (by vm_compute).
  cbv zeta in H. change (wi_RequestId (work0 <| wi_RequestId := "gone" |>)) with "gone" in H.
  rewrite E in H. exact (proj1 H).
Defined.

Lemma prefill_ignores_max_tokens_witness :
  wp (OnEvent finished1) (fun r _ => ev_Done r.2 = false /\ exists w, r.1 = [w]) sm1.
Proof.
  eapply wp_mono; [exact (prefill_ignores_max_tokens sm1 "r0" live1 finished1 sm1_ok sm1_live eq_refl eq_refl)|].
  intros r s' (Hd & (w & Hw & _) & _). split; [exact Hd|]. by exists w.
Defined.

Lemma send_after_cancel_panics_witness : exists ch e s, publish (Some ch) e s = None.
Proof.
  assert (Hok : chunk_ok finished1 live1) by (intros H; discriminate H).
  destruct (send_after_cancel_panics sm1 "r0" live1 finished1 sm1_ok sm1_live eq_refl Hok)
    as (items & e' & s1 & ch & s2 & _ & _ & _ & H).
  by exists ch, e', s2.
Defined.
