(* ===== verification/Executor.v ===== *)
(** * Executor: executors and the executor manager (internal/executor)

    An executor turns a batch into one remote call and the answer into events
    (executor.go, transfer.go); the manager runs one consumer goroutine per
    executor between bounded channels (manager.go).

    The remote runtime is not part of the repository's Go code: what a call
    returns is an argument, [resp] for [ExecuteBatch], [attempt] for the
    [GetRuntime] calls of the start-up.  The goroutines are a step relation on
    the manager's state: a batch is submitted, a consumer takes it, its call
    returns, it sends its events one by one, the scheduler receives them. *)

From S2P Require Import Prelude Errors Model Metrics FreeQueue BlockManager BlockRegistry Placement.
(** ** Wire messages (gen/go/kvtide/v1/executor.pb.go, block.pb.go) *)

Record KVBlockMetadata := mkKVBlockMetadata {
  kv_BlockSize : Z; kv_BlockTable : list Z; kv_AllocatedBlocks : list Z
}.
Record ExecuteItem := mkExecuteItem {
  ei_WorkId : string;
  ei_RequestId : string;
  ei_Phase : WorkPhase;
  ei_TokenIds : list Z;
  ei_ComputedTokens : Z;
  ei_GeneratedTokens : Z;
  ei_NumNewTokens : Z;
  ei_KvBlocks : KVBlockMetadata;
  ei_Sample : bool
}.
Record ExecuteBatchRequest := mkExecuteBatchRequest {
  eb_BatchId : string; eb_RuntimeEpoch : Z; eb_Items : list ExecuteItem
}.
Record ExecuteResult := mkExecuteResult {
  er_WorkId : string;
  er_RequestId : string;
  er_TokenId : Z;
  er_Done : bool;
  er_FinishReason : FinishReason;
  er_ComputedTokens : Z;
  er_GeneratedTokens : Z;
  er_ExecutionMs : Z;
  er_ErrorMessage : string
}.

(** ** One executor *)

Record ExecutorConf := mkExecutorConf {
  ec_ExecutorID : string; ec_Address : list string; ec_TimeoutMs : Z
}.
Record executor := mkExecutor {
  ex_id : string; ex_runtime : ExecutorStats; ex_endpoints : list string
}.

(** The retry loop of [newExecutor] from attempt [i] on, [n] attempts left. *)
Fixpoint fetchRuntime (attempt : nat -> error + ExecutorStats) (i n : nat)
    : error + ExecutorStats :=
  match attempt i, n with
  | inl err, S (S _ as n') => fetchRuntime attempt (S i) n'
  | res, _ => res
  end.

Definition newExecutor (attempt : nat -> error + ExecutorStats) (cfg : ExecutorConf)
    : error + executor :=
  match fetchRuntime attempt 0 3 with
  | inl err => inl err
  | inr runtime =>
      if negb (String.eqb (es_ExecutorId runtime) (ec_ExecutorID cfg))
      then inl (New CodeInternal ("executor with id " +:+ ec_ExecutorID cfg +:+ " doesn't exist"))
      else inr (mkExecutor (ec_ExecutorID cfg) runtime (ec_Address cfg))
  end.

(** The loop of [NewExecutors]; [connect] gives the attempts for an entry. *)
Fixpoint newExecutors (connect : ExecutorConf -> nat -> error + ExecutorStats)
    (cfgs : list ExecutorConf) (executors : gmap string executor) : error + gmap string executor :=
  match cfgs with
  | [] => inr executors
  | ec :: cfgs =>
      if String.eqb (ec_ExecutorID ec) "" then inl (TextError "executor.executorId can not be empty")
      else if len (ec_Address ec) =? 0 then inl (TextError "executor.address can not be empty")
      else match newExecutor (connect ec) ec with
           | inl err => inl err
           | inr exec =>
               match executors !! ec_ExecutorID ec with
               | Some _ => inl (TextError ("executor with id " +:+ ec_ExecutorID ec +:+ " already exists"))
               | None => newExecutors connect cfgs (<[ec_ExecutorID ec := exec]> executors)
               end
           end
  end.

Definition NewExecutors (connect : ExecutorConf -> nat -> error + ExecutorStats)
    (cfgs : list ExecutorConf) : error + gmap string executor :=
  match newExecutors connect cfgs ∅ with
  | inl err => inl err
  | inr executors =>
      if Nat.eqb (size executors) 0 then inl (TextError "no executors configured")
      else inr executors
  end.

(** transfer.go; [None] is the panic on a missing block allocation or on a
    decode item with fewer tokens than it announces. *)
Definition itemToExecute (work : WorkItem) : option ExecuteItem :=
  if decide (wi_Phase work = WorkPhaseDecode) then
    tokens ← slice (wi_TokenIDs work) (len (wi_TokenIDs work) - wi_NumNewTokens work)
                   (len (wi_TokenIDs work));
    alloc ← wi_BlockAllocation work;
    Some {|
      ei_WorkId := wi_WorkId work;
      ei_RequestId := wi_RequestId work;
      ei_Phase := WorkPhaseDecode;
      ei_TokenIds := tokens;
      ei_ComputedTokens := wi_TokenCntTotal work -u wi_NumNewTokens work;
      ei_GeneratedTokens := wi_GeneratedTokens work;
      ei_NumNewTokens := wi_NumNewTokens work;
      ei_KvBlocks := mkKVBlockMetadata (ba_BlockSize alloc) (ba_BlockTable alloc)
                       (ba_AllocatedBlocks alloc);
      ei_Sample := true
    |}
  else
    alloc ← wi_BlockAllocation work;
    Some {|
      ei_WorkId := wi_WorkId work;
      ei_RequestId := wi_RequestId work;
      ei_Phase := WorkPhasePrefill;
      ei_TokenIds := wi_TokenIDs work;
      ei_ComputedTokens := wi_PrefillOffset work;
      ei_GeneratedTokens := 0;
      ei_NumNewTokens := wi_NumNewTokens work;
      ei_KvBlocks := mkKVBlockMetadata (ba_BlockSize alloc) (ba_BlockTable alloc)
                       (ba_AllocatedBlocks alloc);
      ei_Sample := wi_TokenCntTotal work <=? wi_PrefillOffset work +u wi_NumNewTokens work
    |}.

Definition BatchToExecute (epoch : Z) (batch : Batch) : option ExecuteBatchRequest :=
  items ← mapM itemToExecute (bt_Items batch);
  Some (mkExecuteBatchRequest (bt_BatchID batch) epoch items).

Definition nextPhase (item : WorkItem) (err : option error) : EventType :=
  match err with
  | Some _ => EventTypeRequestFailed
  | None =>
      match wi_Phase item with
      | WorkPhasePrefill =>
          if wi_TokenCntTotal item <=? wi_PrefillOffset item +u wi_NumNewTokens item
          then EventTypePrefillFinished
          else EventTypePrefillChunk
      | WorkPhaseDecode => EventTypeDecodeChunk
      | WorkPhaseOther _ => EventTypeRequestFinished
      end
  end.

(** [works[item.WorkId] = item] over the items: a later item wins. *)
Definition worksOf (items : list WorkItem) : gmap string WorkItem :=
  foldl (fun works item => <[wi_WorkId item := item]> works) ∅ items.

Definition resultError (workRes : ExecuteResult) : option error :=
  if String.eqb (er_ErrorMessage workRes) "" then None
  else Some (New CodeInternal (er_ErrorMessage workRes)).

Definition resultEvent (executorId batchId : string) (workItem : WorkItem) (workRes : ExecuteResult)
    : Event := {|
  ev_WorkId := er_WorkId workRes;
  ev_RequestId := er_RequestId workRes;
  ev_BatchId := batchId;
  ev_ExecutorId := executorId;
  ev_Type := nextPhase workItem (resultError workRes);
  ev_ChunkIndex := 0;
  ev_TokenId := er_TokenId workRes;
  ev_Done := er_Done workRes;
  ev_Usage := mkUsage (er_ComputedTokens workRes) (er_GeneratedTokens workRes)
                (er_ComputedTokens workRes +u er_GeneratedTokens workRes);
  ev_Timing := mkTiming 0 0 (er_ExecutionMs workRes * Millisecond) 0;
  ev_FinishReason := er_FinishReason workRes;
  ev_At := 0;
  ev_Err := resultError workRes
|}.

(** The loop over the results; a result of an unknown item is logged and
    skipped. *)
Definition resultEvents (executorId batchId : string) (works : gmap string WorkItem)
    (results : list ExecuteResult) : list Event :=
  omap (fun r => (fun item => resultEvent executorId batchId item r) <$> works !! er_WorkId r) results.

(** [Execute], the remote call having answered [resp]. *)
Definition Execute (m : executor) (resp : error + list ExecuteResult) (batch : Batch)
    : option (error + list Event) :=
  _ ← BatchToExecute (es_RuntimeEpoch (ex_runtime m)) batch;
  Some (match resp with
        | inl err => inl err
        | inr results => inr (resultEvents (ex_id m) (bt_BatchID batch) (worksOf (bt_Items batch)) results)
        end).

(** ** The manager *)

Inductive worker :=
| Idle                                             (* waiting for a batch *)
| Running (batch : Batch)                          (* in [Execute] *)
| Sending (events : list Event).                   (* its events not sent yet *)

Record executorManager := mkExecutorManager {
  em_executors : gmap string executor;
  em_executorList : list string;
  em_batchChans : gmap string (list Batch);
  em_eventChan : list Event;
  em_metrics : MetricLog;
  em_inflightBatches : Z;                          (* uint64 *)
  em_workers : gmap string worker                  (* the consumer goroutines *)
}.
#[export] Instance executorManager_eta : Eta executorManager := fun e =>
  mkExecutorManager (em_executors e) (em_executorList e) (em_batchChans e) (em_eventChan e)
    (em_metrics e) (em_inflightBatches e) (em_workers e).

(** The capacity of a batch channel and of the event channel. *)
Definition chanCap : Z := 100.

(** [NewExecutorManager], and the consumers [Consume] starts. *)
Definition NewExecutorManager (executors : gmap string executor) : executorManager :=
  mkExecutorManager executors (sortStrings (map_to_list executors).*1)
    ((fun _ => []) <$> executors) [] [] 0 ((fun _ => Idle) <$> executors).

Definition runtimeStates (e : executorManager) : gmap string ExecutorStats :=
  foldr (fun ex acc => <[es_ExecutorId (ex_runtime ex) := ex_runtime ex]> acc) ∅
    (map_to_list (em_executors e)).*2.

(** [Submit] of a batch that may be nil, under a context that is done with the
    error [ctx] or not done.  When the channel has room and the context is done,
    the select takes either case: [room_first] says which. *)
Definition Submit (ctx : option error) (room_first : bool) (batch : option Batch)
    : M executorManager (option error) :=
  match batch with
  | None => mret (Some (New CodeInvalidArgument "batch must not be nil"))
  | Some batch =>
      e ← getS;
      match em_batchChans e !! bt_ExecutorID batch with
      | None => mret (Some (New CodeExecutorUnavailable
                   ("executor " +:+ bt_ExecutorID batch +:+ " is unavailable")))
      | Some batchChan =>
          let hasRoom := len batchChan <? chanCap in
          match ctx with
          | Some err =>
              if hasRoom && room_first then
                modS (fun e => e <| em_batchChans :=
                  <[bt_ExecutorID batch := batchChan ++ [batch]]> (em_batchChans e) |>) ;;
                mret None
              else mret (Some err)
          | None =>
              if hasRoom then
                modS (fun e => e <| em_batchChans :=
                  <[bt_ExecutorID batch := batchChan ++ [batch]]> (em_batchChans e) |>) ;;
                mret None
              else mret (Some (New CodeQueueFull "executor batch queue is full"))
          end
      end
  end.

(** [rpc] is the remote call of an executor. *)
Definition triggerKVPush (rpc : executor -> TriggerKVPushRequest -> error + option TriggerKVPushResponse)
    (request : TriggerKVPushRequest) (e : executorManager) : error + option TriggerKVPushResponse :=
  match em_executors e !! kq_SourceExecutorId request with
  | None => inl (New CodeExecutorUnavailable
              ("source executor " +:+ kq_SourceExecutorId request +:+ " is unavailable"))
  | Some source => rpc source request
  end.

Definition markEventsFailed (events : list Event) (err : error) : list Event :=
  (fun event => event <| ev_Err := Some err |> <| ev_Done := true |>
     <| ev_FinishReason := FinishReasonError |> <| ev_Type := EventTypeRequestFailed |>) <$> events.

Definition batchFailedEvents (batch : Batch) (executorId : string) (err : error) (now : Time)
    : list Event :=
  (fun item => {|
     ev_WorkId := wi_WorkId item; ev_RequestId := wi_RequestId item;
     ev_BatchId := bt_BatchID batch; ev_ExecutorId := executorId;
     ev_Type := EventTypeRequestFailed; ev_ChunkIndex := 0; ev_TokenId := 0; ev_Done := true;
     ev_Usage := Usage0; ev_Timing := Timing0; ev_FinishReason := FinishReasonError;
     ev_At := now; ev_Err := Some err |}) <$> bt_Items batch.

(** *** The consumer goroutine, one function per piece between two blocking
    operations *)

Definition em_metric (c : MetricCall) : M executorManager unit :=
  modS (fun e => e <| em_metrics := em_metrics e ++ [c] |>).

Definition addInflight (d : Z) : M executorManager unit :=
  modS (fun e => e <| em_inflightBatches := u64 (em_inflightBatches e + d) |>) ;;
  e ← getS; em_metric (SetInflightBatches (em_inflightBatches e)).

Definition setWorker (executorId : string) (w : worker) : M executorManager unit :=
  modS (fun e => e <| em_workers := <[executorId := w]> (em_workers e) |>).

(** A batch received: up to the remote call. *)
Definition consumeBatch (executorId : string) (batch : Batch) (rest : list Batch)
    : M executorManager unit :=
  modS (fun e => e <| em_batchChans := <[executorId := rest]> (em_batchChans e) |>) ;;
  addInflight 1 ;;
  em_metric (IncBatches executorId) ;;
  setWorker executorId (Running batch).

(** [events, err := executor.Execute(...)] and the failure events. *)
Definition outcome (m : executor) (executorId : string) (resp : error + list ExecuteResult)
    (batch : Batch) (now : Time) : option (list Event * bool) :=
  r ← Execute m resp batch;
  Some (match r with
        | inl err => (batchFailedEvents batch executorId err now, true)
        | inr events => (events, false)
        end).

Definition runOutcome (executorId : string) (resp : error + list ExecuteResult) (batch : Batch)
    (now : Time) (e : executorManager) : option (list Event * bool) :=
  m ← em_executors e !! executorId; outcome m executorId resp batch now.

(** The call returned: up to the first send. *)
Definition consumeOutcome (executorId : string) (batch : Batch)
    (resp : error + list ExecuteResult) (now : Time) : M executorManager (list Event) :=
  r ← getsO (runOutcome executorId resp batch now);
  let '(events, failed) := r : list Event * bool in
  (if failed then em_metric (IncExecutorErrors executorId) else mret tt) ;;
  addInflight (two64 - 1) ;;       (* Add(^uint64(0)) *)
  setWorker executorId (Sending events) ;;
  mret events.

(** *** Steps *)

Inductive label :=
| LSubmit (batch : Batch)                          (* accepted by Submit *)
| LReject
| LTake (executorId : string) (batch : Batch)
| LOutcome (executorId : string) (batch : Batch) (events : list Event)
| LSend (executorId : string) (event : Event)
| LDone (executorId : string)
| LReceive (event : Event).                        (* by the scheduler *)

Inductive em_step : executorManager -> label -> executorManager -> Prop :=
| es_submit ctx b batch e e' :
    Submit ctx b (Some batch) e = Some (None, e') -> em_step e (LSubmit batch) e'
| es_reject ctx b batch err e e' :
    Submit ctx b batch e = Some (Some err, e') -> em_step e LReject e'
| es_take id batch rest e e' :
    em_workers e !! id = Some Idle -> em_batchChans e !! id = Some (batch :: rest) ->
    consumeBatch id batch rest e = Some (tt, e') -> em_step e (LTake id batch) e'
| es_outcome id batch resp now events e e' :
    em_workers e !! id = Some (Running batch) ->
    consumeOutcome id batch resp now e = Some (events, e') -> em_step e (LOutcome id batch events) e'
| es_send id event events e :
    em_workers e !! id = Some (Sending (event :: events)) -> len (em_eventChan e) < chanCap ->
    em_step e (LSend id event)
      (e <| em_eventChan := em_eventChan e ++ [event] |>
         <| em_workers := <[id := Sending events]> (em_workers e) |>)
| es_done id e :
    em_workers e !! id = Some (Sending []) ->
    em_step e (LDone id) (e <| em_workers := <[id := Idle]> (em_workers e) |>)
| es_receive event events e :
    em_eventChan e = event :: events ->
    em_step e (LReceive event) (e <| em_eventChan := events |>).

(** A run, its labels oldest first. *)
Inductive em_run (e0 : executorManager) : list label -> executorManager -> Prop :=
| er_nil : em_run e0 [] e0
| er_snoc tr l e e' : em_run e0 tr e -> em_step e l e' -> em_run e0 (tr ++ [l]) e'.

(** ** The pipeline invariant *)

Definition submitted (id : string) : list label -> list Batch :=
  omap (fun l => match l with LSubmit b => if decide (bt_ExecutorID b = id) then Some b else None | _ => None end).
Definition taken (id : string) : list label -> list Batch :=
  omap (fun l => match l with LTake i b => if decide (i = id) then Some b else None | _ => None end).
Definition executed (id : string) : list label -> list Batch :=
  omap (fun l => match l with LOutcome i b _ => if decide (i = id) then Some b else None | _ => None end).
Definition produced (id : string) (tr : list label) : list Event :=
  concat (omap (fun l => match l with LOutcome i _ evs => if decide (i = id) then Some evs else None | _ => None end) tr).
Definition sentBy (id : string) : list label -> list Event :=
  omap (fun l => match l with LSend i e => if decide (i = id) then Some e else None | _ => None end).
Definition sentAll : list label -> list Event :=
  omap (fun l => match l with LSend _ e => Some e | _ => None end).
Definition received : list label -> list Event :=
  omap (fun l => match l with LReceive e => Some e | _ => None end).

Definition inCall (w : worker) : list Batch := match w with Running b => [b] | _ => [] end.
Definition unsent (w : worker) : list Event := match w with Sending evs => evs | _ => [] end.
Definition is_running (w : worker) : bool := match w with Running _ => true | _ => false end.
Definition runningCount (ws : gmap string worker) : Z :=
  Z.of_nat (size (filter (fun p => is_running p.2 = true) ws)).

Record EMOK (ex : gmap string executor) (e : executorManager) (tr : list label) : Prop := mkEMOK {
  eo_executors : em_executors e = ex;
  eo_chans : dom (em_batchChans e) = dom ex;
  eo_workers : dom (em_workers e) = dom ex;
  eo_queue : forall id q, em_batchChans e !! id = Some q ->
    submitted id tr = taken id tr ++ q /\ len q <= chanCap;
  eo_worker : forall id w, em_workers e !! id = Some w ->
    taken id tr = executed id tr ++ inCall w /\ produced id tr = sentBy id tr ++ unsent w;
  eo_events : sentAll tr = received tr ++ em_eventChan e /\ len (em_eventChan e) <= chanCap;
  eo_inflight : em_inflightBatches e = u64 (runningCount (em_workers e))
}.

Lemma runningCount_insert ws id w w' :
  ws !! id = Some w ->
  runningCount (<[id := w']> ws) =
    runningCount ws - (if is_running w then 1 else 0) + (if is_running w' then 1 else 0).
Proof.
  intros Hw. unfold runningCount.
  assert (Hdel : forall v : worker, ws !! id = Some v ->
    Z.of_nat (size (filter (fun p => is_running p.2 = true) (delete id ws))) =
    Z.of_nat (size (filter (fun p => is_running p.2 = true) ws)) - (if is_running v then 1 else 0)).
  { intros v Hv. rewrite map_filter_delete. destruct (is_running v) eqn:Hr.
    - assert (Hf : filter (fun p : string * worker => is_running p.2 = true) ws !! id = Some v)
        by (by apply map_lookup_filter_Some).
      rewrite map_size_delete_Some by eauto.
      assert (size (filter (fun p : string * worker => is_running p.2 = true) ws) <> 0%nat); [|lia].
      intros E%map_size_empty_inv. by rewrite E, lookup_empty in Hf.
    - rewrite delete_id; [lia|]. apply map_lookup_filter_None. right. intros x Hx. cbn. congruence. }
  rewrite <- insert_delete_eq. destruct (is_running w') eqn:Hr'.
  - rewrite map_filter_insert_True by done.
    rewrite map_size_insert_None; [rewrite <- (Hdel w Hw); lia|].
    rewrite map_lookup_filter_None. left. apply lookup_delete_eq.
  - rewrite map_filter_insert_False by (cbn; congruence).
    rewrite delete_delete_eq, (Hdel w Hw). lia.
Qed.

Lemma u64_add a b : u64 (u64 a + b) = u64 (a + b).
Proof. unfold u64. by rewrite Zplus_mod_idemp_l. Qed.

Lemma u64_pred a : u64 (a + (two64 - 1)) = u64 (a - 1).
Proof. unfold u64. rewrite <- (Z_mod_plus_full (a - 1) 1 two64). f_equal. lia. Qed.

Lemma Submit_accept ctx b batch e e' :
  Submit ctx b (Some batch) e = Some (None, e') -> exists q,
    em_batchChans e !! bt_ExecutorID batch = Some q /\ len q < chanCap /\
    e' = e <| em_batchChans := <[bt_ExecutorID batch := q ++ [batch]]> (em_batchChans e) |>.
Proof.
  unfold Submit, mbind, M_bind, getS, modS, mret, M_ret. cbn.
  destruct (em_batchChans e !! bt_ExecutorID batch) as [q|]; [|done].
  destruct (Z.ltb_spec (len q) chanCap); destruct ctx, b; cbn; intros [= <-]; by exists q.
Qed.

Lemma Submit_reject ctx b batch err e e' :
  Submit ctx b batch e = Some (Some err, e') -> e' = e.
Proof.
  unfold Submit, mbind, M_bind, getS, modS, mret, M_ret. destruct batch as [batch|]; [|by intros [= _ <-]].
  destruct (em_batchChans e !! bt_ExecutorID batch) as [q|]; [|by intros [= _ <-]].
  destruct (len q <? chanCap), ctx, b; cbn; by intros [= _ <-].
Qed.

Lemma consumeBatch_eq id batch rest e e' :
  consumeBatch id batch rest e = Some (tt, e') ->
  em_executors e' = em_executors e /\ em_eventChan e' = em_eventChan e /\
  em_batchChans e' = <[id := rest]> (em_batchChans e) /\
  em_workers e' = <[id := Running batch]> (em_workers e) /\
  em_inflightBatches e' = u64 (em_inflightBatches e + 1) /\
  em_metrics e' = em_metrics e ++ [SetInflightBatches (em_inflightBatches e')] ++ [IncBatches id].
Proof.
  unfold consumeBatch, addInflight, em_metric, setWorker, mbind, M_bind, getS, modS. cbn.
  intros [= <-]. cbn. by rewrite <- app_assoc.
Qed.

Lemma consumeOutcome_eq id batch resp now events e e' :
  consumeOutcome id batch resp now e = Some (events, e') -> exists m failed,
  em_executors e !! id = Some m /\ outcome m id resp batch now = Some (events, failed) /\
  em_executors e' = em_executors e /\ em_eventChan e' = em_eventChan e /\
  em_batchChans e' = em_batchChans e /\
  em_workers e' = <[id := Sending events]> (em_workers e) /\
  em_inflightBatches e' = u64 (em_inflightBatches e + (two64 - 1)) /\
  em_metrics e' = em_metrics e ++ (if failed then [IncExecutorErrors id] else []) ++
    [SetInflightBatches (em_inflightBatches e')].
Proof.
  unfold consumeOutcome, runOutcome, addInflight, em_metric, setWorker, mbind, M_bind, getS, modS, getsO.
  cbn. destruct (em_executors e !! id) as [m|]; cbn; [|done].
  destruct (outcome m id resp batch now) as [[evs failed]|] eqn:Ho; cbn; [|done].
  intros H. exists m, failed. destruct failed; cbn in H; injection H as <- <-; cbn; ssplit; try done.
  by rewrite <- app_assoc.
Qed.

Lemma em_new_ok ex : EMOK ex (NewExecutorManager ex) [].
Proof.
  split; cbn.
  - done.
  - apply dom_fmap_L.
  - apply dom_fmap_L.
  - intros id q. rewrite lookup_fmap. intros (x & _ & ->)%fmap_Some. done.
  - intros id w. rewrite lookup_fmap. intros (x & _ & ->)%fmap_Some. done.
  - done.
  - unfold runningCount.
    replace (filter _ _) with (∅ : gmap string worker); [done|].
    symmetry. apply map_empty. intros i. apply map_lookup_filter_None. right.
    intros x. rewrite lookup_fmap. intros (y & _ & ->)%fmap_Some. done.
Qed.

(** The projections of a longer trace. *)
Lemma omap_snoc {A B} (f : A -> option B) l x :
  omap f (l ++ [x]) = omap f l ++ match f x with Some y => [y] | None => [] end.
Proof. rewrite omap_app. cbn. by destruct (f x). Qed.

Ltac snoc_proj f := intros; unfold f; rewrite omap_snoc; f_equal; repeat case_match; congruence.

Lemma submitted_snoc id tr l : submitted id (tr ++ [l]) = submitted id tr ++
  match l with LSubmit b => if decide (bt_ExecutorID b = id) then [b] else [] | _ => [] end.
Proof. snoc_proj submitted. Qed.

Lemma taken_snoc id tr l : taken id (tr ++ [l]) = taken id tr ++
  match l with LTake i b => if decide (i = id) then [b] else [] | _ => [] end.
Proof. snoc_proj taken. Qed.

Lemma executed_snoc id tr l : executed id (tr ++ [l]) = executed id tr ++
  match l with LOutcome i b _ => if decide (i = id) then [b] else [] | _ => [] end.
Proof. snoc_proj executed. Qed.

Lemma produced_snoc id tr l : produced id (tr ++ [l]) = produced id tr ++
  match l with LOutcome i _ evs => if decide (i = id) then evs else [] | _ => [] end.
Proof.
  unfold produced. rewrite omap_snoc, concat_app. f_equal. repeat case_match; simplify_eq; cbn; by rewrite ?app_nil_r.
Qed.

Lemma sentBy_snoc id tr l : sentBy id (tr ++ [l]) = sentBy id tr ++
  match l with LSend i e => if decide (i = id) then [e] else [] | _ => [] end.
Proof. snoc_proj sentBy. Qed.

Lemma sentAll_snoc tr l : sentAll (tr ++ [l]) = sentAll tr ++
  match l with LSend _ e => [e] | _ => [] end.
Proof. snoc_proj sentAll. Qed.

Lemma received_snoc tr l : received (tr ++ [l]) = received tr ++
  match l with LReceive e => [e] | _ => [] end.
Proof. snoc_proj received. Qed.

Ltac projections :=
  rewrite ?submitted_snoc, ?taken_snoc, ?executed_snoc, ?produced_snoc, ?sentBy_snoc, ?sentAll_snoc,
    ?received_snoc; cbv beta iota; rewrite ?app_nil_r.

Lemma dom_insert_same {A B} (m : gmap string A) (m0 : gmap string B) i x y :
  dom m = dom m0 -> m !! i = Some y -> dom (<[i := x]> m) = dom m0.
Proof. intros Hd Hi. rewrite dom_insert_lookup_L by eauto. done. Qed.

(** What a step does to the parts of the state. *)
Definition effect (e : executorManager) (l : label) (e' : executorManager) : Prop :=
  em_executors e' = em_executors e /\
  match l with
  | LSubmit b => exists q, em_batchChans e !! bt_ExecutorID b = Some q /\ len q < chanCap /\
      em_batchChans e' = <[bt_ExecutorID b := q ++ [b]]> (em_batchChans e)
  | LTake id b => exists rest, em_batchChans e !! id = Some (b :: rest) /\
      em_batchChans e' = <[id := rest]> (em_batchChans e)
  | _ => em_batchChans e' = em_batchChans e
  end /\
  match l with
  | LTake id b => em_workers e !! id = Some Idle /\
      em_workers e' = <[id := Running b]> (em_workers e) /\
      em_inflightBatches e' = u64 (em_inflightBatches e + 1)
  | LOutcome id b evs => em_workers e !! id = Some (Running b) /\
      em_workers e' = <[id := Sending evs]> (em_workers e) /\
      em_inflightBatches e' = u64 (em_inflightBatches e - 1)
  | LSend id ev => (exists evs, em_workers e !! id = Some (Sending (ev :: evs)) /\
      em_workers e' = <[id := Sending evs]> (em_workers e)) /\
      em_inflightBatches e' = em_inflightBatches e
  | LDone id => em_workers e !! id = Some (Sending []) /\
      em_workers e' = <[id := Idle]> (em_workers e) /\ em_inflightBatches e' = em_inflightBatches e
  | _ => em_workers e' = em_workers e /\ em_inflightBatches e' = em_inflightBatches e
  end /\
  match l with
  | LSend _ ev => len (em_eventChan e) < chanCap /\ em_eventChan e' = em_eventChan e ++ [ev]
  | LReceive ev => em_eventChan e = ev :: em_eventChan e'
  | _ => em_eventChan e' = em_eventChan e
  end.

Lemma em_step_effect e l e' : em_step e l e' -> effect e l e'.
Proof.
  unfold effect. destruct 1 as [ctx b batch e e' H|ctx b batch err e e' H|id batch rest e e' Hwk Hch H
    |id batch resp now events e e' Hwk H|id event events e Hwk Hroom|id e Hwk|event events e Hev].
  - apply Submit_accept in H as (q & Hch & Hlen & ->). ssplit; try done. by exists q.
  - apply Submit_reject in H as ->. by ssplit.
  - destruct (consumeBatch_eq _ _ _ _ _ H) as (? & ? & ? & ? & ? & _). ssplit; try done. by exists rest.
  - destruct (consumeOutcome_eq _ _ _ _ _ _ _ H) as (m & failed & _ & _ & ? & ? & ? & ? & Hin & _).
    rewrite u64_pred in Hin. by ssplit.
  - ssplit; try done. by exists events.
  - by ssplit.
  - by ssplit.
Qed.

Section step_ok.
Context (ex : gmap string executor) (e e' : executorManager) (tr : list label) (l : label).
Context (HE : EMOK ex e tr) (Hst : effect e l e').

Lemma step_queue id q : em_batchChans e' !! id = Some q ->
  submitted id (tr ++ [l]) = taken id (tr ++ [l]) ++ q /\ len q <= chanCap.
Proof using HE Hst.
  destruct Hst as (_ & Hch & _). intros Hq.
  destruct l; projections; try (rewrite Hch in Hq; by apply (eo_queue _ _ _ HE)).
  - destruct Hch as (q0 & Hq0 & Hlen & Hch). rewrite Hch in Hq.
    apply lookup_insert_Some in Hq as [[<- <-]|[Hne Hq]].
    + destruct (eo_queue _ _ _ HE _ _ Hq0) as [-> _]. rewrite decide_True, app_assoc by done.
      rewrite len_app. unfold len at 2. cbn. split; [done|lia].
    + rewrite decide_False, app_nil_r by done. by apply (eo_queue _ _ _ HE).
  - destruct Hch as (rest & Hq0 & Hch). rewrite Hch in Hq.
    apply lookup_insert_Some in Hq as [[<- <-]|[Hne Hq]].
    + destruct (eo_queue _ _ _ HE _ _ Hq0) as [-> Hl]. rewrite decide_True, <- app_assoc by done.
      rewrite len_cons in Hl. split; [done|lia].
    + rewrite decide_False, app_nil_r by done. by apply (eo_queue _ _ _ HE).
Qed.

Lemma step_worker id w : em_workers e' !! id = Some w ->
  taken id (tr ++ [l]) = executed id (tr ++ [l]) ++ inCall w /\
  produced id (tr ++ [l]) = sentBy id (tr ++ [l]) ++ unsent w.
Proof using HE Hst.
  destruct Hst as (_ & _ & Hwk & _). intros Hw.
  assert (H : forall i w0 w1, em_workers e !! i = Some w0 -> em_workers e' = <[i := w1]> (em_workers e) ->
    i = id /\ w = w1 /\ taken id tr = executed id tr ++ inCall w0 /\ produced id tr = sentBy id tr ++ unsent w0 \/
    i <> id /\ taken id tr = executed id tr ++ inCall w /\ produced id tr = sentBy id tr ++ unsent w).
  { intros i w0 w1 Hi Hi'. rewrite Hi' in Hw. apply lookup_insert_Some in Hw as [[<- <-]|[Hne Hw]].
    - left. destruct (eo_worker _ _ _ HE _ _ Hi). done.
    - right. destruct (eo_worker _ _ _ HE _ _ Hw). done. }
  destruct l as [b| |i b|i b evs|i ev|i|ev]; projections.
  4: destruct Hwk as (Hi & Hi' & _). 3: destruct Hwk as (Hi & Hi' & _).
  5: destruct Hwk as ((evs & Hi & Hi') & _). 6: destruct Hwk as (Hi & Hi' & _).
  3-6: destruct (H _ _ _ Hi Hi') as [(-> & -> & H1 & H2)|(Hne & H1 & H2)];
    [rewrite ?decide_True by done|rewrite ?decide_False by done];
    rewrite H1, H2; cbn; rewrite ?app_nil_r, <- ?app_assoc; done.
  all: destruct Hwk as [Hwk _]; rewrite Hwk in Hw; by apply (eo_worker _ _ _ HE).
Qed.

Lemma step_events : sentAll (tr ++ [l]) = received (tr ++ [l]) ++ em_eventChan e' /\
  len (em_eventChan e') <= chanCap.
Proof using HE Hst.
  destruct Hst as (_ & _ & _ & Hch). destruct (eo_events _ _ _ HE) as [Hev Hl].
  destruct l; projections; try (by rewrite Hch).
  - destruct Hch as [Hroom ->]. rewrite Hev, <- app_assoc, len_app. unfold len at 2. cbn. split; [done|lia].
  - rewrite Hch in Hev, Hl. rewrite len_cons in Hl. rewrite Hev, <- app_assoc. split; [done|lia].
Qed.

Lemma step_inflight : em_inflightBatches e' = u64 (runningCount (em_workers e')).
Proof using HE Hst.
  destruct Hst as (_ & _ & Hwk & _). pose proof (eo_inflight _ _ _ HE) as Hin.
  destruct l as [b| |i b|i b evs|i ev|i|ev];
    [destruct Hwk as [-> ->]; done..|destruct Hwk as (Hi & -> & ->)|destruct Hwk as (Hi & -> & ->)
    |destruct Hwk as ((evs & Hi & ->) & ->)|destruct Hwk as (Hi & -> & ->)|destruct Hwk as [-> ->]; done].
  all: rewrite (runningCount_insert _ _ _ _ Hi), Hin; unfold Z.sub; rewrite ?u64_add; f_equal; cbn; lia.
Qed.

Lemma em_step_ok : EMOK ex e' (tr ++ [l]).
Proof using HE Hst.
  split; [| | |apply step_queue|apply step_worker|apply step_events|apply step_inflight].
  - destruct Hst as (-> & _). apply (eo_executors _ _ _ HE).
  - destruct Hst as (_ & Hch & _). pose proof (eo_chans _ _ _ HE) as Hd.
    destruct l; try (by rewrite Hch).
    + destruct Hch as (q & Hq & _ & ->). by eapply dom_insert_same.
    + destruct Hch as (rest & Hq & ->). by eapply dom_insert_same.
  - destruct Hst as (_ & _ & Hwk & _). pose proof (eo_workers _ _ _ HE) as Hd.
    destruct l as [b| |i b|i b evs|i ev|i|ev];
      [by destruct Hwk as [-> _]..|destruct Hwk as (Hi & -> & _)|destruct Hwk as (Hi & -> & _)
      |destruct Hwk as ((evs & Hi & ->) & _)|destruct Hwk as (Hi & -> & _)|by destruct Hwk as [-> _]];
      by eapply dom_insert_same.
Qed.
End step_ok.

Lemma em_run_ok ex tr e : em_run (NewExecutorManager ex) tr e -> EMOK ex e tr.
Proof. induction 1; [apply em_new_ok|eapply em_step_ok; [done|by apply em_step_effect]]. Qed.
