(* ===== verification/ExecutorProperties.v ===== *)
(** * ExecutorProperties: what executors and their manager guarantee

    The batch pipeline between scheduler and remote executors, the translation
    of work items and results, and the start-up (internal/executor). *)

From S2P Require Import Prelude Errors Model Metrics BlockRegistry Placement Executor.
(** ** The pipeline *)

(** C22: The executor manager neither loses, duplicates nor reorders anything.  In
    every run from its creation, for every executor: the batches accepted by
    [Submit] are, in order, those executed, the one in the remote call if any,
    and those still queued; the events its calls produced are, in order, those
    sent and those not sent yet.  All events sent are, in order, those the
    scheduler received and those in the event channel.  No channel exceeds its
    capacity and [inflightBatches] is the number of calls running. *)
Theorem pipeline_order ex tr e id
  (Hrun : em_run (NewExecutorManager ex) tr e) (Hid : is_Some (ex !! id))
  (Hsize : Z.of_nat (size ex) < two64) :
  exists w q, em_workers e !! id = Some w /\ em_batchChans e !! id = Some q /\
    submitted id tr = executed id tr ++ inCall w ++ q /\
    produced id tr = sentBy id tr ++ unsent w /\
    sentAll tr = received tr ++ em_eventChan e /\
    len q <= chanCap /\ len (em_eventChan e) <= chanCap /\
    em_inflightBatches e = runningCount (em_workers e).
Proof.
  apply em_run_ok in Hrun as [_ Hdc Hdw Hq Hw [Hev Hcap] Hin].
  assert (Hc : is_Some (em_batchChans e !! id)) by (by rewrite <- elem_of_dom, Hdc, elem_of_dom).
  assert (Hwk : is_Some (em_workers e !! id)) by (by rewrite <- elem_of_dom, Hdw, elem_of_dom).
  destruct Hc as [q Hq']. destruct Hwk as [w Hw']. exists w, q.
  destruct (Hq _ _ Hq') as [-> Hl]. destruct (Hw _ _ Hw') as [-> Hp]. rewrite <- app_assoc.
  ssplit; try done. rewrite Hin. apply Z.mod_small. split; [unfold runningCount; lia|].
  eapply Z.le_lt_trans; [|exact Hsize]. unfold runningCount. apply inj_le.
  rewrite <- !size_dom, <- Hdw. apply subseteq_size, dom_filter_subseteq.
Qed.

(** The items a call can be made with. *)
Definition executable (work : WorkItem) : Prop :=
  is_Some (wi_BlockAllocation work) /\
  (wi_Phase work = WorkPhaseDecode -> 0 <= wi_NumNewTokens work <= len (wi_TokenIDs work)).

Lemma slice_is_Some {A} (l : list A) lo hi : is_Some (slice l lo hi) <-> 0 <= lo <= hi /\ hi <= len l.
Proof.
  unfold slice. split.
  - intros [x Hx]. repeat case_match; try done. lia.
  - intros [? ?]. repeat case_match; try lia; eauto.
Qed.

Lemma itemToExecute_is_Some work : is_Some (itemToExecute work) <-> executable work.
Proof.
  unfold itemToExecute, executable. destruct (decide (wi_Phase work = WorkPhaseDecode)) as [Hp|Hp].
  - pose proof (slice_is_Some (wi_TokenIDs work) (len (wi_TokenIDs work) - wi_NumNewTokens work)
      (len (wi_TokenIDs work))) as Hs.
    split.
    + intros [x Hx]. destruct (slice _ _ _) as [toks|] eqn:E; [|done]. cbn in Hx.
      destruct (wi_BlockAllocation work); [|done]. split; [eauto|]. intros _.
      assert (is_Some (Some toks)) as Hsome by eauto. apply Hs in Hsome. lia.
    + intros [[a Ha] Hb]. specialize (Hb Hp). destruct (proj2 Hs) as [toks ->]; [lia|]. rewrite Ha. cbn. eauto.
  - split.
    + intros [x Hx]. destruct (wi_BlockAllocation work); [|done]. split; [eauto|done].
    + intros [[a Ha] _]. rewrite Ha. cbn. eauto.
Qed.

Lemma BatchToExecute_is_Some epoch batch :
  is_Some (BatchToExecute epoch batch) <-> Forall executable (bt_Items batch).
Proof.
  unfold BatchToExecute.
  transitivity (Forall (fun w => is_Some (itemToExecute w)) (bt_Items batch)).
  - rewrite <- (mapM_is_Some itemToExecute).
    destruct (mapM itemToExecute (bt_Items batch)); cbn; split; intros [? ?]; eauto; done.
  - split; intros H; (eapply Forall_impl; [exact H|]); intros w; apply itemToExecute_is_Some.
Qed.

Lemma outcome_is_Some m id resp batch now :
  Forall executable (bt_Items batch) -> is_Some (outcome m id resp batch now).
Proof.
  intros H. apply (BatchToExecute_is_Some (es_RuntimeEpoch (ex_runtime m))) in H as [x Hx].
  unfold outcome, Execute. rewrite Hx. cbn. destruct resp; eauto.
Qed.

(** [BatchToExecute] succeeds exactly on batches whose items all have a block
    allocation and, for a decode item, at least as many tokens as it announces.
    The message then carries the items in order with their ids and blocks; a
    decode item sends its last tokens, as many as are new, and counts those
    before as computed; a prefill item sends its tokens from its offset on. *)
Theorem batch_to_execute_exact epoch batch :
  (is_Some (BatchToExecute epoch batch) <-> Forall executable (bt_Items batch)) /\
  forall req, BatchToExecute epoch batch = Some req ->
    eb_BatchId req = bt_BatchID batch /\ eb_RuntimeEpoch req = epoch /\
    Forall2 (fun work item =>
      ei_WorkId item = wi_WorkId work /\ ei_RequestId item = wi_RequestId work /\
      ei_NumNewTokens item = wi_NumNewTokens work /\
      (exists alloc, wi_BlockAllocation work = Some alloc /\ ei_KvBlocks item =
         mkKVBlockMetadata (ba_BlockSize alloc) (ba_BlockTable alloc) (ba_AllocatedBlocks alloc)) /\
      if decide (wi_Phase work = WorkPhaseDecode) then
        len (ei_TokenIds item) = wi_NumNewTokens work /\
        (exists before, wi_TokenIDs work = before ++ ei_TokenIds item) /\
        ei_ComputedTokens item = wi_TokenCntTotal work -u wi_NumNewTokens work
      else ei_TokenIds item = wi_TokenIDs work /\ ei_ComputedTokens item = wi_PrefillOffset work)
      (bt_Items batch) (eb_Items req).
Proof.
  split; [apply BatchToExecute_is_Some|]. intros req. unfold BatchToExecute.
  destruct (mapM itemToExecute (bt_Items batch)) as [items|] eqn:Hm; [|done]. intros [= <-]. cbn.
  split; [done|]. split; [done|]. apply mapM_Some in Hm. eapply Forall2_impl; [exact Hm|].
  intros work item. unfold itemToExecute. destruct (decide (wi_Phase work = WorkPhaseDecode)).
  - destruct (slice _ _ _) as [toks|] eqn:Hs; [|done]. cbn.
    destruct (wi_BlockAllocation work) as [alloc|]; [|done]. intros [= <-]. cbn.
    assert (Hb : is_Some (slice (wi_TokenIDs work) (len (wi_TokenIDs work) - wi_NumNewTokens work)
      (len (wi_TokenIDs work)))) by eauto.
    apply slice_is_Some in Hb. unfold slice in Hs. case_match; [done|]. injection Hs as <-.
    ssplit; try done; [by exists alloc| |].
    + unfold len in *. rewrite length_take, length_drop. lia.
    + exists (take (Z.to_nat (len (wi_TokenIDs work) - wi_NumNewTokens work)) (wi_TokenIDs work)).
      rewrite <- (take_drop (Z.to_nat (len (wi_TokenIDs work) - wi_NumNewTokens work)) (wi_TokenIDs work)) at 1.
      f_equal. symmetry. apply firstn_all2. unfold len in *. rewrite length_drop. lia.
  - destruct (wi_BlockAllocation work) as [alloc|]; [|done]. intros [= <-]. cbn.
    ssplit; try done. by exists alloc.
Qed.

Definition samples (t : EventType) : bool :=
  match t with EventTypePrefillFinished | EventTypeDecodeChunk => true | _ => false end.

(** The engine and the runtime agree on when a token is sampled: for a prefill
    or decode item, the message asks for a sample exactly when the event made
    from its successful result is one that carries a token. *)
Theorem sample_matches_event executorId batchId work item res
  (Hphase : wi_Phase work = WorkPhasePrefill \/ wi_Phase work = WorkPhaseDecode)
  (Hitem : itemToExecute work = Some item) (Hok : er_ErrorMessage res = "") :
  ei_Sample item = samples (ev_Type (resultEvent executorId batchId work res)).
Proof.
  unfold resultEvent, resultError. cbn. rewrite Hok. cbn.
  unfold itemToExecute in Hitem. destruct (decide (wi_Phase work = WorkPhaseDecode)) as [Hp|Hp].
  - destruct (slice _ _ _); [|done]. cbn in Hitem. destruct (wi_BlockAllocation work); [|done].
    injection Hitem as <-. by rewrite Hp.
  - destruct (wi_BlockAllocation work); [|done]. injection Hitem as <-.
    destruct Hphase as [Hph|]; [|done]. rewrite Hph. cbn. by case_match.
Qed.

(** ** One call *)

Lemma worksOf_lookup items works id item :
  foldl (fun (works : gmap string WorkItem) item => <[wi_WorkId item := item]> works) works items !! id = Some item ->
  item ∈ items /\ wi_WorkId item = id \/ works !! id = Some item.
Proof.
  revert works. induction items as [|i items IH]; intros works H; [by right|].
  destruct (IH _ H) as [[Hin Hid]|Hl]; [left; split; [by right|done]|].
  apply lookup_insert_Some in Hl as [[<- <-]|[_ Hl]]; [left; split; [by left|done]|by right].
Qed.

Lemma worksOf_domain items works id :
  is_Some (foldl (fun (works : gmap string WorkItem) item => <[wi_WorkId item := item]> works) works items !! id) <->
  id ∈ wi_WorkId <$> items \/ is_Some (works !! id).
Proof.
  revert works. induction items as [|i items IH]; intros works; cbn.
  { split; [by right|]. by intros [?%not_elem_of_nil|]. }
  rewrite IH, lookup_insert_is_Some, elem_of_cons. destruct (decide (wi_WorkId i = id)); naive_solver.
Qed.

Definition knownResult (items : list WorkItem) (r : ExecuteResult) : Prop :=
  er_WorkId r ∈ wi_WorkId <$> items.

#[export] Instance knownResult_dec items r : Decision (knownResult items r).
Proof. unfold knownResult. apply _. Defined.

(** C30: Every executed batch is answered.  When the remote call fails, every item
    of the batch gets exactly one event, in order: the failure, with the call's
    error, marked [Done].  When it succeeds, every result for a work item of the
    batch gets exactly one event, in order, made from that result and that item;
    results for other work items are dropped. *)
Theorem outcome_answers_batch m id resp batch now
  (Hitems : Forall executable (bt_Items batch)) :
  exists events, outcome m id resp batch now = Some (events, match resp with inl _ => true | inr _ => false end) /\
    match resp with
    | inl err => Forall2 (fun item e =>
        ev_WorkId e = wi_WorkId item /\ ev_RequestId e = wi_RequestId item /\
        ev_BatchId e = bt_BatchID batch /\ ev_ExecutorId e = id /\
        ev_Type e = EventTypeRequestFailed /\ ev_Done e = true /\
        ev_FinishReason e = FinishReasonError /\ ev_Err e = Some err) (bt_Items batch) events
    | inr results => Forall2 (fun r e => exists item, item ∈ bt_Items batch /\
        wi_WorkId item = er_WorkId r /\ e = resultEvent (ex_id m) (bt_BatchID batch) item r)
        (filter (knownResult (bt_Items batch)) results) events
    end.
Proof.
  apply (BatchToExecute_is_Some (es_RuntimeEpoch (ex_runtime m))) in Hitems as [x Hx].
  unfold outcome, Execute. rewrite Hx. cbn. destruct resp as [err|results]; eexists; (split; [done|]).
  - unfold batchFailedEvents. apply Forall2_fmap_r, Forall_Forall2_diag, Forall_true. by intros item.
  - unfold resultEvents. induction results as [|r results IH]; [constructor|]. cbn [omap list_omap].
    pose proof (worksOf_domain (bt_Items batch) ∅ (er_WorkId r)) as Hd.
    destruct (worksOf (bt_Items batch) !! er_WorkId r) as [item|] eqn:Hl; cbn [fmap option_fmap option_map].
    + rewrite filter_cons_True.
      * constructor; [|exact IH]. apply worksOf_lookup in Hl as [[Hin Hid]|Hl]; [by exists item|].
        by rewrite lookup_empty in Hl.
      * unfold worksOf in Hl. rewrite Hl in Hd. destruct (proj1 Hd) as [?|[? Hl']]; [eauto|done|].
        by rewrite lookup_empty in Hl'.
    + rewrite filter_cons_False; [exact IH|]. intros Hk. unfold worksOf in Hl. rewrite Hl in Hd.
      destruct (proj2 Hd) as [? ?]; [by left|done].
Qed.

(** ** Submit *)

(** [Submit] answers by the state: an invalid-argument error without a batch,
    an unavailable error for an unknown executor, and otherwise, the context not
    being done, the batch goes to the end of the executor's channel when that
    holds fewer than 100 batches and a queue-full error comes back when it is
    full.  A done context is answered with its error or the batch is accepted
    into a channel with room.  An error leaves the manager as it was. *)
Theorem submit_exact ctx room_first batch e :
  exists res e', Submit ctx room_first batch e = Some (res, e') /\
    (is_Some res -> e' = e) /\
    match batch with
    | None => CodeOf res = CodeInvalidArgument
    | Some b =>
        match em_batchChans e !! bt_ExecutorID b with
        | None => CodeOf res = CodeExecutorUnavailable
        | Some q =>
            (res = None -> len q < chanCap /\
               e' = e <| em_batchChans := <[bt_ExecutorID b := q ++ [b]]> (em_batchChans e) |>) /\
            match ctx with
            | None => CodeOf res = if len q <? chanCap then "" else CodeQueueFull
            | Some err => res = None \/ res = Some err
            end
        end
    end.
Proof.
  assert (Hrun : is_Some (Submit ctx room_first batch e)).
  { unfold Submit, mbind, M_bind, getS, modS, mret, M_ret. destruct batch as [b|]; [|eauto].
    destruct (em_batchChans e !! bt_ExecutorID b) as [q|]; [|eauto].
    destruct ctx, (len q <? chanCap), room_first; cbn; eauto. }
  destruct Hrun as [[res e'] Hrun]. exists res, e'. split; [done|].
  split; [intros [err ->]; by apply Submit_reject in Hrun|].
  destruct batch as [b|]; [|unfold Submit, mret, M_ret in Hrun; by injection Hrun as <- <-].
  destruct (em_batchChans e !! bt_ExecutorID b) as [q|] eqn:Hq.
  - split.
    + intros ->. apply Submit_accept in Hrun as (q' & Hq' & Hl & ->). rewrite Hq in Hq'. by injection Hq' as <-.
    + unfold Submit, mbind, M_bind, getS, modS, mret, M_ret in Hrun. rewrite Hq in Hrun.
      destruct ctx, (len q <? chanCap), room_first; cbn in Hrun; injection Hrun as <- <-; auto.
  - unfold Submit, mbind, M_bind, getS, mret, M_ret in Hrun. rewrite Hq in Hrun. by injection Hrun as <- <-.
Qed.

(** The pipeline never gets stuck.  In every reachable state in which a batch
    is queued, a consumer is busy or an event waits, some part of the pipeline
    can move on its own, without a new batch, when the submitted batches can be
    translated: a consumer takes a batch, a call
    returns whatever its answer, an event is sent, a consumer finishes or the
    scheduler receives. *)
Theorem pipeline_progress ex tr e
  (Hrun : em_run (NewExecutorManager ex) tr e)
  (Hitems : forall id b, b ∈ submitted id tr -> Forall executable (bt_Items b))
  (Hbusy : em_eventChan e <> [] \/ (exists id q, em_batchChans e !! id = Some q /\ q <> []) \/
     exists id w, em_workers e !! id = Some w /\ w <> Idle)
  (resp : error + list ExecuteResult) (now : Time) :
  exists l e', em_step e l e' /\ match l with LSubmit _ | LReject => False | _ => True end.
Proof.
  apply em_run_ok in Hrun as [Hex Hdc Hdw Hqu Hwo _ _].
  destruct (em_eventChan e) as [|ev evs] eqn:Hev.
  2: { exists (LReceive ev). eexists. by split; [apply (es_receive ev evs)|]. }
  assert (Hw : forall id w, em_workers e !! id = Some w -> w <> Idle ->
    exists l e', em_step e l e' /\ match l with LSubmit _ | LReject => False | _ => True end).
  { intros id [|batch|[|event events]] Hw Hne; [done| | |].
    - assert (is_Some (em_batchChans e !! id)) as [q Hq]
        by (rewrite <- elem_of_dom, Hdc, <- Hdw; by apply elem_of_dom_2 in Hw).
      assert (Hb : Forall executable (bt_Items batch)).
      { apply (Hitems id). rewrite (proj1 (Hqu _ _ Hq)), (proj1 (Hwo _ _ Hw)). cbn. set_solver. }
      assert (is_Some (em_executors e !! id)) as [m Hm]
        by (rewrite Hex, <- elem_of_dom, <- Hdw; by apply elem_of_dom_2 in Hw).
      destruct (outcome_is_Some m id resp batch now Hb) as [[events failed] Ho].
      assert (is_Some (consumeOutcome id batch resp now e)) as [[events' e'] Hc].
      { unfold consumeOutcome, runOutcome, mbind, M_bind, getsO. cbn. rewrite Hm. cbn. rewrite Ho.
        cbn. destruct failed; cbn; eauto. }
      exists (LOutcome id batch events'), e'. by split; [apply (es_outcome id batch resp now)|].
    - exists (LDone id). eexists. by split; [apply es_done|].
    - exists (LSend id event). eexists. split; [|done]. apply es_send; [done|]. by rewrite Hev. }
  destruct Hbusy as [Hb|[(id & q & Hq & Hne)|(id & w & Hid & Hne)]]; [done| |by eapply Hw].
  assert (is_Some (em_workers e !! id)) as [w Hid]
    by (rewrite <- elem_of_dom, Hdw, <- Hdc; by apply elem_of_dom_2 in Hq).
  destruct w as [|b0|evs0]; [|by eapply Hw..].
  destruct q as [|b rest]; [done|]. exists (LTake id b). eexists. by split; [apply (es_take id b rest)|].
Qed.

(** ** Start-up *)

(** The runtime that one of the first three attempts returned, those before it
    having failed. *)
Definition answers (attempt : nat -> error + ExecutorStats) (rt : ExecutorStats) : Prop :=
  exists i, (i < 3)%nat /\ attempt i = inr rt /\ forall j, (j < i)%nat -> exists err, attempt j = inl err.

Lemma fetchRuntime_spec attempt rt : fetchRuntime attempt 0 3 = inr rt <-> answers attempt rt.
Proof.
  unfold answers. cbn. split.
  - destruct (attempt 0%nat) as [e0|r0] eqn:E0; [|intros [= <-]; exists 0%nat; split_and!; [lia|done|lia]].
    destruct (attempt 1%nat) as [e1|r1] eqn:E1; [|intros [= <-]; exists 1%nat; split_and!; [lia|done|]].
    2: { intros [|j] ?; [eauto|lia]. }
    intros E2. exists 2%nat. split_and!; [lia|by destruct (attempt 2%nat)|]. intros [|[|j]] ?; eauto; lia.
  - intros ([|[|[|i]]] & Hi & Ha & Hj); [| | |lia].
    + by rewrite Ha.
    + destruct (Hj 0%nat) as [e0 ->]; [lia|]. by rewrite Ha.
    + destruct (Hj 0%nat) as [e0 ->]; [lia|]. destruct (Hj 1%nat) as [e1 ->]; [lia|]. by rewrite Ha.
Qed.

Lemma newExecutor_spec attempt cfg exec :
  newExecutor attempt cfg = inr exec <->
  exists rt, answers attempt rt /\ es_ExecutorId rt = ec_ExecutorID cfg /\
    exec = mkExecutor (ec_ExecutorID cfg) rt (ec_Address cfg).
Proof.
  unfold newExecutor. destruct (fetchRuntime attempt 0 3) as [err|rt] eqn:Hf.
  - split; [done|]. intros (rt & Ha & _). apply fetchRuntime_spec in Ha. congruence.
  - pose proof (proj1 (fetchRuntime_spec _ _) Hf) as Ha.
    destruct (String.eqb_spec (es_ExecutorId rt) (ec_ExecutorID cfg)) as [He|He]; cbn; split.
    + intros [= <-]. by exists rt.
    + intros (rt' & Ha' & _ & ->). apply fetchRuntime_spec in Ha'. congruence.
    + done.
    + intros (rt' & Ha' & ? & _). apply fetchRuntime_spec in Ha'. congruence.
Qed.

(** An entry the start-up accepts, and its executor. *)
Definition accepted (connect : ExecutorConf -> nat -> error + ExecutorStats) (ec : ExecutorConf)
    (exec : executor) : Prop :=
  ec_ExecutorID ec <> "" /\ ec_Address ec <> [] /\ newExecutor (connect ec) ec = inr exec.

Lemma newExecutors_cons connect ec cfgs exs res :
  newExecutors connect (ec :: cfgs) exs = inr res <->
  exists exec, accepted connect ec exec /\ exs !! ec_ExecutorID ec = None /\
    newExecutors connect cfgs (<[ec_ExecutorID ec := exec]> exs) = inr res.
Proof.
  cbn [newExecutors]. unfold accepted. destruct (String.eqb_spec (ec_ExecutorID ec) "") as [Hid|Hid]; [naive_solver|].
  assert (Hlen : ec_Address ec = [] <-> len (ec_Address ec) = 0).
  { destruct (ec_Address ec) as [|a l]; [done|]. rewrite len_cons. pose proof (len_nonneg l). split; [done|lia]. }
  destruct (Z.eqb_spec (len (ec_Address ec)) 0) as [Ha|Ha]; [naive_solver|].
  destruct (newExecutor (connect ec) ec) as [err|exec]; [naive_solver|].
  destruct (exs !! ec_ExecutorID ec) as [old|]; naive_solver.
Qed.

Lemma newExecutors_spec connect cfgs exs res :
  newExecutors connect cfgs exs = inr res <->
  NoDup (ec_ExecutorID <$> cfgs) /\ (forall ec, ec ∈ cfgs -> exs !! ec_ExecutorID ec = None) /\
  exists es, Forall2 (accepted connect) cfgs es /\
    res = list_to_map (zip (ec_ExecutorID <$> cfgs) es) ∪ exs.
Proof.
  revert exs. induction cfgs as [|ec cfgs IH]; intros exs.
  { cbn. split.
    - intros [= ->]. split; [constructor|]. split; [by intros ec ?%not_elem_of_nil|]. exists []. split; [constructor|].
      by rewrite (left_id_L ∅ _).
    - intros (_ & _ & es & Hes & ->). apply Forall2_nil_inv_l in Hes as ->. by rewrite (left_id_L ∅ _). }
  assert (Hmap : forall exec es, ec_ExecutorID ec ∉ ec_ExecutorID <$> cfgs -> Forall2 (accepted connect) cfgs es ->
    list_to_map (zip (ec_ExecutorID <$> cfgs) es) ∪ <[ec_ExecutorID ec:=exec]> exs =
    list_to_map (zip (ec_ExecutorID <$> (ec :: cfgs)) (exec :: es)) ∪ exs).
  { intros exec es Hnot Hes. cbn. rewrite <- insert_union_l, insert_union_r; [done|].
    apply not_elem_of_list_to_map_1. rewrite fst_zip; [done|]. rewrite length_fmap. apply Forall2_length in Hes. lia. }
  rewrite newExecutors_cons, fmap_cons, NoDup_cons. split.
  - intros (exec & Hacc & Hold & Hrest). apply IH in Hrest as (Hnd & Hfree & es & Hes & ->).
    assert (Hnot : ec_ExecutorID ec ∉ ec_ExecutorID <$> cfgs).
    { intros (ec' & E & Hin)%list_elem_of_fmap. specialize (Hfree ec' Hin).
      rewrite E, lookup_insert_eq in Hfree. done. }
    split; [done|]. split.
    + intros ec' [->|Hin]%elem_of_cons; [done|]. specialize (Hfree ec' Hin).
      by apply lookup_insert_None in Hfree as [? _].
    + exists (exec :: es). split; [by constructor|]. by apply Hmap.
  - intros ([Hnot Hnd] & Hfree & es & Hes & ->).
    apply Forall2_cons_inv_l in Hes as (exec & es' & Hacc & Hes & ->).
    exists exec. split; [done|]. split; [apply Hfree; by left|]. apply IH.
    split; [done|]. split.
    + intros ec' Hin. rewrite lookup_insert_ne; [apply Hfree; by right|]. intros E. apply Hnot.
      rewrite E. by apply list_elem_of_fmap_2.
    + exists es'. split; [done|]. symmetry. by apply Hmap.
Qed.

Lemma NewExecutors_spec connect cfgs exs :
  NewExecutors connect cfgs = inr exs <->
  cfgs <> [] /\ NoDup (ec_ExecutorID <$> cfgs) /\ exists es, Forall2 (accepted connect) cfgs es /\
    exs = list_to_map (zip (ec_ExecutorID <$> cfgs) es).
Proof.
  unfold NewExecutors. pose proof (newExecutors_spec connect cfgs ∅) as H.
  destruct (newExecutors connect cfgs ∅) as [err|exs'].
  - split; [done|]. intros (_ & Hnd & es & Hes & _).
    destruct (H (list_to_map (zip (ec_ExecutorID <$> cfgs) es) ∪ ∅)) as [_ H']. discriminate H'.
    split; [done|]. split; [intros; apply lookup_empty|]. by exists es.
  - destruct (H exs') as [[Hnd [_ (es & Hes & E)]] _]; [done|]. rewrite (right_id_L ∅ _) in E. subst exs'.
    destruct (Nat.eqb_spec (size (list_to_map (M:=gmap string executor) (zip (ec_ExecutorID <$> cfgs) es))) 0) as [Hz|Hz].
    + split; [done|]. intros (Hne & _). apply map_size_empty_inv in Hz.
      destruct Hes; [done|]. cbn in Hz. by apply insert_non_empty in Hz.
    + split.
      * intros [= <-]. split; [by destruct Hes|]. split; [done|]. by exists es.
      * intros (_ & _ & es' & Hes' & ->). f_equal. f_equal. f_equal.
        clear -Hes Hes'. revert es' Hes'. induction Hes as [|ec e cfgs es He _ IH]; intros es' Hes';
          inversion Hes' as [|? e' ? es'' He' ?]; subst; [done|]. f_equal; [|by apply IH].
        destruct He as (_ & _ & ?), He' as (_ & _ & ?). congruence.
Qed.

Lemma zip_elem_fst {A B K} (f : A -> K) (P : A -> B -> Prop) l k x y :
  Forall2 P l k -> (x, y) ∈ zip (f <$> l) k -> exists a, a ∈ l /\ x = f a /\ P a y.
Proof.
  induction 1 as [|a b l k Hab _ IH]; cbn; [by intros ?%not_elem_of_nil|].
  intros [[= -> ->]|Hin]%elem_of_cons; [exists a; split; [by left|done]|].
  destruct (IH Hin) as (a' & ? & ?). exists a'. split; [by right|done].
Qed.

Lemma elem_zip {A B K} (f : A -> K) (P : A -> B -> Prop) l k a :
  Forall2 P l k -> a ∈ l -> exists b, P a b /\ (f a, b) ∈ zip (f <$> l) k.
Proof.
  induction 1 as [|a' b l k Hab _ IH]; cbn; [by intros ?%not_elem_of_nil|].
  intros [->|Hin]%elem_of_cons; [exists b; split; [done|by left]|].
  destruct (IH Hin) as (b' & ? & ?). exists b'. split; [done|by right].
Qed.

Lemma accepted_spec connect ec exec :
  accepted connect ec exec <-> ec_ExecutorID ec <> "" /\ ec_Address ec <> [] /\
    exists rt, answers (connect ec) rt /\ es_ExecutorId rt = ec_ExecutorID ec /\
      exec = mkExecutor (ec_ExecutorID ec) rt (ec_Address ec).
Proof. unfold accepted. by rewrite newExecutor_spec. Qed.

Lemma answers_inj attempt rt rt' : answers attempt rt -> answers attempt rt' -> rt = rt'.
Proof. rewrite <- !fetchRuntime_spec. congruence. Qed.

(** What the map of the executors holds; each runtime carries its id. *)
Lemma NewExecutors_lookup connect cfgs exs id exec : NewExecutors connect cfgs = inr exs ->
  exs !! id = Some exec <-> exists ec rt, ec ∈ cfgs /\ id = ec_ExecutorID ec /\
    answers (connect ec) rt /\ exec = mkExecutor id rt (ec_Address ec).
Proof.
  intros (_ & Hnd & es & Hes & ->)%NewExecutors_spec.
  rewrite <- elem_of_list_to_map by (rewrite fst_zip; [done|]; rewrite length_fmap; apply Forall2_length in Hes; lia).
  split.
  - intros (ec & Hin & -> & Hacc)%(zip_elem_fst _ _ _ _ _ _ Hes). apply accepted_spec in Hacc as (_ & _ & rt & ? & _ & ->).
    by exists ec, rt.
  - intros (ec & rt & Hin & -> & Hans & ->).
    destruct (elem_zip ec_ExecutorID _ _ _ _ Hes Hin) as (exec & Hacc & Hz).
    apply accepted_spec in Hacc as (_ & _ & rt' & Hans' & _ & ->).
    by rewrite (answers_inj _ _ _ Hans Hans').
Qed.

Lemma NewExecutors_id connect cfgs exs id exec : NewExecutors connect cfgs = inr exs -> exs !! id = Some exec ->
  es_ExecutorId (ex_runtime exec) = id /\ exists ec, ec ∈ cfgs /\ answers (connect ec) (ex_runtime exec).
Proof.
  intros Hnew. pose proof Hnew as (_ & Hnd & es & Hes & ->)%NewExecutors_spec.
  rewrite <- elem_of_list_to_map by (rewrite fst_zip; [done|]; rewrite length_fmap; apply Forall2_length in Hes; lia).
  intros (ec & Hin & -> & Hacc)%(zip_elem_fst _ _ _ _ _ _ Hes). apply accepted_spec in Hacc as (_ & _ & rt & ? & ? & ->).
  split; [done|]. by exists ec.
Qed.

(** The start-up registers exactly the configured executors or fails: it
    succeeds precisely when there is an entry, the ids are distinct and not
    empty, every entry has an address, and each executor answers one of three
    attempts with a runtime that carries its own id; the map then holds, for
    every entry and nothing else, that runtime. *)
Theorem new_executors_exact connect cfgs :
  ((exists exs, NewExecutors connect cfgs = inr exs) <->
   cfgs <> [] /\ NoDup (ec_ExecutorID <$> cfgs) /\
   forall ec, ec ∈ cfgs -> ec_ExecutorID ec <> "" /\ ec_Address ec <> [] /\
     exists rt, answers (connect ec) rt /\ es_ExecutorId rt = ec_ExecutorID ec) /\
  forall exs, NewExecutors connect cfgs = inr exs -> forall id exec,
    exs !! id = Some exec <-> exists ec rt, ec ∈ cfgs /\ id = ec_ExecutorID ec /\
      answers (connect ec) rt /\ exec = mkExecutor id rt (ec_Address ec).
Proof.
  split.
  - setoid_rewrite NewExecutors_spec. split.
    + intros (exs & Hne & Hnd & es & Hes & _). split; [done|]. split; [done|]. intros ec Hin.
      destruct (elem_zip ec_ExecutorID _ _ _ _ Hes Hin) as (e & He & _). apply accepted_spec in He.
      naive_solver.
    + intros (Hne & Hnd & Hall).
      assert (exists es, Forall2 (accepted connect) cfgs es) as [es Hes]; [|eauto 10].
      apply Forall_exists_Forall2_l, Forall_forall. intros ec Hin.
      destruct (Hall ec Hin) as (? & ? & rt & ? & ?). eexists. apply accepted_spec. eauto 10.
  - intros exs Hnew id exec. by apply NewExecutors_lookup.
Qed.
