(* ===== verification/ExecutorExamples.v ===== *)
(** * ExecutorExamples: a batch through the pipeline of one executor

    A batch of a prefill and a decode item is submitted to an executor, taken
    and answered; the witnesses of the theorems of ExecutorProperties. *)

From S2P Require Import Prelude Errors Model Metrics BlockRegistry Placement Executor ExecutorProperties.
Definition runtime1 : ExecutorStats :=
  mkExecutorStats "e0" 5 "mock" "qwen3" "bf16" "cpu" 1 2 4 1 1 1 0 0 0 "r" 1 "kv" "".
Definition exec0 : executor := mkExecutor "e0" runtime1 ["localhost:1"].
Definition execs0 : gmap string executor := <["e0" := exec0]> ∅.
Definition allocation0 : BlockAllocation :=
  mkBlockAllocation "r0" "w0" 2 WorkPhasePrefill [0; 1] [] [0; 1] 3.
Definition prefill0 : WorkItem :=
  mkWorkItem "w0" "r0" "e0" WorkPhasePrefill 0 4 "mock" None [97; 98; 99] 3 (Some allocation0) 0 0 3 0 0.
Definition decode0 : WorkItem :=
  mkWorkItem "w1" "r1" "e0" WorkPhaseDecode 0 4 "mock" None [97; 98; 99] 3 (Some allocation0) 0 1 1 0 0.
Definition batch0 : Batch := mkBatch "b0" "e0" 2 0 [prefill0; decode0].
Definition result0 : ExecuteResult := mkExecuteResult "w0" "r0" 7 false FinishReasonUnspecified 3 1 2 "".
Definition result1 : ExecuteResult := mkExecuteResult "other" "r9" 7 false FinishReasonUnspecified 3 1 2 "".
Definition answer0 : error + list ExecuteResult := inr [result0; result1].
Definition event1 : Event := resultEvent "e0" "b0" prefill0 result0.

Definition emAfter {A} (c : M executorManager A) (e : executorManager) : executorManager :=
  match c e with Some (_, e') => e' | None => e end.

Definition em0 : executorManager := NewExecutorManager execs0.
Definition em1 : executorManager := emAfter (Submit None true (Some batch0)) em0.
Definition em2 : executorManager := emAfter (consumeBatch "e0" batch0 []) em1.
Definition em3 : executorManager := emAfter (consumeOutcome "e0" batch0 answer0 0) em2.

Definition trace3 : list label := [LSubmit batch0; LTake "e0" batch0; LOutcome "e0" batch0 [event1]].

Lemma run3 : em_run em0 trace3 em3.
Proof.
  change trace3 with ((([] ++ [LSubmit batch0]) ++ [LTake "e0" batch0]) ++ [LOutcome "e0" batch0 [event1]]).
  eapply er_snoc; [eapply er_snoc; [eapply er_snoc; [apply er_nil|]|]|].
  - apply (es_submit None true). by vm_compute.
  - apply (es_take "e0" batch0 []); by vm_compute.
  - apply (es_outcome "e0" batch0 answer0 0); by vm_compute.
Qed.

Lemma pipeline_order_witness :
  submitted "e0" trace3 = [batch0] /\ exists q, submitted "e0" trace3 = executed "e0" trace3 ++ q.
Proof.
  assert (Hid : is_Some (execs0 !! "e0")) by (by exists exec0).
  destruct (pipeline_order execs0 trace3 em3 "e0" run3 Hid eq_refl) as (w & q & _ & _ & H & _).
  split; [by vm_compute|]. by exists (inCall w ++ q).
Defined.

Lemma items0_executable : Forall executable (bt_Items batch0).
Proof.
  constructor; [|constructor; [|constructor]]; (split; [by exists allocation0|]); intros H;
    [discriminate H|by split].
Qed.

Lemma pipeline_progress_witness : exists l e', em_step em3 l e'.
Proof.
  assert (Hitems : forall id b, b ∈ submitted id trace3 -> Forall executable (bt_Items b)).
  { intros id b Hb. cbn in Hb. case_decide; [|by apply not_elem_of_nil in Hb].
    apply list_elem_of_singleton in Hb as ->. exact items0_executable. }
  assert (Hbusy : em_eventChan em3 <> [] \/ (exists id q, em_batchChans em3 !! id = Some q /\ q <> []) \/
    exists id w, em_workers em3 !! id = Some w /\ w <> Idle).
  { right. right. exists "e0", (Sending [event1]). split; [by vm_compute|done]. }
  destruct (pipeline_progress execs0 trace3 em3 run3 Hitems Hbusy answer0 0) as (l & e' & H & _).
  by exists l, e'.
Defined.

Lemma outcome_answers_batch_witness :
  outcome exec0 "e0" answer0 batch0 0 = Some ([event1], false).
Proof.
  destruct (outcome_answers_batch exec0 "e0" answer0 batch0 0 items0_executable) as (events & -> & H).
  cbn in H. change (filter _ _) with [result0] in H.
  apply Forall2_cons_inv_l in H as (e & rest & (item & Hin & Hid & ->) & Hr & ->).
  apply Forall2_nil_inv_l in Hr as ->.
  apply elem_of_cons in Hin as [->|Hin]; [done|]. apply list_elem_of_singleton in Hin as ->. done.
Defined.

Lemma sample_matches_event_witness : samples (ev_Type event1) = true.
Proof.
  destruct (itemToExecute prefill0) as [item|] eqn:Hitem; [|done].
  pose proof (sample_matches_event "e0" "b0" prefill0 item result0 (or_introl eq_refl) Hitem eq_refl) as H.
  cbn in Hitem. injection Hitem as <-. by symmetry.
Defined.
