(* ===== verification/Queues.v ===== *)
(** * Queues: the work queues of the scheduler (internal/scheduler)

    The prefill and decode queues are bounded lists of work items
    (prefill_queue.go, decode_queue.go); [Pop], [Peek] and the decode [Dequeue]
    ask the request manager whether an item may still run and drop those that
    may not, so they run on the queue and the request manager together.  The
    lock-free ring buffer (queue_lock_free.go) is a component the engine does not
    use; its positions are 64-bit counters that wrap.

    The entries of the decode queue carry two fields [deficit] and [quant] that
    are always 0 and never read; an entry is its work item. *)

From S2P Require Import Prelude Errors Model BlockRegistry StateMachine.
(** ** Bounded queues *)

Record workQueue := mkWorkQueue {
  wq_works : list WorkItem;
  wq_size : Z    (* uint32 *)
}.
#[export] Instance workQueue_eta : Eta workQueue := fun q => mkWorkQueue (wq_works q) (wq_size q).

(** [NewPrefillQueue] and [NewDecodeQueue] with the configured length. *)
Definition NewQueue (queueLength : Z) : workQueue :=
  mkWorkQueue [] (if queueLength =? 0 then 100 else queueLength).

(** [Enqueue] of the queue called [name]. *)
Definition QueueEnqueue (name : string) (work : WorkItem) : M workQueue (option error) :=
  q ← getS;
  if wq_size q <=? u32 (len (wq_works q))
  then mret (Some (New CodeQueueFull (name +:+ " is full")))
  else modS (fun q => q <| wq_works := wq_works q ++ [work] |>) ;; mret None.

Definition QueueRequeue (work : WorkItem) : M workQueue unit :=
  modS (fun q => q <| wq_works := wq_works q ++ [work] |>).

Definition QueueLength (q : workQueue) : Z := u32 (len (wq_works q)).

Definition QueueAvailableSpace (q : workQueue) : Z :=
  if wq_size q <=? u32 (len (wq_works q)) then 0 else wq_size q -u u32 (len (wq_works q)).

(** The loops of [Pop] and [Peek] on the works: the item found and the works
    left. *)
Fixpoint popLoop (works : list WorkItem) : M stateManager (option WorkItem * list WorkItem) :=
  match works with
  | [] => mret (None, [])
  | work :: works =>
      ok ← CanSchedule work;
      if ok : bool then mret (Some work, works) else popLoop works
  end.

Fixpoint peekLoop (works : list WorkItem) : M stateManager (option WorkItem * list WorkItem) :=
  match works with
  | [] => mret (None, [])
  | work :: works' =>
      ok ← CanSchedule work;
      if ok : bool then mret (Some work, works) else peekLoop works'
  end.

(** The loop of the decode [Dequeue], [n] rounds left. *)
Fixpoint dequeueLoop (n : nat) (works : list WorkItem)
    : M stateManager (list WorkItem * list WorkItem) :=
  match n, works with
  | S n, work :: works =>
      ok ← CanSchedule work;
      r ← dequeueLoop n works;
      mret (if ok : bool then (work :: r.1, r.2) else r)
  | _, _ => mret ([], works)
  end.

(** budget.go *)
Definition DefaultDecodeBudgetTokensPlanned : Z := 1.

Definition WorkBudgetCost (work : WorkItem) : Z :=
  match wi_Phase work with
  | WorkPhasePrefill =>
      if 0 <? wi_NumNewTokens work then wi_NumNewTokens work else u32 (len (wi_TokenIDs work))
  | WorkPhaseDecode => DefaultDecodeBudgetTokensPlanned
  | WorkPhaseOther _ => 0
  end.

(** The loop of the prefill [Dequeue] (not part of the queue's interface). *)
Fixpoint prefillDequeueLoop (tokens used : Z) (works : list WorkItem) : list WorkItem * list WorkItem :=
  match works with
  | [] => ([], [])
  | work :: works' =>
      let cost := WorkBudgetCost work in
      if tokens <? used +u cost then ([], works)
      else
        let r := prefillDequeueLoop tokens (used +u cost) works' in
        (work :: r.1, r.2)
  end.

Definition PrefillDequeue (tokens : Z) : M workQueue (list WorkItem) :=
  q ← getS;
  if (tokens =? 0) || (len (wq_works q) =? 0) then mret []
  else
    let '(workList, works) := prefillDequeueLoop tokens 0 (wq_works q) in
    match workList, works with
    | [], work :: works => modS (fun q => q <| wq_works := works |>) ;; mret [work]
    | _, _ => modS (fun q => q <| wq_works := works |>) ;; mret workList
    end.

(** ** The lock-free ring buffer *)

Record lockFreeQueue := mkLockFreeQueue {
  lf_buf : list (option WorkItem);
  lf_size : Z;          (* uint64 *)
  lf_writePos : Z;      (* uint64 *)
  lf_reclaimPos : Z     (* uint64 *)
}.
#[export] Instance lockFreeQueue_eta : Eta lockFreeQueue := fun q =>
  mkLockFreeQueue (lf_buf q) (lf_size q) (lf_writePos q) (lf_reclaimPos q).

Definition lfLength (q : lockFreeQueue) : Z := u64 (lf_writePos q - lf_reclaimPos q).
Definition lfAvailableSpace (q : lockFreeQueue) : Z :=
  u64 (lf_size q - u64 (lf_writePos q - lf_reclaimPos q)).

(** [Pop] and [Peek] panic. *)
Definition lfPop : M lockFreeQueue (error + WorkItem) := fun _ => None.
Definition lfPeek : M lockFreeQueue (error + WorkItem) := fun _ => None.

Definition lfEnqueue (task : WorkItem) : M lockFreeQueue (option error) :=
  q ← getS;
  if lfAvailableSpace q =? 0 then mret (Some (TextError "lockFreeQueue is full"))
  else
    let w := lf_writePos q in
    buf ← getsO (fun q => store (lf_buf q) (Z.land w (u64 (lf_size q - 1))) (Some task));
    modS (fun q => q <| lf_buf := buf |>) ;;
    modS (fun q => q <| lf_writePos := u64 (lf_writePos q + 1) |>) ;;
    mret None.

(** Returns the tasks taken; an entry never written is a nil pointer. *)
Definition lfDequeue (n : Z) : M lockFreeQueue (list (option WorkItem)) :=
  q ← getS;
  let remainTasks := u64 (lf_writePos q - lf_reclaimPos q) in
  let n := if remainTasks <? n then remainTasks else n in
  let pos := Z.land (lf_reclaimPos q) (u64 (lf_size q - 1)) in
  taskList ← getsO (fun q =>
    if u64 (lf_size q - 1) <? u64 (pos + n) then
      a ← slice (lf_buf q) pos (len (lf_buf q));
      b ← slice (lf_buf q) 0 (u64 (n - u64 (lf_size q - pos)));
      Some (a ++ b)
    else slice (lf_buf q) pos (u64 (pos + n)));
  modS (fun q => q <| lf_reclaimPos := u64 (lf_reclaimPos q + n) |>) ;;
  mret taskList.
