(* ===== verification/RequestFrame.v ===== *)
(** * RequestFrame: what ending a request leaves alone

    [CanSchedule] and [Fail] may remove one request from the request manager and
    free its blocks.  [shrinks s s'] says that this is all that happened between
    [s] and [s']: the live requests are some of those before, unchanged, and
    every block manager kept the tables and pending allocations of the requests
    that are still live and took no new reference. *)

From S2P Require Import Prelude Errors Model Metrics FreeQueue BlockManager BlockProperties BlockRegistry StateMachine.
Lemma wp_bind_inv {S A B} (c : M S A) (f : A -> M S B) Q s :
  wp (c ≫= f) Q s -> wp c (fun a => wp (f a) Q) s.
Proof. unfold wp, mbind, M_bind. by destruct (c s) as [[a s']|]. Qed.

Record mshrinks (keep : string -> Prop) (m m' : manager) : Prop := mkMShrinks {
  ms_bs : m_blockSize m' = m_blockSize m;
  ms_id : m_executorID m' = m_executorID m;
  ms_len : len (m_blocks m') = len (m_blocks m);
  ms_table : forall id, keep id -> m_requestBlocks m' !! id = m_requestBlocks m !! id;
  ms_pending : forall w a, m_pendingAllocations m' !! w = Some a -> m_pendingAllocations m !! w = Some a;
  ms_kept : forall w a, m_pendingAllocations m !! w = Some a -> keep (ba_RequestID a) ->
    m_pendingAllocations m' !! w = Some a;
  ms_refs : exists gone, tab (m_requestBlocks m) ≡ₚ gone ++ tab (m_requestBlocks m')
}.

Lemma mshrinks_refl keep m : mshrinks keep m m.
Proof. split; try done. by exists []. Qed.

Lemma mshrinks_trans (keep1 keep2 : string -> Prop) m1 m2 m3 :
  (forall id, keep2 id -> keep1 id) -> mshrinks keep1 m1 m2 -> mshrinks keep2 m2 m3 -> mshrinks keep2 m1 m3.
Proof.
  intros Hk [A1 A2 A3 A4 A5 A6 (g1 & A7)] [B1 B2 B3 B4 B5 B6 (g2 & B7)]. split; try congruence.
  - intros id Hid. rewrite B4, A4 by auto. done.
  - auto.
  - auto.
  - exists (g1 ++ g2). by rewrite <- app_assoc, <- B7.
Qed.

Definition live_in (s : stateManager) (id : string) : Prop := is_Some (sm_requests s !! id).

Record shrinks (s s' : stateManager) : Prop := mkShrinks {
  sh_now : sm_now s' = sm_now s;
  sh_requests : sm_requests s' ⊆ sm_requests s;
  sh_ids : r_executorIDs (sm_registry s') = r_executorIDs (sm_registry s);
  sh_transfers : r_pendingTransfers (sm_registry s') = r_pendingTransfers (sm_registry s);
  sh_managers : forall e, option_Forall2 (mshrinks (live_in s'))
    (r_managers (sm_registry s) !! e) (r_managers (sm_registry s') !! e)
}.

Lemma shrinks_live s s' id : shrinks s s' -> live_in s' id -> live_in s id.
Proof. intros Hs [req Hr]. exists req. by eapply lookup_weaken, sh_requests. Qed.

(** Only these parts of the state matter. *)
Lemma shrinks_same s s' :
  sm_now s' = sm_now s -> sm_requests s' = sm_requests s -> sm_registry s' = sm_registry s ->
  shrinks s s'.
Proof.
  intros Hn Hr Hg. split; rewrite ?Hg; try done; [by rewrite Hr|].
  intros e. destruct (r_managers (sm_registry s) !! e); constructor. apply mshrinks_refl.
Qed.

Lemma shrinks_trans s1 s2 s3 : shrinks s1 s2 -> shrinks s2 s3 -> shrinks s1 s3.
Proof.
  intros [A1 A2 A3 A4 A5] H2. pose proof H2 as [B1 B2 B3 B4 B5]. split; try congruence.
  - by etrans.
  - intros e. specialize (A5 e). specialize (B5 e). inversion A5 as [m m' Hm E1 E2|E1 E2]; rewrite <- E2 in B5.
    + inversion B5 as [? m'' Hm' E3 E4|]; subst. constructor.
      eapply mshrinks_trans; [|exact Hm|exact Hm']. intros id. by apply shrinks_live.
    + inversion B5. constructor.
Qed.

Lemma shrinks_manager s s' e m' : shrinks s s' -> r_managers (sm_registry s') !! e = Some m' ->
  exists m, r_managers (sm_registry s) !! e = Some m /\ mshrinks (live_in s') m m'.
Proof.
  intros Hs Hm. pose proof (sh_managers _ _ Hs e) as H. rewrite Hm in H.
  inversion H as [m ? Hm'|]; subst. by exists m.
Qed.

Lemma shrinks_manager_some s s' e m : shrinks s s' -> r_managers (sm_registry s) !! e = Some m ->
  exists m', r_managers (sm_registry s') !! e = Some m' /\ mshrinks (live_in s') m m'.
Proof.
  intros Hs Hm. pose proof (sh_managers _ _ Hs e) as H. rewrite Hm in H.
  inversion H as [? m' Hm'|]; subst. by exists m'.
Qed.

Lemma FreeRequest_shrinks m pins p rid (keep : string -> Prop) :
  Inv m pins p -> ~ keep rid -> wp (FreeRequest rid) (fun _ m' => mshrinks keep m m') m.
Proof.
  intros HI Hk. wp_use (FreeRequest_inv m pins p rid HI).
  intros _ m' (Hrb & _ & Hpd & _ & Hbs & He & p' & HI' & Hc). split; try done.
  - rewrite <- (rep_info_len _ _ (inv_rep _ _ _ HI')), <- (rep_info_len _ _ (inv_rep _ _ _ HI)).
    by apply content_len.
  - intros id Hid. rewrite Hrb. apply lookup_delete_ne. by intros ->.
  - intros w a. rewrite Hpd. by intros [? _]%map_lookup_filter_Some.
  - intros w a Ha Hka. rewrite Hpd. apply map_lookup_filter_Some. split; [done|]. intros E. cbn in E. by rewrite E in Hka.
  - exists (default [] (m_requestBlocks m !! rid)). rewrite Hrb. apply tab_split.
Qed.

Lemma deleteRequest_shrinks s id req :
  SMOK s -> sm_requests s !! id = Some req ->
  wp (deleteRequest id) (fun _ s' => shrinks s s') s.
Proof.
  intros HS Hreq. destruct (so_exec _ HS _ _ Hreq) as [_ [m Hm]].
  destruct (rg_managers _ (so_reg _ HS) _ _ Hm) as [p HI].
  unfold deleteRequest, forget. wp_steps. rewrite Hreq. wp_steps. apply wp_onRegistry. cbn.
  unfold RegFreeRequest. eapply wp_withManager; [exact Hm|].
  set (keep := fun id' => is_Some (delete id (sm_requests s) !! id')).
  eapply wp_mono; [apply (FreeRequest_shrinks m _ p id keep HI)|cbn beta].
  { unfold keep. rewrite lookup_delete_eq. by intros [? ?]. }
  intros _ m' Hms. unfold sm_metric. wp_steps. cbn. split; cbn; try done.
  - apply delete_subseteq.
  - intros e. destruct (decide (req_ExecutorID req = e)) as [<-|Hne].
    + rewrite lookup_insert_eq, Hm. by constructor.
    + rewrite lookup_insert_ne by done. destruct (r_managers (sm_registry s) !! e); constructor.
      apply mshrinks_refl.
Qed.

(** Ending a request, live or not, is all [Fail] does. *)
Lemma endRequest_shrinks p s id :
  SMOK s -> wp (endRequest p id) (fun _ s' => shrinks s s') s.
Proof.
  intros HS. unfold endRequest. wp_steps. destruct (sm_requests s !! id) as [req|] eqn:Hreq.
  - unfold setRequest. wp_steps. set (req' := req <| req_Phase := p |>).
    set (s1 := s <| sm_requests := <[id := req']> (sm_requests s) |>).
    assert (HS1 : SMOK s1) by (by apply (smok_request s id req)).
    assert (Hl : sm_requests s1 !! id = Some req') by apply lookup_insert_eq.
    eapply wp_mono; [apply wp_and; [apply (deleteRequest_spec s1 id req' HS1 Hl)|
      apply (deleteRequest_shrinks s1 id req' HS1 Hl)]|cbn beta].
    intros _ s' [(_ & Hr & _) [A1 A2 A3 A4 A5]]. wp_steps. split; try done.
    rewrite Hr. cbn. rewrite delete_insert_eq. apply delete_subseteq.
  - wp_steps. by apply shrinks_same.
Qed.

Lemma failChannel_shrinks ch id err s :
  wp (failChannel ch id err) (fun _ s' => shrinks s s') s \/ failChannel ch id err s = None.
Proof.
  destruct (failChannel ch id err s) as [[[] s']|] eqn:E; [left|by right]. unfold wp. rewrite E.
  unfold failChannel, newUUID, now_, send, closeCh, mbind, M_bind, getS, modS, modO in E.
  destruct ch as [ch|]; [|injection E as <-; by apply shrinks_same]. cbn in E.
  destruct (sm_channels s !! ch) as [c|]; cbn in E; [|done].
  destruct (ch_closed c); cbn in E; [done|]. rewrite lookup_insert_eq in E. cbn in E.
  destruct (ch_closed c); cbn in E; [done|]. injection E as <-. by apply shrinks_same.
Qed.

Lemma failChannel_wp_shrinks ch id err s (Q : stateManager -> Prop) :
  wp (failChannel ch id err) (fun _ s' => Q s') s ->
  wp (failChannel ch id err) (fun _ s' => Q s' /\ shrinks s s') s.
Proof.
  intros H. destruct (failChannel_shrinks ch id err s) as [Hs|Hs]; [by apply wp_and|].
  unfold wp in H. by rewrite Hs in H.
Qed.

(** The common part of [Fail] and of an expiry in [CanSchedule]. *)
Lemma endAndFail_frame p s id err :
  SMOK s -> wp (ch ← endRequest p id; failChannel ch id err) (fun _ s' => SMOK s' /\ shrinks s s' /\
    sm_requests s' = delete id (sm_requests s)) s.
Proof.
  intros HS. wp_steps.
  eapply wp_mono; [apply wp_and; [apply (endRequest_spec p s id HS)|apply (endRequest_shrinks p s id HS)]|].
  cbn beta. intros ch s1 [(HS1 & -> & Hr & Hs & Hc & Hn) Hsh].
  pose proof (failChannel_spec s s1 id err HS HS1 Hr Hs Hc Hn) as Hf.
  apply (failChannel_wp_shrinks _ _ _ _ (fun s' => SMOK s' /\ exists uuid, ended s s' id
    [failureEvent uuid id (sm_now s) err])) in Hf.
  eapply wp_mono; [exact Hf|cbn beta].
  intros _ s' [[HS' (uuid & Hr' & _)] Hsh']. ssplit; [done|by eapply shrinks_trans|done].
Qed.

Lemma Fail_frame s id err :
  SMOK s -> wp (Fail_ id err) (fun _ s' => SMOK s' /\ shrinks s s' /\
    sm_requests s' = delete id (sm_requests s)) s.
Proof. apply endAndFail_frame. Qed.

(** Whether [CanSchedule] says yes. *)
Definition runnable (s : stateManager) (work : WorkItem) : bool :=
  match sm_requests s !! wi_RequestId work with
  | Some req => negb (expired s req) && negb (terminal (req_Phase req))
  | None => false
  end.

Lemma runnable_live s w : runnable s w = true -> live_in s (wi_RequestId w).
Proof. unfold runnable, live_in. destruct (sm_requests s !! wi_RequestId w); [eauto|done]. Qed.

(** An expiry removes the request as [Fail] does. *)
Lemma CanSchedule_expired s work req :
  sm_requests s !! wi_RequestId work = Some req -> expired s req = true ->
  CanSchedule work s = (ch ← endRequest RequestPhaseTimeout (wi_RequestId work);
    failChannel ch (wi_RequestId work) (New CodeRequestTimeout "request timeout") ;; mret false) s.
Proof.
  intros Hreq Hexp. unfold CanSchedule, endRequest, mbind, M_bind, getS, setRequest, modS, mret, M_ret.
  unfold expired in Hexp. cbn. rewrite Hreq, Hexp. cbn. by destruct (deleteRequest _ _) as [[[] s']|].
Qed.

Lemma CanSchedule_frame s work :
  SMOK s -> wp (CanSchedule work) (fun ok s' => SMOK s' /\ shrinks s s' /\ ok = runnable s work /\
    forall w, runnable s' w = runnable s w) s.
Proof.
  intros HS. pose proof (CanSchedule_spec s work HS) as Hspec. unfold runnable.
  destruct (sm_requests s !! wi_RequestId work) as [req|] eqn:Hreq.
  - destruct (expired s req) eqn:Hexp.
    + unfold wp. rewrite (CanSchedule_expired s work req Hreq Hexp).
      change (wp (ch ← endRequest RequestPhaseTimeout (wi_RequestId work);
        failChannel ch (wi_RequestId work) (New CodeRequestTimeout "request timeout") ;; mret false)
        (fun ok s' => SMOK s' /\ shrinks s s' /\ ok = false /\ forall w, runnable s' w = runnable s w) s).
      pose proof (endAndFail_frame RequestPhaseTimeout s (wi_RequestId work)
        (New CodeRequestTimeout "request timeout") HS) as He.
      apply wp_bind_inv in He. wp_steps. eapply wp_mono; [exact He|cbn beta].
      intros ch s1 He1. wp_steps. eapply wp_mono; [exact He1|cbn beta]. intros _ s' (HS' & Hsh & Hr). wp_steps.
      ssplit; try done. intros w. unfold runnable, expired. rewrite (sh_now _ _ Hsh), Hr.
      destruct (decide (wi_RequestId work = wi_RequestId w)) as [<-|].
      * rewrite lookup_delete_eq, Hreq. fold (expired s req). by rewrite Hexp.
      * by rewrite lookup_delete_ne.
    + wp_use Hspec. intros ok s' (HS' & -> & ->). ssplit; try done. by apply shrinks_same.
  - wp_use Hspec. intros ok s' (HS' & -> & ->). ssplit; try done. by apply shrinks_same.
Qed.
