(* ===== verification/QueueProperties.v ===== *)
(** * QueueProperties: order and bounds of the work queues

    The bounded queues hand out runnable items first-in first-out, the prefill
    [Dequeue] respects its token limit, the ring buffer refines a bounded FIFO
    list even when its counters wrap (internal/scheduler). *)

From S2P Require Import Prelude Errors Model BlockRegistry StateMachine RequestFrame Queues.
(** What [Pop] returns: the first runnable item and the items after it. *)
Fixpoint nextRunnable (s : stateManager) (works : list WorkItem) : option WorkItem * list WorkItem :=
  match works with
  | [] => (None, [])
  | w :: ws => if runnable s w then (Some w, ws) else nextRunnable s ws
  end.

Lemma nextRunnable_ext s s' works :
  (forall w, runnable s' w = runnable s w) -> nextRunnable s' works = nextRunnable s works.
Proof. intros H. induction works as [|w ws IH]; cbn; [done|]. by rewrite H, IH. Qed.

Lemma nextRunnable_split s works :
  match nextRunnable s works with
  | (Some w, ws) => runnable s w = true /\ exists dropped, works = dropped ++ w :: ws /\
      Forall (fun w => runnable s w = false) dropped
  | (None, ws) => ws = [] /\ Forall (fun w => runnable s w = false) works
  end.
Proof.
  induction works as [|w ws IH]; cbn; [by split|]. destruct (runnable s w) eqn:Hw.
  - split; [done|]. by exists [].
  - destruct (nextRunnable s ws) as [[w'|] ws'].
    + destruct IH as (? & dropped & -> & ?). split; [done|]. exists (w :: dropped). by split; [|constructor].
    + destruct IH as [-> ?]. by split; [|constructor].
Qed.

(** The request manager after a queue operation. *)
Definition swept (s s' : stateManager) : Prop :=
  SMOK s' /\ shrinks s s' /\ forall w, runnable s' w = runnable s w.

Lemma swept_refl s : SMOK s -> swept s s.
Proof. intros HS. split; [done|]. split; [by apply shrinks_same|done]. Qed.

Lemma swept_trans s1 s2 s3 : swept s1 s2 -> swept s2 s3 -> swept s1 s3.
Proof.
  intros (_ & H1 & R1) (? & H2 & R2). split; [done|]. split; [by eapply shrinks_trans|].
  intros w. by rewrite R2, R1.
Qed.

Lemma popLoop_spec s works : SMOK s ->
  wp (popLoop works) (fun r s' => swept s s' /\ r = nextRunnable s works) s.
Proof.
  revert s. induction works as [|w ws IH]; intros s HS; cbn [popLoop nextRunnable].
  { wp_steps. split; [by apply swept_refl|done]. }
  wp_steps. wp_use (CanSchedule_frame s w HS). intros ok s1 (HS1 & Hsh & -> & Hrun).
  assert (Hsw : swept s s1) by done. destruct (runnable s w); [by wp_steps|].
  wp_use (IH s1 HS1). intros r s2 [Hsw2 ->]. split; [by eapply swept_trans|].
  by apply nextRunnable_ext.
Qed.

Lemma peekLoop_spec s works : SMOK s ->
  wp (peekLoop works) (fun r s' => swept s s' /\
    r = match nextRunnable s works with (Some w, ws) => (Some w, w :: ws) | (None, ws) => (None, ws) end) s.
Proof.
  revert s. induction works as [|w ws IH]; intros s HS; cbn [peekLoop nextRunnable].
  { wp_steps. split; [by apply swept_refl|done]. }
  wp_steps. wp_use (CanSchedule_frame s w HS). intros ok s1 (HS1 & Hsh & -> & Hrun).
  assert (Hsw : swept s s1) by done. destruct (runnable s w); [by wp_steps|].
  wp_use (IH s1 HS1). intros r s2 [Hsw2 ->]. split; [by eapply swept_trans|].
  by rewrite (nextRunnable_ext s).
Qed.

Lemma filter_runnable_ext s s' (works : list WorkItem) :
  (forall w, runnable s' w = runnable s w) ->
  filter (fun w => runnable s' w = true) works = filter (fun w => runnable s w = true) works.
Proof. intros H. apply list_filter_iff. intros w. by rewrite H. Qed.

Lemma dequeueLoop_spec n s works : SMOK s ->
  wp (dequeueLoop n works) (fun r s' => swept s s' /\
    r = (filter (fun w => runnable s w = true) (take n works), drop n works)) s.
Proof.
  revert s works. induction n as [|n IH]; intros s works HS.
  { cbn. wp_steps. split; [by apply swept_refl|done]. }
  destruct works as [|w ws]; cbn [dequeueLoop take drop].
  { wp_steps. split; [by apply swept_refl|done]. }
  wp_steps. wp_use (CanSchedule_frame s w HS). intros ok s1 (HS1 & Hsh & -> & Hrun).
  assert (Hsw : swept s s1) by done.
  wp_steps. wp_use (IH s1 ws HS1). intros r s2 [Hsw2 ->]. wp_steps. split; [by eapply swept_trans|].
  rewrite filter_cons, (filter_runnable_ext s s1) by done.
  destruct (runnable s w) eqn:Hw; [by rewrite decide_True|by rewrite decide_False].
Qed.

(** The work queues are first-in first-out over the items that may still run.
    In any consistent state, [Pop] returns the first item of the queue that may
    run, drops those in front of it and keeps those behind; [Peek] returns the
    same item and leaves it at the head; the decode [Dequeue] takes the first
    [maxSeqs] items and returns those of them that may run, in order.  None of
    them changes which items may run. *)
Theorem queues_fifo s works n (HS : SMOK s) :
  wp (popLoop works) (fun r s' => SMOK s' /\ (forall w, runnable s' w = runnable s w) /\
    match r with
    | (Some w, ws) => runnable s w = true /\ exists dropped, works = dropped ++ w :: ws /\
        Forall (fun w => runnable s w = false) dropped
    | (None, ws) => ws = [] /\ Forall (fun w => runnable s w = false) works
    end) s /\
  wp ('(r1, ws1) ← peekLoop works; r2 ← popLoop ws1; mret (r1, r2.1)) (fun r _ => r.1 = r.2) s /\
  wp (dequeueLoop n works) (fun r s' => SMOK s' /\ (forall w, runnable s' w = runnable s w) /\
    r.1 = filter (fun w => runnable s w = true) (take n works) /\ r.2 = drop n works) s.
Proof.
  split; [|split].
  - wp_use (popLoop_spec s works HS). intros r s' [(HS' & _ & Hr) ->].
    split; [done|]. split; [done|]. apply nextRunnable_split.
  - wp_steps. wp_use (peekLoop_spec s works HS). intros [r1 ws1] s1 [(HS1 & _ & Hr) E].
    wp_steps. wp_use (popLoop_spec s1 ws1 HS1). intros r2 s2 [_ ->]. wp_steps. cbn.
    pose proof (nextRunnable_split s works) as Hn. destruct (nextRunnable s works) as [[w|] ws].
    + injection E as -> ->. cbn. rewrite Hr. by destruct Hn as [-> _].
    + injection E as -> ->. by destruct Hn as [-> _].
  - wp_use (dequeueLoop_spec n s works HS). by intros r s' [(HS' & _ & Hr) ->].
Qed.

(** ** The ring buffer *)

(** The queue holds [l], oldest first. *)
Record lfRep (q : lockFreeQueue) (l : list WorkItem) : Prop := mkLfRep {
  lr_size : exists k, 0 <= k < 64 /\ lf_size q = 2 ^ k;
  lr_buf : len (lf_buf q) = lf_size q;
  lr_length : lfLength q = len l;
  lr_bound : len l <= lf_size q;
  lr_items : forall i x, idx l i = Some x ->
    idx (lf_buf q) ((lf_reclaimPos q + i) mod lf_size q) = Some (Some x)
}.

Lemma idx_slice {A} (l l' : list A) lo hi i :
  slice l lo hi = Some l' -> idx l' i = if decide (0 <= i < hi - lo) then idx l (lo + i) else None.
Proof.
  unfold slice. destruct ((lo <? 0) || (hi <? lo) || (len l <? hi)) eqn:E; [done|].
  apply orb_false_iff in E as [[E1 E2]%orb_false_iff E3].
  apply Z.ltb_ge in E1, E2, E3. intros [= <-]. unfold idx. destruct (Z.ltb_spec i 0).
  { rewrite decide_False by lia. done. }
  case_decide.
  - rewrite (proj2 (Z.ltb_ge (lo + i) 0)) by lia. rewrite lookup_take_lt by lia.
    rewrite lookup_drop. f_equal. lia.
  - apply lookup_ge_None. rewrite length_take. lia.
Qed.

Lemma idx_app {A} (l1 l2 : list A) i :
  idx (l1 ++ l2) i = if decide (i < len l1) then idx l1 i else idx l2 (i - len l1).
Proof.
  unfold idx, len. destruct (Z.ltb_spec i 0).
  { rewrite decide_True by lia. done. }
  case_decide.
  - apply lookup_app_l. lia.
  - rewrite (proj2 (Z.ltb_ge (i - _) 0)) by lia. rewrite lookup_app_r by lia. f_equal. lia.
Qed.

Lemma idx_take {A} (l : list A) n i : 0 <= n ->
  idx (take (Z.to_nat n) l) i = if decide (i < n) then idx l i else None.
Proof.
  unfold idx. intros. destruct (Z.ltb_spec i 0); [by case_decide|]. case_decide.
  - by rewrite lookup_take_lt by lia.
  - apply lookup_ge_None. rewrite length_take. lia.
Qed.

Lemma idx_drop {A} (l : list A) n i : 0 <= n -> 0 <= i -> idx (drop (Z.to_nat n) l) i = idx l (n + i).
Proof.
  unfold idx. intros. rewrite !(proj2 (Z.ltb_ge _ 0)) by lia. rewrite lookup_drop. f_equal. lia.
Qed.

Lemma len_take {A} (l : list A) n : 0 <= n <= len l -> len (take (Z.to_nat n) l) = n.
Proof. unfold len. rewrite length_take. lia. Qed.

Section ring.
Context (q : lockFreeQueue) (l : list WorkItem) (HR : lfRep q l).

Lemma ring_size : 0 < lf_size q < two64 /\ (2 * lf_size q <= two64 /\ (lf_size q | two64)) /\ u64 (lf_size q - 1) = lf_size q - 1 /\
  forall z, Z.land z (lf_size q - 1) = z mod lf_size q.
Proof using HR.
  destruct (lr_size _ _ HR) as (k & Hk & ->).
  assert (Hp : 0 < 2 ^ k) by (apply Z.pow_pos_nonneg; lia).
  assert (Hd : 2 ^ k * 2 ^ (64 - k) = two64) by (rewrite <- Z.pow_add_r by lia; by replace (k + (64 - k)) with 64 by lia).
  assert (Hq : 1 < 2 ^ (64 - k)) by (apply Z.pow_gt_1; lia).
  ssplit; [done|nia|nia|by exists (2 ^ (64 - k)); lia|unfold u64; apply Z.mod_small; nia|].
  intros z. rewrite <- Z.land_ones by lia. by rewrite Z.ones_equiv, <- Z.sub_1_r.
Qed.

Lemma ring_pos z : u64 z mod lf_size q = z mod lf_size q.
Proof using HR.
  destruct ring_size as (? & [_ Hd] & _). unfold u64. symmetry. apply Znumtheory.Zmod_div_mod; [lia|done|done].
Qed.

(** The write position is as far from the read position as the list is long. *)
Lemma ring_write : (lf_reclaimPos q + len l) mod lf_size q = lf_writePos q mod lf_size q.
Proof using HR.
  rewrite <- (lr_length _ _ HR). unfold lfLength.
  rewrite <- (Zplus_mod_idemp_r (u64 _)), ring_pos, Zplus_mod_idemp_r. f_equal. lia.
Qed.

Lemma ring_available : lfAvailableSpace q = lf_size q - len l.
Proof using HR.
  unfold lfAvailableSpace. fold (lfLength q). rewrite (lr_length _ _ HR).
  destruct ring_size as ([? ?] & _). pose proof (lr_bound _ _ HR). pose proof (len_nonneg l).
  apply Z.mod_small. lia.
Qed.

Lemma ring_ne i : 0 <= i < len l -> len l < lf_size q ->
  (lf_reclaimPos q + i) mod lf_size q <> lf_writePos q mod lf_size q.
Proof using HR.
  intros Hi Hl. rewrite <- ring_write. intros E. destruct ring_size as ([Hs _] & _).
  pose proof (Z.div_mod (lf_reclaimPos q + i) (lf_size q) ltac:(lia)).
  pose proof (Z.div_mod (lf_reclaimPos q + len l) (lf_size q) ltac:(lia)).
  set (d := (lf_reclaimPos q + len l) / lf_size q - (lf_reclaimPos q + i) / lf_size q).
  assert (len l - i = lf_size q * d) by lia. destruct (Z.le_gt_cases d 0); nia.
Qed.

Lemma lfEnqueue_spec task :
  wp (lfEnqueue task) (fun r q' =>
    if len l =? lf_size q then is_Some r /\ q' = q else r = None /\ lfRep q' (l ++ [task]) /\ lf_size q' = lf_size q) q.
Proof using HR.
  destruct ring_size as (Hs & Hd & Hs1 & Hland). unfold lfEnqueue. wp_steps. rewrite ring_available.
  pose proof (lr_bound _ _ HR) as Hb. pose proof (len_nonneg l) as Hl0.
  destruct (Z.eqb_spec (len l) (lf_size q)) as [E|E].
  { rewrite E, Z.sub_diag. wp_steps. split; eauto. }
  rewrite (proj2 (Z.eqb_neq _ 0)) by lia. wp_steps.
  pose proof (Z.mod_pos_bound (lf_writePos q) (lf_size q) ltac:(lia)) as Hw.
  assert (Hin : 0 <= lf_writePos q mod lf_size q < len (lf_buf q)) by (rewrite (lr_buf _ _ HR); lia).
  destruct (proj2 (idx_is_Some _ _) Hin) as [old Hold].
  eapply wp_getsO; [cbv beta; rewrite Hs1, Hland; by eapply store_upd|]. wp_steps. split; [done|]. split; [|done]. split; cbn.
  - apply (lr_size _ _ HR).
  - rewrite len_upd. apply (lr_buf _ _ HR).
  - unfold lfLength. cbn. rewrite len_app. change (len [task]) with 1.
    rewrite <- (lr_length _ _ HR). unfold lfLength, u64. rewrite Zminus_mod_idemp_l.
    replace (lf_writePos q + 1 - lf_reclaimPos q) with (lf_writePos q - lf_reclaimPos q + 1) by lia.
    pose proof (lr_length _ _ HR) as Hlen. unfold lfLength, u64 in Hlen.
    rewrite <- Zplus_mod_idemp_l, Hlen. apply Z.mod_small. lia.
  - rewrite len_app. change (len [task]) with 1. lia.
  - intros i x. rewrite idx_app. case_decide as Hi; intros Hx.
    + pose proof (idx_Some_range _ _ _ Hx). rewrite idx_upd_ne; [by apply (lr_items _ _ HR)| |lia].
      symmetry. apply ring_ne; lia.
    + pose proof (idx_Some_range _ _ _ Hx) as Hr. change (len [task]) with 1 in Hr.
      replace i with (len l) in * by lia. rewrite Z.sub_diag in Hx. injection Hx as <-.
      rewrite ring_write. by rewrite idx_upd_eq.
Qed.

(** The [n] entries from the read position on, in the order they are read. *)
Lemma ring_read n : 0 <= n <= len l ->
  forall res, (forall i, idx res i = if decide (0 <= i < n)
    then idx (lf_buf q) ((lf_reclaimPos q + i) mod lf_size q) else None) ->
  res = Some <$> take (Z.to_nat n) l.
Proof using HR.
  intros Hn res Hres. apply list_eq_idx. intros i. rewrite Hres, idx_fmap, idx_take by lia.
  repeat case_decide; try lia; [|rewrite idx_ge; [done|lia]|done].
  destruct (proj2 (idx_is_Some l i)) as [x Hx]; [lia|]. by rewrite Hx, (lr_items _ _ HR _ _ Hx).
Qed.

Lemma lfDequeue_spec n : 0 <= n < two64 ->
  wp (lfDequeue n) (fun r q' => r = Some <$> take (Z.to_nat n) l /\ lfRep q' (drop (Z.to_nat n) l) /\
    lf_size q' = lf_size q) q.
Proof using HR.
  intros Hn. destruct ring_size as (Hs & [Hd _] & Hs1 & Hland). unfold lfDequeue. wp_steps.
  fold (lfLength q). rewrite (lr_length _ _ HR). pose proof (lr_bound _ _ HR) as Hb.
  pose proof (len_nonneg l) as Hl0. set (m := if len l <? n then len l else n).
  assert (Hm : 0 <= m <= len l) by (unfold m; destruct (Z.ltb_spec (len l) n); lia).
  assert (Htake : take (Z.to_nat n) l = take (Z.to_nat m) l).
  { unfold m. destruct (Z.ltb_spec (len l) n); [|done]. unfold len in *. rewrite !firstn_all2 by lia. done. }
  assert (Hdrop : drop (Z.to_nat n) l = drop (Z.to_nat m) l).
  { unfold m. destruct (Z.ltb_spec (len l) n); [|done]. unfold len in *. rewrite !skipn_all2 by lia. done. }
  rewrite Htake, Hdrop.
  pose proof (Z.mod_pos_bound (lf_reclaimPos q) (lf_size q) ltac:(lia)) as Hr.
  set (pos := lf_reclaimPos q mod lf_size q) in *.
  assert (Hidx : forall i, 0 <= i < m -> (lf_reclaimPos q + i) mod lf_size q =
    if decide (pos + i < lf_size q) then pos + i else pos + i - lf_size q).
  { intros i Hi. rewrite <- Zplus_mod_idemp_l. fold pos. case_decide; [apply Z.mod_small; lia|].
    rewrite <- (Z_mod_plus_full _ (-1)). apply Z.mod_small. lia. }
  assert (Hrest : lfRep (q <| lf_reclaimPos := u64 (lf_reclaimPos q + m) |>) (drop (Z.to_nat m) l)).
  { split; cbn; [apply (lr_size _ _ HR)|apply (lr_buf _ _ HR)| | |].
    - unfold lfLength. cbn. pose proof (lr_length _ _ HR) as Hlen. unfold lfLength, u64 in *.
      rewrite Zminus_mod_idemp_r, Z.sub_add_distr, <- Zminus_mod_idemp_l, Hlen.
      unfold len in *. rewrite length_drop, Z.mod_small; lia.
    - unfold len in *. rewrite length_drop. lia.
    - intros i x Hx. pose proof (idx_Some_range _ _ _ Hx) as Hi. rewrite idx_drop in Hx by lia.
      rewrite <- Zplus_mod_idemp_l, ring_pos, Zplus_mod_idemp_l, <- Z.add_assoc. by apply (lr_items _ _ HR). }
  eapply wp_getsO; [|wp_steps; split; [reflexivity|split; [exact Hrest|done]]]. cbv beta.
  rewrite Hs1, Hland. fold pos. assert (Hpm : u64 (pos + m) = pos + m) by (apply Z.mod_small; lia).
  assert (Hsp : u64 (lf_size q - pos) = lf_size q - pos) by (apply Z.mod_small; lia).
  rewrite Hpm, Hsp. pose proof (lr_buf _ _ HR) as Hbuf.
  destruct (Z.ltb_spec (lf_size q - 1) (pos + m)) as [Hwrap|Hfit].
  - assert (Hms : u64 (m - (lf_size q - pos)) = m - (lf_size q - pos)) by (apply Z.mod_small; lia).
    rewrite Hms. destruct (slice (lf_buf q) pos (len (lf_buf q))) as [a|] eqn:Ha;
      [|rewrite slice_some in Ha by lia; done].
    destruct (slice (lf_buf q) 0 (m - (lf_size q - pos))) as [b|] eqn:Hb';
      [|rewrite slice_some in Hb' by lia; done].
    cbn. f_equal. apply ring_read; [done|]. intros i. rewrite idx_app.
    assert (Hla : len a = lf_size q - pos).
    { rewrite slice_some in Ha by lia. injection Ha as <-. unfold len in *.
      rewrite length_take, length_drop. lia. }
    rewrite Hla, (idx_slice _ _ _ _ _ Ha), (idx_slice _ _ _ _ _ Hb').
    destruct (decide (0 <= i < m)) as [Hi|Hi].
    + rewrite Hidx by done. repeat case_decide; try lia; f_equal; lia.
    + repeat case_decide; try lia; done.
  - destruct (slice (lf_buf q) pos (pos + m)) as [a|] eqn:Ha; [|rewrite slice_some in Ha by lia; done].
    f_equal. apply ring_read; [done|]. intros i. rewrite (idx_slice _ _ _ _ _ Ha).
    destruct (decide (0 <= i < m)) as [Hi|Hi].
    + rewrite Hidx by done. repeat case_decide; try lia; done.
    + repeat case_decide; try lia; done.
Qed.
End ring.

(** Runs of the ring buffer, and of a bounded list. *)
Inductive RingOp := REnqueue (task : WorkItem) | RDequeue (n : Z).
Inductive RingOut := Accepted | Rejected | Taken (tasks : list (option WorkItem)).

Fixpoint ringRun (ops : list RingOp) : M lockFreeQueue (list RingOut) :=
  match ops with
  | [] => mret []
  | REnqueue task :: ops =>
      r ← lfEnqueue task; outs ← ringRun ops;
      mret ((match r with None => Accepted | Some _ => Rejected end) :: outs)
  | RDequeue n :: ops => r ← lfDequeue n; outs ← ringRun ops; mret (Taken r :: outs)
  end.

Fixpoint fifoRun (capacity : Z) (l : list WorkItem) (ops : list RingOp) : list RingOut :=
  match ops with
  | [] => []
  | REnqueue task :: ops =>
      if len l =? capacity then Rejected :: fifoRun capacity l ops
      else Accepted :: fifoRun capacity (l ++ [task]) ops
  | RDequeue n :: ops =>
      Taken (Some <$> take (Z.to_nat n) l) :: fifoRun capacity (drop (Z.to_nat n) l) ops
  end.


(** ** Bounds *)

(** A work queue holds what its capacity allows: [Enqueue] appends the item
    when fewer than [size] items are queued and otherwise answers queue-full and
    leaves the queue as it is; [Requeue] always appends, so a queue may exceed
    its size, and [AvailableSpace] is the room left, 0 when there is none. *)
Theorem queue_bounds q name w
  (Hsize : 0 <= wq_size q < two32) (Hlen : len (wq_works q) + 1 < two32) :
  QueueEnqueue name w q =
    (if len (wq_works q) <? wq_size q
     then Some (None, q <| wq_works := wq_works q ++ [w] |>)
     else Some (Some (New CodeQueueFull (name +:+ " is full")), q)) /\
  wp (QueueRequeue w) (fun _ q' => QueueLength q' = QueueLength q + 1 /\
    QueueAvailableSpace q' = Z.max 0 (QueueAvailableSpace q - 1)) q /\
  QueueAvailableSpace q = Z.max 0 (wq_size q - len (wq_works q)).
Proof.
  pose proof (len_nonneg (wq_works q)) as Hl.
  assert (Hav : forall q, 0 <= wq_size q < two32 -> len (wq_works q) < two32 ->
    QueueAvailableSpace q = Z.max 0 (wq_size q - len (wq_works q))).
  { intros q0 Hs0 Hl0. pose proof (len_nonneg (wq_works q0)). unfold QueueAvailableSpace.
    rewrite (u32_small (len _)) by lia. destruct (Z.leb_spec (wq_size q0) (len (wq_works q0))); [lia|].
    rewrite u32_small; lia. }
  split; [|split].
  - unfold QueueEnqueue, mbind, M_bind, getS, modS, mret, M_ret. cbn. rewrite u32_small by lia.
    destruct (Z.leb_spec (wq_size q) (len (wq_works q))), (Z.ltb_spec (len (wq_works q)) (wq_size q)); try lia; done.
  - unfold QueueRequeue. wp_steps. unfold QueueLength.
    assert (Hl1 : len (wq_works q ++ [w]) = len (wq_works q) + 1) by (rewrite len_app; done).
    rewrite !Hav by (cbn [wq_works wq_size setf]; rewrite ?Hl1; lia). cbn [wq_works wq_size setf].
    rewrite Hl1, !u32_small by lia. split; [done|lia].
  - apply Hav; lia.
Qed.

Lemma prefillDequeueLoop_spec tokens works used :
  0 <= used <= tokens -> Forall (fun w => 0 <= WorkBudgetCost w /\ tokens + WorkBudgetCost w < two32) works ->
  let r := prefillDequeueLoop tokens used works in
  works = r.1 ++ r.2 /\ used + zsum WorkBudgetCost r.1 <= tokens /\
  match r.2 with [] => True | w :: _ => tokens < used + zsum WorkBudgetCost r.1 + WorkBudgetCost w end.
Proof.
  intros Hu H. revert used Hu. induction H as [|w ws [Hc Hw] _ IH]; intros used Hu; cbn; [split; [done|lia]|].
  rewrite u32_small by lia. destruct (Z.ltb_spec tokens (used + WorkBudgetCost w)) as [Hlt|Hge]; cbn.
  - split; [done|lia].
  - destruct (IH (used + WorkBudgetCost w)) as (E & Hs & Hn); [lia|].
    split; [by rewrite <- E|]. split; [lia|]. case_match; [done|lia].
Qed.

(** The prefill [Dequeue] takes the longest prefix of the queue whose cost is
    within the token limit, and the first item alone when already that is too
    expensive; it never returns nothing from a non-empty queue. *)
Theorem prefill_dequeue_longest q tokens
  (Htokens : 0 < tokens) (Hq : wq_works q <> [])
  (Hcost : Forall (fun w => 0 <= WorkBudgetCost w /\ tokens + WorkBudgetCost w < two32) (wq_works q)) :
  wp (PrefillDequeue tokens) (fun l q' => l <> [] /\ wq_works q = l ++ wq_works q' /\
    (zsum WorkBudgetCost l <= tokens \/ exists w, l = [w] /\ tokens < WorkBudgetCost w) /\
    match wq_works q' with
    | [] => True
    | w :: _ => tokens < zsum WorkBudgetCost l + WorkBudgetCost w
    end) q.
Proof.
  unfold PrefillDequeue. wp_steps. rewrite (proj2 (Z.eqb_neq tokens 0)) by lia.
  assert (Hl : len (wq_works q) =? 0 = false).
  { apply Z.eqb_neq. destruct (wq_works q) as [|w ws]; [done|]. rewrite len_cons. pose proof (len_nonneg ws). lia. }
  rewrite Hl. cbn [orb].
  pose proof (prefillDequeueLoop_spec tokens (wq_works q) 0 ltac:(lia) Hcost) as H.
  destruct (prefillDequeueLoop tokens 0 (wq_works q)) as [l works]. cbn in H. destruct H as (E & Hs & Hn).
  destruct l as [|w l].
  - destruct works as [|w ws]; [done|]. cbn in *. wp_steps. cbn. rewrite E. split; [done|]. split; [done|].
    split; [right; exists w; split; [done|lia]|]. case_match; [done|].
    rewrite E in Hcost. apply Forall_cons in Hcost as [_ Hcost]. subst.
    apply Forall_cons in Hcost as [[? _] _]. cbn. lia.
  - assert (Hgoal : wp (modS (fun q => q <| wq_works := works |>) ;; mret (w :: l)) (fun l' q' => l' <> [] /\
      wq_works q = l' ++ wq_works q' /\
      (zsum WorkBudgetCost l' <= tokens \/ exists w, l' = [w] /\ tokens < WorkBudgetCost w) /\
      match wq_works q' with [] => True | w0 :: _ => tokens < zsum WorkBudgetCost l' + WorkBudgetCost w0 end) q).
    { wp_steps. cbn in *. split; [done|]. split; [done|]. split; [left; lia|]. done. }
    by destruct works.
Qed.
