(* ===== verification/DecodeQueue.v ===== *)
(** * DecodeQueue: the decode queue as it is written (internal/scheduler/decode_queue.go)

    The decode queue wraps every work item in an entry with two counters and
    asks the request manager it holds about the items it hands out.  The
    scheduler of this development works on the plain list of items
    ([Queues.workQueue]); here that is shown to lose nothing: the two answer
    every sequence of calls alike. *)

From S2P Require Import Prelude Errors Model BlockRegistry StateMachine Queues.
(** ** The queue *)

Record workItemEntry := mkWorkItemEntry {
  we_work : WorkItem;
  we_deficit : Z;    (* uint32 *)
  we_quant : Z       (* uint32 *)
}.

Record decodeQueue := mkDecodeQueue {
  dq_requestManager : stateManager;
  dq_works : list workItemEntry;
  dq_size : Z        (* uint32 *)
}.
#[export] Instance decodeQueue_eta : Eta decodeQueue := fun q =>
  mkDecodeQueue (dq_requestManager q) (dq_works q) (dq_size q).

Definition NewDecodeQueue (queueLength : Z) (requestManager : stateManager) : decodeQueue :=
  let length := if queueLength =? 0 then 100 else queueLength in
  {| dq_requestManager := requestManager; dq_works := []; dq_size := length |}.

Definition decodeEnqueue (t : WorkItem) : M decodeQueue (option error) :=
  q ← getS;
  if dq_size q <=? u32 (len (dq_works q))
  then mret (Some (New CodeQueueFull "decodeQueue is full"))
  else
    modS (fun q => q <| dq_works := dq_works q ++ [mkWorkItemEntry t 0 0] |>) ;;
    mret None.

(** A call of the request manager the queue holds. *)
Definition onManager_ {A} (c : M stateManager A) : M decodeQueue A := fun q =>
  match c (dq_requestManager q) with
  | Some (a, rm) => Some (a, q <| dq_requestManager := rm |>)
  | None => None
  end.

(** The loop of [Dequeue], [n] rounds left, [workList] collected. *)
Fixpoint decodeDequeueLoop (n : nat) (workList : list WorkItem) : M decodeQueue (list WorkItem) :=
  match n with
  | O => mret workList
  | S n =>
      q ← getS;
      match dq_works q with
      | [] => mret workList
      | w :: works =>
          modS (fun q => q <| dq_works := works |>) ;;
          ok ← onManager_ (CanSchedule (we_work w));
          decodeDequeueLoop n (if ok : bool then workList ++ [we_work w] else workList)
      end
  end.

Definition decodeDequeue (maxSeqs : Z) : M decodeQueue (list WorkItem * Z) :=
  if maxSeqs =? 0 then mret ([], 0)
  else
    workList ← decodeDequeueLoop (Z.to_nat maxSeqs) [];
    mret (workList, u32 (len workList)).

Definition decodeRequeue (work : WorkItem) : M decodeQueue unit :=
  modS (fun q => q <| dq_works := dq_works q ++ [mkWorkItemEntry work 0 0] |>).

Definition decodeLength (q : decodeQueue) : Z := u32 (len (dq_works q)).

Definition decodeAvailableSpace (q : decodeQueue) : Z :=
  if dq_size q <=? u32 (len (dq_works q)) then 0 else dq_size q -u u32 (len (dq_works q)).

(** ** Calls *)

Inductive DecodeOp :=
| DEnqueue (work : WorkItem) | DRequeue (work : WorkItem) | DDequeue (maxSeqs : Z)
| DLength | DAvailableSpace.

Inductive DecodeOut :=
| OError (err : option error) | ODone | OWorks (works : list WorkItem) (count : Z) | ONumber (n : Z).

Definition decodeCall (o : DecodeOp) : M decodeQueue DecodeOut :=
  match o with
  | DEnqueue work => err ← decodeEnqueue work; mret (OError err)
  | DRequeue work => decodeRequeue work ;; mret ODone
  | DDequeue maxSeqs => r ← decodeDequeue maxSeqs; mret (OWorks r.1 r.2)
  | DLength => q ← getS; mret (ONumber (decodeLength q))
  | DAvailableSpace => q ← getS; mret (ONumber (decodeAvailableSpace q))
  end.

(** The same calls of the list of items the scheduler works on, which keeps the
    request manager beside the queue. *)
Definition onWorks {A} (c : M workQueue A) : M (workQueue * stateManager) A := fun p =>
  match c p.1 with Some (a, q) => Some (a, (q, p.2)) | None => None end.

Definition sweepWorks (maxSeqs : Z) : M (workQueue * stateManager) (list WorkItem) := fun p =>
  if maxSeqs =? 0 then Some ([], p)
  else match dequeueLoop (Z.to_nat maxSeqs) (wq_works p.1) p.2 with
       | Some (r, rm) => Some (r.1, (p.1 <| wq_works := r.2 |>, rm))
       | None => None
       end.

Definition listCall (o : DecodeOp) : M (workQueue * stateManager) DecodeOut :=
  match o with
  | DEnqueue work => err ← onWorks (QueueEnqueue "decodeQueue" work); mret (OError err)
  | DRequeue work => onWorks (QueueRequeue work) ;; mret ODone
  | DDequeue maxSeqs => works ← sweepWorks maxSeqs; mret (OWorks works (u32 (len works)))
  | DLength => p ← getS; mret (ONumber (QueueLength p.1))
  | DAvailableSpace => p ← getS; mret (ONumber (QueueAvailableSpace p.1))
  end.

Fixpoint calls {S} (call : DecodeOp -> M S DecodeOut) (ops : list DecodeOp) : M S (list DecodeOut) :=
  match ops with
  | [] => mret []
  | o :: ops => out ← call o; outs ← calls call ops; mret (out :: outs)
  end.

(** ** The simulation *)

Definition entry (w : WorkItem) : workItemEntry := mkWorkItemEntry w 0 0.

Definition represents (d : decodeQueue) (p : workQueue * stateManager) : Prop :=
  dq_works d = entry <$> wq_works p.1 /\ dq_size d = wq_size p.1 /\ dq_requestManager d = p.2.

(** The two runs panic together or give the same answer and related states. *)
Definition alike {A} (x : option (A * decodeQueue)) (y : option (A * (workQueue * stateManager))) : Prop :=
  match x, y with
  | Some (a, d), Some (b, p) => a = b /\ represents d p
  | None, None => True
  | _, _ => False
  end.

Lemma alike_bind {A B} (c : M decodeQueue A) (c' : M (workQueue * stateManager) A)
    (f : A -> M decodeQueue B) (f' : A -> M (workQueue * stateManager) B) d p :
  alike (c d) (c' p) -> (forall a d p, represents d p -> alike (f a d) (f' a p)) ->
  alike ((c ≫= f) d) ((c' ≫= f') p).
Proof.
  unfold mbind, M_bind, alike at 1. destruct (c d) as [[a d1]|], (c' p) as [[b p1]|]; try done.
  intros [-> HR] H. by apply H.
Qed.

Lemma alike_ret {A} (a : A) d p : represents d p -> alike ((mret a : M decodeQueue A) d) ((mret a : M (workQueue * stateManager) A) p).
Proof. by split. Qed.

Lemma represents_lengths d p : represents d p ->
  decodeLength d = QueueLength p.1 /\ decodeAvailableSpace d = QueueAvailableSpace p.1.
Proof.
  intros (Hw & Hs & _). unfold decodeLength, QueueLength, decodeAvailableSpace, QueueAvailableSpace.
  by rewrite Hw, Hs, len_fmap.
Qed.

Lemma represents_snoc d p w : represents d p ->
  represents (d <| dq_works := dq_works d ++ [entry w] |>) (p.1 <| wq_works := wq_works p.1 ++ [w] |>, p.2).
Proof.
  intros (Hw & Hs & Hr). unfold represents, setf. cbn [dq_works dq_size dq_requestManager wq_works wq_size fst snd].
  by rewrite Hw, fmap_app.
Qed.

(** The loop that takes the items off one by one collects what the fold over the
    list returns, after what it had. *)
Lemma decodeDequeueLoop_alike n d p acc : represents d p ->
  match decodeDequeueLoop n acc d, dequeueLoop n (wq_works p.1) p.2 with
  | Some (l, d'), Some (r, rm) => l = acc ++ r.1 /\ represents d' (p.1 <| wq_works := r.2 |>, rm)
  | None, None => True
  | _, _ => False
  end.
Proof.
  revert d p acc. induction n as [|n IH]; intros d [q rm] acc (Hw & Hs & Hr); cbn in Hw, Hs, Hr.
  { cbn. by rewrite app_nil_r. }
  unfold decodeDequeueLoop; fold decodeDequeueLoop.
  unfold mbind at 1, M_bind at 1, getS. cbn [wq_works fst snd dequeueLoop].
  rewrite Hw. destruct (wq_works q) as [|w ws] eqn:Hq; cbn [fmap list_fmap].
  { cbn. rewrite app_nil_r. split; [done|]. unfold represents. cbn. by rewrite Hw, Hs, Hr. }
  unfold onManager_, modS, mbind, M_bind, setf. cbn [dq_requestManager dq_works dq_size we_work entry]. rewrite Hr.
  destruct (CanSchedule w rm) as [[ok rm1]|]; [|exact I].
  set (d1 := (d <| dq_works := entry <$> ws |>) <| dq_requestManager := rm1 |>).
  specialize (IH d1 (q <| wq_works := ws |>, rm1) (if ok then acc ++ [w] else acc)). cbn in IH.
  assert (HR1 : represents d1 (q <| wq_works := ws |>, rm1)) by done. specialize (IH HR1).
  cbn [we_work entry]. unfold setf in *. cbn in IH |- *.
  destruct (decodeDequeueLoop n _ _) as [[l d']|], (dequeueLoop n ws rm1) as [[r rm']|]; try done.
  cbn. destruct IH as [-> HR']. split; [|by destruct ok].
  destruct ok; [by rewrite <- app_assoc|done].
Qed.

Lemma decodeCall_alike o d p : represents d p -> alike (decodeCall o d) (listCall o p).
Proof.
  intros HR. pose proof (represents_lengths d p HR) as [Hl Ha]. destruct o as [w|w|n| |]; cbn [decodeCall listCall].
  - apply alike_bind; [|intros a d1 p1; by apply alike_ret]. unfold decodeEnqueue, onWorks, QueueEnqueue.
    unfold decodeLength, QueueLength in Hl. destruct HR as (Hw & Hs & Hr) eqn:E.
    unfold mbind, M_bind, getS. rewrite Hl, Hs. case_match; cbn.
    + split; [done|]. by destruct p.
    + split; [done|]. by apply represents_snoc.
  - apply alike_bind; [|intros [] d1 p1; by apply alike_ret]. cbn. split; [done|]. by apply represents_snoc.
  - unfold decodeDequeue, sweepWorks, mbind, M_bind, mret, M_ret. destruct (n =? 0); [by destruct p|].
    pose proof (decodeDequeueLoop_alike (Z.to_nat n) d p [] HR) as H.
    destruct (decodeDequeueLoop _ _ _) as [[l d']|], (dequeueLoop _ _ _) as [[r rm]|]; try done.
    by destruct H as [-> H].
  - unfold mbind, M_bind, getS. rewrite Hl. by apply alike_ret.
  - unfold mbind, M_bind, getS. rewrite Ha. by apply alike_ret.
Qed.

