(* ===== verification/Scheduler.v ===== *)
(** * Scheduler: batching of work items (internal/scheduler)

    The scheduler owns three work queues per executor, assigns requests to
    executors round-robin, assembles batches within a token and sequence budget,
    submits them and turns the executors' events into new work items
    (scheduler.go, budget.go).

    [scheduler] is its state together with the components it calls: the request
    manager (with the block registry inside) and the executor manager.  The
    goroutines are functions run one after the other: [BatchRound] is one
    iteration of [Batch], [consumeEvent] one of [consumeEvents]. *)

From S2P Require Import Prelude Errors Model Metrics FreeQueue BlockManager BlockRegistry Executor StateMachine Queues.
(** ** Configuration (internal/conf/conf.go) *)

Record ScheduleConf := mkScheduleConf {
  cf_QueueLength : Z;
  cf_MaxBatchSeq : Z;
  cf_MaxBatchTokens : Z;
  cf_LongPrefillTokenThreshold : Z;
  cf_MaxPartialPrefills : Z;
  cf_MaxLongPartialPrefills : Z;
  cf_MaxScheduleDelay : Z
}.

(** The conversion from uint64 and the product wrap. *)
Definition ScheduleDelay (c : ScheduleConf) : Duration := i64 (i64 (cf_MaxScheduleDelay c) * Millisecond).

(** ** Budget *)

Record batchBudget := mkBatchBudget {
  bg_remainTokens : Z;
  bg_remainSeqs : Z;
  bg_remainPrefill : Z;
  bg_remainLargePrefill : Z
}.
#[export] Instance batchBudget_eta : Eta batchBudget := fun b =>
  mkBatchBudget (bg_remainTokens b) (bg_remainSeqs b) (bg_remainPrefill b) (bg_remainLargePrefill b).

(** [None] is the panic of a slice out of range. *)
Definition splitPrefillChunk (item : WorkItem) (tokens : Z) : option (WorkItem * option WorkItem) :=
  let cost := WorkBudgetCost item in
  let tokens := if cost <? tokens then cost else tokens in
  let chunk := item <| wi_NumNewTokens := tokens |> in
  let remainCost := cost -u tokens in
  if remainCost =? 0 then Some (chunk, None)
  else
    restTokens ← slice (wi_TokenIDs item) tokens (len (wi_TokenIDs item));
    chunkTokens ← slice (wi_TokenIDs item) 0 tokens;
    Some (chunk <| wi_TokenIDs := chunkTokens |>,
          Some (item <| wi_PrefillOffset := wi_PrefillOffset item +u tokens |>
                     <| wi_NumNewTokens := remainCost |>
                     <| wi_TokenIDs := restTokens |>)).

(** ** State *)

Record scheduler := mkScheduler {
  sd_batchBudget : batchBudget;
  sd_longPrefillThreshold : Z;
  sd_scheduleRoundDelay : Duration;
  sd_thresholdSeqs : Z;
  sd_prefillSmall : gmap string workQueue;
  sd_prefillLarge : gmap string workQueue;
  sd_decode : gmap string workQueue;
  sd_requestManager : stateManager;          (* holds the block registry *)
  sd_executorManager : executorManager;
  sd_executorIDs : list string;
  sd_nextExecutor : Z;                       (* uint64 *)
  sd_patchExecuteChan : bool;                (* channel of capacity 1: full? *)
  sd_metrics : MetricLog
}.
#[export] Instance scheduler_eta : Eta scheduler := fun s =>
  mkScheduler (sd_batchBudget s) (sd_longPrefillThreshold s) (sd_scheduleRoundDelay s)
    (sd_thresholdSeqs s) (sd_prefillSmall s) (sd_prefillLarge s) (sd_decode s)
    (sd_requestManager s) (sd_executorManager s) (sd_executorIDs s) (sd_nextExecutor s)
    (sd_patchExecuteChan s) (sd_metrics s).

Definition NewScheduler (cfg : ScheduleConf) (em : executorManager) (rm : stateManager) : scheduler :=
  let executorIDs := ExecutorIDs (sm_registry rm) in
  let queues := list_to_map ((fun id => (id, NewQueue (cf_QueueLength cfg))) <$> executorIDs) in
  {|
    sd_batchBudget := {|
      bg_remainTokens := cf_MaxBatchTokens cfg;
      bg_remainSeqs := cf_MaxBatchSeq cfg;
      bg_remainPrefill := cf_MaxPartialPrefills cfg;
      bg_remainLargePrefill := cf_MaxLongPartialPrefills cfg |};
    sd_longPrefillThreshold := cf_LongPrefillTokenThreshold cfg;
    sd_scheduleRoundDelay := ScheduleDelay cfg;
    sd_thresholdSeqs := (cf_MaxBatchSeq cfg *u 4) / 5;
    sd_prefillSmall := queues;
    sd_prefillLarge := queues;
    sd_decode := queues;
    sd_requestManager := rm;
    sd_executorManager := em;
    sd_executorIDs := executorIDs;
    sd_nextExecutor := 0;
    sd_patchExecuteChan := false;
    sd_metrics := []
  |}.

(** ** Calls to the other components *)

Definition sd_metric (c : MetricCall) : M scheduler unit :=
  modS (fun s => s <| sd_metrics := sd_metrics s ++ [c] |>).

Definition onState {A} (c : M stateManager A) : M scheduler A := fun s =>
  match c (sd_requestManager s) with
  | Some (a, rm) => Some (a, s <| sd_requestManager := rm |>)
  | None => None
  end.

Definition onBlocks {A} (c : M registry A) : M scheduler A := onState (onRegistry c).

Definition onExecutors {A} (c : M executorManager A) : M scheduler A := fun s =>
  match c (sd_executorManager s) with
  | Some (a, em) => Some (a, s <| sd_executorManager := em |>)
  | None => None
  end.

Inductive queueKind := SmallPrefill | LargePrefill | Decoding.

Definition queues (k : queueKind) (s : scheduler) : gmap string workQueue :=
  match k with
  | SmallPrefill => sd_prefillSmall s
  | LargePrefill => sd_prefillLarge s
  | Decoding => sd_decode s
  end.

Definition setQueues (k : queueKind) (qs : gmap string workQueue) (s : scheduler) : scheduler :=
  match k with
  | SmallPrefill => s <| sd_prefillSmall := qs |>
  | LargePrefill => s <| sd_prefillLarge := qs |>
  | Decoding => s <| sd_decode := qs |>
  end.

(** A method of a queue; a missing queue is a nil interface and panics. *)
Definition onQueue {A} (k : queueKind) (executorID : string) (c : M workQueue A) : M scheduler A := fun s =>
  q ← queues k s !! executorID;
  '(a, q') ← c q;
  Some (a, setQueues k (<[executorID := q']> (queues k s)) s).

(** A loop of a queue that asks the request manager about the items. *)
Definition sweep {A} (k : queueKind) (executorID : string)
    (loop : list WorkItem -> M stateManager (A * list WorkItem)) : M scheduler A :=
  q ← getsO (fun s => queues k s !! executorID);
  r ← onState (loop (wq_works q));
  onQueue k executorID (modS (fun q => q <| wq_works := r.2 |>)) ;;
  mret r.1.

Definition Pop (k : queueKind) (executorID : string) : M scheduler (option WorkItem) :=
  sweep k executorID popLoop.

Definition Peek (k : queueKind) (executorID : string) : M scheduler (option WorkItem) :=
  sweep k executorID peekLoop.

Definition Dequeue (executorID : string) (maxSeqs : Z) : M scheduler (list WorkItem) :=
  if maxSeqs =? 0 then mret []
  else sweep Decoding executorID (dequeueLoop (Z.to_nat maxSeqs)).

Definition LengthOf (k : queueKind) (executorID : string) : M scheduler Z :=
  getsO (fun s => QueueLength <$> queues k s !! executorID).

(** ** Assignment *)

Definition AssignExecutor (req : Request) : M scheduler (error + Request) :=
  s ← getS;
  if String.eqb (req_ExecutorID req) "" then
    if len (sd_executorIDs s) =? 0
    then mret (inl (TextError ("no executor is available for request " +:+ req_RequestId req)))
    else
      let index := sd_nextExecutor s in
      modS (fun s => s <| sd_nextExecutor := u64 (sd_nextExecutor s + 1) |>) ;;
      id ← getsO (fun s => idx (sd_executorIDs s) (index mod len (sd_executorIDs s)));
      mret (inr (req <| req_ExecutorID := id |>))
  else if existsb (String.eqb (req_ExecutorID req)) (sd_executorIDs s) then mret (inr req)
  else mret (inl (TextError ("executor " +:+ req_ExecutorID req +:+ " is not registered"))).

(** ** Queueing *)

(** The sums of the queue lengths over the executors. *)
Fixpoint queueLengths (executorIDs : list string) : M scheduler (Z * Z) :=
  match executorIDs with
  | [] => mret (0, 0)
  | id :: ids =>
      small ← LengthOf SmallPrefill id;
      large ← LengthOf LargePrefill id;
      decode ← LengthOf Decoding id;
      r ← queueLengths ids;
      mret (small +u large +u r.1, decode +u r.2)
  end.

Definition trySchedule (executorID : string) : M scheduler unit :=
  s ← getS;
  match sd_prefillSmall s !! executorID, sd_prefillLarge s !! executorID, sd_decode s !! executorID with
  | Some small, Some large, Some decode =>
      (if (10 <? QueueLength large) || (30 <? QueueLength small)
          || (sd_thresholdSeqs s <=? QueueLength decode)
       then modS (fun s => s <| sd_patchExecuteChan := true |>)
       else mret tt) ;;
      r ← queueLengths (sd_executorIDs s);
      sd_metric (SetPrefillQueueLength r.1) ;;
      sd_metric (SetDecodeQueueLength r.2)
  | _, _, _ => mret tt
  end.

Definition noQueue (executorID which : string) : error :=
  New CodeExecutorUnavailable ("executor " +:+ executorID +:+ " has no " +:+ which +:+ " queue").

(** The queue a work item belongs to, if its phase has one. *)
Definition kindOf (longPrefillThreshold : Z) (work : WorkItem) : option queueKind :=
  match wi_Phase work with
  | WorkPhasePrefill =>
      Some (if wi_TokenCntTotal work <=? longPrefillThreshold then SmallPrefill else LargePrefill)
  | WorkPhaseDecode => Some Decoding
  | WorkPhaseOther _ => None
  end.

Definition queueName (k : queueKind) : string :=
  match k with Decoding => "decodeQueue" | _ => "prefillQueue" end.
Definition phaseName (k : queueKind) : string :=
  match k with Decoding => "decode" | _ => "prefill" end.

Definition Enqueue (workItem : WorkItem) : M scheduler (option error) :=
  s ← getS;
  let workItem := workItem <| wi_EnqueuedAt := sm_now (sd_requestManager s) |> in
  match kindOf (sd_longPrefillThreshold s) workItem with
  | None => mret (Some (New CodeInvalidArgument "invalid phase for enqueue"))
  | Some k =>
      let id := wi_ExecutorID workItem in
      err ← match queues k s !! id with
            | None => mret (Some (noQueue id (phaseName k)))
            | Some _ =>
                err ← onQueue k id (QueueEnqueue (queueName k) workItem);
                (match err with None => trySchedule id | Some _ => mret tt end) ;;
                mret err
            end;
      match err with
      | Some e =>
          sd_metric IncQueueRejected ;;
          onState (Fail_ (wi_RequestId workItem) e) ;;
          mret (Some e)
      | None => mret None
      end
  end.

(** [requeueWork] for one item. *)
Definition requeueWork (work : WorkItem) : M scheduler unit :=
  let work := work <| wi_BlockAllocation := None |> in
  s ← getS;
  match kindOf (sd_longPrefillThreshold s) work with
  | None => mret tt
  | Some k =>
      match queues k s !! wi_ExecutorID work with
      | None => onState (Fail_ (wi_RequestId work) (noQueue (wi_ExecutorID work) (phaseName k)))
      | Some _ => onQueue k (wi_ExecutorID work) (QueueRequeue work)
      end
  end.

(** ** Assembling a batch *)

(** [AllocateBlocks] and what every pick does when it does not succeed: the
    item to put into the batch, or [None]. [back] is the item to requeue. *)
Definition tryAllocate (work back : WorkItem) : M scheduler (option WorkItem) :=
  r ← onBlocks (RegAllocateBlocks work);
  match r with
  | inl err => onState (Fail_ (wi_RequestId work) err) ;; mret None
  | inr (false, _) => requeueWork back ;; mret None
  | inr (true, work) => mret (Some work)
  end.

Fixpoint pickDecodeLoop (works : list WorkItem) (batch : list WorkItem) (budget : batchBudget)
    : M scheduler (list WorkItem * batchBudget) :=
  match works with
  | [] => mret (batch, budget)
  | work :: works =>
      r ← tryAllocate work work;
      match r with
      | None => pickDecodeLoop works batch budget
      | Some work =>
          pickDecodeLoop works (batch ++ [work])
            (budget <| bg_remainTokens := bg_remainTokens budget -u 1 |>
                    <| bg_remainSeqs := bg_remainSeqs budget -u 1 |>)
      end
  end.

Definition pickDecode (executorID : string) (batch : list WorkItem) (budget : batchBudget)
    : M scheduler (list WorkItem * batchBudget) :=
  workItems ← Dequeue executorID (Z.min (bg_remainSeqs budget) (bg_remainTokens budget));
  if u32 (len workItems) =? 0
  then mret (batch, budget <| bg_remainPrefill := bg_remainSeqs budget |>
                           <| bg_remainLargePrefill := bg_remainSeqs budget |>)
  else pickDecodeLoop workItems batch budget.

(** The budget after a prefill item of the given cost. *)
Definition spendPrefill (budget : batchBudget) (cost : Z) : batchBudget :=
  budget <| bg_remainTokens := bg_remainTokens budget -u cost |>
         <| bg_remainSeqs := bg_remainSeqs budget -u 1 |>
         <| bg_remainPrefill := bg_remainPrefill budget -u 1 |>.

(** [n] iterations of the scan are left. *)
Fixpoint pickSmallLoop (n : nat) (executorID : string) (batch : list WorkItem) (budget : batchBudget)
    : M scheduler (list WorkItem * batchBudget) :=
  match n with
  | O => mret (batch, budget)
  | S n =>
      if (0 <? bg_remainSeqs budget) && (0 <? bg_remainTokens budget) && (0 <? bg_remainPrefill budget)
      then
        small ← Peek SmallPrefill executorID;
        match small with
        | None => mret (batch, budget)
        | Some small =>
            let cost := WorkBudgetCost small in
            if bg_remainTokens budget <? cost then mret (batch, budget)
            else
              small ← Pop SmallPrefill executorID;
              match small with
              | None => pickSmallLoop n executorID batch budget
              | Some small =>
                  r ← tryAllocate small small;
                  match r with
                  | None => pickSmallLoop n executorID batch budget
                  | Some small => pickSmallLoop n executorID (batch ++ [small]) (spendPrefill budget cost)
                  end
              end
        end
      else mret (batch, budget)
  end.

Definition pickSmallPrefill (executorID : string) (batch : list WorkItem) (budget : batchBudget)
    : M scheduler (list WorkItem * batchBudget) :=
  maxScan ← LengthOf SmallPrefill executorID;
  pickSmallLoop (Z.to_nat maxScan) executorID batch budget.

Fixpoint pickLargeLoop (n : nat) (executorID : string) (batch : list WorkItem) (budget : batchBudget)
    : M scheduler (list WorkItem * batchBudget) :=
  match n with
  | O => mret (batch, budget)
  | S n =>
      if (0 <? bg_remainSeqs budget) && (0 <? bg_remainTokens budget) && (0 <? bg_remainPrefill budget)
         && (0 <? bg_remainLargePrefill budget)
      then
        large ← Pop LargePrefill executorID;
        match large with
        | None => mret (batch, budget)
        | Some large =>
            let cost := WorkBudgetCost large in
            let scheduledTokens := Z.min cost (bg_remainTokens budget) in
            split ← getsO (fun _ => splitPrefillChunk large scheduledTokens);
            r ← tryAllocate (fst split) large;
            match r with
            | None => pickLargeLoop n executorID batch budget
            | Some chunk =>
                pickLargeLoop n executorID (batch ++ [chunk])
                  (spendPrefill budget scheduledTokens
                    <| bg_remainLargePrefill := bg_remainLargePrefill budget -u 1 |>)
            end
        end
      else mret (batch, budget)
  end.

Definition pickLargePrefill (executorID : string) (batch : list WorkItem) (budget : batchBudget)
    : M scheduler (list WorkItem * batchBudget) :=
  maxScan ← LengthOf LargePrefill executorID;
  pickLargeLoop (Z.to_nat maxScan) executorID batch budget.

Definition pickBatch (executorID : string) : M scheduler (list WorkItem) :=
  s ← getS;
  r ← pickDecode executorID [] (sd_batchBudget s);
  r ← pickSmallPrefill executorID r.1 r.2;
  r ← pickLargePrefill executorID r.1 r.2;
  mret r.1.

(** ** Submitting *)

Definition countPhase (p : WorkPhase) (batch : list WorkItem) : Z :=
  len (filter (fun w => wi_Phase w = p) batch).

Definition observeBatchStatsAndTimeWait (batch : list WorkItem) (now : Time) : M scheduler unit :=
  sd_metric (ObserveBatch (len batch) (countPhase WorkPhasePrefill batch) (countPhase WorkPhaseDecode batch)) ;;
  forM_ batch (fun w => sd_metric (ObserveQueueWait (now - wi_EnqueuedAt w))).

(** After a refused [Submit]; an error of [Rollback] is only logged. *)
Definition takeBack (batch : list WorkItem) : M scheduler unit :=
  forM_ batch (fun work =>
    onBlocks (RegRollback (wi_ExecutorID work) (wi_WorkId work)) ;;
    requeueWork work).

(** [ctx] and [room_first] as for [Submit]. *)
Definition patchExecute (ctx : option error) (room_first : bool) (executorID : string) : M scheduler unit :=
  batch ← pickBatch executorID;
  match batch with
  | [] => mret tt
  | first :: _ =>
      trySchedule executorID ;;
      batchId ← onState newUUID;
      s ← getS;
      let batchCreateAt := sm_now (sd_requestManager s) in
      err ← onExecutors (Submit ctx room_first (Some {|
        bt_BatchID := batchId;
        bt_ExecutorID := wi_ExecutorID first;
        bt_BatchSize := u32 (len batch);
        bt_CreateAt := batchCreateAt;
        bt_Items := batch |}));
      match err with
      | Some _ => takeBack batch
      | None => observeBatchStatsAndTimeWait batch batchCreateAt
      end
  end.

Definition patchExecutors (ctx : option error) (room_first : bool) : M scheduler unit :=
  s ← getS; forM_ (sd_executorIDs s) (patchExecute ctx room_first).

(** One iteration of [Batch]: [signal] when it takes the signal rather than a tick. *)
Definition BatchRound (ctx : option error) (room_first signal : bool) : M scheduler unit :=
  (if signal then modS (fun s => s <| sd_patchExecuteChan := false |>) else mret tt) ;;
  patchExecutors ctx room_first.

(** ** Events *)

Fixpoint enqueueAll (items : list WorkItem) : M scheduler (option error) :=
  match items with
  | [] => mret None
  | item :: items =>
      err ← Enqueue item;
      match err with Some e => mret (Some e) | None => enqueueAll items end
  end.

Definition failed (event : Event) (err : error) : Event :=
  event <| ev_Err := Some err |> <| ev_Type := EventTypeRequestFailed |> <| ev_Done := true |>
        <| ev_FinishReason := FinishReasonError |>.

Definition errorOf {A} (r : error + A) : option error :=
  match r with inl e => Some e | inr _ => None end.

(** Commit or roll back the blocks of an event's work item. *)
Definition finalize (event : Event) (req : Request) : M scheduler (option error) :=
  if negb (String.eqb (ev_ExecutorId event) (req_ExecutorID req)) then
    onBlocks (RegRollback (req_ExecutorID req) (ev_WorkId event)) ;;
    mret (Some (TextError ("event executor " +:+ ev_ExecutorId event
      +:+ " does not match request executor " +:+ req_ExecutorID req)))
  else if bool_decide (is_Some (ev_Err event)) || bool_decide (ev_Type event = EventTypeRequestFailed) then
    r ← onBlocks (RegRollback (req_ExecutorID req) (ev_WorkId event)); mret (errorOf r)
  else
    r ← onBlocks (RegCommit (req_ExecutorID req) (ev_WorkId event)); mret (errorOf r).

Definition handleEvent (event : Event) : M scheduler (option error) :=
  s ← getS;
  match Get (ev_RequestId event) (sd_requestManager s) with
  | None => mret None
  | Some req =>
      finalizeErr ← finalize event req;
      let event := match finalizeErr with Some e => failed event e | None => event end in
      r ← onState (OnEvent event);
      let event := r.2 in
      err ← enqueueAll r.1;
      match err with
      | Some e => mret (Some e)
      | None =>
          err ← (if ev_Done event then
                   r ← onBlocks (RegFreeRequest (req_ExecutorID req) (req_RequestId req));
                   mret (errorOf r)
                 else mret None);
          match err with
          | Some e => mret (Some e)
          | None =>
              sd_metric (ObserveExecution (tm_Execution (ev_Timing event)) (ev_ExecutorId event)) ;;
              mret finalizeErr
          end
      end
  end.

(** The next event of the executor manager, handled. *)
Definition consumeEvent : M scheduler unit :=
  s ← getS;
  match em_eventChan (sd_executorManager s) with
  | [] => mret tt
  | event :: events =>
      onExecutors (modS (fun e => e <| em_eventChan := events |>)) ;;
      handleEvent event ;; mret tt
  end.
