(* ===== verification/SchedulerPick.v ===== *)
(** * SchedulerPick: assembling a batch (internal/scheduler/scheduler.go, budget.go)

    The theorem about [pickBatch]: it returns, within its budget, and neither
    loses nor duplicates work.  While a batch is assembled only the request
    manager and the three queues of the executor change; [st rm ws] is the
    scheduler with the request manager [rm] and the works [ws k] in the queue of
    kind [k]. *)

From S2P Require Import Prelude Errors Model Metrics FreeQueue BlockManager BlockProperties BlockRegistry StateMachine RequestFrame Executor Queues QueueProperties Scheduler.
#[export] Instance queueKind_eq_dec : EqDecision queueKind.
Proof. solve_decision. Defined.

Lemma queues_other k k' qs s : queues k' (setQueues k qs s) = if decide (k' = k) then qs else queues k' s.
Proof. by destruct k, k'. Qed.

(** ** References and their duplicates

    A block that is taken from the free queue had no reference, so what grows
    is the number of distinct referenced blocks, and that is bounded by the
    number of blocks. *)

Definition dups (l : list Z) : Z := len l - len (remove_dups l).

Lemma len_remove_dups_perm (l1 l2 : list Z) : l1 ≡ₚ l2 -> len (remove_dups l1) = len (remove_dups l2).
Proof.
  intros Hp. unfold len. f_equal. apply Permutation_length, NoDup_Permutation.
  - apply NoDup_remove_dups.
  - apply NoDup_remove_dups.
  - intros x. by rewrite !elem_of_remove_dups, Hp.
Qed.

Lemma dups_perm (l1 l2 : list Z) : l1 ≡ₚ l2 -> dups l1 = dups l2.
Proof.
  intros Hp. unfold dups. rewrite (len_remove_dups_perm _ _ Hp). unfold len.
  by rewrite (Permutation_length Hp).
Qed.

#[export] Instance dups_proper : Proper ((≡ₚ) ==> eq) dups.
Proof. exact dups_perm. Qed.

Lemma dups_app_r (l1 l2 : list Z) : dups l2 <= dups (l1 ++ l2).
Proof.
  unfold dups. rewrite len_app.
  assert (len (remove_dups (l1 ++ l2)) <= len l1 + len (remove_dups l2)); [|lia].
  rewrite <- len_app. unfold len. apply inj_le, submseteq_length, NoDup_submseteq.
  - apply NoDup_remove_dups.
  - intros x. rewrite elem_of_remove_dups, !elem_of_app, elem_of_remove_dups. done.
Qed.

Lemma dups_fresh (ids l : list Z) : NoDup ids -> (forall x, x ∈ ids -> x ∉ l) -> dups (ids ++ l) = dups l.
Proof.
  intros Hnd Hf. unfold dups. rewrite len_app.
  assert (len (remove_dups (ids ++ l)) = len ids + len (remove_dups l)) as ->; [|lia].
  rewrite <- len_app. unfold len. f_equal. apply Permutation_length, NoDup_Permutation.
  - apply NoDup_remove_dups.
  - apply NoDup_app. split; [done|]. split; [|apply NoDup_remove_dups].
    intros x Hx. rewrite elem_of_remove_dups. by apply Hf.
  - intros x. by rewrite elem_of_remove_dups, !elem_of_app, elem_of_remove_dups.
Qed.

(** The references a manager can ever hold when only free blocks are taken. *)
Definition slack (m : manager) (pins : list Z) : Z := dups (refs_of m pins) + len (m_blocks m).

Lemma slack_bound m pins p : Inv m pins p -> len (refs_of m pins) + len (p_free p) <= slack m pins.
Proof.
  intros HI. pose proof (inv_ok _ _ _ HI) as HO. unfold slack, dups, refs_of.
  assert (len (remove_dups (pins ++ tab (m_requestBlocks m))) + len (p_free p) <= len (m_blocks m)); [|lia].
  rewrite <- len_app, <- (rep_info_len _ _ (inv_rep _ _ _ HI)).
  etrans; [apply (NoDup_len_bound _ (len (p_info p)))|pose proof (len_nonneg (p_info p)); lia].
  - apply NoDup_app. split; [apply NoDup_remove_dups|]. split; [|apply HO].
    intros x Hx Hfree. rewrite elem_of_remove_dups in Hx. by apply (ok_free_unreferenced _ _ HO x).
  - intros x [Hx|Hx]%elem_of_app.
    + rewrite elem_of_remove_dups in Hx. by apply (ok_range _ _ HO).
    + by apply (pi_free _ (ok_inv _ _ HO)).
Qed.

Lemma slack_shrinks keep m m' pins : mshrinks keep m m' -> slack m' pins <= slack m pins.
Proof.
  intros [_ _ Hl _ _ _ (gone & Hg)]. unfold slack, refs_of. rewrite Hl.
  rewrite (dups_perm (pins ++ tab (m_requestBlocks m)) (gone ++ pins ++ tab (m_requestBlocks m'))).
  - pose proof (dups_app_r gone (pins ++ tab (m_requestBlocks m'))). lia.
  - rewrite Hg. solve_Permutation.
Qed.

(** ** AllocateBlocks for a queued item *)

(** What an item needs to be given blocks on executor [e]: its request is live
    there and has a block table, or never had one, and no allocation pending. *)
Definition ready (rm : stateManager) (e : string) (w : WorkItem) : Prop :=
  exists req m c old, sm_requests rm !! wi_RequestId w = Some req /\ req_ExecutorID req = e /\
    r_managers (sm_registry rm) !! e = Some m /\ has_table m w old /\ wi_Cache w = Some c /\
    no_pending (wi_RequestId w) m.

Definition roomy (rm : stateManager) (e : string) : Prop :=
  forall m, r_managers (sm_registry rm) !! e = Some m ->
    slack m (pinsOf e (r_pendingTransfers (sm_registry rm))) < two32.

Lemma ready_swept rm rm' e w :
  swept rm rm' -> runnable rm w = true -> ready rm e w -> ready rm' e w.
Proof.
  intros (HS & Hsh & Hrun) Hw (req & m & c & old & Hreq & He & Hm & Ht & Hc & Hno).
  rewrite <- Hrun in Hw. pose proof (runnable_live _ _ Hw) as Hlive.
  destruct (shrinks_manager_some _ _ _ _ Hsh Hm) as (m' & Hm' & Hms).
  destruct Hlive as [req' Hreq']. pose proof (lookup_weaken _ _ _ _ Hreq' (sh_requests _ _ Hsh)) as E.
  rewrite Hreq in E. injection E as <-.
  exists req, m', c, old. ssplit; try done.
  - unfold has_table in *. rewrite (ms_table _ _ _ Hms); [done|]. by exists req.
  - intros w0 a Ha. eapply Hno, (ms_pending _ _ _ Hms), Ha.
Qed.

Lemma roomy_swept rm rm' e : swept rm rm' -> roomy rm e -> roomy rm' e.
Proof.
  intros (_ & Hsh & _) Hr m' Hm'. destruct (shrinks_manager _ _ _ _ Hsh Hm') as (m & Hm & Hms).
  rewrite (sh_transfers _ _ Hsh). eapply Z.le_lt_trans; [by eapply slack_shrinks|by apply Hr].
Qed.

(** What [AllocateBlocks] for a request changes in the request manager. *)
Record allocs (rm rm' : stateManager) (e rid : string) : Prop := mkAllocs {
  al_requests : sm_requests rm' = sm_requests rm;
  al_now : sm_now rm' = sm_now rm;
  al_transfers : r_pendingTransfers (sm_registry rm') = r_pendingTransfers (sm_registry rm);
  al_manager : exists m m', r_managers (sm_registry rm) !! e = Some m /\
    r_managers (sm_registry rm') !! e = Some m' /\
    (forall id, id <> rid -> m_requestBlocks m' !! id = m_requestBlocks m !! id) /\
    (forall id, id <> rid -> no_pending id m -> no_pending id m') /\
    slack m' (pinsOf e (r_pendingTransfers (sm_registry rm))) =
      slack m (pinsOf e (r_pendingTransfers (sm_registry rm)))
}.

Lemma allocs_runnable rm rm' e rid w : allocs rm rm' e rid -> runnable rm' w = runnable rm w.
Proof. intros [Hr Hn _ _]. unfold runnable, expired. by rewrite Hr, Hn. Qed.

Lemma allocs_roomy rm rm' e rid : allocs rm rm' e rid -> roomy rm e -> roomy rm' e.
Proof.
  intros [_ _ Ht (m & m' & Hm & Hm' & _ & _ & Hs)] Hr m0 Hm0. rewrite Hm' in Hm0. injection Hm0 as <-.
  rewrite Ht, Hs. by apply Hr.
Qed.

Lemma allocs_ready rm rm' e rid w :
  allocs rm rm' e rid -> wi_RequestId w <> rid -> ready rm e w -> ready rm' e w.
Proof.
  intros [Hr _ _ (m & m' & Hm & Hm' & Ht & Hp & _)] Hne (req & m0 & c & old & Hreq & He & Hm0 & Hta & Hc & Hno).
  rewrite Hm in Hm0. injection Hm0 as <-. exists req, m', c, old. rewrite Hr. ssplit; try done.
  - unfold has_table in *. by rewrite Ht.
  - by apply Hp.
Qed.

Lemma smok_registry s r' e m m' :
  SMOK s -> RegOK r' -> r_managers (sm_registry s) !! e = Some m ->
  r_managers r' = <[e := m']> (r_managers (sm_registry s)) ->
  (forall id, is_Some (m_requestBlocks m' !! id) -> is_Some (m_requestBlocks m !! id) \/
     exists req, sm_requests s !! id = Some req /\ req_ExecutorID req = e) ->
  SMOK (s <| sm_registry := r' |>).
Proof.
  intros [Hreg Hdom Hopen Hinj Hact Hexec Htab] HR Hm Hms Hnew. split; cbn; try done.
  - intros id req Hreq. destruct (Hexec _ _ Hreq) as [? [m0 Hm0]]. split; [done|]. rewrite Hms.
    destruct (decide (e = req_ExecutorID req)) as [<-|]; [rewrite lookup_insert_eq|rewrite lookup_insert_ne by done]; eauto.
  - intros e0 m0 id. rewrite Hms. intros [[<- <-]|[_ Hm0]]%lookup_insert_Some Hs; [|by eapply Htab].
    destruct (Hnew _ Hs) as [Hs'|(req & ? & ?)]; [by eapply Htab|by exists req].
Qed.

(** The manager's part. *)
Lemma AllocateBlocks_slack m pins p work c old :
  Inv m pins p -> has_table m work old -> wi_Cache work = Some c ->
  no_pending (wi_RequestId work) m -> slack m pins < two32 ->
  wp (AllocateBlocks work) (fun r m' =>
    (forall id, id <> wi_RequestId work -> m_requestBlocks m' !! id = m_requestBlocks m !! id) /\
    (forall id, id <> wi_RequestId work -> no_pending id m -> no_pending id m') /\
    slack m' pins = slack m pins /\
    exists ok w', r = (ok, w') /\ (ok = true -> exists a, w' = work <| wi_BlockAllocation := Some a |>) /\
      (ok = false -> m_requestBlocks m' = m_requestBlocks m /\
         m_pendingAllocations m' = m_pendingAllocations m)) m.
Proof.
  intros HI Ht Hc Hno Hs. pose proof (slack_bound _ _ _ HI) as Hb. unfold refs_of in Hb.
  eapply wp_mono; [apply (AllocateBlocks_inv m pins p work c old HI Ht Hc Hno); lia|cbn beta].
  intros r m'. case_match.
  - intros [-> ->]. split; [done|]. split; [done|]. split; [done|]. by exists false, work.
  - intros (ids & p' & Hids & -> & Hrb & Hpd & Hbs & He & HI' & HP). ssplit.
    + intros id Hid. rewrite Hrb. by apply lookup_insert_ne.
    + intros id Hid Hn w a. rewrite Hpd. intros [[<- <-]|[_ Ha]]%lookup_insert_Some; [|by eapply Hn].
      cbn. congruence.
    + unfold slack, refs_of. f_equal.
      * rewrite Hrb, tab_insert. rewrite (dups_perm _ (ids ++ pins ++ tab (m_requestBlocks m))).
        -- apply dups_fresh.
           ++ pose proof (pi_nodup _ (ok_inv _ _ (inv_ok _ _ _ HI))) as Hnd.
              rewrite (pop_free _ _ _ HP) in Hnd. by apply NoDup_app in Hnd as [? _].
           ++ intros x Hx. apply (ok_free_unreferenced _ _ (inv_ok _ _ _ HI)). rewrite (pop_free _ _ _ HP). set_solver.
        -- rewrite (has_table_tab _ _ _ Ht). solve_Permutation.
      * rewrite <- (rep_info_len _ _ (inv_rep _ _ _ HI')), <- (rep_info_len _ _ (inv_rep _ _ _ HI)).
        apply (pop_len _ _ _ HP).
    + eexists true, _. split; [done|]. split; [|done]. intros _. by eexists.
Qed.

Lemma RegAllocateBlocks_spec rm e w :
  SMOK rm -> ready rm e w -> roomy rm e -> wi_ExecutorID w = e ->
  wp (onRegistry (RegAllocateBlocks w)) (fun r rm' => SMOK rm' /\ allocs rm rm' e (wi_RequestId w) /\
    exists ok w', r = inr (ok, w') /\ (ok = true -> exists a, w' = w <| wi_BlockAllocation := Some a |>) /\
      (ok = false -> ready rm' e w)) rm.
Proof.
  intros HS (req & m & c & old & Hreq & He & Hm & Ht & Hc & Hno) Hroom Hwe.
  pose proof (so_reg _ HS) as HR. set (pins := pinsOf e (r_pendingTransfers (sm_registry rm))).
  destruct (rg_managers _ HR _ _ Hm) as [p HI]. fold pins in HI.
  assert (Hen : enabled (OpAllocateBlocks w c old) m pins).
  { cbn. ssplit; try done. rewrite (rep_count _ _ (inv_rep _ _ _ HI)).
    pose proof (slack_bound _ _ _ HI). pose proof (Hroom m Hm). fold pins in H0. lia. }
  apply wp_onRegistry. unfold RegAllocateBlocks. rewrite Hwe. eapply wp_withManager; [exact Hm|].
  eapply wp_mono; [apply wp_and; [apply (AllocateBlocks_slack m pins p w c old HI Ht Hc Hno (Hroom m Hm))|
    apply (regok_request _ e m (OpAllocateBlocks w c old) (AllocateBlocks w) HR Hm eq_refl Hen eq_refl)]|cbn beta].
  intros r m' [(Htab & Hpend & Hsl & ok & w' & -> & Hok & Hno') HR'].
  set (r' := sm_registry rm <| r_managers := _ |>) in *. split; [|split].
  - apply (smok_registry rm r' e m m' HS HR' Hm eq_refl). intros id Hid.
    destruct (decide (id = wi_RequestId w)) as [->|Hne]; [right; by exists req|left; by rewrite <- Htab].
  - split; try done. exists m, m'. cbn. rewrite lookup_insert_eq. by ssplit.
  - exists ok, w'. split; [done|]. split; [done|]. intros [Erb Epd]%Hno'.
    exists req, m', c, old. cbn. rewrite lookup_insert_eq. ssplit; try done.
    + unfold has_table in *. by rewrite Erb.
    + unfold no_pending in *. by rewrite Epd.
Qed.

(** ** Splitting a prefill item *)

(** A chunk and the rest of a well-formed prefill item. *)
Lemma split_spec w t :
  wi_Phase w = WorkPhasePrefill -> 0 < wi_NumNewTokens w < two32 ->
  wi_NumNewTokens w = len (wi_TokenIDs w) -> 0 < t ->
  let t' := Z.min t (wi_NumNewTokens w) in
  exists rest, splitPrefillChunk w t =
    Some (w <| wi_NumNewTokens := t' |> <| wi_TokenIDs := take (Z.to_nat t') (wi_TokenIDs w) |>, rest) /\
    match rest with
    | None => t' = wi_NumNewTokens w
    | Some r => t' < wi_NumNewTokens w /\
        r = w <| wi_PrefillOffset := wi_PrefillOffset w +u t' |>
              <| wi_NumNewTokens := wi_NumNewTokens w - t' |>
              <| wi_TokenIDs := drop (Z.to_nat t') (wi_TokenIDs w) |>
    end.
Proof.
  intros Hp Hr Hn Ht t'. unfold splitPrefillChunk.
  assert (Hc : WorkBudgetCost w = wi_NumNewTokens w).
  { unfold WorkBudgetCost. rewrite Hp. by rewrite (proj2 (Z.ltb_lt 0 _)) by lia. }
  rewrite Hc. assert (Ht' : (if wi_NumNewTokens w <? t then wi_NumNewTokens w else t) = t').
  { unfold t'. destruct (Z.ltb_spec (wi_NumNewTokens w) t); lia. }
  rewrite Ht', u32_small by lia. destruct (Z.eqb_spec (wi_NumNewTokens w - t') 0) as [E|E].
  - exists None. split; [|lia]. rewrite firstn_all2 by (unfold len in Hn; lia). by destruct w.
  - rewrite !slice_some by lia.
    rewrite (firstn_all2 (drop (Z.to_nat t') _)) by (unfold len; rewrite length_drop; lia).
    eexists (Some _). split; [|split; [lia|reflexivity]]. by rewrite Z.sub_0_r.
Qed.

(** ** The scheduler while it picks *)

Definition key (w : WorkItem) : string * string := (wi_RequestId w, wi_WorkId w).

(** The items the scheduler queues, as [Create] and [OnEvent] build them. *)
Definition well_formed (threshold : Z) (e : string) (k : queueKind) (w : WorkItem) : Prop :=
  wi_ExecutorID w = e /\ kindOf threshold w = Some k /\
  match wi_Phase w with
  | WorkPhaseDecode => 0 <= wi_NumNewTokens w <= len (wi_TokenIDs w)
  | _ => 0 < wi_NumNewTokens w < two32 /\ wi_NumNewTokens w = len (wi_TokenIDs w)
  end.

Section pick.
Context (s0 : scheduler) (e : string) (Q : queueKind -> workQueue).
Context (HQ : forall k, queues k s0 !! e = Some (Q k)).

Let rm0 := sd_requestManager s0.
Let threshold := sd_longPrefillThreshold s0.

Definition st (rm : stateManager) (ws : queueKind -> list WorkItem) : scheduler :=
  s0 <| sd_requestManager := rm |>
     <| sd_decode := <[e := Q Decoding <| wq_works := ws Decoding |>]> (sd_decode s0) |>
     <| sd_prefillSmall := <[e := Q SmallPrefill <| wq_works := ws SmallPrefill |>]> (sd_prefillSmall s0) |>
     <| sd_prefillLarge := <[e := Q LargePrefill <| wq_works := ws LargePrefill |>]> (sd_prefillLarge s0) |>.

Definition works0 (k : queueKind) : list WorkItem := wq_works (Q k).
Definition put (k : queueKind) (l : list WorkItem) (ws : queueKind -> list WorkItem) : queueKind -> list WorkItem :=
  fun k' => if decide (k' = k) then l else ws k'.
Definition allWorks (ws : queueKind -> list WorkItem) : list WorkItem :=
  ws Decoding ++ ws SmallPrefill ++ ws LargePrefill.

Lemma st_start : st rm0 works0 = s0.
Proof using HQ.
  unfold st, works0, rm0. pose proof (HQ Decoding) as H1. pose proof (HQ SmallPrefill) as H2.
  pose proof (HQ LargePrefill) as H3. cbn in H1, H2, H3.
  assert (Hq : forall q : workQueue, q <| wq_works := wq_works q |> = q) by (by intros []).
  rewrite !Hq. destruct s0. unfold setf. cbn in *.
  by rewrite (insert_id _ _ _ H1), (insert_id _ _ _ H2), (insert_id _ _ _ H3).
Qed.

Lemma st_queue k rm ws : queues k (st rm ws) !! e = Some (Q k <| wq_works := ws k |>).
Proof. destruct k; cbn; apply lookup_insert_eq. Qed.

Lemma st_put k rm ws l :
  setQueues k (<[e := Q k <| wq_works := l |>]> (queues k (st rm ws))) (st rm ws) = st rm (put k l ws).
Proof. destruct k; cbn; unfold st, setf; cbn; by rewrite insert_insert_eq. Qed.

Lemma wp_onState {A} (c : M stateManager A) P rm ws :
  wp c (fun a rm' => P a (st rm' ws)) rm -> wp (onState c) P (st rm ws).
Proof. unfold wp, onState. cbn. by destruct (c rm) as [[a rm']|]. Qed.

Lemma wp_sweep {A} k (loop : list WorkItem -> M stateManager (A * list WorkItem)) P rm ws :
  wp (loop (ws k)) (fun r rm' => P r.1 (st rm' (put k r.2 ws))) rm ->
  wp (sweep k e loop) P (st rm ws).
Proof.
  intros H. unfold sweep. wp_steps. eapply wp_getsO; [apply st_queue|]. wp_steps. apply wp_onState. cbn.
  eapply wp_mono; [exact H|cbn beta]. intros r rm' HP. wp_steps.
  unfold onQueue, wp. rewrite st_queue. cbn. pose proof (st_put k rm' ws r.2) as E. unfold setf in E |- *. cbn in E |- *.
  by rewrite E.
Qed.

Lemma wp_requeue k rm ws w P :
  well_formed threshold e k w ->
  P tt (st rm (put k (ws k ++ [w <| wi_BlockAllocation := None |>]) ws)) ->
  wp (requeueWork w) P (st rm ws).
Proof.
  intros (He & Hk & _) HP. unfold requeueWork. wp_steps.
  change (sd_longPrefillThreshold (st rm ws)) with threshold.
  change (kindOf threshold (w <| wi_BlockAllocation := None |>)) with (kindOf threshold w).
  rewrite Hk. change (wi_ExecutorID (w <| wi_BlockAllocation := None |>)) with (wi_ExecutorID w).
  rewrite He, st_queue. unfold onQueue, wp. rewrite st_queue. cbn.
  pose proof (st_put k rm ws (ws k ++ [w <| wi_BlockAllocation := None |>])) as E.
  unfold setf in E, HP |- *. cbn in E, HP |- *. by rewrite E.
Qed.

(** The items that may run, by [rm0]. *)
Definition able (l : list WorkItem) : list WorkItem := filter (fun w => runnable rm0 w = true) l.
Definition keys (l : list WorkItem) : list (string * string) := key <$> l.

(** No request has two items to run. *)
Context (Hunique : NoDup (wi_RequestId <$> able (allWorks works0))).

(** The state of the pick: the queues [ws], the items [hand] taken from the
    queue [k] and not placed yet, and the keys [done] of the batch. *)
Record Picking (k : queueKind) (rm : stateManager) (ws : queueKind -> list WorkItem)
    (hand : list WorkItem) (done : list (string * string)) : Prop := mkPicking {
  pk_smok : SMOK rm;
  pk_run : forall w, runnable rm w = runnable rm0 w;
  pk_roomy : roomy rm e;
  pk_queued : forall k' w, w ∈ ws k' -> runnable rm0 w = true ->
    well_formed threshold e k' w /\ ready rm e w;
  pk_hand : forall w, w ∈ hand -> runnable rm0 w = true /\ well_formed threshold e k w /\ ready rm e w;
  pk_keys : keys (able (allWorks works0)) ≡ₚ done ++ keys hand ++ keys (able (allWorks ws))
}.

Lemma able_app l1 l2 : able (l1 ++ l2) = able l1 ++ able l2.
Proof. apply filter_app. Qed.

Lemma keys_app l1 l2 : keys (l1 ++ l2) = keys l1 ++ keys l2.
Proof. apply fmap_app. Qed.

Lemma able_put k l ws :
  able (allWorks ws) ≡ₚ able (ws k) ++ able (allWorks (put k [] ws)) /\
  able (allWorks (put k l ws)) ≡ₚ able l ++ able (allWorks (put k [] ws)).
Proof.
  unfold allWorks, put. destruct k; cbn; rewrite ?able_app; split; cbn; try done; solve_Permutation.
Qed.

(** The request of an item in the hand is not that of another item. *)
Lemma pk_distinct k rm ws w hand done :
  Picking k rm ws (w :: hand) done ->
  forall w', w' ∈ hand ++ able (allWorks ws) -> wi_RequestId w' <> wi_RequestId w.
Proof using Hunique.
  intros HP w' Hw'. pose proof (pk_keys _ _ _ _ _ HP) as Hp.
  assert (Hnd : NoDup (fst <$> keys (able (allWorks works0)))).
  { unfold keys. rewrite <- list_fmap_compose. exact Hunique. }
  rewrite Hp, fmap_app in Hnd. apply NoDup_app in Hnd as (_ & _ & Hnd).
  rewrite fmap_app in Hnd. cbn in Hnd. apply NoDup_cons in Hnd as [Hnot _]. intros E. apply Hnot.
  rewrite <- fmap_app, <- keys_app, <- E. unfold keys. rewrite <- list_fmap_compose.
  apply (list_elem_of_fmap_2 (fst ∘ key)). done.
Qed.

(** A queue operation: runnable items move into the hand. *)
Lemma picking_swept k rm rm' ws l taken hand done :
  Picking k rm ws hand done -> swept rm rm' ->
  able (ws k) ≡ₚ taken ++ able l -> (forall w, w ∈ l -> w ∈ ws k) ->
  (forall w, w ∈ taken -> w ∈ ws k /\ runnable rm0 w = true) ->
  Picking k rm' (put k l ws) (hand ++ taken) done.
Proof.
  intros [HS Hrun Hroom Hq Hh Hk] Hsw Htaken Hl Htin. pose proof Hsw as (HS' & _ & Hrun').
  assert (Hready : forall w, runnable rm0 w = true -> ready rm e w -> ready rm' e w).
  { intros w Hw Hr. eapply ready_swept; [done| |done]. by rewrite Hrun. }
  split; [done|by intros w; rewrite Hrun', Hrun|by eapply roomy_swept| | |].
  - intros k' w Hw Hw0. unfold put in Hw. case_decide; [subst k'; apply Hl in Hw|];
      destruct (Hq _ _ Hw Hw0); eauto.
  - intros w [Hw|Hw]%elem_of_app.
    + destruct (Hh _ Hw) as (? & ? & ?). eauto.
    + destruct (Htin _ Hw) as [Hin Hw0]. destruct (Hq _ _ Hin Hw0). eauto.
  - rewrite Hk. f_equiv. destruct (able_put k l ws) as [E1 E2]. unfold keys.
    rewrite E1, E2, Htaken, fmap_app. rewrite !fmap_app. solve_Permutation.
Qed.


Lemma elem_able k w ws : w ∈ ws k -> runnable rm0 w = true -> w ∈ able (allWorks ws).
Proof.
  intros Hw Hr. apply list_elem_of_filter. split; [done|]. unfold allWorks. rewrite !elem_of_app.
  destruct k; auto.
Qed.

Section allocated.
Context (k : queueKind) (rm rm' : stateManager) (ws : queueKind -> list WorkItem) (w : WorkItem)
  (hand : list WorkItem) (done : list (string * string)).
Context (HP : Picking k rm ws (w :: hand) done) (HS' : SMOK rm')
  (Hal : allocs rm rm' e (wi_RequestId w)).

Lemma picking_ready w' : w' ∈ hand ++ able (allWorks ws) -> ready rm e w' -> ready rm' e w'.
Proof using HP Hal Hunique.
  intros Hw' Hr. eapply allocs_ready; [done| |done]. by eapply pk_distinct.
Qed.

(** Blocks were given to an item in the hand: it goes to the batch. *)
Lemma picking_allocated : Picking k rm' ws hand (done ++ [key w]).
Proof using HP HS' Hal Hunique.
  pose proof HP as [HS Hrun Hroom Hq Hh Hk]. split.
  - done.
  - intros w'. by rewrite (allocs_runnable _ _ _ _ _ Hal).
  - by eapply allocs_roomy.
  - intros k' w' Hw' Hr. destruct (Hq _ _ Hw' Hr). split; [done|]. apply picking_ready; [|done].
    apply elem_of_app. right. by eapply elem_able.
  - intros w' Hw'. destruct (Hh w') as (? & ? & ?); [by right|]. split; [done|]. split; [done|].
    apply picking_ready; [|done]. apply elem_of_app. by left.
  - rewrite Hk. cbn. by rewrite <- app_assoc.
Qed.

(** There were none: it goes back to its queue. *)
Lemma picking_requeued : ready rm' e w ->
  Picking k rm' (put k (ws k ++ [w <| wi_BlockAllocation := None |>]) ws) hand done.
Proof using HP HS' Hal Hunique.
  intros Hready. pose proof HP as [HS Hrun Hroom Hq Hh Hk].
  destruct (Hh w) as (Hw & Hwf & _); [by left|]. split.
  - done.
  - intros w'. by rewrite (allocs_runnable _ _ _ _ _ Hal).
  - by eapply allocs_roomy.
  - assert (Hold : forall k' w', w' ∈ ws k' -> runnable rm0 w' = true ->
      well_formed threshold e k' w' /\ ready rm' e w').
    { intros k' w' Hw' Hr. destruct (Hq _ _ Hw' Hr). split; [done|]. apply picking_ready; [|done].
      apply elem_of_app. right. by eapply elem_able. }
    intros k' w' Hw' Hr. unfold put in Hw'. case_decide; [|by apply Hold]. subst k'.
    apply elem_of_app in Hw' as [Hw'|Hw']; [by apply Hold|].
    apply list_elem_of_singleton in Hw' as ->. by split.
  - intros w' Hw'. destruct (Hh w') as (? & ? & ?); [by right|]. split; [done|]. split; [done|].
    apply picking_ready; [|done]. apply elem_of_app. by left.
  - rewrite Hk. f_equiv. destruct (able_put k (ws k ++ [w <| wi_BlockAllocation := None |>]) ws) as [E1 E2].
    unfold keys. rewrite E1, E2, able_app.
    assert (Hone : able [w <| wi_BlockAllocation := None |>] = [w <| wi_BlockAllocation := None |>]).
    { unfold able. rewrite filter_cons_True; [done|exact Hw]. }
    rewrite Hone. rewrite !fmap_app. cbn. change (key (w <| wi_BlockAllocation := None |>)) with (key w).
    solve_Permutation.
Qed.
End allocated.

(** [chunk] is the part of [w] to be given blocks. *)
Lemma tryAllocate_spec k rm ws w chunk hand done :
  Picking k rm ws (w :: hand) done ->
  wi_RequestId chunk = wi_RequestId w -> wi_ExecutorID chunk = wi_ExecutorID w ->
  wi_Cache chunk = wi_Cache w ->
  wp (tryAllocate chunk w) (fun r s' => exists rm' ws', s' = st rm' ws' /\
    match r with
    | None => Picking k rm' ws' hand done
    | Some c => Picking k rm' ws' hand (done ++ [key w]) /\
        exists a, c = chunk <| wi_BlockAllocation := Some a |>
    end) (st rm ws).
Proof using Hunique.
  intros HP Hid Hex Hca. pose proof HP as [HS Hrun Hroom Hq Hh Hk].
  destruct (Hh w) as (Hw & Hwf & Hready); [by left|]. pose proof Hwf as (Hwe & _).
  assert (Hrc : ready rm e chunk).
  { unfold ready, has_table in *. by rewrite Hid, Hca. }
  unfold tryAllocate. wp_steps. unfold onBlocks. apply wp_onState.
  eapply wp_mono; [apply (RegAllocateBlocks_spec rm e chunk HS Hrc Hroom); congruence|cbn beta].
  intros r rm' (HS' & Hal & ok & c & -> & Hok & Hnot). rewrite Hid in Hal. destruct ok.
  - destruct (Hok eq_refl) as [a ->]. wp_steps. exists rm', ws. split; [done|]. split; [|by exists a].
    eapply picking_allocated; eauto.
  - wp_steps. eapply wp_requeue; [exact Hwf|]. wp_steps. eexists rm', _. split; [reflexivity|].
    eapply picking_requeued; eauto. specialize (Hnot eq_refl). unfold ready, has_table in *.
    by rewrite Hid, Hca in Hnot.
Qed.

(** *** The budget *)

(** A batch item: executable, of this executor, of a request that may run. *)
Definition good_item (b : WorkItem) : Prop :=
  runnable rm0 b = true /\ wi_ExecutorID b = e /\ is_Some (wi_BlockAllocation b) /\
  (wi_Phase b = WorkPhaseDecode -> 0 <= wi_NumNewTokens b <= len (wi_TokenIDs b)) /\
  0 < WorkBudgetCost b.

(** [budget] is what [batch] leaves of [B], [P] being the prefill limit in force. *)
Record Within (B : batchBudget) (P : Z) (batch : list WorkItem) (budget : batchBudget) : Prop := mkWithin {
  wn_items : Forall good_item batch;
  wn_seqs : 0 <= bg_remainSeqs budget /\ bg_remainSeqs budget + len batch = bg_remainSeqs B /\ bg_remainSeqs B < two32;
  wn_tokens : 0 <= bg_remainTokens budget /\
    bg_remainTokens budget + zsum WorkBudgetCost batch = bg_remainTokens B /\ bg_remainTokens B < two32;
  wn_prefill : 0 <= bg_remainPrefill budget /\
    countPhase WorkPhasePrefill batch + bg_remainPrefill budget = P /\ P < two32;
  wn_large : 0 <= bg_remainLargePrefill budget < two32
}.

Lemma countPhase_snoc p l w :
  countPhase p (l ++ [w]) = countPhase p l + (if decide (wi_Phase w = p) then 1 else 0).
Proof.
  unfold countPhase. rewrite filter_app, len_app. f_equal. rewrite filter_cons. by case_decide.
Qed.

Lemma within_range B P batch budget : Within B P batch budget ->
  0 <= bg_remainSeqs budget < two32 /\ 0 <= bg_remainTokens budget < two32 /\
  0 <= bg_remainPrefill budget < two32.
Proof.
  intros [Hi Hs Ht Hp _]. pose proof (len_nonneg batch).
  assert (0 <= zsum WorkBudgetCost batch).
  { apply zsum_nonneg. eapply Forall_impl; [exact Hi|]. intros x (_ & _ & _ & _ & ?). lia. }
  assert (0 <= countPhase WorkPhasePrefill batch) by apply len_nonneg. lia.
Qed.

Lemma within_snoc B P batch budget b budget' :
  Within B P batch budget -> good_item b ->
  0 < bg_remainSeqs budget -> WorkBudgetCost b <= bg_remainTokens budget ->
  bg_remainSeqs budget' = bg_remainSeqs budget -u 1 ->
  bg_remainTokens budget' = bg_remainTokens budget -u WorkBudgetCost b ->
  match wi_Phase b with
  | WorkPhasePrefill => 0 < bg_remainPrefill budget /\ bg_remainPrefill budget' = bg_remainPrefill budget -u 1
  | _ => bg_remainPrefill budget' = bg_remainPrefill budget
  end ->
  0 <= bg_remainLargePrefill budget' < two32 ->
  Within B P (batch ++ [b]) budget'.
Proof.
  intros HW Hb Hs0 Ht0 Es Et Ep Hl'. pose proof Hb as (_ & _ & _ & _ & Hc).
  pose proof (within_range _ _ _ _ HW). destruct HW as [Hi Hs Ht Hp Hl].
  split.
  - apply Forall_app. split; [done|]. by constructor.
  - rewrite len_app, Es, u32_small by lia. change (len [b]) with 1. lia.
  - rewrite zsum_app, Et, u32_small by lia. cbn. lia.
  - rewrite countPhase_snoc. destruct (wi_Phase b); [destruct Ep as [Hp0 Ep]|..].
    + rewrite decide_True, Ep, u32_small by (try done; lia). lia.
    + rewrite decide_False, Ep by done. lia.
    + rewrite decide_False, Ep by done. lia.
  - done.
Qed.

(** A well-formed item with blocks is good. *)
Lemma good_decode w a : runnable rm0 w = true -> well_formed threshold e Decoding w ->
  good_item (w <| wi_BlockAllocation := Some a |>) /\ wi_Phase w = WorkPhaseDecode.
Proof.
  intros Hr (He & Hk & Hn). unfold kindOf in Hk. destruct (wi_Phase w) eqn:Hp; [by case_match| |done].
  split; [|done]. split; [exact Hr|]. split; [exact He|]. split; [by eexists|]. split; [by intros _|].
  unfold WorkBudgetCost. cbn. rewrite Hp. done.
Qed.

(** *** The decode queue *)

Lemma pickDecodeLoop_spec B P rm ws hand batch budget :
  Picking Decoding rm ws hand (keys batch) -> Within B P batch budget ->
  len hand <= bg_remainSeqs budget -> len hand <= bg_remainTokens budget ->
  countPhase WorkPhasePrefill batch = 0 ->
  wp (pickDecodeLoop hand batch budget) (fun r s' => exists rm' ws', s' = st rm' ws' /\
    Picking Decoding rm' ws' [] (keys r.1) /\ Within B P r.1 r.2 /\
    countPhase WorkPhasePrefill r.1 = 0) (st rm ws).
Proof using Hunique.
  intros HP HW Hs Ht Hc. revert rm ws batch budget HP HW Hs Ht Hc.
  induction hand as [|w hand IH]; intros rm ws batch budget HP HW Hs Ht Hc; cbn [pickDecodeLoop].
  { wp_steps. by exists rm, ws. }
  rewrite len_cons in Hs, Ht. pose proof (len_nonneg hand) as Hnn.
  destruct (pk_hand _ _ _ _ _ HP w) as (Hw & Hwf & _); [by left|].
  wp_steps. wp_use (tryAllocate_spec Decoding rm ws w w hand (keys batch) HP); try done.
  intros r s1 (rm1 & ws1 & -> & H). destruct r as [c|].
  - destruct H as [HP1 [a ->]]. destruct (good_decode w a Hw Hwf) as [Hgood Hph].
    assert (Hcost : WorkBudgetCost (w <| wi_BlockAllocation := Some a |>) = 1)
      by (unfold WorkBudgetCost; cbn; by rewrite Hph).
    set (b := w <| wi_BlockAllocation := Some a |>) in *.
    pose proof (within_range _ _ _ _ HW).
    apply IH.
    + unfold keys in *. by rewrite fmap_app.
    + eapply within_snoc; [exact HW|exact Hgood|lia|lia|done|by rewrite Hcost|change (wi_Phase b) with (wi_Phase w); by rewrite Hph|apply HW].
    + change (len hand <= bg_remainSeqs budget -u 1). rewrite u32_small; lia.
    + change (len hand <= bg_remainTokens budget -u 1). rewrite u32_small; lia.
    + rewrite countPhase_snoc, Hc, decide_False; [done|]. cbn. congruence.
  - apply IH; [exact H|exact HW|lia|lia|exact Hc].
Qed.

Lemma picking_kind k k' rm ws done : Picking k rm ws [] done -> Picking k' rm ws [] done.
Proof. intros [HS Hrun Hroom Hq _ Hk]. split; try done. by intros w ?%not_elem_of_nil. Qed.

Lemma able_runnable rm l : (forall w, runnable rm w = runnable rm0 w) ->
  filter (fun w => runnable rm w = true) l = able l.
Proof. intros H. apply list_filter_iff. intros w. by rewrite H. Qed.

Lemma able_unrunnable rm l : (forall w, runnable rm w = runnable rm0 w) ->
  Forall (fun w => runnable rm w = false) l -> able l = [].
Proof.
  intros H Hd. unfold able. induction Hd as [|x l' Hx _ IH]; [done|].
  rewrite filter_cons_False; [done|]. rewrite <- H. congruence.
Qed.

Lemma Dequeue_spec rm ws n done :
  Picking Decoding rm ws [] done -> 0 <= n ->
  wp (Dequeue e n) (fun l s' => exists rm' ws', s' = st rm' ws' /\
    Picking Decoding rm' ws' l done /\ len l <= n) (st rm ws).
Proof.
  intros HP Hn. unfold Dequeue. destruct (Z.eqb_spec n 0) as [->|Hne].
  { wp_steps. exists rm, ws. by ssplit. }
  apply wp_sweep.
  wp_use (dequeueLoop_spec (Z.to_nat n) rm (ws Decoding) (pk_smok _ _ _ _ _ HP)).
  intros r rm' [Hsw ->]. cbn [fst snd]. rewrite (able_runnable _ _ (pk_run _ _ _ _ _ HP)).
  eexists rm', _. split; [reflexivity|]. split.
  - rewrite <- (app_nil_l (able _)). eapply picking_swept; [done|done| | |].
    + by rewrite <- able_app, take_drop.
    + intros w Hw. rewrite <- (take_drop (Z.to_nat n) (ws Decoding)). set_solver.
    + intros w [Hr Hw]%list_elem_of_filter. split; [|done].
      rewrite <- (take_drop (Z.to_nat n) (ws Decoding)). set_solver.
  - unfold len, able. etrans; [apply inj_le, length_filter|]. rewrite length_take. lia.
Qed.

(** [Pop]: the next runnable item is in the hand. *)
Lemma Pop_spec k rm ws done :
  Picking k rm ws [] done ->
  wp (Pop k e) (fun r s' => exists rm' ws', s' = st rm' ws' /\
    match r with
    | Some w => Picking k rm' ws' [w] done /\
        (forall w' l, ws k = w' :: l -> runnable rm0 w' = true -> w = w')
    | None => Picking k rm' ws' [] done
    end) (st rm ws).
Proof.
  intros HP. unfold Pop. apply wp_sweep.
  wp_use (popLoop_spec rm (ws k) (pk_smok _ _ _ _ _ HP)). intros r rm' [Hsw ->].
  pose proof (nextRunnable_split rm (ws k)) as Hn.
  assert (Hfirst : forall w' l, ws k = w' :: l -> runnable rm0 w' = true -> nextRunnable rm (ws k) = (Some w', l)).
  { intros w' l E Hr. rewrite E. cbn. by rewrite (pk_run _ _ _ _ _ HP), Hr. }
  destruct (nextRunnable rm (ws k)) as [[w|] l]; cbn [fst snd].
  - destruct Hn as (Hw & dropped & E & Hd). rewrite (pk_run _ _ _ _ _ HP) in Hw.
    eexists rm', _. split; [reflexivity|]. split; [|by intros w' l' E' Hr; specialize (Hfirst _ _ E' Hr) as [= ]].
    rewrite <- (app_nil_l [w]). eapply picking_swept; [done|done| | |].
    + rewrite E, able_app, (able_unrunnable _ _ (pk_run _ _ _ _ _ HP) Hd).
      unfold able. by rewrite filter_cons_True.
    + intros w' Hw'. rewrite E. set_solver.
    + intros w' ->%list_elem_of_singleton. split; [rewrite E; set_solver|done].
  - destruct Hn as [-> Hd]. eexists rm', _. split; [reflexivity|].
    rewrite <- (app_nil_l []). eapply picking_swept; [done|done| |by intros w ?%not_elem_of_nil|by intros w ?%not_elem_of_nil].
    by rewrite (able_unrunnable _ _ (pk_run _ _ _ _ _ HP) Hd).
Qed.

(** [Peek]: the next runnable item is at the head of its queue. *)
Lemma Peek_spec k rm ws done :
  Picking k rm ws [] done ->
  wp (Peek k e) (fun r s' => exists rm' ws', s' = st rm' ws' /\ Picking k rm' ws' [] done /\
    match r with
    | Some w => runnable rm0 w = true /\ exists l, ws' k = w :: l
    | None => True
    end) (st rm ws).
Proof.
  intros HP. unfold Peek. apply wp_sweep.
  wp_use (peekLoop_spec rm (ws k) (pk_smok _ _ _ _ _ HP)). intros r rm' [Hsw ->].
  pose proof (nextRunnable_split rm (ws k)) as Hn.
  destruct (nextRunnable rm (ws k)) as [[w|] l]; cbn [fst snd]; eexists rm', _; (split; [reflexivity|]).
  - destruct Hn as (Hw & dropped & E & Hd). rewrite (pk_run _ _ _ _ _ HP) in Hw. split.
    + rewrite <- (app_nil_l []). eapply picking_swept; [done|done| | |by intros w' ?%not_elem_of_nil].
      * rewrite E, able_app, (able_unrunnable _ _ (pk_run _ _ _ _ _ HP) Hd). done.
      * intros w' Hw'. rewrite E. set_solver.
    + split; [done|]. exists l. unfold put. by rewrite decide_True.
  - destruct Hn as [-> Hd]. split; [|done].
    rewrite <- (app_nil_l []). eapply picking_swept; [done|done| |by intros w ?%not_elem_of_nil|by intros w ?%not_elem_of_nil].
    by rewrite (able_unrunnable _ _ (pk_run _ _ _ _ _ HP) Hd).
Qed.

(** *** The prefill queues *)

Lemma well_formed_prefill k w : k <> Decoding -> well_formed threshold e k w ->
  wi_Phase w = WorkPhasePrefill /\ WorkBudgetCost w = wi_NumNewTokens w /\
  0 < wi_NumNewTokens w < two32 /\ wi_NumNewTokens w = len (wi_TokenIDs w).
Proof.
  intros Hk (_ & Hkind & Hn). unfold kindOf in Hkind. unfold WorkBudgetCost.
  destruct (wi_Phase w); [|congruence|done]. rewrite (proj2 (Z.ltb_lt 0 _)) by lia. done.
Qed.

Lemma good_prefill k w chunk a t : k <> Decoding -> runnable rm0 w = true -> well_formed threshold e k w ->
  0 < t -> chunk = w <| wi_NumNewTokens := t |> <| wi_TokenIDs := take (Z.to_nat t) (wi_TokenIDs w) |> ->
  good_item (chunk <| wi_BlockAllocation := Some a |>) /\
  WorkBudgetCost (chunk <| wi_BlockAllocation := Some a |>) = t.
Proof.
  intros Hk Hr Hwf Ht ->. destruct (well_formed_prefill k w Hk Hwf) as (Hp & _ & _).
  assert (Hc : WorkBudgetCost (w <| wi_NumNewTokens := t |> <| wi_TokenIDs := take (Z.to_nat t) (wi_TokenIDs w) |>
    <| wi_BlockAllocation := Some a |>) = t).
  { unfold WorkBudgetCost. cbn. rewrite Hp. by rewrite (proj2 (Z.ltb_lt 0 _)). }
  split; [|done]. split; [exact Hr|]. split; [apply Hwf|]. split; [by eexists|].
  split; [cbn; rewrite Hp; done|]. by rewrite Hc.
Qed.

Lemma whole_chunk w : wi_NumNewTokens w = len (wi_TokenIDs w) ->
  w = w <| wi_NumNewTokens := wi_NumNewTokens w |>
        <| wi_TokenIDs := take (Z.to_nat (wi_NumNewTokens w)) (wi_TokenIDs w) |>.
Proof.
  intros Hn. rewrite firstn_all2; [by destruct w|]. unfold len in Hn. lia.
Qed.

Lemma pickSmallLoop_spec B P n rm ws batch budget :
  Picking SmallPrefill rm ws [] (keys batch) -> Within B P batch budget ->
  wp (pickSmallLoop n e batch budget) (fun r s' => exists rm' ws', s' = st rm' ws' /\
    Picking SmallPrefill rm' ws' [] (keys r.1) /\ Within B P r.1 r.2 /\
    countPhase WorkPhaseDecode r.1 = countPhase WorkPhaseDecode batch) (st rm ws).
Proof using HQ Hunique.
  revert rm ws batch budget. induction n as [|n IH]; intros rm ws batch budget HP HW; cbn [pickSmallLoop].
  { wp_steps. by exists rm, ws. }
  destruct ((0 <? bg_remainSeqs budget) && (0 <? bg_remainTokens budget) && (0 <? bg_remainPrefill budget)) eqn:Hb;
    [|wp_steps; by exists rm, ws].
  apply andb_true_iff in Hb as [[Hb1 Hb2]%andb_true_iff Hb3]. apply Z.ltb_lt in Hb1, Hb2, Hb3.
  wp_steps. wp_use (Peek_spec SmallPrefill rm ws _ HP). intros r s1 (rm1 & ws1 & -> & HP1 & Hr).
  destruct r as [w|]; [|wp_steps; by exists rm1, ws1]. destruct Hr as [Hw [l Hl]].
  destruct (Z.ltb_spec (bg_remainTokens budget) (WorkBudgetCost w)) as [Hlt|Hge]; [wp_steps; by exists rm1, ws1|].
  wp_steps. wp_use (Pop_spec SmallPrefill rm1 ws1 _ HP1). intros r2 s2 (rm2 & ws2 & -> & H2).
  destruct r2 as [w'|]; [|by apply IH]. destruct H2 as [HP2 Hsame]. rewrite (Hsame _ _ Hl Hw) in *. clear w' Hsame.
  destruct (pk_hand _ _ _ _ _ HP2 w) as (_ & Hwf & _); [by left|].
  destruct (well_formed_prefill SmallPrefill w ltac:(done) Hwf) as (Hph & Hcost & Hrange & Hn).
  wp_steps. wp_use (tryAllocate_spec SmallPrefill rm2 ws2 w w [] _ HP2); try done.
  intros r3 s3 (rm3 & ws3 & -> & H3). destruct r3 as [c|]; [|by apply IH].
  destruct H3 as [HP3 [a ->]].
  destruct (good_prefill SmallPrefill w w a (wi_NumNewTokens w) ltac:(done) Hw Hwf ltac:(lia) (whole_chunk w Hn)) as [Hgood Hc].
  eapply wp_mono; [apply (IH rm3 ws3 (batch ++ [w <| wi_BlockAllocation := Some a |>]))|cbn beta].
  - unfold keys in *. by rewrite fmap_app.
  - eapply within_snoc; [exact HW|exact Hgood|done|by rewrite Hc, <- Hcost|done|by rewrite Hc, <- Hcost| |apply HW].
    change (wi_Phase (w <| wi_BlockAllocation := Some a |>)) with (wi_Phase w). rewrite Hph. done.
  - intros r s' (rm' & ws' & -> & ? & ? & Hd). exists rm', ws'. ssplit; try done.
    rewrite Hd, countPhase_snoc, decide_False; [lia|]. cbn. congruence.
Qed.

Lemma pickLargeLoop_spec B P n rm ws batch budget :
  Picking LargePrefill rm ws [] (keys batch) -> Within B P batch budget ->
  wp (pickLargeLoop n e batch budget) (fun r s' => exists rm' ws', s' = st rm' ws' /\
    Picking LargePrefill rm' ws' [] (keys r.1) /\ Within B P r.1 r.2 /\
    countPhase WorkPhaseDecode r.1 = countPhase WorkPhaseDecode batch) (st rm ws).
Proof using HQ Hunique.
  revert rm ws batch budget. induction n as [|n IH]; intros rm ws batch budget HP HW; cbn [pickLargeLoop].
  { wp_steps. by exists rm, ws. }
  match goal with |- wp (if ?b then _ else _) _ _ => destruct b eqn:Hb end; [|wp_steps; by exists rm, ws].
  apply andb_true_iff in Hb as [[[Hb1 Hb2]%andb_true_iff Hb3]%andb_true_iff Hb4].
  apply Z.ltb_lt in Hb1, Hb2, Hb3, Hb4.
  wp_steps. wp_use (Pop_spec LargePrefill rm ws _ HP). intros r s1 (rm1 & ws1 & -> & H).
  destruct r as [w|]; [|wp_steps; by exists rm1, ws1]. destruct H as [HP1 _].
  destruct (pk_hand _ _ _ _ _ HP1 w) as (Hw & Hwf & _); [by left|].
  destruct (well_formed_prefill LargePrefill w ltac:(done) Hwf) as (Hph & Hcost & Hrange & Hn).
  wp_steps. set (t := Z.min (WorkBudgetCost w) (bg_remainTokens budget)).
  assert (Ht : 0 < t <= bg_remainTokens budget) by lia.
  destruct (split_spec w t Hph Hrange Hn ltac:(lia)) as (rest & Hsplit & _).
  replace (Z.min t (wi_NumNewTokens w)) with t in Hsplit by lia.
  eapply wp_getsO; [exact Hsplit|]. wp_steps. cbn [fst].
  set (chunk := w <| wi_NumNewTokens := t |> <| wi_TokenIDs := _ |>).
  wp_use (tryAllocate_spec LargePrefill rm1 ws1 w chunk [] _ HP1); try done.
  intros r2 s2 (rm2 & ws2 & -> & H2). destruct r2 as [c|]; [|by apply IH].
  destruct H2 as [HP2 [a ->]].
  destruct (good_prefill LargePrefill w chunk a t ltac:(done) Hw Hwf ltac:(lia) eq_refl) as [Hgood Hc].
  eapply wp_mono; [apply (IH rm2 ws2 (batch ++ [chunk <| wi_BlockAllocation := Some a |>]))|cbn beta].
  - unfold keys in *. by rewrite fmap_app.
  - pose proof (wn_large _ _ _ _ HW) as Hlg.
    eapply within_snoc; [exact HW|exact Hgood|done|rewrite Hc; lia|done|by rewrite Hc| |].
    + change (wi_Phase (chunk <| wi_BlockAllocation := Some a |>)) with (wi_Phase w). rewrite Hph. done.
    + apply u32_range.
  - intros r s' (rm' & ws' & -> & ? & ? & Hd). exists rm', ws'. ssplit; try done.
    rewrite Hd, countPhase_snoc, decide_False; [lia|]. cbn. congruence.
Qed.

(** *** The whole batch *)

Context (Hsmok : SMOK rm0) (Hroomy : roomy rm0 e).
Context (Hqueued : forall k w, w ∈ works0 k -> runnable rm0 w = true ->
  well_formed threshold e k w /\ ready rm0 e w).

Let B := sd_batchBudget s0.
Context (HB : 0 <= bg_remainTokens B < two32 /\ 0 <= bg_remainSeqs B < two32 /\
  0 <= bg_remainPrefill B < two32 /\ 0 <= bg_remainLargePrefill B < two32).

Lemma picking_start : Picking Decoding rm0 works0 [] [].
Proof. split; try done. by intros w ?%not_elem_of_nil. Qed.

Lemma within_nil g : bg_remainTokens g = bg_remainTokens B -> bg_remainSeqs g = bg_remainSeqs B ->
  0 <= bg_remainPrefill g < two32 -> 0 <= bg_remainLargePrefill g < two32 ->
  Within B (bg_remainPrefill g) [] g.
Proof using HB.
  intros Et Es Hp Hl. split; [constructor| | | |done]; rewrite ?Et, ?Es;
    change (len []) with 0; change (countPhase _ []) with 0; cbn [zsum]; lia.
Qed.

Lemma pickDecode_spec :
  wp (pickDecode e [] B) (fun r s' => exists rm' ws' P, s' = st rm' ws' /\
    Picking Decoding rm' ws' [] (keys r.1) /\ Within B P r.1 r.2 /\
    countPhase WorkPhasePrefill r.1 = 0 /\ (r.1 <> [] -> P = bg_remainPrefill B)) s0.
Proof using HB HQ Hqueued Hroomy Hsmok Hunique.
  rewrite <- st_start by exact HQ. unfold pickDecode. wp_steps.
  wp_use (Dequeue_spec rm0 works0 (Z.min (bg_remainSeqs B) (bg_remainTokens B)) [] picking_start); [lia|].
  intros hand s1 (rm1 & ws1 & -> & HP & Hlen). pose proof (len_nonneg hand). rewrite u32_small by lia.
  destruct (Z.eqb_spec (len hand) 0) as [E|E].
  - assert (hand = []) as -> by (destruct hand; [done|rewrite len_cons in E; pose proof (len_nonneg hand); lia]).
    wp_steps. exists rm1, ws1, (bg_remainSeqs B). ssplit; try done.
    set (g := B <| bg_remainPrefill := bg_remainSeqs B |> <| bg_remainLargePrefill := bg_remainSeqs B |>).
    assert (HW : Within B (bg_remainPrefill g) [] g)
      by (apply within_nil; [done|done|unfold g; cbn; lia|unfold g; cbn; lia]). exact HW.
  - assert (HW : Within B (bg_remainPrefill B) [] B) by (apply within_nil; [done|done|lia|lia]).
    eapply wp_mono; [apply (pickDecodeLoop_spec B (bg_remainPrefill B) rm1 ws1 hand [] B HP HW); try lia; done|].
    cbn beta. intros r s' (rm' & ws' & -> & ? & ? & ?). exists rm', ws', (bg_remainPrefill B). by ssplit.
Qed.

Lemma pickBatch_spec :
  wp (pickBatch e) (fun batch s' => exists rm' ws' P left, s' = st rm' ws' /\
    Picking LargePrefill rm' ws' [] (keys batch) /\ Within B P batch left /\
    (0 < countPhase WorkPhaseDecode batch -> P = bg_remainPrefill B)) s0.
Proof using HB HQ Hqueued Hroomy Hsmok Hunique.
  unfold pickBatch. wp_steps. wp_use pickDecode_spec.
  intros [b1 g1] s1 (rm1 & ws1 & P & -> & HP1 & HW1 & _ & HPd). cbn [fst snd] in *. wp_steps.
  unfold pickSmallPrefill, LengthOf. wp_steps.
  eapply wp_getsO; [change (queues SmallPrefill (st rm1 ws1)) with (sd_prefillSmall (st rm1 ws1));
    cbn; rewrite lookup_insert_eq; reflexivity|].
  eapply wp_mono; [apply (pickSmallLoop_spec B P _ rm1 ws1 b1 g1 (picking_kind _ _ _ _ _ HP1) HW1)|cbn beta].
  intros [b2 g2] s2 (rm2 & ws2 & -> & HP2 & HW2 & Hc2). cbn [fst snd] in *. wp_steps.
  unfold pickLargePrefill, LengthOf. wp_steps.
  eapply wp_getsO; [cbn; rewrite lookup_insert_eq; reflexivity|].
  eapply wp_mono; [apply (pickLargeLoop_spec B P _ rm2 ws2 b2 g2 (picking_kind _ _ _ _ _ HP2) HW2)|cbn beta].
  intros [b3 g3] s3 (rm3 & ws3 & -> & HP3 & HW3 & Hc3). cbn [fst snd] in *. wp_steps.
  exists rm3, ws3, P, g3. ssplit; try done. intros Hd. apply HPd. intros ->.
  rewrite Hc3, Hc2 in Hd. done.
Qed.
End pick.
