(* ===== verification/SchedulerProperties.v ===== *)
(** * SchedulerProperties: what the scheduler guarantees (internal/scheduler)

    The batch a scheduler assembles, the split of long prompts, the assignment of
    executors, the queueing of items and the handling of events. *)

From S2P Require Import Prelude Errors Model Metrics FreeQueue BlockManager BlockProperties BlockRegistry StateMachine RequestFrame Executor ExecutorProperties Queues QueueProperties Scheduler SchedulerPick.
(** ** Batches *)

Definition queued (k : queueKind) (e : string) (s : scheduler) : list WorkItem :=
  match queues k s !! e with Some q => wq_works q | None => [] end.

(** The queued items of an executor whose requests may run by [s0]. *)
Definition waiting (s0 : scheduler) (e : string) (s : scheduler) : list WorkItem :=
  filter (fun w => runnable (sd_requestManager s0) w = true)
    (queued Decoding e s ++ queued SmallPrefill e s ++ queued LargePrefill e s).

(** The scheduler's view of executor [e] is in order: its three queues exist and
    hold well-formed items in the queue of their kind, no request has two items
    that may run, each of these requests can be given blocks, and the block
    references of the executor cannot overflow. *)
Record SchedOK (e : string) (s : scheduler) : Prop := mkSchedOK {
  sk_requests : SMOK (sd_requestManager s);
  sk_exist : forall k, is_Some (queues k s !! e);
  sk_roomy : roomy (sd_requestManager s) e;
  sk_budget : 0 <= bg_remainTokens (sd_batchBudget s) < two32 /\ 0 <= bg_remainSeqs (sd_batchBudget s) < two32 /\
    0 <= bg_remainPrefill (sd_batchBudget s) < two32 /\ 0 <= bg_remainLargePrefill (sd_batchBudget s) < two32;
  sk_queued : forall k w, w ∈ queued k e s -> runnable (sd_requestManager s) w = true ->
    well_formed (sd_longPrefillThreshold s) e k w /\ ready (sd_requestManager s) e w;
  sk_unique : NoDup (wi_RequestId <$> waiting s e s)
}.

(** C8: [pickBatch] assembles a batch that respects the budget and loses nothing.
    For an executor whose queues are in order it always succeeds, and
    - the batch has at most [MaxBatchSeqs] items whose costs are at most
      [MaxBatchTokens], and next to decode items at most [MaxPartialPrefills]
      prefill items;
    - every item is of this executor, has its blocks allocated and can be sent,
      and no request occurs twice;
    - of the queued items whose requests may run, each is either in the batch
      (a long prompt as its first chunk) or still queued, none twice: as
      multisets of request and work ids they are the same;
    - which items may run, the queues of other executors and the consistency of
      the request manager are untouched. *)
Theorem pick_batch_correct s e (HS : SchedOK e s) :
  wp (pickBatch e) (fun batch s' =>
    len batch <= bg_remainSeqs (sd_batchBudget s) /\
    zsum WorkBudgetCost batch <= bg_remainTokens (sd_batchBudget s) /\
    (0 < countPhase WorkPhaseDecode batch ->
       countPhase WorkPhasePrefill batch <= bg_remainPrefill (sd_batchBudget s)) /\
    Forall (fun b => wi_ExecutorID b = e /\ executable b) batch /\
    NoDup (wi_RequestId <$> batch) /\
    key <$> waiting s e s ≡ₚ (key <$> batch) ++ (key <$> waiting s e s') /\
    (forall w, runnable (sd_requestManager s') w = runnable (sd_requestManager s) w) /\
    (forall k e', e' <> e -> queues k s' !! e' = queues k s !! e') /\
    SMOK (sd_requestManager s')) s.
Proof.
  destruct HS as [Hsmok Hex Hroom HB Hq Huniq].
  set (Q := fun k => match queues k s !! e with Some q => q | None => NewQueue 0 end).
  assert (HQ : forall k, queues k s !! e = Some (Q k)).
  { intros k. unfold Q. by destruct (Hex k) as [q ->]. }
  assert (Hwk : forall k, queued k e s = works0 Q k) by (intros k; unfold queued, works0; by rewrite HQ).
  assert (Hwait : waiting s e s = able s (allWorks (works0 Q))).
  { unfold waiting, able, allWorks. by rewrite !Hwk. }
  rewrite Hwait in Huniq.
  wp_use (pickBatch_spec s e Q HQ Huniq Hsmok Hroom); [intros k w; rewrite <- Hwk; apply Hq|exact HB|].
  intros batch s' (rm & ws & P & left & -> & HP & HW & HPd).
  assert (Hwait' : waiting s e (st s e Q rm ws) = able s (allWorks ws)).
  { unfold waiting, able, allWorks, queued. by rewrite !st_queue. }
  pose proof (within_range _ _ _ _ _ _ HW) as Hr. destruct HW as [Hi Hs Ht Hp Hl].
  pose proof (pk_keys _ _ _ _ _ _ _ _ HP) as Hk. cbn in Hk.
  rewrite Hwait, Hwait'. ssplit.
  - lia.
  - lia.
  - intros Hd. rewrite <- (HPd Hd). lia.
  - eapply Forall_impl; [exact Hi|]. intros b (_ & He & Ha & Hn & _). by split.
  - assert (Hnd : NoDup (fst <$> keys (able s (allWorks (works0 Q))))).
    { unfold keys. rewrite <- list_fmap_compose. exact Huniq. }
    rewrite Hk, fmap_app in Hnd. apply NoDup_app in Hnd as (Hnd & _ & _).
    unfold keys in Hnd. by rewrite <- list_fmap_compose in Hnd.
  - exact Hk.
  - apply (pk_run _ _ _ _ _ _ _ _ HP).
  - intros k e' Hne. destruct k; cbn; by apply lookup_insert_ne.
  - apply (pk_smok _ _ _ _ _ _ _ _ HP).
Qed.

(** Splitting a long prompt conserves it.  For a well-formed prefill item and
    a positive number of tokens, [splitPrefillChunk] never leaves the slice and
    - returns the whole item and no rest when the tokens cover it;
    - otherwise a chunk of exactly that many tokens and a rest: together they
      have the item's tokens in order and its cost, the rest starts where the
      chunk ends, and all else is the item's, so both still belong to it. *)
Theorem split_conserves w t
  (Hphase : wi_Phase w = WorkPhasePrefill) (Hnew : 0 < wi_NumNewTokens w < two32)
  (Hlen : wi_NumNewTokens w = len (wi_TokenIDs w)) (Ht : 0 < t) :
  exists chunk rest, splitPrefillChunk w t = Some (chunk, rest) /\
    WorkBudgetCost chunk = Z.min t (WorkBudgetCost w) /\ key chunk = key w /\
    wi_PrefillOffset chunk = wi_PrefillOffset w /\ wi_TokenCntTotal chunk = wi_TokenCntTotal w /\
    match rest with
    | None => chunk = w
    | Some r => t < WorkBudgetCost w /\ wi_TokenIDs w = wi_TokenIDs chunk ++ wi_TokenIDs r /\
        WorkBudgetCost chunk + WorkBudgetCost r = WorkBudgetCost w /\ key r = key w /\
        wi_PrefillOffset r = wi_PrefillOffset chunk +u WorkBudgetCost chunk /\
        wi_TokenCntTotal r = wi_TokenCntTotal w
    end.
Proof.
  destruct (split_spec w t Hphase Hnew Hlen Ht) as (rest & Hs & Hrest).
  set (t' := Z.min t (wi_NumNewTokens w)) in *.
  assert (Hc : forall x, wi_Phase x = WorkPhasePrefill -> 0 < wi_NumNewTokens x -> WorkBudgetCost x = wi_NumNewTokens x).
  { intros x Hp Hx. unfold WorkBudgetCost. rewrite Hp. by rewrite (proj2 (Z.ltb_lt 0 _)). }
  eexists _, rest. split; [exact Hs|].
  set (chunk := w <| wi_NumNewTokens := t' |> <| wi_TokenIDs := _ |>).
  assert (Hcc : WorkBudgetCost chunk = t') by (apply Hc; [done|cbn; lia]).
  rewrite Hcc, (Hc w) by (try done; lia). ssplit; try done. destruct rest as [r|].
  - destruct Hrest as [Hlt Hr]. assert (Hcr : WorkBudgetCost r = wi_NumNewTokens w - t').
    { rewrite Hc; rewrite Hr; [done|done|]. cbn. lia. }
    rewrite Hcr. ssplit; [lia| |lia|by rewrite Hr|by rewrite Hr|by rewrite Hr].
    rewrite Hr. cbn. by rewrite take_drop.
  - unfold chunk. rewrite Hrest, firstn_all2 by (unfold len in Hlen; lia). by destruct w.
Qed.

(** ** Assignment *)

Fixpoint assignAll (reqs : list Request) : M scheduler (list (error + Request)) :=
  match reqs with
  | [] => mret []
  | req :: reqs => r ← AssignExecutor req; rs ← assignAll reqs; mret (r :: rs)
  end.

(** The executor the [i]-th unbound request goes to. *)
Definition slot (ids : list string) (i : Z) : string := default "" (idx ids (i mod len ids)).

Lemma slot_round ids c : ids <> [] -> slot ids <$> seqZ c (len ids) ≡ₚ ids.
Proof.
  intros Hne. assert (Hk : 0 < len ids).
  { destruct ids; [done|]. rewrite len_cons. pose proof (len_nonneg ids). lia. }
  set (k := len ids) in *. pose proof (Z.mod_pos_bound c k Hk) as Hc. set (c0 := c mod k) in *.
  assert (slot ids <$> seqZ c k = drop (Z.to_nat c0) ids ++ take (Z.to_nat c0) ids) as ->.
  { apply list_eq_idx. intros i. rewrite idx_fmap, idx_app.
    assert (Hld : len (drop (Z.to_nat c0) ids) = k - c0) by (unfold k, len in *; rewrite length_drop; lia).
    rewrite Hld. assert (Hsq : idx (seqZ c k) i = if decide (0 <= i < k) then Some (c + i) else None).
    { unfold idx. destruct (Z.ltb_spec i 0); [by rewrite decide_False by lia|]. case_decide.
      - apply lookup_seqZ. lia.
      - apply lookup_ge_None. rewrite length_seqZ. lia. }
    rewrite Hsq. destruct (decide (0 <= i < k)) as [Hi|Hi]; cbn.
    - assert (Hmod : (c + i) mod k = if decide (i < k - c0) then c0 + i else i - (k - c0)).
      { rewrite <- Zplus_mod_idemp_l. fold c0. case_decide; [apply Z.mod_small; lia|].
        rewrite <- (Z_mod_plus_full _ (-1)), Z.mod_small; lia. }
      unfold slot. fold k. rewrite Hmod. case_decide.
      + rewrite idx_drop by lia. destruct (proj2 (idx_is_Some ids (c0 + i))) as [x ->]; [fold k; lia|done].
      + rewrite idx_take, decide_True by lia.
        destruct (proj2 (idx_is_Some ids (i - (k - c0)))) as [x ->]; [fold k; lia|done].
    - case_decide; symmetry; apply idx_ge; [rewrite Hld; lia|].
      assert (len (take (Z.to_nat c0) ids) = c0) as -> by (apply len_take; fold k; lia). lia. }
  by rewrite Permutation_app_comm, take_drop.
Qed.

Lemma seqZ_snoc_rounds ids c (q : nat) : ids <> [] ->
  slot ids <$> seqZ c (Z.of_nat q * len ids) ≡ₚ concat (replicate q ids).
Proof.
  intros Hne. revert c. induction q as [|q IH]; intros c; [done|].
  pose proof (len_nonneg ids).
  replace (Z.of_nat (S q) * len ids) with (len ids + Z.of_nat q * len ids) by lia.
  rewrite seqZ_app, fmap_app by lia. cbn [replicate concat].
  by rewrite slot_round, IH by done.
Qed.

Lemma assignAll_spec reqs s :
  sd_executorIDs s <> [] -> Forall (fun r => req_ExecutorID r = "") reqs ->
  0 <= sd_nextExecutor s -> sd_nextExecutor s + len reqs < two64 ->
  wp (assignAll reqs) (fun rs s' => s' = s <| sd_nextExecutor := sd_nextExecutor s + len reqs |> /\
    rs = zip_with (fun r id => inr (r <| req_ExecutorID := id |>)) reqs
           (slot (sd_executorIDs s) <$> seqZ (sd_nextExecutor s) (len reqs))) s.
Proof.
  intros Hne Hall. revert s Hne. induction Hall as [|r reqs Hr _ IH]; intros s Hne H0 Hw; cbn [assignAll].
  { wp_steps. split; [|done]. change (len []) with 0. rewrite Z.add_0_r. by destruct s. }
  rewrite len_cons in *. pose proof (len_nonneg reqs).
  assert (Hk : 0 < len (sd_executorIDs s)).
  { destruct (sd_executorIDs s) as [|x l]; [done|]. rewrite len_cons. pose proof (len_nonneg l). lia. }
  wp_steps. unfold AssignExecutor. wp_steps. rewrite Hr. cbn [String.eqb].
  rewrite (proj2 (Z.eqb_neq _ 0)) by lia. wp_steps.
  pose proof (Z.mod_pos_bound (sd_nextExecutor s) _ Hk) as Hm.
  destruct (proj2 (idx_is_Some (sd_executorIDs s) _) Hm) as [id Hid].
  eapply wp_getsO; [exact Hid|]. wp_steps.
  set (s1 := s <| sd_nextExecutor := u64 (sd_nextExecutor s + 1) |>).
  assert (Hn1 : sd_nextExecutor s1 = sd_nextExecutor s + 1) by (apply Z.mod_small; lia).
  eapply wp_mono; [apply (IH s1 Hne); rewrite Hn1; lia|cbn beta]. intros rs s2 [-> ->]. wp_steps.
  rewrite Hn1. split.
  - unfold s1, setf. cbn. f_equal. lia.
  - rewrite (seqZ_cons _ (1 + len reqs)) by lia. cbn [fmap list_fmap zip_with]. f_equal.
    + unfold slot. by rewrite Hid.
    + do 3 f_equal; lia.
Qed.

(** Unbound requests are spread round-robin and evenly.  As long as the counter
    does not wrap, a sequence of unbound requests is assigned to the registered
    executors in turn, each request otherwise unchanged; over any number of full
    rounds every executor receives exactly one request per round.  A request
    bound to a registered executor keeps it, one bound to another executor is
    refused, and neither moves the counter. *)
Theorem round_robin s (rounds : nat) reqs
  (Hids : sd_executorIDs s <> []) (Hunbound : Forall (fun r => req_ExecutorID r = "") reqs)
  (Hrange : 0 <= sd_nextExecutor s) (Hwrap : sd_nextExecutor s + len reqs < two64) :
  wp (assignAll reqs) (fun rs s' =>
    (forall i r, reqs !! i = Some r -> rs !! i = Some (inr (r <| req_ExecutorID :=
       slot (sd_executorIDs s) (sd_nextExecutor s + Z.of_nat i) |>))) /\
    (len reqs = Z.of_nat rounds * len (sd_executorIDs s) ->
       ((fun r : error + Request => match r with inr r => req_ExecutorID r | inl _ => "" end) <$> rs)
         ≡ₚ concat (replicate rounds (sd_executorIDs s)))) s /\
  forall r, req_ExecutorID r <> "" -> AssignExecutor r s = Some (
    if decide (req_ExecutorID r ∈ sd_executorIDs s) then inr r
    else inl (TextError ("executor " +:+ req_ExecutorID r +:+ " is not registered")), s).
Proof.
  split.
  - wp_use (assignAll_spec reqs s Hids Hunbound Hrange Hwrap). intros rs s' [_ ->]. split.
    + intros i r Hi. rewrite lookup_zip_with, Hi. cbn. pose proof (lookup_lt_Some _ _ _ Hi).
      rewrite list_lookup_fmap, lookup_seqZ_lt by (unfold len; lia). done.
    + intros Hlen. rewrite <- (seqZ_snoc_rounds _ (sd_nextExecutor s)), <- Hlen by done.
      assert (E : forall (l : list Request) (ids : list string), length l = length ids ->
        (fun r : error + Request => match r with inr r => req_ExecutorID r | inl _ => "" end) <$>
          zip_with (fun r id => inr (r <| req_ExecutorID := id |>)) l ids = ids).
      { induction l as [|x l IH]; intros [|y ids] Hl; try done. cbn in *. f_equal. apply IH. lia. }
      rewrite E; [done|]. rewrite length_fmap, length_seqZ. unfold len. lia.
  - intros r Hr. unfold AssignExecutor, mbind, M_bind, getS, mret, M_ret.
    destruct (String.eqb_spec (req_ExecutorID r) ""); [done|].
    destruct (existsb (String.eqb (req_ExecutorID r)) (sd_executorIDs s)) eqn:Hx; case_decide as Hin; try done.
    + destruct Hin. apply existsb_exists in Hx as (x & Hx & E%String.eqb_eq). rewrite E. by apply list_elem_of_In.
    + exfalso. apply list_elem_of_In in Hin. assert (existsb (String.eqb (req_ExecutorID r)) (sd_executorIDs s) = true); [|congruence].
      apply existsb_exists. exists (req_ExecutorID r). split; [done|]. apply String.eqb_refl.
Qed.

(** ** Queueing *)

(** Every registered executor has its three queues. *)
Definition wired (s : scheduler) : Prop :=
  forall id k, id ∈ sd_executorIDs s -> is_Some (queues k s !! id).

Lemma wired_new cfg em rm : wired (NewScheduler cfg em rm).
Proof.
  intros id k Hid. cbn in Hid.
  assert (is_Some ((list_to_map ((fun id => (id, NewQueue (cf_QueueLength cfg))) <$> ExecutorIDs (sm_registry rm))
    : gmap string workQueue) !! id)); [|by destruct k].
  apply elem_of_dom. rewrite dom_list_to_map_L, elem_of_list_to_set, <- list_fmap_compose. cbn.
  by rewrite list_fmap_id.
Qed.

(** The same scheduler but for its signal and metrics. *)
Definition signalled (s s' : scheduler) : Prop :=
  exists b l, s' = s <| sd_patchExecuteChan := b |> <| sd_metrics := l |>.

Lemma signalled_refl s : signalled s s.
Proof. exists (sd_patchExecuteChan s), (sd_metrics s). by destruct s. Qed.

Lemma queueLengths_spec ids s :
  (forall id k, id ∈ ids -> is_Some (queues k s !! id)) -> wp (queueLengths ids) (fun _ s' => s' = s) s.
Proof.
  induction ids as [|id ids IH]; intros Hq; cbn [queueLengths]; [by wp_steps|].
  unfold LengthOf. wp_steps.
  destruct (Hq id SmallPrefill ltac:(by left)) as [q1 H1], (Hq id LargePrefill ltac:(by left)) as [q2 H2],
    (Hq id Decoding ltac:(by left)) as [q3 H3].
  eapply wp_getsO; [by rewrite H1|]. wp_steps. eapply wp_getsO; [by rewrite H2|]. wp_steps.
  eapply wp_getsO; [by rewrite H3|]. wp_steps. wp_use IH; [intros id' k Hid; apply Hq; by right|].
  intros r s' ->. by wp_steps.
Qed.

Lemma trySchedule_spec id s : wired s -> wp (trySchedule id) (fun _ s' => signalled s s') s.
Proof.
  intros Hw. unfold trySchedule. wp_steps.
  destruct (sd_prefillSmall s !! id), (sd_prefillLarge s !! id), (sd_decode s !! id);
    try (wp_steps; apply signalled_refl).
  wp_steps. eapply (wp_mono _ (fun _ s' => exists b, s' = s <| sd_patchExecuteChan := b |>)).
  { case_match; wp_steps; [by eexists|]. exists (sd_patchExecuteChan s). by destruct s. }
  intros _ s1 [b ->]. wp_steps. eapply wp_mono; [apply queueLengths_spec|].
  { intros id' k Hid. destruct (Hw id' k Hid) as [q Hq']. exists q. by destruct k. }
  cbn beta. intros r s2 ->. unfold sd_metric. wp_steps. exists b. eexists. unfold setf. cbn. reflexivity.
Qed.

(** The scheduler after the request of a refused item was failed with [err]. *)
Definition rejected (s s' : scheduler) (rid : string) (err : error) : Prop :=
  exists rm l, s' = s <| sd_requestManager := rm |> <| sd_metrics := l |> /\ SMOK rm /\
    shrinks (sd_requestManager s) rm /\
    exists uuid, ended (sd_requestManager s) rm rid
      [failureEvent uuid rid (sm_now (sd_requestManager s)) err].

Lemma reject_spec s rid err : SMOK (sd_requestManager s) ->
  wp (sd_metric IncQueueRejected ;; onState (Fail_ rid err)) (fun _ s' => rejected s s' rid err) s.
Proof.
  intros HS. unfold sd_metric. wp_steps.
  pose proof (wp_and _ _ _ _ (Fail_spec (sd_requestManager s) rid err HS)
    (Fail_frame (sd_requestManager s) rid err HS)) as H.
  unfold wp, onState in *. cbn. destruct (Fail_ rid err (sd_requestManager s)) as [[[] rm]|]; [|done].
  destruct H as [[HS' He] (_ & Hsh & _)]. eexists rm, _. by split.
Qed.

(** Every branch of [Enqueue]. *)
Lemma Enqueue_spec s w (Hw : wired s) (HS : SMOK (sd_requestManager s))
  (Hlen : forall k q, queues k s !! wi_ExecutorID w = Some q -> len (wq_works q) < two32) :
  let e := wi_ExecutorID w in
  let w' := w <| wi_EnqueuedAt := sm_now (sd_requestManager s) |> in
  wp (Enqueue w) (fun res s' =>
    match kindOf (sd_longPrefillThreshold s) w with
    | None => s' = s /\ CodeOf res = CodeInvalidArgument
    | Some k =>
        match queues k s !! e with
        | None => exists err, res = Some err /\ CodeOf res = CodeExecutorUnavailable /\
            rejected s s' (wi_RequestId w) err
        | Some q =>
            if len (wq_works q) <? wq_size q then
              res = None /\ exists b l,
                s' = setQueues k (<[e := q <| wq_works := wq_works q ++ [w'] |>]> (queues k s)) s
                       <| sd_patchExecuteChan := b |> <| sd_metrics := l |>
            else exists err, res = Some err /\ CodeOf res = CodeQueueFull /\
              rejected s s' (wi_RequestId w) err
        end
    end) s.
Proof.
  intros e w'. unfold Enqueue. wp_steps.
  change (kindOf (sd_longPrefillThreshold s) (w <| wi_EnqueuedAt := _ |>)) with (kindOf (sd_longPrefillThreshold s) w).
  fold w'. destruct (kindOf (sd_longPrefillThreshold s) w) as [k|]; [|by wp_steps].
  change (wi_ExecutorID w') with e. change (wi_RequestId w') with (wi_RequestId w).
  assert (Hreject : forall err, wp (sd_metric IncQueueRejected ;; onState (Fail_ (wi_RequestId w) err) ;; mret (Some err))
    (fun res s' => res = Some err /\ rejected s s' (wi_RequestId w) err) s).
  { intros err. pose proof (reject_spec s (wi_RequestId w) err HS) as H. apply wp_bind_inv in H.
    wp_steps. eapply wp_mono; [exact H|cbn beta]. intros _ s1 H1. wp_steps.
    eapply wp_mono; [exact H1|cbn beta]. intros _ s2 H2. by wp_steps. }
  destruct (queues k s !! e) as [q|] eqn:Hq.
  - assert (Hl : u32 (len (wq_works q)) = len (wq_works q)).
    { apply u32_small. split; [apply len_nonneg|by eapply Hlen]. }
    wp_steps. unfold onQueue, QueueEnqueue, wp, mbind, M_bind, getS, modS, mret, M_ret.
    rewrite Hq. cbn. rewrite Hl.
    destruct (Z.leb_spec (wq_size q) (len (wq_works q))) as [Hfull|Hroom].
    + rewrite (proj2 (Z.ltb_ge _ _)) by lia. cbn.
      assert (Es : setQueues k (<[e := q]> (queues k s)) s = s).
      { rewrite insert_id by done. by destruct k, s. }
      rewrite Es. set (err := New CodeQueueFull _). specialize (Hreject err).
      unfold wp, mbind, M_bind, mret, M_ret in Hreject. cbn in Hreject |- *.
      destruct (onState _ _) as [[[] s2]|]; [|done].
      exists err. by destruct Hreject.
    + rewrite (proj2 (Z.ltb_lt _ _)) by lia. cbn.
      set (q' := setf wq_works _ q). set (s1 := setQueues k (<[e := q']> (queues k s)) s).
      assert (Hw1 : wired s1).
      { intros id k' Hid. assert (Hid' : id ∈ sd_executorIDs s) by (unfold s1 in Hid; by destruct k).
        specialize (Hw id k' Hid'). unfold s1. destruct k, k'; cbn; try exact Hw;
          apply lookup_insert_is_Some'; by right. }
      pose proof (trySchedule_spec e s1 Hw1) as Ht. unfold wp in Ht.
      destruct (trySchedule e s1) as [[[] s2]|]; [|done]. destruct Ht as (b & l & ->).
      split; [done|]. by exists b, l.
  - apply wp_bind, wp_ret. cbv beta iota. eapply wp_mono; [apply Hreject|cbn beta]. intros res s' [-> Hrej].
    eexists. by split.
Qed.

(** [Enqueue] puts a work item into the queue of its kind (decode, short or
    long prompt) and of its executor, at the end and stamped with the time, when
    that queue exists and has room; nothing else changes but the dispatch signal
    and the metrics.
    Otherwise it fails the request: nothing is queued, the request is gone with
    its blocks and its subscriber receives the error, which is also returned:
    queue-full or executor-unavailable.  An item of unknown phase is refused and
    nothing changes. *)
Theorem enqueue_or_fail s w (Hw : wired s) (HS : SMOK (sd_requestManager s))
  (Hlen : forall k q, queues k s !! wi_ExecutorID w = Some q -> len (wq_works q) < two32) :
  let e := wi_ExecutorID w in
  let w' := w <| wi_EnqueuedAt := sm_now (sd_requestManager s) |> in
  wp (Enqueue w) (fun res s' =>
    match kindOf (sd_longPrefillThreshold s) w with
    | None => s' = s /\ CodeOf res = CodeInvalidArgument
    | Some k =>
        match queues k s !! e with
        | None => exists err, res = Some err /\ CodeOf res = CodeExecutorUnavailable /\
            rejected s s' (wi_RequestId w) err
        | Some q =>
            if len (wq_works q) <? wq_size q then
              res = None /\ exists b l,
                s' = setQueues k (<[e := q <| wq_works := wq_works q ++ [w'] |>]> (queues k s)) s
                       <| sd_patchExecuteChan := b |> <| sd_metrics := l |>
            else exists err, res = Some err /\ CodeOf res = CodeQueueFull /\
              rejected s s' (wi_RequestId w) err
        end
    end) s.
Proof. by apply Enqueue_spec. Qed.

(** ** Events *)

Lemma Commit_settles m pins p w : Inv m pins p ->
  wp (Commit w) (fun _ m' => m_pendingAllocations m' !! w = None /\
    forall id, is_Some (m_requestBlocks m' !! id) -> is_Some (m_requestBlocks m !! id)) m.
Proof.
  intros HI. destruct (m_pendingAllocations m !! w) as [a|] eqn:Ha.
  - wp_use (Commit_inv _ _ _ _ _ HI Ha). intros _ m' (Hrb & Hpd & _). rewrite Hrb, Hpd.
    split; [apply lookup_delete_eq|done].
  - wp_use (Commit_unknown _ _ Ha). by intros _ m' ->.
Qed.

Lemma Rollback_settles m pins p w : Inv m pins p ->
  wp (Rollback w) (fun _ m' => m_pendingAllocations m' !! w = None /\
    forall id, is_Some (m_requestBlocks m' !! id) -> is_Some (m_requestBlocks m !! id)) m.
Proof.
  intros HI. destruct (m_pendingAllocations m !! w) as [a|] eqn:Ha.
  - wp_use (Rollback_inv _ _ _ _ _ HI Ha). intros _ m' (old & p' & Hold & Hrb & Hpd & _).
    rewrite Hrb, Hpd. split; [apply lookup_delete_eq|]. intros id. unfold rolledBack.
    destruct (pd_table _ _ _ (inv_pending _ _ _ HI) _ _ Ha) as (_ & _ & Htab & _).
    case_match.
    + by intros [_ ?]%lookup_delete_is_Some.
    + intros [<-|[_ ?]]%lookup_insert_is_Some; [by eexists|done].
  - wp_use (Rollback_unknown _ _ Ha). by intros _ m' ->.
Qed.

(** The request manager after a change in the block manager of [e] that settles
    the work item [w] and adds no table. *)
Definition settled (rm rm' : stateManager) (e w : string) : Prop :=
  SMOK rm' /\ exists r', rm' = rm <| sm_registry := r' |> /\
    r_executorIDs r' = r_executorIDs (sm_registry rm) /\
    exists m', r_managers r' = <[e := m']> (r_managers (sm_registry rm)) /\
      m_pendingAllocations m' !! w = None.

Lemma settle_spec rm e m w o (c : M manager unit) :
  SMOK rm -> r_managers (sm_registry rm) !! e = Some m ->
  request_op o = true -> enabled o m (pinsOf e (r_pendingTransfers (sm_registry rm))) ->
  run_op o (pinsOf e (r_pendingTransfers (sm_registry rm))) =
    (c ≫= fun _ => mret (pinsOf e (r_pendingTransfers (sm_registry rm)))) ->
  wp c (fun _ m' => m_pendingAllocations m' !! w = None /\
    forall id, is_Some (m_requestBlocks m' !! id) -> is_Some (m_requestBlocks m !! id)) m ->
  wp (onRegistry (withManager e c)) (fun r rm' => r = inr tt /\ settled rm rm' e w) rm.
Proof.
  intros HS Hm Ho Hen Hrun Hc. apply wp_onRegistry. eapply wp_withManager; [exact Hm|].
  eapply wp_mono; [apply wp_and; [exact Hc|apply (regok_request _ e m o c (so_reg _ HS) Hm Ho Hen Hrun)]|].
  cbn beta. intros [] m' [[Hp Htab] HR]. split; [done|].
  set (r' := sm_registry rm <| r_managers := _ |>) in *. split.
  - apply (smok_registry rm r' e m m' HS HR Hm eq_refl). intros id Hid. left. by apply Htab.
  - exists r'. split; [done|]. split; [done|]. by exists m'.
Qed.

(** Both ways to settle a work item. *)
Lemma settle_blocks rm e m w : SMOK rm -> r_managers (sm_registry rm) !! e = Some m ->
  wp (onRegistry (RegCommit e w)) (fun r rm' => r = inr tt /\ settled rm rm' e w) rm /\
  wp (onRegistry (RegRollback e w)) (fun r rm' => r = inr tt /\ settled rm rm' e w) rm.
Proof.
  intros HS Hm. destruct (rg_managers _ (so_reg _ HS) _ _ Hm) as [p HI]. split.
  - apply (settle_spec rm e m w (OpCommit w)); try done. by eapply Commit_settles.
  - apply (settle_spec rm e m w (OpRollback w)); try done. by eapply Rollback_settles.
Qed.

(** [onState] of a call that changes only the request manager. *)
Lemma wp_onState_with {A} (c : M stateManager A) P s :
  wp c (fun a rm => P a (s <| sd_requestManager := rm |>)) (sd_requestManager s) -> wp (onState c) P s.
Proof. unfold wp, onState. by destruct (c (sd_requestManager s)) as [[a rm]|]. Qed.

Lemma finalize_spec s ev req m :
  SMOK (sd_requestManager s) ->
  r_managers (sm_registry (sd_requestManager s)) !! req_ExecutorID req = Some m ->
  wp (finalize ev req) (fun res s' => exists rm, s' = s <| sd_requestManager := rm |> /\
    settled (sd_requestManager s) rm (req_ExecutorID req) (ev_WorkId ev) /\
    (is_Some res <-> ev_ExecutorId ev <> req_ExecutorID req)) s.
Proof.
  intros HS Hm. destruct (settle_blocks _ _ _ (ev_WorkId ev) HS Hm) as [Hco Hro].
  unfold finalize, onBlocks. destruct (String.eqb_spec (ev_ExecutorId ev) (req_ExecutorID req)) as [E|E]; cbn [negb].
  - case_match; wp_steps; apply wp_onState_with; [wp_use Hro|wp_use Hco];
      intros r rm [-> Hset]; wp_steps; exists rm; (split; [done|]; split; [done|]); cbn; split; try done;
      by intros [? ?].
  - wp_steps. apply wp_onState_with. wp_use Hro. intros r rm [-> Hset]. wp_steps. exists rm.
    split; [done|]. split; [done|]. split; [done|eauto].
Qed.

Lemma wired_requeue s k e q b l : wired s ->
  wired (setQueues k (<[e := q]> (queues k s)) s <| sd_patchExecuteChan := b |> <| sd_metrics := l |>).
Proof.
  intros Hw id k' Hid. assert (Hid' : id ∈ sd_executorIDs s) by (by destruct k).
  specialize (Hw id k' Hid'). destruct k, k'; cbn; try exact Hw;
    apply lookup_insert_is_Some'; by right.
Qed.

(** No block of work item [w] is still pending on executor [e]. *)
Definition settled_on (rm : stateManager) (e w : string) : Prop :=
  forall m, r_managers (sm_registry rm) !! e = Some m -> m_pendingAllocations m !! w = None.

(** What channel [ch] received since [rm], beginning with [ev]. *)
Definition told (rm rm' : stateManager) (id : string) (ev : Event) : Prop :=
  exists ch c more closed, sm_subscribeCh rm !! id = Some ch /\ sm_channels rm !! ch = Some c /\
    sm_channels rm' !! ch = Some (mkChannel (ch_sent c ++ ev :: more) closed).

(** Queueing the next item, if there is one. *)
Lemma enqueueAll_spec items s id e w ev rm0 :
  wired s -> SMOK (sd_requestManager s) -> (length items <= 1)%nat ->
  Forall (fun i => wi_RequestId i = id /\ wi_ExecutorID i = e) items ->
  (forall k q, queues k s !! e = Some q -> len (wq_works q) < two32) ->
  sm_subscribeCh (sd_requestManager s) = sm_subscribeCh rm0 ->
  (exists ch c, sm_subscribeCh rm0 !! id = Some ch /\ sm_channels rm0 !! ch = Some c /\
     sm_channels (sd_requestManager s) !! ch = Some (mkChannel (ch_sent c ++ [ev]) false)) ->
  settled_on (sd_requestManager s) e w ->
  wp (enqueueAll items) (fun res s' => wired s' /\ SMOK (sd_requestManager s') /\
    told rm0 (sd_requestManager s') id ev /\ settled_on (sd_requestManager s') e w /\
    (res = None -> sd_requestManager s' = sd_requestManager s)) s.
Proof.
  intros Hw HS Hl Hall Hlen Hsub (ch & c & Hch & Hc & Hnow) Hset.
  assert (Hkeep : told rm0 (sd_requestManager s) id ev) by (exists ch, c, [], false; by ssplit).
  destruct Hall as [|i items [Hid He] Hall]; [cbn; wp_steps; by ssplit|].
  destruct items as [|? ?]; [|cbn in Hl; lia]. cbn [enqueueAll]. wp_steps.
  pose proof (Enqueue_spec s i Hw HS) as HE. rewrite He, Hid in HE. specialize (HE Hlen).
  cbv zeta in HE. eapply wp_mono; [exact HE|cbn beta]. clear HE. intros res s' H.
  assert (Hrej : forall err, rejected s s' id err -> wired s' /\ SMOK (sd_requestManager s') /\
    told rm0 (sd_requestManager s') id ev /\ settled_on (sd_requestManager s') e w).
  { intros err (rm & l & -> & HS' & Hsh & uuid & _ & _ & Hend). split; [|split; [|split]].
    - intros id' k Hid'. destruct (Hw id' k Hid') as [q Hq]. exists q. by destruct k.
    - exact HS'.
    - cbn in Hend. rewrite Hsub in Hend. destruct (Hend ch Hch) as (c' & Hc' & _ & Hcs).
      rewrite Hnow in Hc'. injection Hc' as <-. cbn in Hcs. eexists ch, c, _, true.
      split; [done|]. split; [done|]. cbn. rewrite Hcs, lookup_insert_eq, <- app_assoc. reflexivity.
    - intros m' Hm'. cbn in Hm'. destruct (shrinks_manager _ _ _ _ Hsh Hm') as (m & Hm & Hms).
      apply eq_None_not_Some. intros [a Ha]. apply (ms_pending _ _ _ Hms) in Ha.
      rewrite (Hset m Hm) in Ha. done. }
  destruct (kindOf (sd_longPrefillThreshold s) i) as [k|].
  - destruct (queues k s !! e) as [q|].
    + destruct (len (wq_works q) <? wq_size q).
      * destruct H as (-> & b & l & ->). wp_steps.
        assert (Hrm : forall q', sd_requestManager (setQueues k (<[e := q']> (queues k s)) s
          <| sd_patchExecuteChan := b |> <| sd_metrics := l |>) = sd_requestManager s) by (by destruct k).
        rewrite !Hrm. split; [by apply wired_requeue|]. by ssplit.
      * destruct H as (err & -> & _ & Hr). wp_steps. destruct (Hrej err Hr) as (? & ? & ? & ?). by ssplit.
    + destruct H as (err & -> & _ & Hr). wp_steps. destruct (Hrej err Hr) as (? & ? & ? & ?). by ssplit.
  - destruct H as [-> Hcode]. destruct res as [err|]; [|done]. wp_steps. by ssplit.
Qed.

(** The items and the event a transition makes. *)
Lemma transition_shape ev req rm items req' ev' rm' :
  transition ev req rm = Some ((items, req', ev'), rm') ->
  (length items <= 1)%nat /\ ev_Type ev' = ev_Type ev /\ ev_Err ev' = ev_Err ev /\
  (ev_Done ev = true -> ev_Done ev' = true).
Proof.
  unfold transition, now_, newUUID, getsO, mbind, M_bind, getS, modS, mret, M_ret. cbn.
  destruct (ev_Type ev) eqn:Ht; cbn.
  1: destruct (slice _ _ _); cbn; [|done].
  3: destruct (_ || _); cbn; [case_decide|].
  all: intros [= <- _ <- _]; cbn; ssplit; try done; lia.
Qed.

Lemma free_spec rm e m id : SMOK rm -> r_managers (sm_registry rm) !! e = Some m ->
  wp (onRegistry (RegFreeRequest e id)) (fun r rm' => r = inr tt /\ SMOK rm' /\
    sm_channels rm' = sm_channels rm /\
    exists m', r_managers (sm_registry rm') !! e = Some m' /\ m_requestBlocks m' !! id = None /\
      forall w, m_pendingAllocations m !! w = None -> m_pendingAllocations m' !! w = None) rm.
Proof.
  intros HS Hm. destruct (rg_managers _ (so_reg _ HS) _ _ Hm) as [p HI].
  apply wp_onRegistry. unfold RegFreeRequest. eapply wp_withManager; [exact Hm|].
  eapply wp_mono; [apply wp_and; [apply (FreeRequest_inv _ _ _ id HI)|
    apply (regok_request _ e m (OpFreeRequest id) (FreeRequest id) (so_reg _ HS) Hm eq_refl I eq_refl)]|].
  cbn beta. intros [] m' [(Hrb & _ & Hpd & _) HR]. split; [done|].
  set (r' := sm_registry rm <| r_managers := _ |>) in *. split; [|split; [done|]].
  - apply (smok_registry rm r' e m m' HS HR Hm eq_refl). intros id' Hid. left. rewrite Hrb in Hid.
    by apply lookup_delete_is_Some in Hid as [_ ?].
  - exists m'. cbn. rewrite lookup_insert_eq, Hrb, lookup_delete_eq. split; [done|]. split; [done|].
    intros w Hw. rewrite Hpd. apply map_lookup_filter_None. by left.
Qed.

(** The end of [handleEvent]: the blocks of a finished request and the metric. *)
Lemma finish_spec s e id w m1 rm0 ev ferr :
  wired s -> SMOK (sd_requestManager s) ->
  r_managers (sm_registry (sd_requestManager s)) !! e = Some m1 -> m_pendingAllocations m1 !! w = None ->
  told rm0 (sd_requestManager s) id ev ->
  wp (err ← (if ev_Done ev then
               r ← onBlocks (RegFreeRequest e id);
               mret (errorOf r)
             else mret None);
      match err with
      | Some e => mret (Some e)
      | None =>
          sd_metric (ObserveExecution (tm_Execution (ev_Timing ev)) (ev_ExecutorId ev)) ;;
          mret ferr
      end) (fun res s' => wired s' /\ SMOK (sd_requestManager s') /\
    settled_on (sd_requestManager s') e w /\ told rm0 (sd_requestManager s') id ev /\ res = ferr /\
    (ev_Done ev = true -> forall m, r_managers (sm_registry (sd_requestManager s')) !! e = Some m ->
       m_requestBlocks m !! id = None)) s.
Proof.
  intros Hw HS Hm Hp Ht. destruct (ev_Done ev); wp_steps.
  - apply wp_onState_with. wp_use (free_spec _ e m1 id HS Hm).
    intros r rm (-> & HS' & Hch & m' & Hm' & Hrb & Hpd). cbn [errorOf]. unfold sd_metric. wp_steps. cbn.
    ssplit; try done.
    + intros m0. rewrite Hm'. intros [= <-]. by apply Hpd.
    + destruct Ht as (ch & c & more & closed & H1 & H2 & H3). exists ch, c, more, closed. by rewrite Hch.
    + intros _ m0. rewrite Hm'. by intros [= <-].
  - unfold sd_metric. wp_steps. cbn. ssplit; try done. intros m0. rewrite Hm. by intros [= <-].
Qed.

(** [OnEvent] of a live request, as [handleEvent] sees it. *)
Lemma OnEvent_told rm ev req :
  SMOK rm -> sm_requests rm !! ev_RequestId ev = Some req -> chunk_ok ev req ->
  wp (OnEvent ev) (fun r rm' => SMOK rm' /\ sm_registry rm' = sm_registry rm /\
    sm_subscribeCh rm' = sm_subscribeCh rm /\ (length r.1 <= 1)%nat /\
    Forall (fun i => wi_RequestId i = ev_RequestId ev /\ wi_ExecutorID i = req_ExecutorID req) r.1 /\
    ev_Type r.2 = ev_Type ev /\ ev_Err r.2 = ev_Err ev /\ (ev_Done ev = true -> ev_Done r.2 = true) /\
    exists ch c, sm_subscribeCh rm !! ev_RequestId ev = Some ch /\ sm_channels rm !! ch = Some c /\
      sm_channels rm' !! ch = Some (mkChannel (ch_sent c ++ [r.2]) false)) rm.
Proof.
  intros HS Hreq Hok. eapply wp_mono; [apply (OnEvent_spec rm ev HS)|cbn beta].
  { intros r Hr. rewrite Hreq in Hr. by injection Hr as <-. }
  rewrite Hreq.
  intros [items ev'] rm' (HS' & Hg & Hsub & _ & req' & n & ch & c & Htr & _ & _ & Hall & Hch & Hc & Hcs).
  cbn [fst snd] in *. destruct (transition_shape _ _ _ _ _ _ _ Htr) as (Hone & Hty & Herr & Hdone).
  destruct (so_open _ HS _ _ Hch) as (c' & Hc' & Hopen). rewrite Hc in Hc'. injection Hc' as <-.
  ssplit; try done. exists ch, c. split; [done|]. split; [done|]. rewrite Hcs, lookup_insert_eq.
  unfold setf. cbn. by rewrite Hopen.
Qed.

