(* ===== verification/SchedulerExamples.v ===== *)
(** * SchedulerExamples: one executor scheduled

    A scheduler over the request manager of RequestExamples, before and after the
    prefill item of its request is queued; the witnesses of the theorems of
    QueueProperties and SchedulerProperties. *)

From S2P Require Import Prelude Errors Model Metrics FreeQueue GoSha256 BlockManager BlockProperties BlockExamples BlockRegistry StateMachine RequestProperties RequestExamples RequestFrame Executor ExecutorExamples Queues QueueProperties Scheduler SchedulerPick SchedulerProperties.
Definition cfg0 : ScheduleConf := mkScheduleConf 2 4 8 10 2 1 5.
Definition sd0 : scheduler := NewScheduler cfg0 em0 sm1.
Definition item1 : WorkItem :=
  match Create prompt0 sm0 with Some (inr w, _) => w | _ => work0 end.

Definition sdAfter {A} (c : M scheduler A) (s : scheduler) : scheduler :=
  match c s with Some (_, s') => s' | None => s end.
Definition sd1 : scheduler := sdAfter (Enqueue item1) sd0.

(** The item queued, picked and submitted: the batch arrives at the worker. *)
Example scheduled :
  match BatchRound None true false sd1 with
  | Some (_, s) => map (fun b => map wi_NumNewTokens (bt_Items b))
      (default [] (em_batchChans (sd_executorManager s) !! "e0"))
  | None => []
  end = [[3]].
Proof. vm_compute. reflexivity. Qed.

Definition manager1 : manager :=
  match r_managers (sm_registry sm1) !! "e0" with Some m => m | None => noManager end.

Lemma sm1_manager : r_managers (sm_registry sm1) !! "e0" = Some manager1.
Proof.
  assert (H : is_Some (r_managers (sm_registry sm1) !! "e0")) by (apply not_eq_None_Some; by vm_compute).
  destruct H as [m Hm]. unfold manager1. by rewrite Hm.
Qed.

Lemma wired_sd0 : wired sd0.
Proof. apply wired_new. Qed.

Lemma sd0_lengths k e q : queues k sd0 !! e = Some q -> wq_works q = [].
Proof.
  assert (H : queues k sd0 = <["e0" := NewQueue 2]> ∅) by (destruct k; by vm_compute).
  rewrite H. intros [[<- <-]|[_ E]]%lookup_insert_Some; [done|by rewrite lookup_empty in E].
Qed.

Definition stamped1 : WorkItem := item1 <| wi_EnqueuedAt := sm_now sm1 |>.

Lemma sd1_state : sd_requestManager sd1 = sm1 /\ sd_longPrefillThreshold sd1 = 10 /\
  queues SmallPrefill sd1 = <["e0" := mkWorkQueue [stamped1] 2]> ∅ /\
  queues LargePrefill sd1 = <["e0" := NewQueue 2]> ∅ /\ queues Decoding sd1 = <["e0" := NewQueue 2]> ∅.
Proof. by vm_compute. Qed.

Lemma sd1_queued k : queued k "e0" sd1 = match k with SmallPrefill => [stamped1] | _ => [] end.
Proof. destruct k; by vm_compute. Qed.

Lemma stamped1_fields : wi_RequestId stamped1 = "r0" /\ wi_ExecutorID stamped1 = "e0" /\
  wi_Phase stamped1 = WorkPhasePrefill /\ wi_TokenCntTotal stamped1 = 3 /\ wi_NumNewTokens stamped1 = 3 /\
  len (wi_TokenIDs stamped1) = 3 /\ is_Some (wi_Cache stamped1).
Proof. ssplit; [by vm_compute..|]. apply not_eq_None_Some. by vm_compute. Qed.

Lemma manager1_state : m_pendingAllocations manager1 = ∅ /\ m_requestBlocks manager1 !! "r0" = Some [] /\
  slack manager1 [] < two32.
Proof. by vm_compute. Qed.

#[local] Opaque sd0 sd1 sm0 sm1 live1 reg1 item1 manager1.

Lemma item1_ready : ready (sd_requestManager sd1) "e0" stamped1.
Proof.
  destruct stamped1_fields as (Hid & _ & _ & _ & _ & _ & [c Hc]).
  destruct manager1_state as (Hp & Ht & _). unfold ready. rewrite (proj1 sd1_state), Hid.
  exists live1, manager1, c, []. ssplit; [exact sm1_live|by vm_compute|exact sm1_manager| |exact Hc|by apply no_pending_empty].
  left. by rewrite Hid.
Qed.

Lemma sd1_budget : sd_batchBudget sd1 = mkBatchBudget 8 4 2 1.
Proof. vm_compute. reflexivity. Qed.

Lemma budget1_range : 0 <= 8 < two32 /\ 0 <= 4 < two32 /\ 0 <= 2 < two32 /\ 0 <= 1 < two32.
Proof. by cbn. Qed.

(** A scheduler with a single short prompt of three tokens queued. *)
Lemma one_queued_ok s e w q : SMOK (sd_requestManager s) -> (forall k, is_Some (queues k s !! e)) ->
  roomy (sd_requestManager s) e -> sd_batchBudget s = mkBatchBudget 8 4 2 1 ->
  sd_longPrefillThreshold s = 10 -> (forall k, queued k e s = match k with SmallPrefill => [w] | _ => [] end) ->
  wi_ExecutorID w = e -> wi_Phase w = WorkPhasePrefill -> wi_TokenCntTotal w = 3 -> wi_NumNewTokens w = 3 ->
  len (wi_TokenIDs w) = 3 -> ready (sd_requestManager s) e w -> q = s -> SchedOK e q.
Proof.
  intros HS Hex Hroom Hb Hth Hq He Hph Htot Hn Htk Hr ->. split; try done.
  - rewrite Hb. exact budget1_range.
  - intros k w'. rewrite Hq. destruct k; [|by intros ?%elem_of_nil..].
    intros ->%list_elem_of_singleton _. split; [|exact Hr].
    unfold well_formed, kindOf. by rewrite Hth, He, Hph, Htot, Hn, Htk.
  - unfold waiting. rewrite !Hq. cbn [app]. rewrite filter_cons. case_decide; [apply NoDup_singleton|constructor].
Qed.

Lemma sd1_exist k : is_Some (queues k sd1 !! "e0").
Proof.
  pose proof sd1_state as (_ & _ & Hs & Hl & Hd).
  destruct k; rewrite ?Hs, ?Hl, ?Hd, lookup_insert_eq; by eexists.
Qed.

Lemma sd1_roomy : roomy (sd_requestManager sd1) "e0".
Proof.
  rewrite (proj1 sd1_state). intros m. rewrite sm1_manager. intros [= <-].
  replace (pinsOf "e0" (r_pendingTransfers (sm_registry sm1))) with (@nil Z) by (by vm_compute).
  exact (proj2 (proj2 manager1_state)).
Qed.

Lemma sd1_ok : SchedOK "e0" sd1.
Proof.
  destruct stamped1_fields as (_ & He & Hph & Htot & Hn & Htk & _).
  refine (one_queued_ok sd1 "e0" stamped1 sd1 _ sd1_exist sd1_roomy sd1_budget (proj1 (proj2 sd1_state))
    sd1_queued He Hph Htot Hn Htk item1_ready eq_refl).
  rewrite (proj1 sd1_state). exact sm1_ok.
Qed.

(** ** Witnesses *)

Lemma pick_batch_correct_witness :
  wp (pickBatch "e0") (fun batch _ => len batch <= 4 /\ zsum WorkBudgetCost batch <= 8 /\
    NoDup (wi_RequestId <$> batch)) sd1.
Proof.
  eapply wp_mono; [exact (pick_batch_correct sd1 "e0" sd1_ok)|].
  intros batch s' (H1 & H2 & _ & _ & H3 & _).
  rewrite sd1_budget in H1, H2. exact (conj H1 (conj H2 H3)).
Defined.

Lemma split_conserves_witness : exists chunk rest, splitPrefillChunk stamped1 2 = Some (chunk, Some rest).
Proof.
  destruct stamped1_fields as (_ & _ & Hph & _ & Hn & Htk & _).
  assert (Hb : 0 < wi_NumNewTokens stamped1 < two32) by (rewrite Hn; done).
  assert (Hl : wi_NumNewTokens stamped1 = len (wi_TokenIDs stamped1)) by congruence.
  destruct (split_conserves stamped1 2 Hph Hb Hl ltac:(lia)) as (chunk & rest & Hs & Hc & _ & _ & _ & Hr).
  destruct rest as [rest|]; [by exists chunk, rest|].
  exfalso. subst chunk. revert Hc. unfold WorkBudgetCost. rewrite Hph, Hn. cbn. lia.
Defined.

Lemma round_robin_witness :
  wp (assignAll [req0; req0]) (fun rs _ =>
    ((fun r : error + Request => match r with inr r => req_ExecutorID r | inl _ => "" end) <$> rs) ≡ₚ ["e0"; "e0"]) sd0.
Proof.
  assert (Hids : sd_executorIDs sd0 = ["e0"]) by (by vm_compute).
  assert (Hn : sd_nextExecutor sd0 = 0) by (by vm_compute).
  assert (Hu : Forall (fun r => req_ExecutorID r = "") [req0; req0]).
  { assert (req_ExecutorID req0 = "") by (by vm_compute). repeat constructor; done. }
  eapply wp_mono; [apply (round_robin sd0 2 [req0; req0])|]; rewrite ?Hids, ?Hn; try done.
  intros rs s' [_ H]. by apply H.
Defined.

Lemma enqueue_or_fail_witness : wp (Enqueue item1) (fun res s' => res = None) sd0.
Proof.
  pose proof (enqueue_or_fail sd0 item1 wired_sd0) as H.
  replace (sd_requestManager sd0) with sm1 in H by (by vm_compute).
  eapply wp_mono; [apply (H sm1_ok)|].
  - intros k q Hq%sd0_lengths. by rewrite Hq.
  - replace (kindOf (sd_longPrefillThreshold sd0) item1) with (Some SmallPrefill) by (by vm_compute).
    replace (queues SmallPrefill sd0 !! wi_ExecutorID item1) with (Some (NewQueue 2)) by (by vm_compute).
    intros res s' [Hr _]. exact Hr.
Defined.


Lemma queues_fifo_witness :
  wp (popLoop [stamped1; work0 <| wi_RequestId := "gone" |>]) (fun _ s' => SMOK s') sm1.
Proof.
  eapply wp_mono; [exact (proj1 (queues_fifo sm1 _ 1 sm1_ok))|]. by intros r s' [HS _].
Defined.

(** A ring of two entries whose counters are about to wrap. *)
Definition ring0 : lockFreeQueue := mkLockFreeQueue [None; None] 2 (two64 - 1) (two64 - 1).
Definition ringOps0 : list RingOp :=
  [REnqueue stamped1; REnqueue work0; REnqueue work0; RDequeue 1; REnqueue stamped1; RDequeue 5].


Lemma queue_bounds_witness :
  fst <$> QueueEnqueue "q" stamped1 (mkWorkQueue [work0; work0] 2) =
    Some (Some (New CodeQueueFull "q is full")).
Proof.
  destruct (queue_bounds (mkWorkQueue [work0; work0] 2) "q" stamped1) as (H & _); [by cbn..|].
  rewrite H. reflexivity.
Defined.

Lemma prefill_dequeue_longest_witness :
  wp (PrefillDequeue 4) (fun l _ => l <> []) (mkWorkQueue [stamped1; stamped1] 2).
Proof.
  destruct stamped1_fields as (_ & _ & Hph & _ & Hn & _).
  eapply wp_mono; [apply (prefill_dequeue_longest (mkWorkQueue [stamped1; stamped1] 2) 4); [lia|done|]|].
  - assert (Hc : WorkBudgetCost stamped1 = 3) by (unfold WorkBudgetCost; rewrite Hph, Hn; done).
    repeat (apply Forall_cons; split; [rewrite Hc; done|]). constructor.
  - by intros l s' [H _].
Defined.
