(* ===== verification/Engine.v ===== *)
(** * Engine: the work in the engine and its invariant

    The scheduler, the request manager with the block registry, and the executor
    manager hand one piece of work from one to the other: a work item waits in a
    queue, is given blocks and flies in a batch, lands as an event of the
    executor, and the event makes the next item.  A [token] is such a piece;
    [tokens] lists those of a state.

    The invariant [Flow] says that every request that can still run has exactly
    one token, wherever it is, and that the token is in order for where it is.
    The argument [H] of [Flow] is the work a running goroutine holds in its local
    variables, which no queue or channel shows. *)

From S2P Require Import Prelude Errors Model Metrics FreeQueue BlockManager BlockProperties BlockRegistry StateMachine RequestFrame Executor ExecutorProperties Queues QueueProperties Scheduler SchedulerPick SchedulerProperties.
(** ** Tokens *)

Inductive token :=
| Queued (work : WorkItem)      (* in a queue, or on the way to one *)
| Flying (work : WorkItem)      (* in a batch, blocks given *)
| Landed (event : Event).       (* executed *)

Definition tok_rid (t : token) : string :=
  match t with Queued w | Flying w => wi_RequestId w | Landed ev => ev_RequestId ev end.
Definition tok_wid (t : token) : string :=
  match t with Queued w | Flying w => wi_WorkId w | Landed ev => ev_WorkId ev end.

Definition queueTokens (s : scheduler) (e : string) : list token :=
  Queued <$> (queued Decoding e s ++ queued SmallPrefill e s ++ queued LargePrefill e s).

Definition chanTokens (em : executorManager) (e : string) : list token :=
  match em_batchChans em !! e with
  | Some q => Flying <$> concat (bt_Items <$> q)
  | None => []
  end.

Definition workerTokens (em : executorManager) (e : string) : list token :=
  match em_workers em !! e with
  | Some (Running b) => Flying <$> bt_Items b
  | Some (Sending evs) => Landed <$> evs
  | _ => []
  end.

Definition executorTokens (s : scheduler) (e : string) : list token :=
  queueTokens s e ++ chanTokens (sd_executorManager s) e ++ workerTokens (sd_executorManager s) e.

Definition tokens (s : scheduler) : list token :=
  concat (executorTokens s <$> sd_executorIDs s) ++ (Landed <$> em_eventChan (sd_executorManager s)).

(** ** A token in order *)

(** Every allocation pending for the request is the work item's, of the blocks
    [ids] at the end of its table, and the work item has none for another. *)
Definition in_flight (m : manager) (rid : string) (c : PrefixMatch) (wid : string) : Prop :=
  exists old ids, m_requestBlocks m !! rid = Some (old ++ ids) /\
    (old = [] -> pm_BlockIDs c = []) /\
    (forall w a, m_pendingAllocations m !! w = Some a -> ba_RequestID a = rid ->
       w = wid /\ ba_AllocatedBlocks a = ids) /\
    (forall a, m_pendingAllocations m !! wid = Some a -> ba_RequestID a = rid).

(** Nothing is pending, and the blocks that matched are in the table. *)
Definition backed (m : manager) (rid : string) (c : PrefixMatch) : Prop :=
  no_pending rid m /\
  ((exists l, m_requestBlocks m !! rid = Some l /\ (l = [] -> pm_BlockIDs c = [])) \/
   (m_requestBlocks m !! rid = None /\ pm_BlockIDs c = [])).

(** The prompt of the request is still being computed. *)
Definition prefilling (req : Request) : bool :=
  match req_Phase req with
  | RequestPhaseDecodeReady | RequestPhaseDecodeRunning => false
  | p => negb (terminal p)
  end.

(** A prefill item continues the request where it is. *)
Definition continues (req : Request) (w : WorkItem) : Prop :=
  wi_Phase w = WorkPhasePrefill -> prefilling req = true /\
  wi_PrefillOffset w = req_ComputedTokens req /\ wi_TokenCntTotal w = req_PromptTokens req /\
  0 <= req_ComputedTokens req /\ 0 < wi_NumNewTokens w /\
  req_ComputedTokens req + wi_NumNewTokens w <= req_PromptTokens req <= len (req_TokenIDs req) /\
  req_PromptTokens req < two32.

(** The event reports progress the request can make; only a decode ends it. *)
Definition event_ok (req : Request) (ev : Event) : Prop :=
  match ev_Type ev with
  | EventTypePrefillChunk => ev_Done ev = false /\ prefilling req = true /\
      0 <= req_ComputedTokens req /\ 0 < us_InputTokens (ev_Usage ev) /\
      req_ComputedTokens req + us_InputTokens (ev_Usage ev) < req_PromptTokens req <= len (req_TokenIDs req) /\
      req_PromptTokens req < two32
  | EventTypePrefillFinished => ev_Done ev = false /\ prefilling req = true
  | EventTypeOther _ => False
  | _ => True
  end.

Definition live_ok (threshold : Z) (m : manager) (req : Request) (c : PrefixMatch) (t : token) : Prop :=
  match t with
  | Queued w => (exists k, well_formed threshold (req_ExecutorID req) k w) /\
      wi_Cache w = Some c /\ continues req w /\ backed m (wi_RequestId w) c
  | Flying w => (exists k, well_formed threshold (req_ExecutorID req) k w) /\
      wi_Cache w = Some c /\ continues req w /\ in_flight m (wi_RequestId w) c (wi_WorkId w)
  | Landed ev => event_ok req ev /\ in_flight m (ev_RequestId ev) c (ev_WorkId ev)
  end.

(** The token can be handled whether or not its request is still live, and
    matches it when it is. *)
Definition token_ok (threshold : Z) (rm : stateManager) (t : token) : Prop :=
  (forall w, t = Flying w -> executable w) /\
  forall req, sm_requests rm !! tok_rid t = Some req ->
    terminal (req_Phase req) = false /\
    exists m c, r_managers (sm_registry rm) !! req_ExecutorID req = Some m /\
      req_Cache req = Some c /\ live_ok threshold m req c t.

(** ** The invariant *)

(** The parts that do not concern the work. *)
Record Wired (s : scheduler) : Prop := mkWired {
  wd_ids : NoDup (sd_executorIDs s);
  wd_queues : forall k e, is_Some (queues k s !! e) <-> e ∈ sd_executorIDs s;
  wd_chans : forall e, is_Some (em_batchChans (sd_executorManager s) !! e) <-> e ∈ sd_executorIDs s;
  wd_workers : forall e, is_Some (em_workers (sd_executorManager s) !! e) <-> e ∈ sd_executorIDs s;
  wd_kinds : forall k e w, w ∈ queued k e s ->
    kindOf (sd_longPrefillThreshold s) w = Some k /\ wi_ExecutorID w = e;
  wd_executors : forall e, is_Some (em_executors (sd_executorManager s) !! e) <-> e ∈ sd_executorIDs s;
  wd_budget : 0 <= bg_remainTokens (sd_batchBudget s) < two32 /\ 0 <= bg_remainSeqs (sd_batchBudget s) < two32 /\
    0 <= bg_remainPrefill (sd_batchBudget s) < two32 /\ 0 <= bg_remainLargePrefill (sd_batchBudget s) < two32;
  wd_uuids : Inj (=) (=) (sm_uuids (sd_requestManager s))
}.

Definition live (rm : stateManager) (t : token) : Prop := live_in rm (tok_rid t).
#[export] Instance live_dec rm t : Decision (live rm t).
Proof. unfold live, live_in. apply _. Defined.

(** A work id that was drawn. *)
Definition drawn (rm : stateManager) (wid : string) : Prop :=
  exists i, (i < sm_drawn rm)%nat /\ wid = sm_uuids rm i.

(** The tokens [T], wherever they are, against the request manager. *)
Record Work (threshold : Z) (rm : stateManager) (T : list token) : Prop := mkWork {
  wk_wids : NoDup (tok_wid <$> T);
  wk_drawn : Forall (fun t => drawn rm (tok_wid t)) T;
  wk_rids : NoDup (tok_rid <$> filter (live rm) T);
  wk_ok : Forall (token_ok threshold rm) T;
  wk_lost : forall id req, sm_requests rm !! id = Some req -> terminal (req_Phase req) = false ->
    id ∈ (tok_rid <$> T)
}.

Record Flow (s : scheduler) (H : list token) : Prop := mkFlow {
  fl_requests : SMOK (sd_requestManager s);
  fl_wired : Wired s;
  fl_roomy : forall e, roomy (sd_requestManager s) e;
  fl_held : Forall (live (sd_requestManager s)) H;
  fl_work : Work (sd_longPrefillThreshold s) (sd_requestManager s) (H ++ tokens s)
}.

Lemma work_perm threshold rm T T' : T ≡ₚ T' -> Work threshold rm T -> Work threshold rm T'.
Proof.
  intros E [H1 H2 H3 H4 H5]. split.
  - by rewrite <- E.
  - by rewrite <- E.
  - by rewrite <- E.
  - by rewrite <- E.
  - intros id req Hr Ht. rewrite <- E. by eapply H5.
Qed.

(** A change of the state that moves work between the goroutine and the state. *)
Lemma flow_move s s' H H' :
  Flow s H -> sd_requestManager s' = sd_requestManager s -> Wired s' ->
  sd_longPrefillThreshold s' = sd_longPrefillThreshold s ->
  Forall (live (sd_requestManager s)) H' ->
  H ++ tokens s ≡ₚ H' ++ tokens s' -> Flow s' H'.
Proof.
  intros [H1 H2 H3 H4 H5] E W Et Hl Hp. split; rewrite ?E, ?Et; try done. by eapply work_perm.
Qed.

Lemma flow_perm s H H' : H ≡ₚ H' -> Flow s H -> Flow s H'.
Proof.
  intros E HF. apply (flow_move s s H H' HF); [done|apply HF|done|rewrite <- E; apply HF|by rewrite E].
Qed.

(** ** What an operation leaves alone

    [evolves R W rm rm']: between [rm] and [rm'] requests may have ended, but
    only those of [R] were changed otherwise, and new pending allocations are
    those of [R] under the work ids [W]. *)
Record evolves (R W : list string) (rm rm' : stateManager) : Prop := mkEvolves {
  ev_uuids : sm_uuids rm' = sm_uuids rm;
  ev_drawn : (sm_drawn rm <= sm_drawn rm')%nat;
  ev_requests : forall id, id ∉ R -> forall req, sm_requests rm' !! id = Some req -> sm_requests rm !! id = Some req;
  ev_managers : forall e m', r_managers (sm_registry rm') !! e = Some m' ->
    exists m, r_managers (sm_registry rm) !! e = Some m /\
      (forall id, id ∉ R -> live_in rm' id -> m_requestBlocks m' !! id = m_requestBlocks m !! id) /\
      (forall w a, m_pendingAllocations m' !! w = Some a ->
         m_pendingAllocations m !! w = Some a \/ (w ∈ W /\ ba_RequestID a ∈ R))
}.

Lemma evolves_refl rm : evolves [] [] rm rm.
Proof. split; try done. intros e m' Hm. exists m'. ssplit; try done. by left. Qed.

Lemma evolves_trans R1 W1 R2 W2 rm1 rm2 rm3 :
  evolves R1 W1 rm1 rm2 -> evolves R2 W2 rm2 rm3 -> evolves (R1 ++ R2) (W1 ++ W2) rm1 rm3.
Proof.
  intros [A1 A2 A3 A4] [B1 B2 B3 B4]. split; [congruence|lia| |].
  - intros id Hid req Hr. apply A3; [set_solver|]. apply B3; [set_solver|done].
  - intros e m3 Hm3. destruct (B4 e m3 Hm3) as (m2 & Hm2 & Ht2 & Hp2).
    destruct (A4 e m2 Hm2) as (m1 & Hm1 & Ht1 & Hp1). exists m1. split; [done|]. split.
    + intros id Hid [req Hr]. rewrite Ht2; [|set_solver|by eexists]. apply Ht1; [set_solver|].
      exists req. apply B3; [set_solver|done].
    + intros w a Ha. destruct (Hp2 w a Ha) as [Ha'|?]; [|right; set_solver].
      destruct (Hp1 w a Ha') as [?|?]; [by left|right; set_solver].
Qed.

Lemma evolves_live R W rm rm' id : evolves R W rm rm' -> id ∉ R -> live_in rm' id -> live_in rm id.
Proof. intros He Hid [req Hr]. exists req. by eapply ev_requests. Qed.

Lemma evolves_drawn R W rm rm' w : evolves R W rm rm' -> drawn rm w -> drawn rm' w.
Proof.
  intros He (i & Hi & ->). exists i. rewrite (ev_uuids _ _ _ _ He). split; [|done].
  pose proof (ev_drawn _ _ _ _ He). lia.
Qed.

Lemma in_flight_frame m m' rid c wid :
  m_requestBlocks m' !! rid = m_requestBlocks m !! rid ->
  (forall w a, m_pendingAllocations m' !! w = Some a -> w = wid \/ ba_RequestID a = rid -> m_pendingAllocations m !! w = Some a) ->
  in_flight m rid c wid -> in_flight m' rid c wid.
Proof.
  intros Ht Hp (old & ids & Htab & Hold & Hu & Hw). exists old, ids. ssplit.
  - by rewrite Ht.
  - done.
  - intros w a Ha Hr. eapply Hu; [|done]. by apply Hp; [|right].
  - intros a Ha. apply Hw. by apply Hp; [|left].
Qed.

Lemma backed_frame m m' rid c :
  m_requestBlocks m' !! rid = m_requestBlocks m !! rid ->
  (forall w a, m_pendingAllocations m' !! w = Some a -> ba_RequestID a = rid -> m_pendingAllocations m !! w = Some a) ->
  backed m rid c -> backed m' rid c.
Proof.
  intros Ht Hp [Hno Htab]. split; [|by rewrite Ht]. intros w a Ha E. by apply (Hno w a); [apply Hp|].
Qed.

Lemma token_ok_frame threshold R W rm rm' t :
  evolves R W rm rm' -> SMOK rm' -> (tok_rid t ∉ R /\ tok_wid t ∉ W) \/ ~ live rm' t ->
  token_ok threshold rm t -> token_ok threshold rm' t.
Proof.
  intros He HS Hor [Hex Hlive]. split; [done|]. intros req Hr. destruct Hor as [[HR HW]|Hno]; cycle 1.
  { exfalso. apply Hno. by exists req. }
  pose proof (ev_requests _ _ _ _ He _ HR _ Hr) as Hr0. destruct (Hlive _ Hr0) as (Hterm & m & c & Hm & Hc & Hok).
  split; [done|]. destruct (so_exec _ HS _ _ Hr) as [_ [m' Hm']].
  destruct (ev_managers _ _ _ _ He _ _ Hm') as (m0 & Hm0 & Ht & Hp).
  assert (m0 = m) as -> by congruence.
  assert (Htab : m_requestBlocks m' !! tok_rid t = m_requestBlocks m !! tok_rid t) by (apply Ht; [done|by exists req]).
  assert (Hpd : forall w a, m_pendingAllocations m' !! w = Some a -> w = tok_wid t \/ ba_RequestID a = tok_rid t ->
    m_pendingAllocations m !! w = Some a).
  { intros w a Ha Hor. destruct (Hp w a Ha) as [?|[H1 H2]]; [done|]. exfalso. destruct Hor as [->|E]; [done|].
    by rewrite E in H2. }
  exists m', c. split; [done|]. split; [done|]. destruct t as [w|w|ev]; cbn in *.
  - destruct Hok as (? & ? & ? & Hb). ssplit; try done. eapply backed_frame; [exact Htab| |exact Hb].
    intros w' a Ha E. apply Hpd; [done|by right].
  - destruct Hok as (? & ? & ? & Hb). ssplit; try done. by eapply in_flight_frame.
  - destruct Hok as (? & Hb). split; [done|]. by eapply in_flight_frame.
Qed.

(** The tokens [old] become [new], the others stay. *)
Lemma work_step threshold rm rm' R W old new T :
  Work threshold rm (old ++ T) -> evolves R W rm rm' -> SMOK rm' ->
  (forall t, t ∈ old -> tok_rid t ∈ R \/ ~ live rm' t) ->
  (forall t, t ∈ T -> (tok_rid t ∉ R /\ tok_wid t ∉ W) \/ ~ live rm' t) ->
  (forall t, t ∈ new -> tok_rid t ∈ R /\ token_ok threshold rm' t /\ drawn rm' (tok_wid t)) ->
  NoDup (tok_rid <$> new) -> NoDup (tok_wid <$> new ++ T) ->
  (forall id req, id ∈ R -> sm_requests rm' !! id = Some req -> terminal (req_Phase req) = false ->
     id ∈ tok_rid <$> new) ->
  Work threshold rm' (new ++ T).
Proof.
  intros [H1 H2 H3 H4 H5] He HS Hold HT Hnew Hnd Hw Hlost.
  apply Forall_app in H2 as [_ H2]. apply Forall_app in H4 as [_ H4]. split.
  - done.
  - apply Forall_app. split; [apply Forall_forall; intros t Ht; apply Hnew, Ht|].
    eapply Forall_impl; [exact H2|]. intros t. by eapply evolves_drawn.
  - rewrite filter_app, fmap_app. apply NoDup_app. split; [|split].
    + eapply (sublist_NoDup _ _ Hnd), fmap_sublist, sublist_filter.
    + intros rid (t & -> & [_ Ht]%list_elem_of_filter)%list_elem_of_fmap (t' & E & [Hl' Ht']%list_elem_of_filter)%list_elem_of_fmap.
      destruct (HT _ Ht') as [[HR _]|Hno]; [|done]. apply HR. rewrite <- E. by apply Hnew.
    + rewrite filter_app, fmap_app in H3. apply NoDup_app in H3 as (_ & _ & H3).
      apply (sublist_NoDup _ _ H3), fmap_sublist.
      clear -HT He. induction T as [|t T IH]; [done|].
      assert (Hrest : filter (live rm') T `sublist_of` filter (live rm) T) by (apply IH; intros; apply HT; by right).
      rewrite !filter_cons. destruct (decide (live rm' t)) as [Hl|Hl].
      * rewrite decide_True; [by apply sublist_skip|]. destruct (HT t) as [[HR _]|Hno]; [by left| |done].
        by eapply evolves_live.
      * case_decide; [by apply sublist_cons|done].
  - apply Forall_app. split; [apply Forall_forall; intros t Ht; apply Hnew, Ht|].
    apply Forall_forall. intros t Ht. eapply token_ok_frame; [done|done|by apply HT|].
    by apply (proj1 (Forall_forall _ _) H4).
  - intros id req Hr Hterm. rewrite fmap_app. apply elem_of_app.
    destruct (decide (id ∈ R)) as [HR|HR]; [left; by eapply Hlost|right].
    pose proof (H5 id req (ev_requests _ _ _ _ He _ HR _ Hr) Hterm) as Hin.
    rewrite fmap_app in Hin. apply elem_of_app in Hin as [Hin|Hin]; [|done]. exfalso.
    apply list_elem_of_fmap in Hin as (t & -> & Ht). destruct (Hold t Ht) as [?|Hno]; [done|].
    apply Hno. by exists req.
Qed.

Section work.
Context (threshold : Z) (rm rm' : stateManager) (T : list token).
Implicit Types t : token.

Lemma work_distinct t : Work threshold rm (t :: T) -> live rm t -> forall t', t' ∈ T -> tok_rid t' <> tok_rid t.
Proof.
  intros HW Hl t' Ht' E. pose proof (wk_rids _ _ _ HW) as Hnd. rewrite filter_cons_True in Hnd by done.
  apply NoDup_cons in Hnd as [Hnot _]. apply Hnot. rewrite <- E. apply list_elem_of_fmap_2.
  apply list_elem_of_filter. split; [|done]. unfold live. by rewrite E.
Qed.

Lemma work_distinct_wid t : Work threshold rm (t :: T) -> forall t', t' ∈ T -> tok_wid t' <> tok_wid t.
Proof.
  intros HW t' Ht' E. pose proof (wk_wids _ _ _ HW) as Hnd. cbn in Hnd. apply NoDup_cons in Hnd as [Hnot _].
  apply Hnot. rewrite <- E. by apply list_elem_of_fmap_2.
Qed.

(** A token is replaced in place. *)
Lemma work_replace W t t' :
  Work threshold rm (t :: T) -> live rm t -> evolves [tok_rid t] W rm rm' -> SMOK rm' ->
  (forall w, w ∈ W -> w = tok_wid t) ->
  tok_rid t' = tok_rid t -> tok_wid t' = tok_wid t -> token_ok threshold rm' t' ->
  Work threshold rm' (t' :: T).
Proof.
  intros HW Hl He HS HWt Er Ew Hok.
  apply (work_step threshold rm rm' [tok_rid t] W [t] [t'] T); try done.
  - intros ? ->%list_elem_of_singleton. left. set_solver.
  - intros t0 Ht0. left. split.
    + intros E%list_elem_of_singleton. by eapply work_distinct.
    + intros Hin%HWt. by eapply work_distinct_wid.
  - intros ? ->%list_elem_of_singleton. rewrite Er, Ew. ssplit; [set_solver|done|].
    pose proof (wk_drawn _ _ _ HW) as Hd. inversion Hd; subst. by eapply evolves_drawn.
  - apply NoDup_singleton.
  - cbn. rewrite Ew. apply (wk_wids _ _ _ HW).
  - intros id req Hid%list_elem_of_singleton _ _. cbn. rewrite Er, Hid. by left.
Qed.

(** A token is used up and its request has ended or will never run again. *)
Lemma work_consume t :
  Work threshold rm (t :: T) -> live rm t -> evolves [tok_rid t] [] rm rm' -> SMOK rm' ->
  (forall req, sm_requests rm' !! tok_rid t = Some req -> terminal (req_Phase req) = true) ->
  Work threshold rm' T.
Proof.
  intros HW Hl He HS Hend.
  apply (work_step threshold rm rm' [tok_rid t] [] [t] [] T); try done.
  - intros ? ->%list_elem_of_singleton. left. set_solver.
  - intros t0 Ht0. left. split; [|set_solver]. intros E%list_elem_of_singleton. by eapply work_distinct.
  - set_solver.
  - constructor.
  - pose proof (wk_wids _ _ _ HW) as Hnd. cbn in Hnd. by apply NoDup_cons in Hnd as [_ ?].
  - intros id req ->%list_elem_of_singleton Hr Hterm. by rewrite (Hend _ Hr) in Hterm.
Qed.

(** Requests end, and nothing else changes. *)
Lemma work_end R :
  Work threshold rm T -> evolves R [] rm rm' -> SMOK rm' -> (forall id, id ∈ R -> ~ live_in rm' id) ->
  Work threshold rm' T.
Proof.
  intros HW He HS Hend. apply (work_step threshold rm rm' R [] [] [] T); try done.
  - set_solver.
  - intros t Ht. destruct (decide (tok_rid t ∈ R)) as [HR|HR]; [right; by apply Hend|left; set_solver].
  - set_solver.
  - constructor.
  - apply HW.
  - intros id req HR Hr _. exfalso. apply (Hend id HR). by exists req.
Qed.

Lemma work_drop t : Work threshold rm (t :: T) -> SMOK rm -> ~ live rm t -> Work threshold rm T.
Proof.
  intros HW HS Hl. apply (work_step threshold rm rm [] [] [t] [] T); try done.
  - apply evolves_refl.
  - intros ? ->%list_elem_of_singleton. by right.
  - intros t0 Ht0. left. set_solver.
  - set_solver.
  - constructor.
  - pose proof (wk_wids _ _ _ HW) as Hnd. cbn in Hnd. by apply NoDup_cons in Hnd as [_ ?].
Qed.

(** A work id just drawn is new. *)
Definition new_wid (wid : string) : Prop :=
  exists i, (sm_drawn rm <= i < sm_drawn rm')%nat /\ wid = sm_uuids rm' i.

Lemma new_wid_fresh R W wid t : Inj (=) (=) (sm_uuids rm) -> evolves R W rm rm' -> new_wid wid ->
  drawn rm (tok_wid t) -> tok_wid t <> wid.
Proof.
  intros Hinj He (i & Hi & ->) (j & Hj & ->). rewrite (ev_uuids _ _ _ _ He). intros E%(inj _). lia.
Qed.

Lemma new_wid_drawn wid : new_wid wid -> drawn rm' wid.
Proof. intros (i & Hi & ->). exists i. split; [lia|done]. Qed.

(** A token is followed by the next of its request. *)
Lemma work_follow t t' :
  Work threshold rm (t :: T) -> live rm t -> Inj (=) (=) (sm_uuids rm) ->
  evolves [tok_rid t] [] rm rm' -> SMOK rm' ->
  tok_rid t' = tok_rid t -> new_wid (tok_wid t') -> token_ok threshold rm' t' ->
  Work threshold rm' (t' :: T).
Proof.
  intros HW Hl Hinj He HS Er Hw Hok.
  apply (work_step threshold rm rm' [tok_rid t] [] [t] [t'] T); try done.
  - intros ? ->%list_elem_of_singleton. left. set_solver.
  - intros t0 Ht0. left. split; [|set_solver]. intros E%list_elem_of_singleton. by eapply work_distinct.
  - intros ? ->%list_elem_of_singleton. rewrite Er. ssplit; [set_solver|done|by apply new_wid_drawn].
  - apply NoDup_singleton.
  - cbn. pose proof (wk_wids _ _ _ HW) as Hnd. cbn in Hnd. apply NoDup_cons in Hnd as [_ Hnd].
    apply NoDup_cons. split; [|done]. intros (t0 & E & Ht0)%list_elem_of_fmap.
    pose proof (wk_drawn _ _ _ HW) as Hd. inversion Hd as [|? ? _ HdT]; subst.
    eapply (new_wid_fresh _ _ _ t0 Hinj He Hw); [|done]. by apply (proj1 (Forall_forall _ _) HdT).
  - intros id req Hid%list_elem_of_singleton _ _. cbn. rewrite Er, Hid. by left.
Qed.

(** A new request brings its first token. *)
Lemma work_add t :
  Work threshold rm T -> Inj (=) (=) (sm_uuids rm) -> evolves [tok_rid t] [] rm rm' -> SMOK rm' ->
  tok_rid t ∉ (tok_rid <$> T) -> new_wid (tok_wid t) -> token_ok threshold rm' t ->
  Work threshold rm' (t :: T).
Proof.
  intros HW Hinj He HS Hnew Hw Hok.
  apply (work_step threshold rm rm' [tok_rid t] [] [] [t] T); try done.
  - set_solver.
  - intros t0 Ht0. left. split; [|set_solver]. intros E%list_elem_of_singleton. apply Hnew. rewrite <- E.
    by apply list_elem_of_fmap_2.
  - intros ? ->%list_elem_of_singleton. ssplit; [set_solver|done|by apply new_wid_drawn].
  - apply NoDup_singleton.
  - cbn. apply NoDup_cons. split; [|apply HW]. intros (t0 & E & Ht0)%list_elem_of_fmap.
    eapply (new_wid_fresh _ _ _ t0 Hinj He Hw); [|done]. by apply (proj1 (Forall_forall _ _) (wk_drawn _ _ _ HW)).
Qed.
End work.

(** ** Where the tokens are *)

Lemma concat_split {A} (f : string -> list A) (ids : list string) e :
  NoDup ids -> e ∈ ids -> exists rest, e ∉ rest /\ ids ≡ₚ e :: rest /\
    concat (f <$> ids) ≡ₚ f e ++ concat (f <$> rest).
Proof.
  intros Hnd (l1 & l2 & ->)%list_elem_of_split. exists (l1 ++ l2).
  assert (Hp : l1 ++ e :: l2 ≡ₚ e :: l1 ++ l2) by (symmetry; apply Permutation_middle).
  split; [|split; [done|]].
  - rewrite Hp in Hnd. by apply NoDup_cons in Hnd as [? _].
  - rewrite !fmap_app, !concat_app, fmap_cons. cbn. rewrite !app_assoc. by rewrite (Permutation_app_comm (concat _) (f e)).
Qed.

(** The tokens of [e], the other executors' and the events on their way. *)
Lemma tokens_at s e : NoDup (sd_executorIDs s) -> e ∈ sd_executorIDs s ->
  exists rest, e ∉ rest /\ sd_executorIDs s ≡ₚ e :: rest /\
    tokens s ≡ₚ executorTokens s e ++ concat (executorTokens s <$> rest) ++
                 (Landed <$> em_eventChan (sd_executorManager s)).
Proof.
  intros Hnd He. destruct (concat_split (executorTokens s) _ e Hnd He) as (rest & Hr & Hp & Hc).
  exists rest. split; [done|]. split; [done|]. unfold tokens. rewrite Hc. by rewrite <- app_assoc.
Qed.

(** Two states whose tokens differ only in those of [e]. *)
Lemma tokens_change s s' e L L' :
  NoDup (sd_executorIDs s) -> e ∈ sd_executorIDs s -> sd_executorIDs s' = sd_executorIDs s ->
  (forall e', e' <> e -> executorTokens s' e' = executorTokens s e') ->
  L ++ executorTokens s e ++ (Landed <$> em_eventChan (sd_executorManager s)) ≡ₚ
    L' ++ executorTokens s' e ++ (Landed <$> em_eventChan (sd_executorManager s')) ->
  L ++ tokens s ≡ₚ L' ++ tokens s'.
Proof.
  intros Hnd He Hids Hother Hp. destruct (tokens_at s e Hnd He) as (rest & Hr & Hi & ->).
  assert (tokens s' ≡ₚ executorTokens s' e ++ concat (executorTokens s' <$> rest) ++
    (Landed <$> em_eventChan (sd_executorManager s'))) as ->.
  { unfold tokens. rewrite Hids, Hi. cbn. by rewrite <- app_assoc. }
  assert (executorTokens s' <$> rest = executorTokens s <$> rest) as ->.
  { apply list_fmap_ext. intros i e' Hi'%list_elem_of_lookup_2. apply Hother. by intros ->. }
  set (X := concat _) in *. rewrite !app_assoc, !(Permutation_app_comm (_ ++ executorTokens _ _) X), <- !app_assoc.
  by rewrite Hp.
Qed.

Lemma perm_frame {A} (X Y L L' q q' : list A) :
  L ++ q ≡ₚ L' ++ q' -> L ++ X ++ q ++ Y ≡ₚ L' ++ X ++ q' ++ Y.
Proof.
  intros Hp. rewrite !(Permutation_app_swap_app _ X). f_equiv. rewrite !app_assoc. by rewrite Hp.
Qed.

Lemma queued_set k k' e e' q s :
  queued k' e' (setQueues k (<[e := q]> (queues k s)) s) =
    if decide (k' = k /\ e' = e) then wq_works q else queued k' e' s.
Proof.
  unfold queued. rewrite queues_other. destruct (decide (k' = k)) as [->|Hk]; cycle 1.
  { rewrite decide_False by tauto. done. }
  destruct (decide (e' = e)) as [->|He].
  - rewrite decide_True by done. by rewrite lookup_insert_eq.
  - rewrite decide_False by tauto. by rewrite lookup_insert_ne.
Qed.

(** The queue [k] of [e] becomes [q']. *)
Lemma tokens_queue s k e q q' L L' :
  NoDup (sd_executorIDs s) -> e ∈ sd_executorIDs s -> queues k s !! e = Some q ->
  L ++ (Queued <$> wq_works q) ≡ₚ L' ++ (Queued <$> wq_works q') ->
  L ++ tokens s ≡ₚ L' ++ tokens (setQueues k (<[e := q']> (queues k s)) s).
Proof.
  intros Hnd He Hq Hp. set (s' := setQueues _ _ _).
  assert (Hem : sd_executorManager s' = sd_executorManager s) by (by destruct k).
  assert (Hqs : forall k' e', queued k' e' s' = if decide (k' = k /\ e' = e) then wq_works q' else queued k' e' s)
    by (intros; apply queued_set).
  apply (tokens_change s s' e); try done; [by destruct k| |].
  - intros e' Hne. unfold executorTokens, queueTokens. rewrite Hem, !Hqs, !decide_False by tauto. done.
  - rewrite Hem. unfold executorTokens, queueTokens. rewrite Hem, !Hqs.
    assert (Hold : queued k e s = wq_works q) by (unfold queued; by rewrite Hq).
    destruct k; repeat (case_decide; [try by destruct_and! |try naive_solver]); rewrite ?fmap_app, ?Hold;
      rewrite <- !app_assoc.
    + by apply (perm_frame (Queued <$> queued Decoding e s)).
    + rewrite !(app_assoc (Queued <$> queued Decoding e s)). by apply (perm_frame (_ ++ _)).
    + by apply (perm_frame []).
Qed.
