(* ===== verification/EngineRequests.v ===== *)
(** * EngineRequests: work and the request manager

    What the operations of the request manager and of the block registry do to
    the tokens of [Engine]: each keeps [Work], and says which token becomes
    which. *)

From S2P Require Import Prelude Errors Model Metrics FreeQueue BlockManager BlockProperties BlockRegistry StateMachine RequestFrame Executor ExecutorProperties Queues QueueProperties Scheduler SchedulerPick SchedulerProperties Engine.
(** ** Drawing ids *)

(** An operation only moves on in the sequence of UUIDs. *)
Definition advances {A} (c : M stateManager A) : Prop := forall rm a rm', c rm = Some (a, rm') ->
  sm_uuids rm' = sm_uuids rm /\ (sm_drawn rm <= sm_drawn rm')%nat.

Create HintDb advance.

Lemma advances_ret {A} (a : A) : advances (mret a : M stateManager A).
Proof. intros rm x rm' [= _ <-]. by split. Qed.
Lemma advances_get : advances getS.
Proof. intros rm x rm' [= _ <-]. by split. Qed.
Lemma advances_bind {A B} (c : M stateManager A) (f : A -> M stateManager B) :
  advances c -> (forall a, advances (f a)) -> advances (c ≫= f).
Proof.
  intros Hc Hf rm b rm'. unfold mbind, M_bind. destruct (c rm) as [[a rm1]|] eqn:E; [|done]. intros E'.
  destruct (Hc _ _ _ E) as [E1 ?], (Hf a _ _ _ E') as [E2 ?]. split; [congruence|lia].
Qed.
Lemma advances_mod (f : stateManager -> stateManager) :
  (forall rm, sm_uuids (f rm) = sm_uuids rm /\ (sm_drawn rm <= sm_drawn (f rm))%nat) -> advances (modS f).
Proof. intros Hf rm x rm' [= _ <-]. apply Hf. Qed.
Lemma advances_modO (f : stateManager -> option stateManager) :
  (forall rm rm', f rm = Some rm' -> sm_uuids rm' = sm_uuids rm /\ (sm_drawn rm <= sm_drawn rm')%nat) ->
  advances (modO f).
Proof. intros Hf rm x rm'. unfold modO. destruct (f rm) eqn:E; [|done]. intros [= _ <-]. by apply Hf. Qed.
Lemma advances_getsO {A} (f : stateManager -> option A) : advances (getsO f).
Proof. intros rm x rm'. unfold getsO. destruct (f rm); [|done]. intros [= _ <-]. by split. Qed.
Lemma advances_registry {A} (c : M registry A) : advances (onRegistry c).
Proof. intros rm x rm'. unfold onRegistry. destruct (c _) as [[a r]|]; [|done]. intros [= _ <-]. by split. Qed.

#[export] Hint Resolve advances_ret advances_get advances_getsO advances_registry : advance.
#[export] Hint Extern 1 (advances (_ ≫= _)) => apply advances_bind; [|intros ?] : advance.
#[export] Hint Extern 1 (advances (modS _)) => apply advances_mod; intros ?; cbn; split; [done|lia] : advance.

Ltac advance := repeat first
  [ progress cbv beta zeta
  | solve [eauto 2 with advance nocore]
  | apply advances_bind; [|intros ?]
  | apply advances_mod; intros ?; cbn; split; [done|lia]
  | match goal with |- advances (match ?x with _ => _ end) => destruct x end ].

Lemma advances_send ch ev : advances (send ch ev).
Proof.
  apply advances_modO. intros rm rm'. destruct (sm_channels rm !! ch) as [c|]; cbn; [|done].
  destruct (ch_closed c); [done|]. intros [= <-]. by split.
Qed.
Lemma advances_close ch : advances (closeCh ch).
Proof.
  apply advances_modO. intros rm rm'. destruct (sm_channels rm !! ch) as [c|]; cbn; [|done].
  destruct (ch_closed c); [done|]. intros [= <-]. by split.
Qed.
#[export] Hint Resolve advances_send advances_close : advance.

Lemma advances_uuid : advances newUUID.
Proof. unfold newUUID. advance. Qed.
Lemma advances_now : advances now_.
Proof. unfold now_. advance. Qed.
#[export] Hint Resolve advances_uuid advances_now : advance.

Lemma advances_endRequest p id : advances (endRequest p id).
Proof. unfold endRequest, setRequest, deleteRequest, forget, sm_metric. advance. Qed.
Lemma advances_failChannel ch id err : advances (failChannel ch id err).
Proof. unfold failChannel. advance. Qed.
#[export] Hint Resolve advances_endRequest advances_failChannel : advance.

Lemma advances_CanSchedule w : advances (CanSchedule w).
Proof. unfold CanSchedule, setRequest, deleteRequest, forget, sm_metric. advance. Qed.
Lemma advances_Fail id err : advances (Fail_ id err).
Proof. unfold Fail_. advance. Qed.
Lemma advances_close_end p id : advances (ch ← endRequest p id; closeOpt ch).
Proof. unfold closeOpt. advance. Qed.
Lemma advances_OnEvent ev : advances (OnEvent ev).
Proof. unfold OnEvent, recordEvent, transition, subscriber, publish, setRequest. advance. Qed.
#[export] Hint Resolve advances_CanSchedule advances_Fail advances_close_end advances_OnEvent : advance.

Lemma wp_advances {A} (c : M stateManager A) Q rm : advances c -> wp c Q rm ->
  wp c (fun a rm' => Q a rm' /\ sm_uuids rm' = sm_uuids rm /\ (sm_drawn rm <= sm_drawn rm')%nat) rm.
Proof. intros Hc. unfold wp. destruct (c rm) as [[a rm']|] eqn:E; [|done]. intros HQ. split; [done|]. by eapply Hc. Qed.

(** ** Requests that end *)

Lemma shrinks_evolves rm rm' : shrinks rm rm' ->
  sm_uuids rm' = sm_uuids rm -> (sm_drawn rm <= sm_drawn rm')%nat -> evolves [] [] rm rm'.
Proof.
  intros Hsh Hu Hd. split; [done|done| |].
  - intros id _ req Hr. by eapply lookup_weaken, sh_requests.
  - intros e m' Hm'. destruct (shrinks_manager _ _ _ _ Hsh Hm') as (m & Hm & Hms). exists m. split; [done|]. split.
    + intros id _ Hl. by apply (ms_table _ _ _ Hms).
    + intros w a Ha. left. by apply (ms_pending _ _ _ Hms).
Qed.

Lemma roomy_shrinks rm rm' e : shrinks rm rm' -> roomy rm e -> roomy rm' e.
Proof.
  intros Hsh Hr m' Hm'. destruct (shrinks_manager _ _ _ _ Hsh Hm') as (m & Hm & Hms).
  rewrite (sh_transfers _ _ Hsh). eapply Z.le_lt_trans; [by eapply slack_shrinks|by apply Hr].
Qed.

(** The operation kept the block references in range. *)
Definition stays_roomy (rm rm' : stateManager) : Prop := forall e, roomy rm e -> roomy rm' e.

Lemma Fail_work threshold rm T id err :
  SMOK rm -> Work threshold rm T ->
  wp (Fail_ id err) (fun _ rm' => SMOK rm' /\ stays_roomy rm rm' /\ Work threshold rm' T /\
    sm_uuids rm' = sm_uuids rm /\
    sm_requests rm' = delete id (sm_requests rm)) rm.
Proof.
  intros HS HW. eapply wp_mono; [apply wp_advances; [apply advances_Fail|apply (Fail_frame rm id err HS)]|cbn beta].
  intros _ rm' ((HS' & Hsh & Hr) & Hu & Hd). ssplit; try done.
  - intros e. by apply roomy_shrinks.
  - apply (work_end threshold rm rm' T []); try done; [by apply shrinks_evolves|set_solver].
Qed.

(** [Cancel] and [Finish] *)
Lemma closeOpt_work threshold rm T p id :
  SMOK rm -> Work threshold rm T ->
  wp (ch ← endRequest p id; closeOpt ch) (fun _ rm' => SMOK rm' /\ stays_roomy rm rm' /\ Work threshold rm' T /\
    sm_uuids rm' = sm_uuids rm) rm.
Proof.
  intros HS HW.
  assert (Hsh : wp (ch ← endRequest p id; closeOpt ch) (fun _ rm' => shrinks rm rm') rm).
  { pose proof (closeOpt_spec p rm id HS) as H. apply wp_bind_inv in H.
    pose proof (wp_and _ _ _ _ H (endRequest_shrinks p rm id HS)) as H'. wp_steps.
    eapply wp_mono; [exact H'|cbn beta]. intros ch rm1 [Hc Hs]. unfold closeOpt, closeCh, wp, modO, mret, M_ret in *.
    destruct ch as [ch|]; [|done]. destruct (sm_channels rm1 !! ch) as [c|]; cbn in *; [|done].
    destruct (ch_closed c); [done|]. eapply shrinks_trans; [exact Hs|]. by apply shrinks_same. }
  pose proof (wp_and _ _ _ _ (closeOpt_spec p rm id HS) Hsh) as H.
  eapply wp_mono; [apply wp_advances; [apply advances_close_end|exact H]|cbn beta].
  intros _ rm' (((HS' & _) & Hs) & Hu & Hd). ssplit; try done.
  - intros e. by apply roomy_shrinks.
  - apply (work_end threshold rm rm' T []); try done; [by apply shrinks_evolves|set_solver].
Qed.

(** [CanSchedule] of a queued item: it may run, or it is gone. *)
Lemma CanSchedule_work threshold rm T w :
  SMOK rm -> Work threshold rm (Queued w :: T) ->
  wp (CanSchedule w) (fun ok rm' => SMOK rm' /\ stays_roomy rm rm' /\
    sm_uuids rm' = sm_uuids rm /\
    (forall t, t ∈ T -> live rm t -> live rm' t) /\
    if ok then Work threshold rm' (Queued w :: T) /\ live rm' (Queued w) else Work threshold rm' T) rm.
Proof.
  intros HS HW. eapply wp_mono; [apply wp_advances; [apply advances_CanSchedule|
    apply wp_and; [apply (CanSchedule_frame rm w HS)|apply (CanSchedule_spec rm w HS)]]|cbn beta].
  intros ok rm' (((HS' & Hsh & _ & _) & _ & Hspec) & Hu & Hd).
  assert (He : evolves [] [] rm rm') by (by apply shrinks_evolves).
  assert (HW' : Work threshold rm' (Queued w :: T)) by (apply (work_end threshold rm rm' _ []); try done; set_solver).
  split; [done|]. split; [intros e; by apply roomy_shrinks|]. split; [done|].
  destruct (sm_requests rm !! wi_RequestId w) as [req|] eqn:Hreq.
  - pose proof (wk_ok _ _ _ HW) as Hok. apply Forall_cons in Hok as [[_ Hok] _].
    destruct (Hok req Hreq) as [Hterm _]. assert (Hl : live rm (Queued w)) by (by exists req).
    destruct (expired rm req).
    + destruct Hspec as (-> & uuid & Hend & _). split; [|apply (work_drop threshold rm' T (Queued w)); try done].
      * intros t Ht [r Hr]. exists r. rewrite Hend, lookup_delete_ne; [done|].
        intros E. by eapply (work_distinct _ _ _ _ HW Hl t Ht).
      * unfold live, live_in. cbn. rewrite Hend, lookup_delete_eq. by intros [? ?].
    + destruct Hspec as [-> ->]. rewrite Hterm. cbn. by ssplit.
  - destruct Hspec as [-> ->]. split; [done|]. apply (work_drop threshold rm T (Queued w)); try done.
    unfold live, live_in. cbn. rewrite Hreq. by intros [? ?].
Qed.

(** ** Blocks *)

Lemma evolves_manager rm r' e m m' R W :
  r_managers (sm_registry rm) !! e = Some m -> r_managers r' = <[e := m']> (r_managers (sm_registry rm)) ->
  (forall id, id ∉ R -> m_requestBlocks m' !! id = m_requestBlocks m !! id) ->
  (forall w a, m_pendingAllocations m' !! w = Some a ->
     m_pendingAllocations m !! w = Some a \/ (w ∈ W /\ ba_RequestID a ∈ R)) ->
  evolves R W rm (rm <| sm_registry := r' |>).
Proof.
  intros Hm Hms Ht Hp. split; try done. intros e0 m0. cbn. rewrite Hms.
  intros [[<- <-]|[_ Hm0]]%lookup_insert_Some.
  - exists m. split; [done|]. split; [|done]. intros id Hid _. by apply Ht.
  - exists m0. split; [done|]. split; [done|]. intros w a Ha. by left.
Qed.

Lemma roomy_manager rm r' e m m' :
  r_managers (sm_registry rm) !! e = Some m -> r_managers r' = <[e := m']> (r_managers (sm_registry rm)) ->
  r_pendingTransfers r' = r_pendingTransfers (sm_registry rm) ->
  slack m' (pinsOf e (r_pendingTransfers (sm_registry rm))) <= slack m (pinsOf e (r_pendingTransfers (sm_registry rm))) ->
  stays_roomy rm (rm <| sm_registry := r' |>).
Proof.
  intros Hm Hms Ht Hs e0 Hr m0. cbn. rewrite Hms, Ht. intros [[<- <-]|[_ Hm0]]%lookup_insert_Some; [|by apply Hr].
  specialize (Hr _ Hm). lia.
Qed.

(** [chunk] is [w], or a part of it from its start. *)
Definition part_of (w chunk : WorkItem) : Prop :=
  chunk = w \/ (wi_Phase w = WorkPhasePrefill /\ exists t, 0 < t <= wi_NumNewTokens w /\
    chunk = w <| wi_NumNewTokens := t |> <| wi_TokenIDs := take (Z.to_nat t) (wi_TokenIDs w) |>).

Lemma part_well_formed threshold e k w chunk :
  part_of w chunk -> well_formed threshold e k w -> well_formed threshold e k chunk.
Proof.
  intros [->|(Hp & t & Ht & ->)]; [done|]. intros (He & Hk & Hn). split; [done|]. split; [exact Hk|].
  cbn. rewrite Hp in Hn |- *. destruct Hn as [Hr Hl]. split; [lia|]. unfold len in *. rewrite length_take. lia.
Qed.

Lemma part_continues req w chunk : part_of w chunk -> continues req w -> continues req chunk.
Proof.
  intros [->|(Hp & t & Ht & ->)]; [done|]. intros Hc Hp'. specialize (Hc Hp) as (H0 & H1 & H2 & H3 & H4 & H5 & H6).
  cbn. ssplit; try done; lia.
Qed.

Lemma part_same w chunk : part_of w chunk ->
  wi_RequestId chunk = wi_RequestId w /\ wi_WorkId chunk = wi_WorkId w /\
  wi_ExecutorID chunk = wi_ExecutorID w /\ wi_Cache chunk = wi_Cache w.
Proof. intros [->|(_ & t & _ & ->)]; by ssplit. Qed.

Lemma well_formed_executable threshold e k w a :
  well_formed threshold e k w -> executable (w <| wi_BlockAllocation := Some a |>).
Proof.
  intros (_ & _ & Hn). split; [by eexists|]. cbn. intros Hp. by rewrite Hp in Hn.
Qed.

Lemma backed_has_table m w c : backed m (wi_RequestId w) c -> wi_Cache w = Some c ->
  exists old, has_table m w old /\ (old = [] -> pm_BlockIDs c = []) /\ no_pending (wi_RequestId w) m.
Proof.
  intros [Hno [(l & Hl & Hb)|[Hn Hb]]] Hc.
  - exists l. split; [by left|by split].
  - exists []. split; [right; ssplit; try done; by exists c|by split].
Qed.

Section manager.
Context (threshold : Z) (rm : stateManager) (T : list token).
Context (HS : SMOK rm).

Lemma has_table_ext m w w' old : wi_RequestId w' = wi_RequestId w -> wi_Cache w' = wi_Cache w ->
  has_table m w old -> has_table m w' old.
Proof. unfold has_table. by intros -> ->. Qed.

(** The blocks of a queued item, or of the part of it that goes into the batch. *)
Lemma RegAllocateBlocks_work w chunk :
  Work threshold rm (Queued w :: T) -> live rm (Queued w) -> (forall e, roomy rm e) -> part_of w chunk ->
  wp (onRegistry (RegAllocateBlocks chunk)) (fun r rm' => SMOK rm' /\ stays_roomy rm rm' /\
    sm_uuids rm' = sm_uuids rm /\ sm_requests rm' = sm_requests rm /\
    exists ok c, r = inr (ok, c) /\
      if ok : bool then (exists a, c = chunk <| wi_BlockAllocation := Some a |>) /\ Work threshold rm' (Flying c :: T)
      else Work threshold rm' (Queued w :: T)) rm.
Proof.
  intros HW [req Hreq] Hroom Hpart. pose proof (part_same _ _ Hpart) as (Eid & Ewid & Ee & Eca). cbn in Hreq.
  pose proof (wk_ok _ _ _ HW) as Hok. apply Forall_cons in Hok as [[_ Hok] _].
  destruct (Hok req Hreq) as (Hterm & m & c & Hm & Hc & (k & Hwf) & Hwc & Hcont & Hback).
  destruct (backed_has_table m w c Hback Hwc) as (old & Htab & Hold & Hno). pose proof Hwf as (Hwe & _).
  set (e := req_ExecutorID req) in *.
  assert (Htab' : has_table m chunk old) by (by eapply has_table_ext).
  assert (Hready : ready rm e chunk).
  { exists req, m, c, old. rewrite Eid, Eca. ssplit; try done. }
  destruct (rg_managers _ (so_reg _ HS) _ _ Hm) as [p HI].
  set (pins := pinsOf e (r_pendingTransfers (sm_registry rm))) in *.
  pose proof (slack_bound _ _ _ HI) as Hsl. pose proof (Hroom e m Hm) as Hrm. fold pins in Hrm.
  unfold refs_of in Hsl.
  assert (Hcc : wi_Cache chunk = Some c) by congruence.
  assert (Hnoc : no_pending (wi_RequestId chunk) m) by (by rewrite Eid).
  assert (Hspec2 : wp (onRegistry (RegAllocateBlocks chunk)) (fun r rm' => exists m',
      rm' = rm <| sm_registry := sm_registry rm <| r_managers := <[e := m']> (r_managers (sm_registry rm)) |> |> /\
      exists x, r = inr x /\
      if len (p_free p) <? neededBlocks m chunk old
      then x = (false, chunk) /\ m' = m <| m_metrics := m_metrics m ++ [IncAllocationFailure (m_executorID m)] |>
      else Allocated m pins p chunk c old x m') rm).
  { apply wp_onRegistry. unfold RegAllocateBlocks. rewrite Ee, Hwe. eapply wp_withManager; [exact Hm|].
    wp_use (AllocateBlocks_inv m pins p chunk c old HI Htab' Hcc Hnoc); [lia|].
    intros x m' Hx. exists m'. split; [done|]. exists x. split; [done|]. exact Hx. }
  assert (Hspec1 := RegAllocateBlocks_spec rm e chunk HS Hready (Hroom e) ltac:(congruence)).
  eapply wp_mono; [exact (wp_and _ _ _ _ Hspec1 Hspec2)|cbn beta].
  intros r rm' ((HS' & Hal & _) & m' & -> & x & -> & Hx). set (r' := sm_registry rm <| r_managers := _ |>) in *.
  assert (Hsroom : stays_roomy rm (rm <| sm_registry := r' |>)).
  { eapply (roomy_manager rm r' e m m'); try done. destruct Hal as [_ _ _ (m0 & m0' & Hm0 & Hm0' & _ & _ & Hs)].
    cbn in Hm0'. rewrite lookup_insert_eq in Hm0'. assert (m0 = m) as -> by congruence. assert (m0' = m') as -> by congruence.
    fold pins. fold pins in Hs. lia. }
  split; [exact HS'|]. split; [exact Hsroom|]. split; [done|]. split; [done|].
  destruct (len (p_free p) <? neededBlocks m chunk old).
  - destruct Hx as [-> ->]. exists false, chunk. split; [done|].
    apply (work_end threshold rm _ _ []); try done; [|set_solver].
    eapply evolves_manager; [exact Hm|done|done|]. intros w' a Ha. by left.
  - destruct Hx as (ids & p' & Hids & -> & Hrb & Hpd & _). exists true. eexists. split; [done|]. split; [by eexists|].
    rewrite Eid in Hrb. rewrite Ewid in Hpd.
    eapply (work_replace threshold rm _ T [wi_WorkId w] (Queued w)); try done.
    + by exists req.
    + cbn. eapply evolves_manager; [exact Hm|done| |].
      * intros id Hid. rewrite Hrb. apply lookup_insert_ne. set_solver.
      * intros w' a. rewrite Hpd. intros [[<- <-]|[_ Ha]]%lookup_insert_Some; [right|by left].
        cbn. rewrite Eid. set_solver.
    + intros w' ?%list_elem_of_singleton. done.
    + split.
      * intros w0 [= <-]. eapply well_formed_executable, part_well_formed; [exact Hpart|exact Hwf].
      * intros req'. cbn. rewrite Eid, Hreq. intros [= <-]. split; [done|]. exists m', c.
        split; [apply lookup_insert_eq|]. split; [done|]. cbn. split; [|split; [|split]].
        -- exists k. destruct (part_well_formed _ _ _ _ _ Hpart Hwf) as (? & ? & ?). by ssplit.
        -- exact Hcc.
        -- exact (part_continues _ _ _ Hpart Hcont).
        -- exists old, ids. cbn. rewrite Ewid. ssplit; [by rewrite Hrb, lookup_insert_eq|done| |].
           ++ intros w' a. rewrite Hpd. intros [[<- <-]|[_ Ha]]%lookup_insert_Some Er; [done|].
              by destruct (Hno w' a Ha).
           ++ intros a. rewrite Hpd, lookup_insert_eq. intros [= <-]. cbn. done.
Qed.
End manager.

(** *** Settling what flies *)

(** The manager [m'] after the work item [wid] of request [rid] was settled in [m]. *)
Record settles (m m' : manager) (pins : list Z) (rid : string) (c : PrefixMatch) (wid : string) : Prop := mkSettles {
  st_backed : backed m' rid c;
  st_others : forall id, id <> rid -> m_requestBlocks m' !! id = m_requestBlocks m !! id;
  st_table : is_Some (m_requestBlocks m' !! rid) -> is_Some (m_requestBlocks m !! rid);
  st_pending : forall w a, m_pendingAllocations m' !! w = Some a -> m_pendingAllocations m !! w = Some a;
  st_slack : slack m' pins <= slack m pins
}.

(** With nothing pending the blocks of a request in flight back it. *)
Lemma in_flight_backed m m' rid c wid :
  in_flight m rid c wid -> m_requestBlocks m' = m_requestBlocks m ->
  m_pendingAllocations m' = delete wid (m_pendingAllocations m) -> backed m' rid c.
Proof.
  intros (old & ids & Htab & Hold & Hu & _) Hrb Hpd. split.
  - intros w a. rewrite Hpd. intros [Hne Ha]%lookup_delete_Some Er. destruct (Hu w a Ha Er). congruence.
  - left. exists (old ++ ids). rewrite Hrb. split; [done|]. intros [Ho _]%app_nil. auto.
Qed.

Lemma unpending_settles m pins rid c wid :
  in_flight m rid c wid -> m_pendingAllocations m !! wid = None -> settles m m pins rid c wid.
Proof.
  intros Hf Hn. split; try done. apply (in_flight_backed m m rid c wid Hf); [done|]. by rewrite delete_id.
Qed.

Lemma Counted_len bs ta i table p p' : Counted bs ta i table p p' -> len (p_info p') <= len (p_info p).
Proof.
  intros HC. pose proof (len_nonneg (p_info p)). destruct (Z.leb_spec (len (p_info p')) (len (p_info p))) as [|Hlt]; [done|].
  destruct (proj2 (idx_is_Some (p_info p') (len (p_info p)))) as [j Hj]; [lia|].
  destruct (ct_same _ _ _ _ _ _ HC _ _ Hj) as (j0 & Hj0%idx_Some_range & _). lia.
Qed.

Lemma Commit_flight m pins p rid c wid : Inv m pins p -> in_flight m rid c wid ->
  wp (Commit wid) (fun _ m' => settles m m' pins rid c wid) m.
Proof.
  intros HI Hf. destruct (m_pendingAllocations m !! wid) as [a|] eqn:Ha; cycle 1.
  { wp_use (Commit_unknown _ _ Ha). intros _ m' ->. by apply unpending_settles. }
  wp_use (Commit_inv _ _ _ _ _ HI Ha). intros _ m' (Hrb & Hpd & _ & _ & p' & HI' & pc & HC & HB). split.
  - by eapply in_flight_backed.
  - intros id _. by rewrite Hrb.
  - by rewrite Hrb.
  - intros w b. rewrite Hpd. by intros [_ ?]%lookup_delete_Some.
  - unfold slack, refs_of. rewrite Hrb.
    rewrite <- (rep_info_len _ _ (inv_rep _ _ _ HI')), <- (rep_info_len _ _ (inv_rep _ _ _ HI)), (cb_len _ _ _ _ _ HB).
    pose proof (Counted_len _ _ _ _ _ _ HC). lia.
Qed.

Lemma Rollback_flight m pins p rid c wid : Inv m pins p -> in_flight m rid c wid ->
  wp (Rollback wid) (fun _ m' => settles m m' pins rid c wid) m.
Proof.
  intros HI Hf. destruct (m_pendingAllocations m !! wid) as [a|] eqn:Ha; cycle 1.
  { wp_use (Rollback_unknown _ _ Ha). intros _ m' ->. by apply unpending_settles. }
  pose proof Hf as (old & ids & Htab & Hold & Hu & Hw). pose proof (Hw a Ha) as Er.
  destruct (Hu _ _ Ha Er) as [_ Eids].
  destruct (pd_table _ _ _ (inv_pending _ _ _ HI) _ _ Ha) as (_ & _ & Ht & _). rewrite Er, Htab in Ht. injection Ht as Ht.
  wp_use (Rollback_inv _ _ _ _ _ HI Ha). intros _ m' (old' & p' & Ho & Hrb & Hpd & _ & _ & _ & HI' & Hcn).
  rewrite <- Ht, Eids in Ho. apply app_inv_tail in Ho as <-. rewrite Er in Hrb.
  assert (Hat : m_requestBlocks m' !! rid = if len old =? 0 then None else Some old).
  { rewrite Hrb. unfold rolledBack. destruct (len old =? 0); [apply lookup_delete_eq|apply lookup_insert_eq]. }
  split.
  - split.
    + intros w b. rewrite Hpd. intros [Hne Hb]%lookup_delete_Some Eb. destruct (Hu w b Hb Eb). congruence.
    + rewrite Hat. destruct (Z.eqb_spec (len old) 0) as [E|E].
      * right. split; [done|]. apply Hold. destruct old; [done|]. rewrite len_cons in E. pose proof (len_nonneg old). lia.
      * left. exists old. by split.
  - intros id Hid. rewrite Hrb. unfold rolledBack. case_match; [by apply lookup_delete_ne|by apply lookup_insert_ne].
  - rewrite Htab. by eexists.
  - intros w b. rewrite Hpd. by intros [_ ?]%lookup_delete_Some.
  - unfold slack, refs_of.
    rewrite <- (rep_info_len _ _ (inv_rep _ _ _ HI')), <- (rep_info_len _ _ (inv_rep _ _ _ HI)), (content_len _ _ Hcn).
    rewrite Hrb. assert (pins ++ tab (m_requestBlocks m) ≡ₚ ids ++ (pins ++ tab (rolledBack (m_requestBlocks m) rid old))) as ->.
    { rewrite tab_rolledBack, (tab_split _ rid), Htab. cbn. solve_Permutation. }
    pose proof (dups_app_r ids (pins ++ tab (rolledBack (m_requestBlocks m) rid old))). lia.
Qed.

(** Either way through the registry. *)
Lemma settle_work_spec rm e m rid c wid o (call : M manager unit) :
  SMOK rm -> r_managers (sm_registry rm) !! e = Some m ->
  request_op o = true -> enabled o m (pinsOf e (r_pendingTransfers (sm_registry rm))) ->
  run_op o (pinsOf e (r_pendingTransfers (sm_registry rm))) =
    (call ≫= fun _ => mret (pinsOf e (r_pendingTransfers (sm_registry rm)))) ->
  wp call (fun _ m' => settles m m' (pinsOf e (r_pendingTransfers (sm_registry rm))) rid c wid) m ->
  wp (onRegistry (withManager e call)) (fun r rm' => r = inr tt /\ SMOK rm' /\ stays_roomy rm rm' /\
    evolves [rid] [] rm rm' /\ sm_requests rm' = sm_requests rm /\ sm_subscribeCh rm' = sm_subscribeCh rm /\
    sm_drawn rm' = sm_drawn rm /\ (exists r', rm' = rm <| sm_registry := r' |>) /\
    exists m', r_managers (sm_registry rm') !! e = Some m' /\ backed m' rid c) rm.
Proof.
  intros HS Hm Ho Hen Hrun Hc. apply wp_onRegistry. eapply wp_withManager; [exact Hm|].
  eapply wp_mono; [apply wp_and; [exact Hc|apply (regok_request _ e m o call (so_reg _ HS) Hm Ho Hen Hrun)]|].
  cbn beta. intros [] m' [Hst HR]. split; [done|]. set (r' := sm_registry rm <| r_managers := _ |>) in *.
  split; [|split; [|split; [|ssplit; try done]]].
  - apply (smok_registry rm r' e m m' HS HR Hm eq_refl). intros id Hid. left.
    destruct (decide (id = rid)) as [->|Hne]; [by apply Hst|]. by rewrite <- (st_others _ _ _ _ _ _ Hst).
  - eapply (roomy_manager rm r' e m m'); try done. apply Hst.
  - eapply evolves_manager; [exact Hm|done| |].
    + intros id Hid. apply Hst. set_solver.
    + intros w a Ha. left. by apply Hst.
  - by exists r'.
  - exists m'. split; [apply lookup_insert_eq|]. apply Hst.
Qed.

Lemma settle_work rm e m rid c wid :
  SMOK rm -> r_managers (sm_registry rm) !! e = Some m -> in_flight m rid c wid ->
  let Q := fun r rm' => r = inr tt /\ SMOK rm' /\ stays_roomy rm rm' /\
    evolves [rid] [] rm rm' /\ sm_requests rm' = sm_requests rm /\ sm_subscribeCh rm' = sm_subscribeCh rm /\
    sm_drawn rm' = sm_drawn rm /\ (exists r', rm' = rm <| sm_registry := r' |>) /\
    exists m', r_managers (sm_registry rm') !! e = Some m' /\ backed m' rid c in
  wp (onRegistry (RegCommit e wid)) Q rm /\ wp (onRegistry (RegRollback e wid)) Q rm.
Proof.
  intros HS Hm Hf. destruct (rg_managers _ (so_reg _ HS) _ _ Hm) as [p HI]. split.
  - apply (settle_work_spec rm e m rid c wid (OpCommit wid)); try done. by eapply Commit_flight.
  - apply (settle_work_spec rm e m rid c wid (OpRollback wid)); try done. by eapply Rollback_flight.
Qed.

(** A batch item is taken back: its blocks are given back and it waits again. *)
Lemma Rollback_work threshold rm T w :
  SMOK rm -> Work threshold rm (Flying w :: T) -> live rm (Flying w) ->
  wp (onRegistry (RegRollback (wi_ExecutorID w) (wi_WorkId w))) (fun r rm' => SMOK rm' /\ stays_roomy rm rm' /\
    sm_uuids rm' = sm_uuids rm /\ sm_requests rm' = sm_requests rm /\
    Work threshold rm' (Queued (w <| wi_BlockAllocation := None |>) :: T)) rm.
Proof.
  intros HS HW [req Hreq]. cbn in Hreq. pose proof (wk_ok _ _ _ HW) as Hok. apply Forall_cons in Hok as [[_ Hok] _].
  destruct (Hok req Hreq) as (Hterm & m & c & Hm & Hc & (k & Hwf) & Hwc & Hcont & Hf). pose proof Hwf as (Hwe & _).
  rewrite Hwe. destruct (settle_work rm _ m _ c _ HS Hm Hf) as [_ Hrb]. wp_use Hrb.
  intros r rm' (_ & HS' & Hroom & He & Hr & _ & Hd & (r' & ->) & m' & Hm' & Hback).
  split; [done|]. split; [done|]. split; [done|]. split; [done|].
  eapply (work_replace threshold rm _ T [] (Flying w)); try done; [by exists req|set_solver|].
  split; [done|]. intros req'. cbn. rewrite Hreq. intros [= <-]. split; [done|].
  exists m', c. ssplit; try done. exists k. exact Hwf.
Qed.

(** ** Events *)

Lemma event_chunk_ok req ev : event_ok req ev -> chunk_ok ev req.
Proof. intros H Ht. unfold event_ok in H. rewrite Ht in H. destruct_and! H. ssplit; try done; lia. Qed.

(** The next item of a request [req'] whose blocks are [backed] in [m]. *)
Definition next_ok (threshold : Z) (req' : Request) (w : WorkItem) : Prop :=
  wi_RequestId w = req_RequestId req' /\ wi_Cache w = req_Cache req' /\
  (exists k, well_formed threshold (req_ExecutorID req') k w) /\ continues req' w.

Lemma decodeItem_ok threshold req uuid id now :
  id = req_RequestId req -> req_TokenIDs req <> [] -> next_ok threshold req (decodeItem req uuid id now).
Proof.
  intros -> Hne. split; [done|]. split; [done|]. split.
  - exists Decoding. split; [done|]. split; [done|]. cbn. destruct (req_TokenIDs req) as [|x l]; [done|].
    rewrite len_cons. pose proof (len_nonneg l). lia.
  - by intros [=].
Qed.

(** What a transition leaves and makes. *)
Lemma transition_next threshold ev req rm :
  event_ok req ev -> req_RequestId req = ev_RequestId ev ->
  wp (transition ev req) (fun r rm' => exists n, rm' = rm <| sm_drawn := n |> /\ (sm_drawn rm <= n)%nat /\
    ev_RequestId r.2 = ev_RequestId ev /\
    req_RequestId r.1.2 = req_RequestId req /\ req_ExecutorID r.1.2 = req_ExecutorID req /\
    req_Cache r.1.2 = req_Cache req /\
    match r.1.1 with
    | [] => terminal (req_Phase r.1.2) = true
    | [w] => terminal (req_Phase r.1.2) = false /\ ev_Done r.2 = false /\ n = S (sm_drawn rm) /\
        wi_WorkId w = sm_uuids rm (sm_drawn rm) /\ next_ok threshold r.1.2 w
    | _ => False
    end) rm.
Proof.
  intros Hok Hid. unfold event_ok in Hok. unfold transition, now_, newUUID. wp_steps. destruct (ev_Type ev) eqn:Ht.
  - destruct Hok as (Hdone & _ & H0 & Hi & [Hlt Hle] & Hp). wp_steps.
    assert (Hcomp : req_ComputedTokens (afterPrefillChunk req ev) =
      req_ComputedTokens req + us_InputTokens (ev_Usage ev)) by (cbn; apply u32_small; lia).
    change (req_PromptTokens (afterPrefillChunk req ev)) with (req_PromptTokens req).
    rewrite Hcomp. set (C := req_ComputedTokens req + us_InputTokens (ev_Usage ev)) in *.
    rewrite (u32_small (req_PromptTokens req - C)), (u32_small (C + (req_PromptTokens req - C))) by lia.
    eapply wp_getsO; [apply slice_some; cbn; lia|]. wp_steps.
    exists (S (sm_drawn rm)). cbn [fst snd]. ssplit; try done; [lia|].
    assert (Hlen : len (take (Z.to_nat (C + (req_PromptTokens req - C) - C)) (drop (Z.to_nat C) (req_TokenIDs req))) =
      req_PromptTokens req - C).
    { unfold len in *. rewrite length_take, length_drop. lia. }
    split; [by cbn|]. split; [done|]. split.
    + eexists. split; [done|]. split; [reflexivity|]. cbn -[len]. split; [lia|]. by rewrite Hlen.
    + intros _. cbn [wi_PrefillOffset prefillItem wi_TokenCntTotal wi_NumNewTokens]. rewrite Hcomp.
      change (req_PromptTokens (afterPrefillChunk req ev)) with (req_PromptTokens req).
      change (req_TokenIDs (afterPrefillChunk req ev)) with (req_TokenIDs req). ssplit; try done; lia.
  - destruct Hok as [Hdone _]. wp_steps. exists (S (sm_drawn rm)). cbn [fst snd]. ssplit; try done; [lia|].
    apply decodeItem_ok; [by cbn|]. cbn. by destruct (req_TokenIDs req).
  - wp_steps. match goal with |- wp (if ?b then _ else _) _ _ => destruct b eqn:Hb end.
    + wp_steps. exists (sm_drawn rm). cbn [fst snd]. ssplit; try done; [by destruct rm|]. by case_decide.
    + apply orb_false_iff in Hb as [Hb _]. wp_steps. exists (S (sm_drawn rm)). cbn [fst snd].
      ssplit; try done; [lia|]. apply decodeItem_ok; [by cbn|]. cbn. by destruct (req_TokenIDs req).
  - wp_steps. exists (sm_drawn rm). ssplit; try done. by destruct rm.
  - wp_steps. exists (sm_drawn rm). ssplit; try done. by destruct rm.
  - wp_steps. exists (sm_drawn rm). ssplit; try done. by destruct rm.
  - done.
Qed.

Lemma evolves_weaken R R' W W' rm rm' :
  (forall x, x ∈ R -> x ∈ R') -> (forall x, x ∈ W -> x ∈ W') -> evolves R W rm rm' -> evolves R' W' rm rm'.
Proof.
  intros HR HW [H1 H2 H3 H4]. split; try done.
  - intros id Hid. apply H3. auto.
  - intros e m' Hm'. destruct (H4 e m' Hm') as (m & Hm & Ht & Hp). exists m. split; [done|]. split.
    + intros id Hid. apply Ht. auto.
    + intros w a Ha. destruct (Hp w a Ha) as [?|[? ?]]; [by left|right; auto].
Qed.

(** [OnEvent] once the work item of the event is settled: the request goes on
    with one item, or it will not run again. *)
Lemma OnEvent_work threshold rm0 rm T ev0 ev req m c :
  Work threshold rm0 (Landed ev0 :: T) -> live rm0 (Landed ev0) -> Inj (=) (=) (sm_uuids rm0) ->
  evolves [ev_RequestId ev0] [] rm0 rm -> SMOK rm -> ev_RequestId ev = ev_RequestId ev0 ->
  sm_requests rm !! ev_RequestId ev0 = Some req -> event_ok req ev ->
  r_managers (sm_registry rm) !! req_ExecutorID req = Some m -> req_Cache req = Some c ->
  backed m (ev_RequestId ev0) c ->
  wp (OnEvent ev) (fun r rm' => SMOK rm' /\ stays_roomy rm rm' /\ sm_uuids rm' = sm_uuids rm /\
    sm_registry rm' = sm_registry rm /\ (forall id, live_in rm id -> live_in rm' id) /\
    exists req', sm_requests rm' !! ev_RequestId ev0 = Some req' /\ req_ExecutorID req' = req_ExecutorID req /\
      match r.1 with
      | [] => Work threshold rm' T /\ terminal (req_Phase req') = true
      | [w] => Work threshold rm' (Queued w :: T) /\ wi_RequestId w = ev_RequestId ev0 /\ ev_Done r.2 = false
      | _ => False
      end) rm.
Proof.
  intros HW Hl Hinj He HS Hid Hreq Hok Hm Hc Hback. destruct (so_exec _ HS _ _ Hreq) as [Hrid _].
  pose proof (transition_next threshold ev req rm Hok ltac:(congruence)) as Ht. unfold wp in Ht.
  destruct (transition ev req rm) as [[[[items req'] ev'] rm1]|] eqn:Htr; [|done]. cbn [fst snd] in Ht.
  destruct Ht as (n & -> & Hn & Hev' & Hrid' & Hex' & Hca' & Hitems).
  rewrite <- Hid in Hreq. destruct (proj1 (so_dom _ HS (ev_RequestId ev))) as [ch Hch]; [by eexists|].
  destruct (so_open _ HS _ _ Hch) as (cc & Hcc & Hopen).
  pose proof (OnEvent_live rm ev req items req' ev' n ch cc Hreq Hch Hcc Hopen Hev' Htr) as Hrun.
  pose proof (OnEvent_spec rm ev HS) as Hspec. unfold wp in Hspec |- *. rewrite Hrun in Hspec |- *.
  destruct Hspec as (HS' & _).
  { intros req0 Hr0. rewrite Hreq in Hr0. injection Hr0 as <-. by apply event_chunk_ok. }
  set (rm' := rm <| sm_drawn := n |> <| sm_requests := _ |> <| sm_channels := _ |>) in *.
  assert (He' : evolves [ev_RequestId ev0] [] rm0 rm').
  { apply (evolves_weaken ([ev_RequestId ev0] ++ [ev_RequestId ev0]) _ ([] ++ []) _); [set_solver|set_solver|].
    eapply evolves_trans; [exact He|]. split; [done|done| |].
    - intros id Hne r0. cbn. rewrite lookup_insert_ne; [done|]. rewrite Hid. set_solver.
    - intros e m0 Hm0. exists m0. ssplit; try done. by left. }
  split; [exact HS'|]. split; [by intros e|]. split; [done|]. split; [done|]. split.
  { intros id [r0 Hr0]. unfold live_in. cbn. apply lookup_insert_is_Some.
    destruct (decide (ev_RequestId ev = id)); [by left|right; split; [done|by eexists]]. }
  rewrite <- Hid. exists req'. split; [apply lookup_insert_eq|]. split; [done|]. cbn [fst snd].
  destruct items as [|w [|? ?]]; [| |done].
  - split; [|done]. apply (work_consume threshold rm0 rm' T (Landed ev0) HW Hl He' HS').
    intros r0. cbn. rewrite <- Hid, lookup_insert_eq. by intros [= <-].
  - destruct Hitems as (Hterm & Hdone & Hnn & Hwid & Hwr & Hwc & Hwf & Hcont).
    assert (Hwid' : wi_RequestId w = ev_RequestId ev) by congruence.
    split; [|by split].
    apply (work_follow threshold rm0 rm' T (Landed ev0) (Queued w) HW Hl Hinj He' HS').
    + cbn. congruence.
    + exists (sm_drawn rm). cbn. pose proof (ev_drawn _ _ _ _ He). split; [lia|done].
    + split; [done|]. intros r0. cbn. rewrite Hwid', lookup_insert_eq. intros [= <-]. split; [done|].
      exists m, c. rewrite Hex'. split; [done|]. split; [congruence|]. ssplit; [|congruence|done|].
      * destruct Hwf as [k Hk]. exists k. by rewrite <- Hex'.
      * by rewrite Hid.
Qed.

(** The blocks of a request that will not run again. *)
Lemma FreeRequest_work threshold rm T req :
  SMOK rm -> Work threshold rm T -> sm_requests rm !! req_RequestId req = Some req ->
  terminal (req_Phase req) = true ->
  wp (onRegistry (RegFreeRequest (req_ExecutorID req) (req_RequestId req))) (fun r rm' => r = inr tt /\ SMOK rm' /\
    stays_roomy rm rm' /\ sm_uuids rm' = sm_uuids rm /\ sm_requests rm' = sm_requests rm /\
    Work threshold rm' T) rm.
Proof.
  intros HS HW Hreq Hterm. destruct (so_exec _ HS _ _ Hreq) as [_ [m Hm]]. set (id := req_RequestId req) in *.
  destruct (rg_managers _ (so_reg _ HS) _ _ Hm) as [p HI].
  assert (Hfree : wp (onRegistry (RegFreeRequest (req_ExecutorID req) id)) (fun _ rm' => exists m',
    rm' = rm <| sm_registry := sm_registry rm <| r_managers := <[req_ExecutorID req := m']> (r_managers (sm_registry rm)) |> |> /\
    m_requestBlocks m' = delete id (m_requestBlocks m) /\
    m_pendingAllocations m' = filter (fun wa => ba_RequestID wa.2 <> id) (m_pendingAllocations m) /\
    mshrinks (fun id' => id' <> id) m m') rm).
  { apply wp_onRegistry. unfold RegFreeRequest. eapply wp_withManager; [exact Hm|].
    eapply wp_mono; [apply wp_and; [apply (FreeRequest_inv _ _ _ id HI)|
      apply (FreeRequest_shrinks m _ p id (fun id' => id' <> id) HI); by intros []]|cbn beta].
    intros x m' ((Hrb & _ & Hpd & _) & Hms). exists m'. by ssplit. }
  eapply wp_mono; [exact (wp_and _ _ _ _ (free_spec rm _ m id HS Hm) Hfree)|cbn beta].
  intros r rm' ((-> & HS' & _) & m' & -> & Hrb & Hpd & Hms).
  split; [done|]. split; [done|]. split; [|split; [done|split; [done|]]].
  - eapply roomy_manager; [exact Hm|done|done|by eapply slack_shrinks].
  - apply (work_step threshold rm _ [id] [] [] [] T); try done.
    + eapply evolves_manager; [exact Hm|done| |].
      * intros id' Hne. rewrite Hrb. apply lookup_delete_ne. set_solver.
      * intros w a. rewrite Hpd. intros [? _]%map_lookup_filter_Some. by left.
    + set_solver.
    + intros t Ht. left. split; [|set_solver]. intros E%list_elem_of_singleton.
      destruct (proj2 (proj1 (Forall_forall _ _) (wk_ok _ _ _ HW) t Ht) req) as [Hno _]; [by rewrite E|congruence].
    + set_solver.
    + constructor.
    + apply HW.
    + intros id' r' ->%list_elem_of_singleton Hr' Hterm'. cbn in Hr'. congruence.
Qed.

(** ** New requests *)

Lemma evolves_same rm rm' : sm_requests rm' = sm_requests rm -> sm_registry rm' = sm_registry rm ->
  sm_uuids rm' = sm_uuids rm -> (sm_drawn rm <= sm_drawn rm')%nat -> evolves [] [] rm rm'.
Proof.
  intros Hr Hg Hu Hd. split; [done|done|by intros id _ req; rewrite Hr|].
  rewrite Hg. intros e m Hm. exists m. ssplit; try done. by left.
Qed.


Lemma advances_Create req : advances (Create req).
Proof.
  unfold Create, setRequest, makeCh, forget, increaseActiveRequestAndCacheHit, sm_metric. advance.
Qed.
#[export] Hint Resolve advances_Create : advance.

Lemma RegMatchPrefix_runs q r x r' : RegMatchPrefix q r = Some (inr x, r') ->
  exists m m', r_managers r !! req_ExecutorID q = Some m /\ MatchPrefix q m = Some (x, m') /\
    r' = r <| r_managers := <[req_ExecutorID q := m']> (r_managers r) |>.
Proof.
  unfold RegMatchPrefix, withManager, onManager, mbind, M_bind, getS. cbn.
  destruct (r_managers r !! req_ExecutorID q) as [m|] eqn:Hm; cbn; [|done]. rewrite Hm. cbn.
  destruct (MatchPrefix q m) as [[y m']|] eqn:Hq; cbn; [|done]. intros [= <- <-]. by exists m, m'.
Qed.

(** The id of the first item, and the match it carries. *)
Lemma Create_runs req rm w rm' : Create req rm = Some (inr w, rm') ->
  wi_WorkId w = sm_uuids rm (sm_drawn rm) /\ sm_drawn rm' = S (sm_drawn rm) /\
  exists q pm q' , req_RequestId q = req_RequestId req /\ req_TokenIDs q = req_TokenIDs req /\
    RegMatchPrefix q (sm_registry rm) = Some (inr (pm, q'), sm_registry rm').
Proof.
  unfold Create, setRequest, makeCh, forget, increaseActiveRequestAndCacheHit, sm_metric, now_, newUUID,
    onRegistry, getsO, mbind, M_bind, getS, modS. cbn.
  destruct (sm_requests rm !! req_RequestId req); [by intros [=]|]. cbn.
  destruct (_ && _); cbn; [by intros [=]|].
  destruct (if String.eqb (req_ExecutorID req) "" then _ else _) as [e|]; cbn; [|done].
  destruct (RegMatchPrefix _ (sm_registry rm)) as [[[err|[pm q']] r']|] eqn:HM; cbn; [by intros [=]| |done].
  destruct (pm_Hit pm); cbn; (destruct (slice _ _ _) as [toks|]; cbn; [|done]); intros [= <- <-]; cbn;
    (split; [done|]; split; [done|]; eexists _, pm, q'; by split; [|split; [|exact HM]]).
Qed.

Lemma dups_app_le (l1 l2 : list Z) : dups (l1 ++ l2) <= len l1 + dups l2.
Proof.
  unfold dups. rewrite len_app. assert (len (remove_dups l2) <= len (remove_dups (l1 ++ l2))); [|lia].
  unfold len. apply inj_le, submseteq_length, NoDup_submseteq; [apply NoDup_remove_dups|].
  intros x. rewrite !elem_of_remove_dups, elem_of_app. by right.
Qed.

(** Room for one more request, however much of it is cached. *)
Definition spacious (rm : stateManager) (req : Request) : Prop :=
  len (req_TokenIDs req) < two32 /\
  forall e m, r_managers (sm_registry rm) !! e = Some m ->
    slack m (pinsOf e (r_pendingTransfers (sm_registry rm))) + len (req_TokenIDs req) / m_blockSize m < two32.

Lemma spacious_room rm req : SMOK rm -> spacious rm req -> room (sm_registry rm) req.
Proof.
  intros HS [Hn Hs]. split; [done|]. intros e m Hm. specialize (Hs e m Hm).
  destruct (rg_managers _ (so_reg _ HS) _ _ Hm) as [p HI]. pose proof (slack_bound _ _ _ HI).
  pose proof (len_nonneg (p_free p)). lia.
Qed.

(** Nothing is pending for a request that is not live. *)
Lemma no_pending_dead rm e m id : SMOK rm -> r_managers (sm_registry rm) !! e = Some m ->
  sm_requests rm !! id = None -> no_pending id m.
Proof.
  intros HS Hm Hid w a Ha <-. destruct (rg_managers _ (so_reg _ HS) _ _ Hm) as [p HI].
  destruct (pd_table _ _ _ (inv_pending _ _ _ HI) _ _ Ha) as (_ & _ & Ht & _).
  destruct (so_tables _ HS _ _ _ Hm (ex_intro _ _ Ht)) as (req & Hr & _). congruence.
Qed.

Lemma Create_work threshold rm T req :
  SMOK rm -> Inj (=) (=) (sm_uuids rm) -> Work threshold rm T -> (forall e, roomy rm e) ->
  req_RequestId req ∉ (tok_rid <$> T) -> spacious rm req ->
  req_TokenIDs req <> [] -> req_PromptTokens req = len (req_TokenIDs req) ->
  wp (Create req) (fun r rm' => SMOK rm' /\ (forall e, roomy rm' e) /\ sm_uuids rm' = sm_uuids rm /\
    match r with
    | inl _ => Work threshold rm' T
    | inr w => Work threshold rm' (Queued w :: T) /\ live rm' (Queued w)
    end) rm.
Proof.
  intros HS Hinj HW Hroom Hnn0w Hsp Hnn0 Hprompt. pose proof (spacious_room _ _ HS Hsp) as Hrm.
  pose proof (wp_advances _ _ _ (advances_Create req) (Create_spec rm req HS Hrm)) as Hspec. unfold wp in Hspec |- *.
  destruct (Create req rm) as [[[err|w] rm']|] eqn:Hrun; [| |done].
  - destruct Hspec as ((HS' & (Hr & _ & Hg & _) & _) & Hu & Hd). split; [done|]. split; [|split; [done|]].
    + intros e. unfold roomy. rewrite Hg. apply Hroom.
    + apply (work_end threshold rm rm' T []); try done; [|set_solver].
      by apply evolves_same.
  - destruct Hspec as ((HS' & Hnone & e & pm & _ & Hc & _ & _) & Hu & Hd).
    destruct (Create_runs _ _ _ _ Hrun) as (Hwid & Hdr & q & pm0 & q' & Hqid & Hqt & HM).
    destruct Hc as (m & m' & ids & Hm & Hms & Hrb & Hids & Hct & Hc0 & Hclt & Hreqs & Hwr & Hwe & Hwc & Hwo & Hwt & Hwn & _ & _ & Hph).
    destruct (RegMatchPrefix_runs _ _ _ _ HM) as (m0 & m0' & Hm0 & Hmp & Hr').
    rewrite Hr' in Hms. cbn in Hms.
    assert (He : req_ExecutorID q = e).
    { destruct (decide (req_ExecutorID q = e)) as [|Hqe]; [done|]. exfalso.
      assert (m' = m) as ->.
      { apply (f_equal (fun ms => ms !! e)) in Hms. rewrite lookup_insert_ne, lookup_insert_eq, Hm in Hms by done. congruence. }
      assert (Hid0 : m_requestBlocks m !! req_RequestId req = None).
      { apply eq_None_not_Some. intros Hs. destruct (so_tables _ HS _ _ _ Hm Hs) as (r0 & ? & _). congruence. }
      rewrite Hrb, lookup_insert_eq in Hid0. done. }
    rewrite He in Hm0, Hms. assert (m0 = m) as -> by congruence.
    assert (m0' = m') as ->.
    { apply (f_equal (fun ms => ms !! e)) in Hms. rewrite !lookup_insert_eq in Hms. congruence. }
    destruct (rg_managers _ (so_reg _ HS) _ _ Hm) as [p HI]. pose proof (inv_bs _ _ _ HI) as Hbs.
    assert (Hid0 : m_requestBlocks m !! req_RequestId q = None).
    { rewrite Hqid. apply eq_None_not_Some. intros Hs. destruct (so_tables _ HS _ _ _ Hm Hs) as (r0 & ? & _). congruence. }
    destruct Hrm as [Hn32 Hrm]. specialize (Hrm e m Hm).
    pose proof (MatchPrefix_inv m _ p q HI Hid0 ltac:(by rewrite Hqt) ltac:(rewrite Hqt; exact Hrm)) as Hmi.
    cbv zeta in Hmi. unfold wp in Hmi. rewrite Hmp in Hmi. destruct Hmi as (_ & _ & _ & _ & _ & Hpd & p' & HI' & Hcn).
    set (n := len (req_TokenIDs req)) in *.
    assert (Hn0 : 0 < n).
    { unfold n. destruct (req_TokenIDs req) as [|x l]; [done|]. rewrite len_cons. pose proof (len_nonneg l). lia. }
    assert (Hidsn : len ids <= n / m_blockSize m) by (apply Z.div_le_lower_bound; [lia|]; nia).
    assert (Hslack : slack m' (pinsOf e (r_pendingTransfers (sm_registry rm))) <=
      len ids + slack m (pinsOf e (r_pendingTransfers (sm_registry rm)))).
    { unfold slack, refs_of. set (pins := pinsOf e _) in *.
      rewrite <- (rep_info_len _ _ (inv_rep _ _ _ HI')), <- (rep_info_len _ _ (inv_rep _ _ _ HI)), (content_len _ _ Hcn).
      rewrite Hrb. assert (pins ++ tab (<[req_RequestId req := ids]> (m_requestBlocks m)) ≡ₚ
        ids ++ (pins ++ tab (m_requestBlocks m))) as ->.
      { rewrite tab_insert, delete_id by (by rewrite <- Hqid). solve_Permutation. }
      pose proof (dups_app_le ids (pins ++ tab (m_requestBlocks m))). lia. }
    split; [done|]. split; [|split; [done|]].
    + intros e1 m1. rewrite Hr'. cbn. rewrite He. intros [[<- <-]|[_ Hm1]]%lookup_insert_Some; [|by apply Hroom].
      pose proof (proj2 Hsp e m Hm). fold n in H. lia.
    + assert (Hlive : live rm' (Queued w)).
      { unfold live, live_in. cbn. rewrite Hreqs, Hwr, lookup_insert_eq. by eexists. }
      split; [|done]. apply (work_add threshold rm rm' T (Queued w) HW Hinj); try done.
      * cbn. rewrite Hwr. split; [done|done| |].
        -- intros id Hne r0. rewrite Hreqs, lookup_insert_ne; [done|]. set_solver.
        -- intros e1 m1. rewrite Hr'. cbn. rewrite He. intros [[<- <-]|[_ Hm1]]%lookup_insert_Some.
           ++ exists m. split; [done|]. split.
              ** intros id Hne _. rewrite Hrb. apply lookup_insert_ne. set_solver.
              ** intros w0 a. rewrite Hpd. by left.
           ++ exists m1. ssplit; try done. by left.
      * cbn. by rewrite Hwr.
      * exists (sm_drawn rm). split; [lia|]. cbn. by rewrite Hu.
      * split; [done|]. intros r0. cbn. rewrite Hreqs, Hwr, lookup_insert_eq. intros [= <-]. split; [done|].
        exists m', pm. cbn. split; [rewrite Hr'; cbn; rewrite He; apply lookup_insert_eq|]. split; [done|].
        assert (Hpn : req_PromptTokens req <=? pm_CachedTokens pm = false) by (apply Z.leb_gt; specialize (Hclt Hn0); lia).
        rewrite Hpn in Hph. destruct Hph as [Hph Hnn]. specialize (Hclt Hn0).
        rewrite u32_small in Hnn by lia.
        split; [|split; [done|split]].
        -- eexists. split; [done|]. unfold kindOf. rewrite Hph. split; [reflexivity|].
           split; [lia|]. rewrite Hnn, Hwt. unfold n, len in *. rewrite length_drop. lia.
        -- intros _. cbn. fold n. ssplit; try done; lia.
        -- split; [intros w0 a; rewrite Hpd; rewrite ?Hwr; exact (no_pending_dead rm e m _ HS Hm Hnone w0 a)|].
           left. exists ids. rewrite Hrb, lookup_insert_eq. split; [done|]. by intros ->.
Qed.
