(* ===== verification/EngineSteps.v ===== *)
(** * EngineSteps: work and the scheduler

    Every operation of the scheduler keeps the invariant [Flow]: picking and
    submitting a batch, taking it back, queueing an item, handling an event. *)

From S2P Require Import Prelude Errors Model Metrics FreeQueue BlockManager BlockProperties BlockRegistry StateMachine RequestFrame Executor ExecutorProperties Queues QueueProperties Scheduler SchedulerPick SchedulerProperties Engine EngineRequests.
(** What no operation of the scheduler changes. *)
Definition steady (s s' : scheduler) : Prop :=
  sd_executorIDs s' = sd_executorIDs s /\ sd_longPrefillThreshold s' = sd_longPrefillThreshold s /\
  sd_batchBudget s' = sd_batchBudget s.

Lemma steady_refl s : steady s s.
Proof. done. Qed.
Lemma steady_trans s1 s2 s3 : steady s1 s2 -> steady s2 s3 -> steady s1 s3.
Proof. intros (?&?&?) (?&?&?). unfold steady. ssplit; congruence. Qed.

(** ** The request manager under the scheduler *)

Lemma wired_requests s rm : Wired s -> sm_uuids rm = sm_uuids (sd_requestManager s) ->
  Wired (s <| sd_requestManager := rm |>).
Proof. intros [H1 H2 H3 H4 H5 H6 H7 H8] Hu. split; try done. cbn. by rewrite Hu. Qed.

(** An operation of the request manager that turns the held work [H] into [H' a]. *)
Lemma flow_onState {A} (c : M stateManager A) s H (H' : A -> list token) :
  Flow s H ->
  wp c (fun a rm' => SMOK rm' /\ (forall e, roomy rm' e) /\ sm_uuids rm' = sm_uuids (sd_requestManager s) /\
    Work (sd_longPrefillThreshold s) rm' (H' a ++ tokens s) /\ Forall (live rm') (H' a)) (sd_requestManager s) ->
  wp (onState c) (fun a s' => Flow s' (H' a) /\ steady s s' /\
    exists rm', s' = s <| sd_requestManager := rm' |>) s.
Proof.
  intros HF Hc. apply wp_onState_with. eapply wp_mono; [exact Hc|cbn beta].
  intros a rm' (HS & Hr & Hu & HW & Hl). split; [|split; [done|by eexists]].
  split; try done. apply wired_requests; [apply HF|done].
Qed.

(** ** Queues *)

Lemma wired_queue s k e q q' : Wired s -> queues k s !! e = Some q ->
  (forall w, w ∈ wq_works q' -> kindOf (sd_longPrefillThreshold s) w = Some k /\ wi_ExecutorID w = e) ->
  Wired (setQueues k (<[e := q']> (queues k s)) s).
Proof.
  intros [H1 H2 H3 H4 H5 H6 H7 H8] Hq Hk. set (s' := setQueues _ _ _).
  assert (Hem : sd_executorManager s' = sd_executorManager s) by (by destruct k).
  assert (Hids : sd_executorIDs s' = sd_executorIDs s) by (by destruct k).
  assert (Hbud : sd_batchBudget s' = sd_batchBudget s) by (by destruct k).
  assert (Hth : sd_longPrefillThreshold s' = sd_longPrefillThreshold s) by (by destruct k).
  assert (Hrm : sd_requestManager s' = sd_requestManager s) by (by destruct k).
  split; rewrite ?Hem, ?Hids, ?Hbud, ?Hth, ?Hrm; try done.
  - intros k' e'. rewrite <- (H2 k' e'). unfold s'. assert (Hqe : is_Some (queues k s !! e)) by (by eexists).
    rewrite queues_other. destruct (decide (k' = k)) as [->|Hk']; [|done].
    destruct (decide (e' = e)) as [->|He]; [by rewrite lookup_insert_eq|by rewrite lookup_insert_ne].
  - intros k' e' w. unfold s'. rewrite queued_set. case_decide as Hd; [|apply H5].
    destruct Hd as [-> ->]. apply Hk.
Qed.

(** The tokens of a queue and the rest. *)
Lemma tokens_of_queue s k e q : NoDup (sd_executorIDs s) -> e ∈ sd_executorIDs s -> queues k s !! e = Some q ->
  exists R, tokens s ≡ₚ (Queued <$> wq_works q) ++ R /\
    forall q', tokens (setQueues k (<[e := q']> (queues k s)) s) ≡ₚ (Queued <$> wq_works q') ++ R.
Proof.
  intros Hnd He Hq. set (q0 := q <| wq_works := [] |>).
  exists (tokens (setQueues k (<[e := q0]> (queues k s)) s)).
  assert (Hs : tokens s ≡ₚ (Queued <$> wq_works q) ++ tokens (setQueues k (<[e := q0]> (queues k s)) s)).
  { apply (tokens_queue s k e q q0 [] (Queued <$> wq_works q) Hnd He Hq). cbn. by rewrite app_nil_r. }
  split; [done|]. intros q'. apply (Permutation_app_inv_l (Queued <$> wq_works q)).
  rewrite <- (tokens_queue s k e q q' (Queued <$> wq_works q') (Queued <$> wq_works q) Hnd He Hq);
    [|apply Permutation_app_comm].
  rewrite Hs. solve_Permutation.
Qed.

(** What a loop over a queue does to its items and to the other work [T]. *)
Definition sweeps {A} (threshold : Z) (out : A -> list WorkItem)
    (loop : list WorkItem -> M stateManager (A * list WorkItem)) : Prop :=
  forall rm works T, SMOK rm -> Work threshold rm ((Queued <$> works) ++ T) ->
  wp (loop works) (fun r rm' => SMOK rm' /\ stays_roomy rm rm' /\ sm_uuids rm' = sm_uuids rm /\
    (forall t, t ∈ T -> live rm t -> live rm' t) /\
    Work threshold rm' ((Queued <$> out r.1) ++ (Queued <$> r.2) ++ T) /\
    Forall (fun w => live rm' (Queued w) /\ w ∈ works) (out r.1) /\
    (forall w, w ∈ r.2 -> w ∈ works)) rm.

Lemma popLoop_sweeps threshold : sweeps threshold option_list popLoop.
Proof.
  intros rm works. revert rm. induction works as [|w ws IH]; intros rm T HS HW; cbn [popLoop].
  { wp_steps. cbn. ssplit; try done; try (by intros ?); try constructor. }
  wp_steps. wp_use (CanSchedule_work threshold rm (fmap (M:=list) Queued ws ++ T) w HS HW).
  intros ok rm1 (HS1 & Hr1 & Hu1 & Hl1 & Hok). destruct ok.
  - destruct Hok as [HW1 Hlive]. wp_steps. cbn. ssplit; try done.
    + intros t Ht. apply Hl1. set_solver.
    + constructor; [|constructor]. split; [done|by left].
    + intros w' ?. by right.
  - wp_use (IH rm1 T HS1 Hok). intros r rm2 (HS2 & Hr2 & Hu2 & Hl2 & HW2 & Hf & Hin). ssplit; try done.
    + intros e ?. by apply Hr2, Hr1.
    + congruence.
    + intros t Ht Hlt. apply Hl2; [done|]. apply Hl1; [set_solver|done].
    + eapply Forall_impl; [exact Hf|]. intros x [? ?]. split; [done|by right].
    + intros x Hx. right. by apply Hin.
Qed.

Lemma peekLoop_sweeps threshold : sweeps threshold (fun _ => []) peekLoop.
Proof.
  intros rm works. revert rm. induction works as [|w ws IH]; intros rm T HS HW; cbn [peekLoop].
  { wp_steps. cbn. ssplit; try done; try (by intros ?); try constructor. }
  wp_steps. wp_use (CanSchedule_work threshold rm (fmap (M:=list) Queued ws ++ T) w HS HW).
  intros ok rm1 (HS1 & Hr1 & Hu1 & Hl1 & Hok). destruct ok.
  - destruct Hok as [HW1 Hlive]. wp_steps. cbn. ssplit; try done.
    intros t Ht. apply Hl1. set_solver.
  - wp_use (IH rm1 T HS1 Hok). intros r rm2 (HS2 & Hr2 & Hu2 & Hl2 & HW2 & Hf & Hin). ssplit; try done.
    + intros e ?. by apply Hr2, Hr1.
    + congruence.
    + intros t Ht Hlt. apply Hl2; [done|]. apply Hl1; [set_solver|done].
    + intros x Hx. right. by apply Hin.
Qed.

Lemma dequeueLoop_sweeps threshold n : sweeps threshold id (dequeueLoop n).
Proof.
  induction n as [|n IH]; intros rm works T HS HW.
  { cbn [dequeueLoop]. wp_steps. cbn. ssplit; try done; try (by intros ?); try constructor. }
  destruct works as [|w ws]; cbn [dequeueLoop].
  { wp_steps. cbn. ssplit; try done; try (by intros ?); try constructor. }
  wp_steps. wp_use (CanSchedule_work threshold rm (fmap (M:=list) Queued ws ++ T) w HS HW).
  intros ok rm1 (HS1 & Hr1 & Hu1 & Hl1 & Hok). wp_steps. destruct ok.
  - destruct Hok as [HW1 Hlive].
    assert (HW1' : Work threshold rm1 ((Queued <$> ws) ++ (Queued w :: T))).
    { eapply work_perm; [|exact HW1]. cbn. apply Permutation_middle. }
    wp_use (IH rm1 ws (Queued w :: T) HS1 HW1'). intros r rm2 (HS2 & Hr2 & Hu2 & Hl2 & HW2 & Hf & Hin). wp_steps.
    cbn [fst snd]. ssplit; try done.
    + intros e ?. by apply Hr2, Hr1.
    + congruence.
    + intros t Ht Hlt. apply Hl2; [by right|]. apply Hl1; [set_solver|done].
    + eapply work_perm; [|exact HW2]. unfold id. cbn. rewrite !app_assoc. symmetry. apply Permutation_middle.
    + constructor.
      * split; [apply Hl2; [by left|done]|by left].
      * eapply Forall_impl; [exact Hf|]. intros x [? ?]. split; [done|by right].
    + intros x Hx. right. by apply Hin.
  - wp_use (IH rm1 ws T HS1 Hok). intros r rm2 (HS2 & Hr2 & Hu2 & Hl2 & HW2 & Hf & Hin). wp_steps. ssplit; try done.
    + intros e ?. by apply Hr2, Hr1.
    + congruence.
    + intros t Ht Hlt. apply Hl2; [done|]. apply Hl1; [set_solver|done].
    + eapply Forall_impl; [exact Hf|]. intros x [? ?]. split; [done|by right].
    + intros x Hx. right. by apply Hin.
Qed.

Lemma flow_sweep {A} (out : A -> list WorkItem) loop k e s H :
  Flow s H -> e ∈ sd_executorIDs s -> sweeps (sd_longPrefillThreshold s) out loop ->
  wp (sweep k e loop) (fun a s' => Flow s' ((Queued <$> out a) ++ H) /\ steady s s' /\
    Forall (fun w => kindOf (sd_longPrefillThreshold s) w = Some k /\ wi_ExecutorID w = e) (out a)) s.
Proof.
  intros [HS HWd Hroom Hheld HW] He Hloop. unfold sweep. wp_steps.
  destruct (proj2 (wd_queues _ HWd k e) He) as [q Hq]. eapply wp_getsO; [exact Hq|]. wp_steps.
  destruct (tokens_of_queue s k e q (wd_ids _ HWd) He Hq) as (R & HR & HR').
  assert (HW' : Work (sd_longPrefillThreshold s) (sd_requestManager s) ((Queued <$> wq_works q) ++ (H ++ R))).
  { eapply work_perm; [|exact HW]. rewrite HR. apply Permutation_app_swap_app. }
  apply wp_onState_with. wp_use (Hloop (sd_requestManager s) (wq_works q) (H ++ R) HS HW').
  intros r rm' (HS' & Hr' & Hu' & Hl' & HW'' & Hf & Hin). wp_steps.
  unfold onQueue, wp. set (s1 := s <| sd_requestManager := rm' |>).
  assert (Hq1 : queues k s1 !! e = Some q) by (by destruct k). rewrite Hq1. cbn [mbind option_bind modS].
  assert (Hkq : forall w, w ∈ wq_works q -> kindOf (sd_longPrefillThreshold s) w = Some k /\ wi_ExecutorID w = e).
  { intros w Hw. apply (wd_kinds _ HWd k e). unfold queued. by rewrite Hq. }
  set (q' := q <| wq_works := r.2 |>). set (s2 := setQueues k (<[e := q']> (queues k s1)) s1).
  assert (Ht2 : tokens s2 ≡ₚ (Queued <$> r.2) ++ R) by (etrans; [|exact (HR' q')]; by destruct k).
  assert (Hst : sd_requestManager s2 = rm' /\ sd_longPrefillThreshold s2 = sd_longPrefillThreshold s /\
    sd_executorIDs s2 = sd_executorIDs s /\ sd_batchBudget s2 = sd_batchBudget s) by (by destruct k).
  destruct Hst as (E1 & E2 & E3 & E4). split; [|split; [by ssplit|]].
  - split; rewrite ?E1, ?E2.
    + done.
    + apply (wired_queue s1 k e q q'); [by apply wired_requests|done|]. intros w Hw. apply Hkq, Hin, Hw.
    + intros e0. apply Hr', Hroom.
    + apply Forall_app. split.
      * apply Forall_fmap. eapply Forall_impl; [exact Hf|]. by intros x [? _].
      * apply Forall_forall. intros t Ht. apply Hl'; [set_solver|]. by apply (proj1 (Forall_forall _ _) Hheld).
    + eapply work_perm; [|exact HW'']. rewrite Ht2. solve_Permutation.
  - eapply Forall_impl; [exact Hf|]. intros x [_ Hx]. by apply Hkq.
Qed.

(** ** One item *)

(** The same item but for its blocks and its time in the queue. *)
Definition restamped (w w' : WorkItem) : Prop :=
  exists a t, w' = w <| wi_BlockAllocation := a |> <| wi_EnqueuedAt := t |>.

Lemma restamp_alloc w a : restamped w (w <| wi_BlockAllocation := a |>).
Proof. exists a, (wi_EnqueuedAt w). by destruct w. Qed.
Lemma restamp_time w t : restamped w (w <| wi_EnqueuedAt := t |>).
Proof. exists (wi_BlockAllocation w), t. by destruct w. Qed.

Lemma restamped_token threshold rm w w' : restamped w w' ->
  token_ok threshold rm (Queued w) -> token_ok threshold rm (Queued w').
Proof. intros (a & t & ->) [_ Hok]. split; [done|exact Hok]. Qed.

Lemma restamped_same w w' : restamped w w' ->
  wi_RequestId w' = wi_RequestId w /\ wi_WorkId w' = wi_WorkId w /\ wi_ExecutorID w' = wi_ExecutorID w /\
  forall threshold, kindOf threshold w' = kindOf threshold w.
Proof. intros (a & t & ->). by ssplit. Qed.

Lemma flow_restamp s H w w' : restamped w w' -> Flow s (Queued w :: H) -> Flow s (Queued w' :: H).
Proof.
  intros Hw [HS HWd Hroom Hheld HW]. destruct (restamped_same _ _ Hw) as (Er & Ew & _).
  inversion Hheld as [|? ? Hl Hh]; subst. split; try done.
  { constructor; [|done]. unfold live in *. cbn in *. by rewrite Er. }
  eapply (work_replace _ _ _ _ [] (Queued w) (Queued w') HW Hl); try done; [|set_solver|].
  - split; try done. intros e m Hm. exists m. ssplit; try done. by left.
  - eapply restamped_token; [exact Hw|]. pose proof (wk_ok _ _ _ HW) as Hok. by inversion Hok.
Qed.

(** What a held item says about itself. *)
Lemma held_kind s H w : Flow s (Queued w :: H) ->
  exists k, kindOf (sd_longPrefillThreshold s) w = Some k /\
    is_Some (r_managers (sm_registry (sd_requestManager s)) !! wi_ExecutorID w).
Proof.
  intros [HS HWd Hroom Hheld HW]. inversion Hheld as [|? ? [req Hreq] Hh]; subst.
  pose proof (wk_ok _ _ _ HW) as Hok. inversion Hok as [|? ? [_ Hl] _]; subst.
  destruct (Hl req Hreq) as (_ & m & c & Hm & _ & (k & He & Hk & _) & _). exists k. split; [done|].
  rewrite He. by eexists.
Qed.

(** The request of a held token is failed. *)
Lemma flow_fail s H t err : Flow s (t :: H) ->
  wp (onState (Fail_ (tok_rid t) err)) (fun _ s' => Flow s' H /\ steady s s') s.
Proof.
  intros HF. pose proof HF as [HS HWd Hroom Hheld HW]. inversion Hheld as [|? ? Hl Hh]; subst.
  eapply wp_mono; [apply (flow_onState _ s (t :: H) (fun _ => H) HF)|by intros ? ? (? & ? & _)].
  wp_use (Fail_work (sd_longPrefillThreshold s) _ ((t :: H) ++ tokens s) (tok_rid t) err HS HW).
  intros _ rm' (HS' & Hr & HW' & Hu & Hreq). ssplit; try done.
  - intros e. by apply Hr.
  - apply (work_drop _ _ _ t HW' HS'). unfold live, live_in. rewrite Hreq, lookup_delete_eq. by intros [].
  - apply Forall_forall. intros t' Ht'. destruct (proj1 (Forall_forall _ _) Hh t' Ht') as [r Hr'].
    exists r. rewrite Hreq, lookup_delete_ne; [done|]. intros E.
    eapply (work_distinct _ _ _ t HW Hl t'); [|done]. set_solver.
Qed.

(** A held item is put at the end of its queue. *)
Lemma flow_put s H w w' k q : Flow s (Queued w :: H) -> restamped w w' ->
  kindOf (sd_longPrefillThreshold s) w = Some k -> queues k s !! wi_ExecutorID w = Some q ->
  Flow (setQueues k (<[wi_ExecutorID w := q <| wq_works := wq_works q ++ [w'] |>]> (queues k s)) s) H.
Proof.
  intros HF Hw Hk Hq. apply (flow_restamp _ _ _ _ Hw) in HF. pose proof HF as [HS HWd Hroom Hheld HW].
  destruct (restamped_same _ _ Hw) as (Er & Ew & Ee & Ek).
  apply (flow_move s _ (Queued w' :: H) H HF); [by destruct k| |by destruct k| |].
  - eapply wired_queue; [done|done|]. cbn. intros x [Hx|Hx]%elem_of_app.
    + apply (wd_kinds _ HWd k (wi_ExecutorID w)). unfold queued. by rewrite Hq.
    + apply list_elem_of_singleton in Hx as ->. by rewrite Ek, Ee.
  - by inversion Hheld.
  - eapply tokens_queue; [apply HWd|apply (wd_queues _ HWd k); by eexists|exact Hq|].
    cbn. rewrite fmap_app. cbn. rewrite !app_assoc. rewrite (Permutation_app_comm _ [Queued w']). cbn. done.
Qed.

Lemma flow_signalled s s' H : Flow s H -> signalled s s' -> Flow s' H /\ steady s s'.
Proof.
  intros HF (b & l & ->). split; [|by ssplit]. destruct HF as [HS HWd Hroom Hheld HW]. split; try done.
  destruct HWd. by split.
Qed.

Lemma flow_metrics s H l : Flow s H -> Flow (s <| sd_metrics := l |>) H.
Proof. intros HF. apply (flow_signalled s _ H HF). exists (sd_patchExecuteChan s), l. by destruct s. Qed.

Lemma flow_wired s H : Flow s H -> wired s.
Proof. intros HF e k He. by apply (wd_queues _ (fl_wired _ _ HF)). Qed.

Lemma requeueWork_flow s H w : Flow s (Queued w :: H) ->
  wp (requeueWork w) (fun _ s' => Flow s' H /\ steady s s') s.
Proof.
  intros HF. destruct (held_kind _ _ _ HF) as (k & Hk & _). unfold requeueWork. wp_steps.
  set (w' := w <| wi_BlockAllocation := None |>).
  change (kindOf (sd_longPrefillThreshold s) w') with (kindOf (sd_longPrefillThreshold s) w). rewrite Hk.
  change (wi_ExecutorID w') with (wi_ExecutorID w). destruct (queues k s !! wi_ExecutorID w) as [q|] eqn:Hq.
  - unfold onQueue, wp. rewrite Hq. cbn. split; [|by destruct k].
    apply (flow_put s H w _ k q HF); try done. apply restamp_alloc.
  - apply (flow_fail s H (Queued w) _ HF).
Qed.

(** ** Assembling a batch *)

Lemma tryAllocate_flow s H w chunk : Flow s (Queued w :: H) -> part_of w chunk ->
  wp (tryAllocate chunk w) (fun r s' => steady s s' /\
    match r with Some c => Flow s' (Flying c :: H) | None => Flow s' H end) s.
Proof.
  intros HF Hpart. pose proof HF as [HS HWd Hroom Hheld HW]. inversion Hheld as [|? ? Hl Hh]; subst.
  unfold tryAllocate. wp_steps. unfold onBlocks. apply wp_onState_with.
  wp_use (RegAllocateBlocks_work (sd_longPrefillThreshold s) _ (H ++ tokens s) HS w chunk HW Hl Hroom Hpart).
  intros r rm' (HS' & Hr & Hu & Hreq & ok & c & -> & Hok).
  assert (Hlive : forall t, live (sd_requestManager s) t -> live rm' t) by (intros t; unfold live, live_in; by rewrite Hreq).
  assert (Hh' : Forall (live rm') H) by (eapply Forall_impl; [exact Hh|done]).
  set (s1 := s <| sd_requestManager := rm' |>).
  assert (Hw1 : Wired s1) by (by apply wired_requests). destruct ok.
  - wp_steps. split; [done|]. destruct Hok as [(a & ->) HW']. split; try done.
    + intros e. by apply Hr.
    + constructor; [|done]. apply Hlive in Hl. unfold live in *. cbn.
      destruct (part_same _ _ Hpart) as (Er & _). by rewrite Er.
  - wp_steps. assert (HF1 : Flow s1 (Queued w :: H)).
    { split; try done; [intros e; by apply Hr|]. constructor; [by apply Hlive|done]. }
    wp_use (requeueWork_flow s1 H w HF1). intros _ s' [HF' Hst]. wp_steps. by split.
Qed.

(** What follows works on the executor [e] of the state [s]. *)
Lemma pickDecodeLoop_flow works : forall s H batch budget,
  Flow s ((Queued <$> works) ++ (Flying <$> batch) ++ H) ->
  wp (pickDecodeLoop works batch budget) (fun r s' => steady s s' /\ Flow s' ((Flying <$> r.1) ++ H)) s.
Proof.
  induction works as [|w works IH]; intros s H batch budget HF; cbn [pickDecodeLoop].
  { wp_steps. by split. }
  wp_steps. wp_use (tryAllocate_flow s _ w w HF (or_introl eq_refl)). intros r s1 [Hst HF1].
  assert (Hnext : forall b bud, Flow s1 ((Queued <$> works) ++ (Flying <$> b) ++ H) ->
    wp (pickDecodeLoop works b bud) (fun r s' => steady s s' /\ Flow s' ((Flying <$> r.1) ++ H)) s1).
  { intros b bud HFb. wp_use (IH s1 H b bud HFb). intros r' s' [Hst' ?]. split; [|done]. by eapply steady_trans. }
  destruct r as [c|]; apply Hnext; [|done]. eapply flow_perm; [|exact HF1].
  rewrite fmap_app. cbn. solve_Permutation.
Qed.

(** [c] turns the batch [batch] into its result's. *)
Definition picks (e : string) (c : list WorkItem -> batchBudget -> M scheduler (list WorkItem * batchBudget)) : Prop :=
  forall s H batch budget, Flow s ((Flying <$> batch) ++ H) -> e ∈ sd_executorIDs s ->
  wp (c batch budget) (fun r s' => steady s s' /\ Flow s' ((Flying <$> r.1) ++ H)) s.

Lemma picks_after (e : string) c batch budget s s1 H : picks e c -> steady s s1 -> e ∈ sd_executorIDs s ->
  Flow s1 ((Flying <$> batch) ++ H) ->
  wp (c batch budget) (fun r s' => steady s s' /\ Flow s' ((Flying <$> r.1) ++ H)) s1.
Proof.
  intros Hc Hst He HF. assert (He1 : e ∈ sd_executorIDs s1) by (destruct Hst as [-> _]; done).
  wp_use (Hc s1 H batch budget HF He1). intros r s' [Hst' ?]. split; [|done]. by eapply steady_trans.
Qed.

(** The result of a loop is that of its sweep. *)
Lemma sweep_result {A} k e (loop : list WorkItem -> M stateManager (A * list WorkItem)) (P : A -> Prop) Q s :
  SMOK (sd_requestManager s) ->
  (forall rm works, SMOK rm -> wp (loop works) (fun r _ => P r.1) rm) ->
  wp (sweep k e loop) Q s -> wp (sweep k e loop) (fun a s' => P a /\ Q a s') s.
Proof.
  intros HS HP. unfold sweep, getsO, onState, onQueue, wp, mbind, M_bind, mret, M_ret, modS.
  destruct (queues k s !! e) as [q|]; [|done]. specialize (HP _ (wq_works q) HS). unfold wp in HP.
  destruct (loop (wq_works q) (sd_requestManager s)) as [[r rm']|]; [|done].
  match goal with |- context [queues k ?s1 !! e] => destruct (queues k s1 !! e); cbn; [by intros|done] end.
Qed.

Lemma dequeueLoop_len n rm works : SMOK rm ->
  wp (dequeueLoop n works) (fun r _ => len r.1 <= Z.of_nat n) rm.
Proof.
  intros HS. wp_use (dequeueLoop_spec n rm works HS). intros r rm' [_ ->]. cbn.
  pose proof (length_filter (fun w => runnable rm w = true) (take n works)) as H. rewrite length_take in H. unfold len. lia.
Qed.

Lemma pickDecode_flow e s H batch budget :
  Flow s ((Flying <$> batch) ++ H) -> e ∈ sd_executorIDs s -> bg_remainSeqs budget < two32 ->
  wp (pickDecode e batch budget) (fun r s' => steady s s' /\ Flow s' ((Flying <$> r.1) ++ H)) s.
Proof.
  intros HF He Hb. unfold pickDecode, Dequeue. wp_steps.
  set (n := Z.min (bg_remainSeqs budget) (bg_remainTokens budget)).
  set (works_ok := fun (works : list WorkItem) (s1 : scheduler) => len works < two32 /\
    steady s s1 /\ Flow s1 ((Queued <$> works) ++ (Flying <$> batch) ++ H)).
  assert (Hd : wp (if n =? 0 then mret [] else sweep Decoding e (dequeueLoop (Z.to_nat n))) works_ok s).
  { case_match; [wp_steps; by split|]. eapply wp_mono.
    - eapply (sweep_result Decoding e _ (fun l : list WorkItem => len l <= Z.of_nat (Z.to_nat n)));
        [apply HF|intros; by apply dequeueLoop_len|].
      apply (flow_sweep id _ Decoding e s _ HF He (dequeueLoop_sweeps _ _)).
    - intros a s1 (Hla & ? & ? & _). unfold works_ok, id in *. assert (n < two32) by (unfold n; lia).
      split; [unfold two32 in *; lia|by split]. }
  wp_use Hd. intros works s1 (Hlen & Hst & HF1). pose proof (len_nonneg works). rewrite u32_small by lia.
  destruct (len works =? 0) eqn:Hz.
  - wp_steps. split; [done|]. cbn [fst]. destruct works as [|w ws]; [done|].
    rewrite len_cons in Hz. pose proof (len_nonneg ws). lia.
  - wp_use (pickDecodeLoop_flow works s1 H batch budget HF1). intros r s' [Hst' ?]. split; [|done].
    by eapply steady_trans.
Qed.

Lemma Peek_flow k e s H : Flow s H -> e ∈ sd_executorIDs s ->
  wp (Peek k e) (fun _ s' => steady s s' /\ Flow s' H) s.
Proof.
  intros HF He. wp_use (flow_sweep _ _ k e s H HF He (peekLoop_sweeps _)). by intros a s' (? & ? & _).
Qed.

Lemma Pop_flow k e s H : Flow s H -> e ∈ sd_executorIDs s ->
  wp (Pop k e) (fun r s' => steady s s' /\
    match r with
    | Some w => Flow s' (Queued w :: H) /\ kindOf (sd_longPrefillThreshold s) w = Some k
    | None => Flow s' H
    end) s.
Proof.
  intros HF He. wp_use (flow_sweep _ _ k e s H HF He (popLoop_sweeps _)). intros a s' (HF' & Hst & Hk).
  split; [done|]. destruct a as [w|]; [|done]. cbn in *. apply Forall_cons in Hk as [[? _] _]. by split.
Qed.

Lemma LengthOf_flow k e s H : Flow s H -> e ∈ sd_executorIDs s ->
  wp (LengthOf k e) (fun _ s' => s' = s) s.
Proof.
  intros HF He. destruct (proj2 (wd_queues _ (fl_wired _ _ HF) k e) He) as [q Hq]. unfold LengthOf.
  eapply wp_getsO; [by rewrite Hq|done].
Qed.

(** The loop goes on after an item was tried. *)
Lemma picks_tried e c s s1 H batch budget budget' (r : option WorkItem) :
  picks e c -> steady s s1 -> e ∈ sd_executorIDs s ->
  match r with Some w => Flow s1 (Flying w :: (Flying <$> batch) ++ H) | None => Flow s1 ((Flying <$> batch) ++ H) end ->
  wp (match r with None => c batch budget | Some w => c (batch ++ [w]) budget' end)
    (fun r s' => steady s s' /\ Flow s' ((Flying <$> r.1) ++ H)) s1.
Proof.
  intros Hc Hst He HF. destruct r as [w|]; (eapply picks_after; [exact Hc|exact Hst|exact He|]); [|done].
  eapply flow_perm; [|exact HF]. rewrite fmap_app. cbn. solve_Permutation.
Qed.

Lemma pickSmallLoop_flow e n : picks e (pickSmallLoop n e).
Proof.
  induction n as [|n IH]; intros s H batch budget HF He; cbn [pickSmallLoop].
  { wp_steps. by split; [|]. }
  case_match; [|wp_steps; by split]. wp_steps. wp_use (Peek_flow SmallPrefill e s _ HF He).
  intros small s1 [Hst1 HF1]. destruct small as [small|]; [|wp_steps; by split].
  assert (He1 : e ∈ sd_executorIDs s1) by (destruct Hst1 as [-> _]; done).
  case_match; [wp_steps; by split|]. wp_steps. wp_use (Pop_flow SmallPrefill e s1 _ HF1 He1).
  intros r s2 [Hst2 HF2]. pose proof (steady_trans _ _ _ Hst1 Hst2) as Hst. destruct r as [w|].
  - destruct HF2 as [HF2 _]. wp_steps. wp_use (tryAllocate_flow s2 _ w w HF2 (or_introl eq_refl)).
    intros r s3 [Hst3 HF3]. apply (picks_tried e _ s s3 H batch _ _ r IH); try done. by eapply steady_trans.
  - by apply (picks_after e _ batch budget s s2 H IH).
Qed.

Lemma pickLargeLoop_flow e n : picks e (pickLargeLoop n e).
Proof.
  induction n as [|n IH]; intros s H batch budget HF He; cbn [pickLargeLoop].
  { wp_steps. by split; [|]. }
  match goal with |- wp (if ?b then _ else _) _ _ => destruct b eqn:Hg end; [|wp_steps; by split].
  wp_steps. wp_use (Pop_flow LargePrefill e s _ HF He).
  intros r s1 [Hst1 HF1]. destruct r as [w|]; [|wp_steps; by split]. destruct HF1 as [HF1 Hk].
  assert (Hphase : wi_Phase w = WorkPhasePrefill) by (unfold kindOf in Hk; by destruct (wi_Phase w)).
  assert (Hn : 0 < wi_NumNewTokens w < two32 /\ wi_NumNewTokens w = len (wi_TokenIDs w)).
  { pose proof HF1 as [_ _ _ Hl HW]. inversion Hl as [|? ? [req Hreq] _]; subst.
    pose proof (wk_ok _ _ _ HW) as Hok. inversion Hok as [|? ? [_ Hok'] _]; subst.
    destruct (Hok' req Hreq) as (_ & m & c & _ & _ & (k & _ & _ & Hnn) & _). by rewrite Hphase in Hnn. }
  destruct Hn as [Hn Hlen]. set (t := Z.min (WorkBudgetCost w) (bg_remainTokens budget)).
  assert (Hcost : WorkBudgetCost w = wi_NumNewTokens w).
  { unfold WorkBudgetCost. rewrite Hphase. destruct (Z.ltb_spec 0 (wi_NumNewTokens w)); [done|lia]. }
  assert (Ht : 0 < t) by (apply andb_prop in Hg as [[[_ Hg]%andb_prop _]%andb_prop _]; unfold t; rewrite Hcost; lia).
  destruct (split_spec w t Hphase Hn Hlen Ht) as (rest & Hsplit & _). wp_steps.
  eapply wp_getsO; [exact Hsplit|]. wp_steps. cbn [fst].
  assert (Hpart : part_of w (w <| wi_NumNewTokens := Z.min t (wi_NumNewTokens w) |>
    <| wi_TokenIDs := take (Z.to_nat (Z.min t (wi_NumNewTokens w))) (wi_TokenIDs w) |>)).
  { right. split; [done|]. exists (Z.min t (wi_NumNewTokens w)). split; [lia|done]. }
  wp_use (tryAllocate_flow s1 _ w _ HF1 Hpart). intros r s2 [Hst2 HF2].
  apply (picks_tried e _ s s2 H batch _ _ r IH); try done. by eapply steady_trans.
Qed.

Lemma pickBatch_flow s H e : Flow s H -> e ∈ sd_executorIDs s ->
  wp (pickBatch e) (fun batch s' => steady s s' /\ Flow s' ((Flying <$> batch) ++ H)) s.
Proof.
  intros HF He. unfold pickBatch. wp_steps.
  destruct (wd_budget _ (fl_wired _ _ HF)) as (_ & [_ Hb] & _).
  wp_use (pickDecode_flow e s H [] (sd_batchBudget s) HF He Hb).
  intros r1 s1 [Hst1 HF1]. assert (He1 : e ∈ sd_executorIDs s1) by (destruct Hst1 as [-> _]; done).
  wp_steps. unfold pickSmallPrefill. wp_steps. wp_use (LengthOf_flow SmallPrefill e s1 _ HF1 He1).
  intros n1 ? ->. wp_use (pickSmallLoop_flow e (Z.to_nat n1) s1 H r1.1 r1.2 HF1 He1). intros r2 s2 [Hst2 HF2].
  assert (He2 : e ∈ sd_executorIDs s2) by (destruct Hst2 as [-> _]; done).
  wp_steps. unfold pickLargePrefill. wp_steps. wp_use (LengthOf_flow LargePrefill e s2 _ HF2 He2).
  intros n2 ? ->. wp_use (pickLargeLoop_flow e (Z.to_nat n2) s2 H r2.1 r2.2 HF2 He2). intros r3 s3 [Hst3 HF3].
  wp_steps. split; [|done]. eapply steady_trans; [exact Hst1|]. by eapply steady_trans.
Qed.

(** ** Submitting *)

Lemma wired_executors s em' : Wired s ->
  (forall e, is_Some (em_batchChans em' !! e) <-> is_Some (em_batchChans (sd_executorManager s) !! e)) ->
  (forall e, is_Some (em_workers em' !! e) <-> is_Some (em_workers (sd_executorManager s) !! e)) ->
  em_executors em' = em_executors (sd_executorManager s) ->
  Wired (s <| sd_executorManager := em' |>).
Proof.
  intros [H1 H2 H3 H4 H5 H6 H7 H8] Hc Hw He. split; try done; cbn; intros e.
  - rewrite Hc. apply H3.
  - rewrite Hw. apply H4.
  - rewrite He. apply H6.
Qed.

Lemma is_Some_insert {A} (m : gmap string A) i (x : A) e : is_Some (m !! i) ->
  is_Some (<[i := x]> m !! e) <-> is_Some (m !! e).
Proof. intros Hi. rewrite lookup_insert_is_Some. destruct (decide (i = e)) as [->|]; tauto. Qed.

(** What the executor manager hands over: the tokens of [e] and the events
    change, the queues do not. *)
Lemma flow_executors s em' e H H' :
  Flow s H -> Wired (s <| sd_executorManager := em' |>) -> e ∈ sd_executorIDs s ->
  Forall (live (sd_requestManager s)) H' ->
  (forall e', e' <> e -> chanTokens em' e' = chanTokens (sd_executorManager s) e' /\
     workerTokens em' e' = workerTokens (sd_executorManager s) e') ->
  H ++ chanTokens (sd_executorManager s) e ++ workerTokens (sd_executorManager s) e ++
      (Landed <$> em_eventChan (sd_executorManager s)) ≡ₚ
    H' ++ chanTokens em' e ++ workerTokens em' e ++ (Landed <$> em_eventChan em') ->
  Flow (s <| sd_executorManager := em' |>) H'.
Proof.
  intros HF HWd He Hl Hother Hp. apply (flow_move s _ H H' HF); try done.
  apply (tokens_change s _ e); [apply (fl_wired _ _ HF)|done|done| |].
  - intros e' Hne. unfold executorTokens. cbn. destruct (Hother e' Hne) as [-> ->]. done.
  - unfold executorTokens. cbn. change (queueTokens _ e) with (queueTokens s e) at 2. set (X := queueTokens s e).
    rewrite <- !app_assoc. rewrite !(Permutation_app_swap_app _ X). f_equiv. exact Hp.
Qed.

Lemma wp_onExecutors {A} (c : M executorManager A) P s :
  wp c (fun a em => P a (s <| sd_executorManager := em |>)) (sd_executorManager s) -> wp (onExecutors c) P s.
Proof. unfold onExecutors, wp. by destruct (c (sd_executorManager s)) as [[a em]|]. Qed.

Lemma Submit_flow ctx room_first batch s H :
  Flow s ((Flying <$> bt_Items batch) ++ H) ->
  wp (onExecutors (Submit ctx room_first (Some batch))) (fun r s' => steady s s' /\
    match r with
    | None => Flow s' H
    | Some _ => Flow s' ((Flying <$> bt_Items batch) ++ H)
    end) s.
Proof.
  intros HF. apply wp_onExecutors. set (em := sd_executorManager s). pose proof (fl_wired _ _ HF) as HWd.
  assert (Hsame : steady s (s <| sd_executorManager := em |>) /\
    Flow (s <| sd_executorManager := em |>) ((Flying <$> bt_Items batch) ++ H)) by (by destruct s).
  unfold Submit. wp_steps.
  destruct (em_batchChans em !! bt_ExecutorID batch) as [q|] eqn:Hq; [|wp_steps; exact Hsame].
  set (em' := em <| em_batchChans := <[bt_ExecutorID batch := q ++ [batch]]> (em_batchChans em) |>).
  assert (Hput : steady s (s <| sd_executorManager := em' |>) /\ Flow (s <| sd_executorManager := em' |>) H).
  { split; [done|]. apply (flow_executors s em' (bt_ExecutorID batch) _ H HF).
    - apply wired_executors; try done. intros e. apply is_Some_insert. by eexists.
    - apply (wd_chans _ HWd). by eexists.
    - pose proof (fl_held _ _ HF) as Hl. by apply Forall_app in Hl as [_ ?].
    - intros e' Hne. unfold chanTokens. cbn. by rewrite lookup_insert_ne.
    - assert (chanTokens (sd_executorManager s) (bt_ExecutorID batch) = Flying <$> concat (bt_Items <$> q)) as ->
        by (unfold chanTokens; fold em; by rewrite Hq).
      assert (chanTokens em' (bt_ExecutorID batch) = (Flying <$> concat (bt_Items <$> q)) ++ (Flying <$> bt_Items batch)) as ->.
      { unfold chanTokens. change (em_batchChans em') with (<[bt_ExecutorID batch := q ++ [batch]]> (em_batchChans em)).
        rewrite lookup_insert_eq, fmap_app, concat_app, fmap_app. cbn.
        by rewrite app_nil_r. }
      rewrite <- !app_assoc. rewrite (Permutation_app_swap_app (Flying <$> bt_Items batch) H).
      f_equiv. apply Permutation_app_swap_app. }
  destruct ctx as [err|].
  - destruct ((len q <? chanCap) && room_first); wp_steps; [exact Hput|exact Hsame].
  - destruct (len q <? chanCap); wp_steps; [exact Hput|exact Hsame].
Qed.

Lemma takeBack_flow batch : forall s H, Flow s ((Flying <$> batch) ++ H) ->
  wp (takeBack batch) (fun _ s' => steady s s' /\ Flow s' H) s.
Proof.
  induction batch as [|w batch IH]; intros s H HF; unfold takeBack; cbn [forM_].
  { wp_steps. by split. }
  pose proof HF as [HS HWd Hroom Hheld HW]. inversion Hheld as [|? ? Hl Hh]; subst. wp_steps. unfold onBlocks.
  assert (Hrb : wp (onState (onRegistry (RegRollback (wi_ExecutorID w) (wi_WorkId w)))) (fun _ s' =>
    Flow s' (Queued w :: (Flying <$> batch) ++ H) /\ steady s s') s).
  { eapply wp_mono; [apply (flow_onState _ s _ (fun _ => Queued (w <| wi_BlockAllocation := None |>) :: (Flying <$> batch) ++ H) HF)|].
    - wp_use (Rollback_work (sd_longPrefillThreshold s) _ _ w HS HW Hl).
      intros r rm' (HS' & Hr & Hu & Hreq & HW'). ssplit; try done; [intros e; by apply Hr|].
      eapply Forall_impl; [|intros t; unfold live, live_in; rewrite Hreq; exact id].
      by constructor.
    - cbn beta. intros _ s' (HF' & Hst & _). split; [|done]. eapply flow_restamp; [|exact HF'].
      exists (wi_BlockAllocation w), (wi_EnqueuedAt w). by destruct w. }
  wp_use Hrb. intros _ s1 [HF1 Hst1]. wp_steps. wp_use (requeueWork_flow s1 _ w HF1). intros _ s2 [HF2 Hst2].
  wp_use (IH s2 H HF2). intros _ s3 [Hst3 ?]. split; [|done]. eapply steady_trans; [exact Hst1|]. by eapply steady_trans.
Qed.

(** Drawing the batch's id. *)
Lemma newUUID_flow s H : Flow s H -> wp (onState newUUID) (fun _ s' => steady s s' /\ Flow s' H) s.
Proof.
  intros HF. pose proof HF as [HS HWd Hroom Hheld HW].
  eapply wp_mono; [apply (flow_onState _ s H (fun _ => H) HF)|by intros ? ? (? & ? & _)].
  unfold newUUID. wp_steps. set (rm' := _ <| sm_drawn := _ |>).
  assert (HS' : SMOK rm') by (by destruct HS). ssplit; try done.
  apply (work_end _ _ rm' _ [] HW); [|done|set_solver]. apply evolves_same; try done. cbn. lia.
Qed.

Lemma observe_flow batch now s H : Flow s H ->
  wp (observeBatchStatsAndTimeWait batch now) (fun _ s' => steady s s' /\ Flow s' H) s.
Proof.
  intros HF. unfold observeBatchStatsAndTimeWait, sd_metric. wp_steps.
  apply (wp_forM (fun _ s' => exists l, s' = s <| sd_metrics := l |>)); [by eexists| |].
  - intros pre x post s' _ [l ->]. wp_steps. by eexists.
  - intros s' [l ->]. split; [done|by apply flow_metrics].
Qed.

Lemma patchExecute_flow ctx room_first e s H : Flow s H -> e ∈ sd_executorIDs s ->
  wp (patchExecute ctx room_first e) (fun _ s' => steady s s' /\ Flow s' H) s.
Proof.
  intros HF He. unfold patchExecute. wp_steps. wp_use (pickBatch_flow s H e HF He). intros batch s1 [Hst1 HF1].
  destruct batch as [|first rest] eqn:Hb; [wp_steps; by split|]. rewrite <- Hb in *. wp_steps.
  wp_use (trySchedule_spec e s1 (flow_wired _ _ HF1)). intros _ s2 Hsig.
  destruct (flow_signalled _ _ _ HF1 Hsig) as [HF2 Hst2]. wp_steps.
  wp_use (newUUID_flow s2 _ HF2). intros id s3 [Hst3 HF3]. wp_steps.
  assert (Hst : steady s s3) by (eapply steady_trans; [exact Hst1|]; by eapply steady_trans).
  set (b := {| bt_BatchID := id |}). wp_use (Submit_flow ctx room_first b s3 H HF3). intros r s4 [Hst4 HF4].
  assert (Hst' : steady s s4) by (by eapply steady_trans). destruct r as [err|].
  - wp_use (takeBack_flow batch s4 H HF4). intros _ s5 [? ?]. split; [by eapply steady_trans|done].
  - wp_use (observe_flow batch (bt_CreateAt b) s4 H HF4). intros _ s5 [? ?]. split; [by eapply steady_trans|done].
Qed.

Lemma BatchRound_flow ctx room_first signal s H : Flow s H ->
  wp (BatchRound ctx room_first signal) (fun _ s' => steady s s' /\ Flow s' H) s.
Proof.
  intros HF. unfold BatchRound, patchExecutors. wp_steps.
  assert (H0 : wp (if signal then modS (fun s => s <| sd_patchExecuteChan := false |>) else mret tt)
    (fun _ s1 => Flow s1 H /\ steady s s1) s).
  { destruct signal; wp_steps; [|by split]. apply (flow_signalled s _ H HF). exists false, (sd_metrics s). by destruct s. }
  wp_use H0. intros _ s1 [HF1 Hst1]. wp_steps.
  apply (wp_forM (fun _ s' => steady s s' /\ Flow s' H)); [by split| |done].
  intros pre e post s2 Hids [Hst2 HF2].
  assert (He : e ∈ sd_executorIDs s2).
  { destruct Hst1 as [E1 _], Hst2 as [-> _]. rewrite <- E1, Hids. set_solver. }
  wp_use (patchExecute_flow ctx room_first e s2 H HF2 He). intros _ s3 [? ?]. split; [by eapply steady_trans|done].
Qed.

(** ** Queueing *)

Lemma onQueue_Enqueue k e name w q s : queues k s !! e = Some q ->
  wp (onQueue k e (QueueEnqueue name w)) (fun err s' => match err with
    | Some _ => s' = s
    | None => s' = setQueues k (<[e := q <| wq_works := wq_works q ++ [w] |>]> (queues k s)) s
    end) s.
Proof.
  intros Hq. unfold onQueue, QueueEnqueue, wp, mbind, M_bind, getS, modS, mret, M_ret. rewrite Hq. cbn.
  destruct (wq_size q <=? u32 (len (wq_works q))); cbn; [|done]. rewrite insert_id by done. by destruct k, s.
Qed.

Lemma Enqueue_flow s H w : Flow s (Queued w :: H) ->
  wp (Enqueue w) (fun r s' => steady s s' /\ Flow s' H /\
    (r = None -> sd_requestManager s' = sd_requestManager s)) s.
Proof.
  intros HF. destruct (held_kind _ _ _ HF) as (k & Hk & _). unfold Enqueue. wp_steps.
  set (w' := w <| wi_EnqueuedAt := _ |>).
  change (kindOf (sd_longPrefillThreshold s) w') with (kindOf (sd_longPrefillThreshold s) w). rewrite Hk. wp_steps.
  change (wi_ExecutorID w') with (wi_ExecutorID w). change (wi_RequestId w') with (wi_RequestId w).
  assert (Hrej : forall err, wp (sd_metric IncQueueRejected ;; onState (Fail_ (wi_RequestId w) err) ;; mret (Some err))
    (fun r s' => steady s s' /\ Flow s' H /\ (r = None -> sd_requestManager s' = sd_requestManager s)) s).
  { intros err. unfold sd_metric. wp_steps. set (s1 := s <| sd_metrics := _ |>).
    assert (HF1 : Flow s1 (Queued w :: H)).
    { by apply flow_metrics. }
    wp_use (flow_fail s1 H (Queued w) err HF1). intros _ s2 [HF2 Hst2]. wp_steps. by ssplit. }
  destruct (queues k s !! wi_ExecutorID w) as [q|] eqn:Hq; [|wp_steps; apply Hrej].
  wp_steps. wp_use (onQueue_Enqueue k _ (queueName k) w' q s Hq). intros err s1 Hs1.
  destruct err as [err|]; wp_steps; [rewrite Hs1; apply Hrej|].
  assert (HF1 : Flow s1 H).
  { rewrite Hs1. apply (flow_put s H w w' k q HF); try done. apply restamp_time. }
  wp_use (trySchedule_spec (wi_ExecutorID w) s1 (flow_wired _ _ HF1)). intros _ s2 Hsig. wp_steps.
  destruct (flow_signalled _ _ _ HF1 Hsig) as [HF2 Hst2]. split; [|split; [done|]].
  - eapply steady_trans; [|exact Hst2]. rewrite Hs1. by destruct k.
  - intros _. destruct Hsig as (b & l & ->). rewrite Hs1. by destruct k.
Qed.

(** ** Events *)

Lemma settle_flow s ev H req m c : Flow s (Landed ev :: H) ->
  sm_requests (sd_requestManager s) !! ev_RequestId ev = Some req ->
  r_managers (sm_registry (sd_requestManager s)) !! req_ExecutorID req = Some m ->
  in_flight m (ev_RequestId ev) c (ev_WorkId ev) ->
  wp (finalize ev req) (fun res s' => exists rm', s' = s <| sd_requestManager := rm' |> /\
    SMOK rm' /\ stays_roomy (sd_requestManager s) rm' /\
    evolves [ev_RequestId ev] [] (sd_requestManager s) rm' /\
    sm_requests rm' = sm_requests (sd_requestManager s) /\
    sm_uuids rm' = sm_uuids (sd_requestManager s) /\
    exists m', r_managers (sm_registry rm') !! req_ExecutorID req = Some m' /\ backed m' (ev_RequestId ev) c) s.
Proof.
  intros HF Hreq Hm Hf. set (rm := sd_requestManager s).
  destruct (settle_work rm _ m _ c _ (fl_requests _ _ HF) Hm Hf) as [Hc Hr]. cbv zeta in Hc, Hr.
  unfold finalize, onBlocks.
  destruct (negb _); [|destruct (_ || _)]; wp_steps; apply wp_onState_with; [wp_use Hr|wp_use Hr|wp_use Hc];
    intros r rm' (_ & HS' & Hroom & He & Hrq & _ & _ & (r' & Erm) & Hm'); wp_steps;
    exists rm'; (split; [done|]); ssplit; try done; by rewrite Erm.
Qed.

Lemma handleEvent_flow s H ev : Flow s (Landed ev :: H) ->
  wp (handleEvent ev) (fun _ s' => Flow s' H) s.
Proof.
  intros HF. pose proof HF as [HS HWd Hroom Hheld HW]. inversion Hheld as [|? ? Hl Hh]; subst.
  pose proof Hl as [req Hreq]. cbn in Hreq. pose proof (wk_ok _ _ _ HW) as Hok. apply Forall_cons in Hok as [[_ Hok] _].
  destruct (Hok req Hreq) as (Hterm & m & c & Hm & Hc & Hev & Hf). unfold handleEvent. wp_steps. unfold Get. rewrite Hreq.
  wp_steps. wp_use (settle_flow s ev H req m c HF Hreq Hm Hf).
  intros res s1 (rm1 & -> & HS1 & Hr1 & He1 & Hreq1 & Hu1 & m1 & Hm1 & Hback). wp_steps.
  set (ev1 := match res with Some e => failed ev e | None => ev end).
  assert (Hev1 : event_ok req ev1 /\ ev_RequestId ev1 = ev_RequestId ev) by (unfold ev1; by destruct res).
  destruct Hev1 as [Hev1 Hid1]. apply wp_onState_with.
  wp_use (OnEvent_work (sd_longPrefillThreshold s) (sd_requestManager s) rm1 (H ++ tokens s) ev ev1 req m1 c HW Hl
    (wd_uuids _ HWd) He1 HS1 Hid1 ltac:(by rewrite Hreq1) Hev1 Hm1 Hc Hback).
  intros [items ev2] rm2 (HS2 & Hr2 & Hu2 & Hg2 & Hl2 & req2 & Hreq2 & Hex2 & Hitems). cbn [fst snd] in *.
  set (s2 := setf sd_requestManager _ _).
  assert (Hs2 : s2 = s <| sd_requestManager := rm2 |>) by done.
  assert (Hw2 : Wired s2) by (rewrite Hs2; apply wired_requests; [done|congruence]).
  assert (Hh2 : Forall (live rm2) H).
  { eapply Forall_impl; [exact Hh|]. intros t Ht. apply Hl2. unfold live, live_in in *. by rewrite Hreq1. }
  assert (Hroom2 : forall e, roomy rm2 e) by (intros e; apply Hr2, Hr1, Hroom).
  assert (Hid : req_RequestId req2 = ev_RequestId ev) by apply (so_exec _ HS2 _ _ Hreq2).
  assert (Hid0 : req_RequestId req = ev_RequestId ev) by apply (so_exec _ HS _ _ Hreq).
  destruct items as [|w [|? ?]]; [| |done]; cbn [enqueueAll]; wp_steps.
  - destruct Hitems as [HW2 Hterm2]. assert (HF2 : Flow s2 H) by (by split).
    destruct (ev_Done ev2); wp_steps; [|by apply flow_metrics]. unfold onBlocks. apply wp_onState_with.
    rewrite Hid0, <- Hid, <- Hex2. rewrite <- Hid in Hreq2.
    wp_use (FreeRequest_work (sd_longPrefillThreshold s) rm2 (H ++ tokens s) req2 HS2 HW2 Hreq2 Hterm2).
    intros r rm3 (-> & HS3 & Hr3 & Hu3 & Hreq3 & HW3). wp_steps. cbn [errorOf]. wp_steps.
    set (s3 := s2 <| sd_requestManager := rm3 |>).
    assert (HF3 : Flow s3 H).
    { split; try done; [by apply wired_requests|intros e; by apply Hr3|].
      eapply Forall_impl; [exact Hh2|]. intros t [r0 Hr0]. exists r0.
      change (sd_requestManager s3) with rm3. by rewrite Hreq3. }
    by apply flow_metrics.
  - destruct Hitems as (HW2 & Hwid & Hdone). rewrite Hdone.
    assert (HF2 : Flow s2 (Queued w :: H)).
    { split; try done. constructor; [|done]. exists req2. cbn. by rewrite Hwid. }
    wp_use (Enqueue_flow s2 H w HF2). intros r s3 (_ & HF3 & _). destruct r as [e|]; wp_steps; [done|].
    by apply flow_metrics.
Qed.

Lemma consumeEvent_flow s H : Flow s H -> wp consumeEvent (fun _ s' => Flow s' H) s.
Proof.
  intros HF. unfold consumeEvent. wp_steps. set (em := sd_executorManager s).
  destruct (em_eventChan em) as [|ev events] eqn:Hev; [by wp_steps|]. wp_steps. apply wp_onExecutors. wp_steps.
  set (s1 := setf sd_executorManager _ s). pose proof HF as [HS HWd Hroom Hheld HW].
  assert (Hw1 : Wired s1) by (by apply wired_executors).
  assert (Hp : H ++ tokens s ≡ₚ (Landed ev :: H) ++ tokens s1).
  { unfold tokens. change (concat (executorTokens s1 <$> sd_executorIDs s1)) with (concat (executorTokens s <$> sd_executorIDs s)).
    change (em_eventChan (sd_executorManager s1)) with events. fold em. rewrite Hev. cbn. solve_Permutation. }
  destruct (decide (live (sd_requestManager s) (Landed ev))) as [Hl|Hl].
  - wp_use (handleEvent_flow s1 H ev); [|intros ? ? ?; by wp_steps].
    apply (flow_move s s1 H _ HF); try done. by constructor.
  - assert (Hn : sm_requests (sd_requestManager s1) !! ev_RequestId ev = None).
    { apply eq_None_not_Some. intros [r Hr]. apply Hl. by exists r. }
    unfold handleEvent. wp_steps. unfold Get. rewrite Hn. wp_steps. split; try done.
    apply (work_drop _ (sd_requestManager s) _ (Landed ev)); try done. by apply (work_perm _ _ _ _ Hp).
Qed.

(** ** The consumers *)

(** Work moves between the channel, the consumer and the event channel of [e]. *)
Lemma flow_worker s em' e H : Flow s H -> e ∈ sd_executorIDs s ->
  (forall e', is_Some (em_batchChans em' !! e') <-> is_Some (em_batchChans (sd_executorManager s) !! e')) ->
  (forall e', is_Some (em_workers em' !! e') <-> is_Some (em_workers (sd_executorManager s) !! e')) ->
  em_executors em' = em_executors (sd_executorManager s) ->
  (forall e', e' <> e -> em_batchChans em' !! e' = em_batchChans (sd_executorManager s) !! e' /\
     em_workers em' !! e' = em_workers (sd_executorManager s) !! e') ->
  chanTokens (sd_executorManager s) e ++ workerTokens (sd_executorManager s) e ++
      (Landed <$> em_eventChan (sd_executorManager s)) ≡ₚ
    chanTokens em' e ++ workerTokens em' e ++ (Landed <$> em_eventChan em') ->
  Flow (s <| sd_executorManager := em' |>) H.
Proof.
  intros HF He Hc Hw Hx Hother Hp. apply (flow_executors s em' e H H HF); try done.
  - apply wired_executors; [apply HF|done..].
  - apply HF.
  - intros e' Hne. destruct (Hother e' Hne) as [E1 E2]. unfold chanTokens, workerTokens. by rewrite E1, E2.
  - by rewrite Hp.
Qed.

Lemma take_flow s H e batch rest : Flow s H ->
  em_workers (sd_executorManager s) !! e = Some Idle ->
  em_batchChans (sd_executorManager s) !! e = Some (batch :: rest) ->
  wp (consumeBatch e batch rest) (fun _ em' => Flow (s <| sd_executorManager := em' |>) H) (sd_executorManager s).
Proof.
  intros HF Hidle Hq. unfold consumeBatch, addInflight, em_metric, setWorker. wp_steps.
  apply (flow_worker s _ e H HF).
  - apply (wd_chans _ (fl_wired _ _ HF)). by eexists.
  - intros e'. apply is_Some_insert. by eexists.
  - intros e'. apply is_Some_insert. by eexists.
  - done.
  - intros e' Hne. cbn. by rewrite !lookup_insert_ne.
  - unfold chanTokens, workerTokens. cbn. rewrite Hidle, Hq, !lookup_insert_eq. cbn. rewrite fmap_app. solve_Permutation.
Qed.

Lemma send_flow s H e ev events : Flow s H ->
  em_workers (sd_executorManager s) !! e = Some (Sending (ev :: events)) ->
  Flow (s <| sd_executorManager := sd_executorManager s
    <| em_eventChan := em_eventChan (sd_executorManager s) ++ [ev] |>
    <| em_workers := <[e := Sending events]> (em_workers (sd_executorManager s)) |> |>) H.
Proof.
  intros HF Hs. apply (flow_worker s _ e H HF); try done.
  - apply (wd_workers _ (fl_wired _ _ HF)). by eexists.
  - intros e'. apply is_Some_insert. by eexists.
  - intros e' Hne. cbn. by rewrite lookup_insert_ne.
  - unfold chanTokens, workerTokens. cbn. rewrite Hs, lookup_insert_eq. rewrite fmap_app. cbn. solve_Permutation.
Qed.

Lemma done_flow s H e : Flow s H ->
  em_workers (sd_executorManager s) !! e = Some (Sending []) ->
  Flow (s <| sd_executorManager := sd_executorManager s
    <| em_workers := <[e := Idle]> (em_workers (sd_executorManager s)) |> |>) H.
Proof.
  intros HF Hs. apply (flow_worker s _ e H HF); try done.
  - apply (wd_workers _ (fl_wired _ _ HF)). by eexists.
  - intros e'. apply is_Some_insert. by eexists.
  - intros e' Hne. cbn. by rewrite lookup_insert_ne.
  - unfold chanTokens, workerTokens. cbn. by rewrite Hs, lookup_insert_eq.
Qed.

(** *** A call that returns *)

(** What a runtime owes for an item: a result for it, under its ids; and for a
    prefill item without an error, that the tokens of the item were computed and
    that the request is not at its end. *)
Definition answered (w : WorkItem) (r : ExecuteResult) : Prop :=
  er_WorkId r = wi_WorkId w /\ er_RequestId r = wi_RequestId w /\
  (wi_Phase w = WorkPhasePrefill -> er_ErrorMessage r = "" ->
     er_Done r = false /\ er_ComputedTokens r = wi_NumNewTokens w).

(** A call that fails, or that answers every item once, in any order. *)
Definition honest (items : list WorkItem) (resp : error + list ExecuteResult) : Prop :=
  match resp with
  | inl _ => True
  | inr results => exists items', items' ≡ₚ items /\ Forall2 answered items' results
  end.

(** The event of a work item. *)
Definition reports (w : WorkItem) (ev : Event) : Prop :=
  ev_WorkId ev = wi_WorkId w /\ ev_RequestId ev = wi_RequestId w /\
  (ev_Type ev = EventTypeRequestFailed \/
   (ev_Type ev = nextPhase w None /\
    (wi_Phase w = WorkPhasePrefill -> ev_Done ev = false /\ us_InputTokens (ev_Usage ev) = wi_NumNewTokens w))).

Lemma NoDup_fmap_eq {A B} (f : A -> B) l x y : NoDup (f <$> l) -> x ∈ l -> y ∈ l -> f x = f y -> x = y.
Proof.
  intros Hnd [i Hi]%list_elem_of_lookup_1 [j Hj]%list_elem_of_lookup_1 E.
  assert (i = j) as ->; [|congruence]. apply (NoDup_lookup (f <$> l) i j (f x) Hnd); rewrite list_lookup_fmap.
  - by rewrite Hi.
  - by rewrite Hj, E.
Qed.

Lemma worksOf_self items w : NoDup (wi_WorkId <$> items) -> w ∈ items -> worksOf items !! wi_WorkId w = Some w.
Proof.
  intros Hnd Hw. assert (Hs : is_Some (worksOf items !! wi_WorkId w)).
  { apply (worksOf_domain items ∅). left. by apply list_elem_of_fmap_2. }
  destruct Hs as [w' Hw']. destruct (worksOf_lookup items ∅ _ _ Hw') as [[Hin Hid]|Hl].
  - rewrite Hw'. f_equal. by apply (NoDup_fmap_eq wi_WorkId items).
  - by rewrite lookup_empty in Hl.
Qed.

Lemma answered_event x bid w r : answered w r -> reports w (resultEvent x bid w r).
Proof.
  intros (Hw & Hr & Hp). split; [done|]. split; [done|]. cbn. unfold resultError.
  destruct (String.eqb_spec (er_ErrorMessage r) "") as [E|E]; [right; split; [done|]|by left].
  intros Hpf. by apply Hp.
Qed.

(** The events of an honest call report the items of the batch, each once. *)
Lemma outcome_reports m x resp batch now events isErr :
  NoDup (wi_WorkId <$> bt_Items batch) -> honest (bt_Items batch) resp ->
  outcome m x resp batch now = Some (events, isErr) ->
  exists items, items ≡ₚ bt_Items batch /\ Forall2 reports items events.
Proof.
  intros Hnd Hh. unfold outcome, Execute. destruct (BatchToExecute _ batch); [|done]. cbn.
  destruct resp as [err|results].
  - intros [= <- _]. exists (bt_Items batch). split; [done|]. unfold batchFailedEvents.
    apply Forall2_fmap_r, Forall_Forall2_diag, Forall_true. intros w. split; [done|]. split; [done|]. by left.
  - intros [= <- _]. destruct Hh as (items & Hp & Hf). exists items. split; [done|].
    assert (Hin : forall w, w ∈ items -> worksOf (bt_Items batch) !! wi_WorkId w = Some w).
    { intros w Hw. apply worksOf_self; [done|]. by rewrite <- Hp. }
    clear Hp. unfold resultEvents. induction Hf as [|w r items results Ha Hf IH]; [constructor|]. cbn [omap list_omap].
    pose proof Ha as (E & _). rewrite E, (Hin w ltac:(by left)). cbn. constructor.
    + by apply answered_event.
    + apply IH. intros w' Hw'. apply Hin. by right.
Qed.

(** *** Several tokens at once *)

Lemma filter_rids rm (T : list token) : tok_rid <$> filter (live rm) T = filter (live_in rm) (tok_rid <$> T).
Proof.
  induction T as [|t T IH]; [done|]. rewrite filter_cons, fmap_cons, filter_cons.
  destruct (decide (live rm t)) as [Hl|Hl].
  - rewrite decide_True by exact Hl. by rewrite fmap_cons, IH.
  - rewrite decide_False by exact Hl. done.
Qed.

(** Tokens that change with the same ids, each staying in order. *)
Lemma work_pointwise threshold rm L L' T :
  Forall2 (fun t t' => tok_rid t' = tok_rid t /\ tok_wid t' = tok_wid t /\
    (token_ok threshold rm t -> token_ok threshold rm t')) L L' ->
  Work threshold rm (L ++ T) -> Work threshold rm (L' ++ T).
Proof.
  intros HL [H1 H2 H3 H4 H5].
  assert (Er : tok_rid <$> L' = tok_rid <$> L) by (clear -HL; induction HL as [|???? (E & _)]; cbn; congruence).
  assert (Ew : tok_wid <$> L' = tok_wid <$> L) by (clear -HL; induction HL as [|???? (_ & E & _)]; cbn; congruence).
  apply Forall_app in H2 as [H2 H2']. apply Forall_app in H4 as [H4 H4']. split.
  - by rewrite fmap_app, Ew, <- fmap_app.
  - apply Forall_app. split; [|done]. apply (Forall_fmap tok_wid (drawn rm)). rewrite Ew. by apply Forall_fmap.
  - rewrite filter_rids, fmap_app, Er, <- fmap_app, <- filter_rids. done.
  - apply Forall_app. split; [|done]. clear -HL H4. induction HL as [|t t' L L' (_ & _ & Hok) HL IH]; [constructor|].
    inversion H4; subst. constructor; auto.
  - intros id req Hr Ht. rewrite fmap_app, Er, <- fmap_app. by eapply H5.
Qed.

(** The event of a flying item is in order. *)
Lemma reported_ok threshold rm w ev : reports w ev ->
  token_ok threshold rm (Flying w) -> token_ok threshold rm (Landed ev).
Proof.
  intros (Ew & Er & Hty) [_ Hok]. split; [done|]. intros req. cbn. rewrite Er. intros Hreq.
  destruct (Hok req Hreq) as (Hterm & m & c & Hm & Hc & (k & Hwf) & Hwc & Hcont & Hf).
  split; [done|]. exists m, c. split; [done|]. split; [done|]. cbn. rewrite Ew. split; [|done].
  unfold event_ok. destruct Hty as [->|[Hty Hp]]; [done|]. rewrite Hty. unfold nextPhase.
  destruct (wi_Phase w) eqn:Hph; [|done..]. destruct (Hp eq_refl) as [Hdone Htok].
  destruct (Hcont Hph) as (Hpf & Ho & Htot & H0 & Hn & Hle & H32). rewrite Ho, Htot, u32_small by lia.
  destruct (Z.leb_spec (req_PromptTokens req) (req_ComputedTokens req + wi_NumNewTokens w)); [done|].
  rewrite Htok. ssplit; try done; lia.
Qed.

Lemma work_reported threshold rm items events T : Forall2 reports items events ->
  Work threshold rm ((Flying <$> items) ++ T) -> Work threshold rm ((Landed <$> events) ++ T).
Proof.
  intros Hr. apply work_pointwise. apply Forall2_fmap_2. eapply Forall2_impl; [exact Hr|].
  intros w ev Hrep. pose proof Hrep as (Ew & Er & _). split; [done|]. split; [done|]. by apply reported_ok.
Qed.

(** *** A call that returns *)

Definition workToks (w : worker) : list token :=
  match w with Running b => Flying <$> bt_Items b | Sending evs => Landed <$> evs | Idle => [] end.

Lemma tokens_worker s em' e w w' : NoDup (sd_executorIDs s) -> e ∈ sd_executorIDs s ->
  em_workers (sd_executorManager s) !! e = Some w ->
  em_workers em' = <[e := w']> (em_workers (sd_executorManager s)) ->
  em_batchChans em' = em_batchChans (sd_executorManager s) ->
  em_eventChan em' = em_eventChan (sd_executorManager s) ->
  workToks w' ++ tokens s ≡ₚ workToks w ++ tokens (s <| sd_executorManager := em' |>).
Proof.
  intros Hnd He Hw Hw' Hc Hev. apply (tokens_change s _ e); try done.
  - intros e' Hne. unfold executorTokens, chanTokens, workerTokens. cbn. rewrite Hc, Hw', lookup_insert_ne by done. done.
  - unfold executorTokens, chanTokens, workerTokens. cbn. rewrite Hc, Hw', Hev, Hw, lookup_insert_eq.
    change (queueTokens (s <| sd_executorManager := em' |>) e) with (queueTokens s e).
    assert (Hwt : forall x, match x with Running b => Flying <$> bt_Items b | Sending evs => Landed <$> evs | _ => [] end = workToks x)
      by (by intros []).
    rewrite !Hwt. solve_Permutation.
Qed.

Lemma outcome_flow s H e batch resp now : Flow s H ->
  em_workers (sd_executorManager s) !! e = Some (Running batch) -> honest (bt_Items batch) resp ->
  wp (consumeOutcome e batch resp now) (fun _ em' => Flow (s <| sd_executorManager := em' |>) H) (sd_executorManager s).
Proof.
  intros HF Hrun Hh. pose proof HF as [HS HWd Hroom Hheld HW]. set (em := sd_executorManager s) in *.
  assert (He : e ∈ sd_executorIDs s) by (apply (wd_workers _ HWd); by eexists).
  destruct (proj2 (wd_executors _ HWd e) He) as [m Hm].
  set (em0 := em <| em_workers := <[e := Idle]> (em_workers em) |>). set (R := tokens (s <| sd_executorManager := em0 |>)).
  assert (HR : tokens s ≡ₚ (Flying <$> bt_Items batch) ++ R).
  { apply (tokens_worker s em0 e (Running batch) Idle (wd_ids _ HWd) He Hrun); done. }
  assert (HW1 : Work (sd_longPrefillThreshold s) (sd_requestManager s) ((Flying <$> bt_Items batch) ++ (H ++ R))).
  { eapply work_perm; [|exact HW]. rewrite HR. apply Permutation_app_swap_app. }
  assert (Hex : Forall executable (bt_Items batch)).
  { pose proof (wk_ok _ _ _ HW1) as Hok. apply Forall_app in Hok as [Hok _]. rewrite Forall_fmap in Hok.
    eapply Forall_impl; [exact Hok|]. intros w [Hx _]. by apply Hx. }
  assert (Hnd : NoDup (wi_WorkId <$> bt_Items batch)).
  { pose proof (wk_wids _ _ _ HW1) as Hnd. rewrite fmap_app in Hnd. apply NoDup_app in Hnd as [Hnd _].
    rewrite <- list_fmap_compose in Hnd. exact Hnd. }
  destruct (outcome_is_Some m e resp batch now Hex) as [[events isErr] Ho].
  destruct (outcome_reports _ _ _ _ _ _ _ Hnd Hh Ho) as (items & Hp & Hrep).
  unfold consumeOutcome, addInflight, setWorker, em_metric. wp_steps.
  eapply wp_getsO; [unfold runOutcome; fold em in Hm |- *; rewrite Hm; exact Ho|]. wp_steps.
  assert (Hend : forall em', em_batchChans em' = em_batchChans em -> em_eventChan em' = em_eventChan em ->
    em_executors em' = em_executors em -> em_workers em' = <[e := Sending events]> (em_workers em) ->
    Flow (s <| sd_executorManager := em' |>) H).
  { intros em' Hc Hev Hx Hw'. split; try done.
    - apply wired_executors; [done|..]; intros; fold em; rewrite ?Hc, ?Hw'; try done. apply is_Some_insert. by eexists.
    - assert (HR' : tokens (s <| sd_executorManager := em' |>) ≡ₚ (Landed <$> events) ++ R).
      { apply (Permutation_app_inv_l (Flying <$> bt_Items batch)).
        rewrite <- (tokens_worker s em' e (Running batch) (Sending events) (wd_ids _ HWd) He Hrun Hw' Hc Hev).
        cbn. rewrite HR. apply Permutation_app_swap_app. }
      eapply (work_perm _ _ ((Landed <$> events) ++ (H ++ R))); [rewrite HR'; apply Permutation_app_swap_app|].
      apply (work_reported _ _ items); [done|]. eapply work_perm; [|exact HW1]. by rewrite Hp. }
  destruct isErr; wp_steps; by apply Hend.
Qed.
