(* ===== verification/EngineLoad.v ===== *)
(** * EngineLoad: how much work is left

    The load of the engine bounds what its goroutines can still do without a new
    request: what the requests can still ask for, the items in the queues, the
    batches and the events on their way, each with a weight that falls when the
    work moves on.  An operation is described by the credit it needs and the
    credit it leaves ([costs]); the operations of the request manager, the queues,
    the scheduler and the executor manager follow. *)

From S2P Require Import Prelude Errors Model Metrics FreeQueue BlockManager BlockProperties BlockRegistry StateMachine RequestFrame Executor ExecutorProperties Queues QueueProperties Scheduler SchedulerPick SchedulerProperties Engine EngineRequests EngineSteps.
(** ** Sums over a map *)

Definition msum {A} (f : A -> Z) (m : gmap string A) : Z := zsum (fun kv => f kv.2) (map_to_list m).

Lemma zsum_perm {A} (f : A -> Z) l l' : l ≡ₚ l' -> zsum f l = zsum f l'.
Proof. induction 1; cbn; lia. Qed.

Section msum.
Context {A : Type} (f : A -> Z).
Implicit Types m : gmap string A.

Lemma msum_insert m i x : m !! i = None -> msum f (<[i := x]> m) = f x + msum f m.
Proof. intros Hi. unfold msum. by rewrite (zsum_perm _ _ _ (map_to_list_insert m i x Hi)). Qed.

Lemma msum_delete m i x : m !! i = Some x -> msum f m = f x + msum f (delete i m).
Proof.
  intros Hi. rewrite <- (msum_insert (delete i m) i x) by apply lookup_delete_eq. by rewrite insert_delete_id.
Qed.

Lemma msum_update m i x y : m !! i = Some x -> msum f (<[i := y]> m) = msum f m - f x + f y.
Proof.
  intros Hi. rewrite <- (insert_delete_eq m i y), msum_insert by apply lookup_delete_eq.
  rewrite (msum_delete m i x Hi). lia.
Qed.

Lemma msum_nonneg m : (forall x, 0 <= f x) -> 0 <= msum f m.
Proof. intros Hf. apply zsum_nonneg, Forall_forall. auto. Qed.

Lemma msum_delete_le m i : (forall x, 0 <= f x) -> msum f (delete i m) <= msum f m.
Proof.
  intros Hf. destruct (m !! i) as [x|] eqn:Hi.
  - rewrite (msum_delete m i x Hi). specialize (Hf x). lia.
  - by rewrite delete_id.
Qed.
End msum.

(** ** Credit

    [costs I μ c k f]: [c] keeps [I], and its result [a] and its state have at
    most the potential [μ] of before and the credit [k], of which [f a] is handed
    on. *)

Section costs.
Context {S : Type} (I : S -> Prop) (μ : S -> Z).

Definition pays {A} (c : M S A) (k : Z) (f : A -> Z) (s : S) : Prop :=
  forall a s', c s = Some (a, s') -> I s -> I s' /\ μ s' + f a <= μ s + k.
Definition costs {A} (c : M S A) (k : Z) (f : A -> Z) : Prop := forall s, pays c k f s.

(** It changes nothing that counts. *)
Definition free {A} (c : M S A) : Prop := costs c 0 (fun _ => 0).

Lemma costs_ret {A} (a : A) k f : f a <= k -> costs (mret a) k f.
Proof. intros Hk s x s' [= <- <-] HI. split; [done|lia]. Qed.

Lemma pays_bind {A B} (c : M S A) (g : A -> M S B) k f h s :
  pays c k f s -> (forall a, costs (g a) (f a) h) -> pays (c ≫= g) k h s.
Proof.
  intros Hc Hg b s2. unfold mbind, M_bind. destruct (c s) as [[a s1]|] eqn:E; [|done]. intros E2 HI.
  destruct (Hc _ _ E HI) as [HI1 ?], (Hg a _ _ _ E2 HI1). split; [done|lia].
Qed.

(** The same with what is known of the state in between. *)
Lemma pays_then {A B} (c : M S A) (g : A -> M S B) k f h (P : A -> S -> Prop) s :
  pays c k f s -> (forall a s', c s = Some (a, s') -> P a s') ->
  (forall a s', P a s' -> pays (g a) (f a) h s') -> pays (c ≫= g) k h s.
Proof.
  intros Hc HP Hg b s2. unfold mbind, M_bind. destruct (c s) as [[a s1]|] eqn:E; [|done]. intros E2 HI.
  destruct (Hc _ _ E HI) as [HI1 ?], (Hg a s1 (HP _ _ eq_refl) _ _ E2 HI1). split; [done|lia].
Qed.

Lemma costs_bind {A B} (c : M S A) (g : A -> M S B) k f h :
  costs c k f -> (forall a, costs (g a) (f a) h) -> costs (c ≫= g) k h.
Proof. intros Hc Hg s. by eapply pays_bind. Qed.

Lemma costs_frame {A} (c : M S A) k f d k' f' :
  costs c k f -> k + d <= k' -> (forall a, f' a <= f a + d) -> costs c k' f'.
Proof. intros Hc Hk Hf s a s' E HI. destruct (Hc s a s' E HI). specialize (Hf a). split; [done|lia]. Qed.

Lemma costs_more {A} (c : M S A) k k' f : costs c k f -> k <= k' -> costs c k' f.
Proof. intros Hc Hk. by apply (costs_frame c k f 0); [|lia|intros; lia]. Qed.

Lemma costs_then {A B} (c : M S A) (g : A -> M S B) k h :
  free c -> (forall a, costs (g a) k h) -> costs (c ≫= g) k h.
Proof.
  intros Hc Hg. eapply (costs_bind _ _ k (fun _ => k)); [|exact Hg].
  apply (costs_frame _ 0 (fun _ => 0) k); [exact Hc|lia|intros; lia].
Qed.

Lemma pays_get {B} (g : S -> M S B) k h s : pays (g s) k h s -> pays (getS ≫= g) k h s.
Proof. done. Qed.

Lemma costs_get {B} (g : S -> M S B) k h : (forall s, costs (g s) k h) -> costs (getS ≫= g) k h.
Proof. intros Hg s. apply pays_get, Hg. Qed.

Lemma free_mod (f : S -> S) : (forall s, I s -> I (f s) /\ μ (f s) <= μ s) -> free (modS f).
Proof. intros Hf s a s' [= _ <-] HI. destruct (Hf s HI). split; [done|lia]. Qed.

Lemma free_modO (f : S -> option S) : (forall s s', f s = Some s' -> I s -> I s' /\ μ s' <= μ s) -> free (modO f).
Proof. intros Hf s a s'. unfold modO. destruct (f s) eqn:E; [|done]. intros [= _ <-] HI. destruct (Hf _ _ E HI). split; [done|lia]. Qed.

Lemma free_getsO {A} (f : S -> option A) : free (getsO f).
Proof. intros s a s'. unfold getsO. destruct (f s); [|done]. intros [= _ <-] HI. split; [done|lia]. Qed.

Lemma free_forM {A} (l : list A) (c : A -> M S unit) : (forall x, free (c x)) -> free (forM_ l c).
Proof.
  intros Hc. induction l as [|x l IH]; cbn; [by apply costs_ret|]. by apply costs_then.
Qed.
End costs.

Create HintDb cost.
#[export] Hint Resolve free_getsO free_forM : cost.
#[export] Hint Extern 1 (free _ _ (mret _)) => (by apply costs_ret) : cost.

Ltac cost := repeat first
  [ progress cbv beta iota zeta
  | solve [eauto 3 with cost nocore]
  | match goal with
    | |- costs _ _ (mret _) _ _ => apply costs_ret; solve [cbn; lia|unfold len; cbn; lia]
    | |- costs _ _ (getS ≫= _) _ _ => apply costs_get; intros ?
    | |- costs _ _ (_ ≫= _) _ _ => apply costs_then; [solve [eauto 3 with cost nocore]|intros ?]
    | |- free _ _ (_ ≫= _) => unfold free at 1
    | |- free _ _ (match ?x with _ => _ end) => destruct x
    | |- costs _ _ (match ?x with _ => _ end) _ _ => destruct x
    | |- costs ?I ?m ?c ?k ?h => solve [apply (costs_frame I m c 0 (fun _ => 0) k k h);
        [change (free I m c); eauto 3 with cost nocore|lia|intros; cbn; lia]]
    end ].

(** ** Requests *)

(** What a request can still ask for: the rest of its prompt, the first token
    and a token up to its limit, each one event. *)
Definition debt (req : Request) : Z :=
  if terminal (req_Phase req) then 0
  else if prefilling req then 3 + Z.max 0 (req_PromptTokens req - req_ComputedTokens req) + Z.max 0 (req_MaxTokens req)
  else match req_Phase req with
       | RequestPhaseDecodeRunning =>
           if req_GeneratedTokens req <? req_MaxTokens req then 1 + (req_MaxTokens req - req_GeneratedTokens req)
           else 2 + Z.max 0 (req_MaxTokens req)
       | _ => 2 + Z.max 0 (req_MaxTokens req)
       end.

Lemma debt_nonneg req : 0 <= debt req.
Proof. unfold debt. repeat case_match; try lia. Qed.

(** The limits are in the range of their type. *)
Definition narrow (rm : stateManager) : Prop :=
  forall id req, sm_requests rm !! id = Some req -> req_MaxTokens req < two32.

(** What a request can still ask for weighs as much as an item in a queue, so
    that queueing the next item is paid for by what the request can ask for less. *)
Definition owes (rm : stateManager) : Z := 8 * msum debt (sm_requests rm).

Lemma owes_delete rm rm' id : sm_requests rm' = delete id (sm_requests rm) -> narrow rm -> narrow rm' /\ owes rm' <= owes rm.
Proof.
  intros E Hn. unfold narrow, owes. rewrite E. split.
  - intros i req [_ Hr]%lookup_delete_Some. by eapply Hn.
  - apply Z.mul_le_mono_nonneg_l; [lia|]. apply msum_delete_le, debt_nonneg.
Qed.

Lemma owes_same rm rm' : sm_requests rm' = sm_requests rm -> narrow rm -> narrow rm' /\ owes rm' <= owes rm.
Proof. intros E Hn. unfold narrow, owes in *. rewrite E. split; [done|lia]. Qed.

Local Abbreviation rfree := (free narrow owes).

Lemma rfree_mod (f : stateManager -> stateManager) : (forall rm, sm_requests (f rm) = sm_requests rm) -> rfree (modS f).
Proof. intros Hf. apply free_mod. intros rm. by apply owes_same. Qed.
Lemma rfree_registry {A} (c : M registry A) : rfree (onRegistry c).
Proof.
  intros rm a rm'. unfold onRegistry. destruct (c _) as [[x r]|]; [|done]. intros [= _ <-] Hn. split; [done|]. unfold owes. cbn. lia.
Qed.
Lemma rfree_send ch ev : rfree (send ch ev).
Proof.
  apply free_modO. intros rm rm'. destruct (sm_channels rm !! ch) as [c|]; cbn; [|done].
  destruct (ch_closed c); [done|]. intros [= <-]. by apply owes_same.
Qed.
Lemma rfree_close ch : rfree (closeCh ch).
Proof.
  apply free_modO. intros rm rm'. destruct (sm_channels rm !! ch) as [c|]; cbn; [|done].
  destruct (ch_closed c); [done|]. intros [= <-]. by apply owes_same.
Qed.
#[export] Hint Extern 1 (free narrow owes (modS _)) => (by apply rfree_mod) : cost.
#[export] Hint Resolve rfree_registry rfree_send rfree_close : cost.

Lemma rfree_uuid : rfree newUUID.
Proof. unfold newUUID. cost. Qed.
Lemma rfree_now : rfree now_.
Proof. unfold now_. cost. Qed.
#[export] Hint Resolve rfree_uuid rfree_now : cost.

Lemma endRequest_requests p id rm ch rm' : endRequest p id rm = Some (ch, rm') ->
  sm_requests rm' = delete id (sm_requests rm).
Proof.
  unfold endRequest, deleteRequest, setRequest, forget, onRegistry, sm_metric, mbind, M_bind, getS, modS, mret, M_ret. cbn.
  destruct (sm_requests rm !! id) as [req|] eqn:Hreq; cbn.
  - rewrite lookup_insert_eq. destruct (RegFreeRequest _ _ _) as [[a r]|]; cbn; [|done].
    intros [= _ <-]. cbn. apply delete_insert_eq.
  - intros [= _ <-]. cbn. by rewrite delete_id.
Qed.

Lemma rfree_endRequest p id : rfree (endRequest p id).
Proof. intros rm ch rm' E%endRequest_requests Hn. destruct (owes_delete _ _ _ E Hn). split; [done|lia]. Qed.
Lemma rfree_failChannel ch id err : rfree (failChannel ch id err).
Proof. unfold failChannel. cost. Qed.
#[export] Hint Resolve rfree_endRequest rfree_failChannel : cost.

Lemma rfree_Fail id err : rfree (Fail_ id err).
Proof. unfold Fail_. cost. Qed.
Lemma rfree_close_end p id : rfree (ch ← endRequest p id; closeOpt ch).
Proof. unfold closeOpt. cost. Qed.
#[export] Hint Resolve rfree_Fail rfree_close_end : cost.

Lemma rfree_CanSchedule w : rfree (CanSchedule w).
Proof.
  intros rm. destruct (sm_requests rm !! wi_RequestId w) as [req|] eqn:Hreq.
  - destruct (expired rm req) eqn:Hexp.
    + intros a rm'. rewrite (CanSchedule_expired rm w req Hreq Hexp). revert a rm'.
      change (pays narrow owes (ch ← endRequest RequestPhaseTimeout (wi_RequestId w);
        failChannel ch (wi_RequestId w) (New CodeRequestTimeout "request timeout") ;; mret false) 0 (fun _ => 0) rm).
      revert rm Hreq Hexp. intros rm _ _. revert rm. change (rfree (ch ← endRequest RequestPhaseTimeout (wi_RequestId w);
        failChannel ch (wi_RequestId w) (New CodeRequestTimeout "request timeout") ;; mret false)). cost.
    + unfold CanSchedule. apply pays_get. rewrite Hreq. unfold expired in Hexp. rewrite Hexp. by apply costs_ret.
  - unfold CanSchedule. apply pays_get. rewrite Hreq. by apply costs_ret.
Qed.
#[export] Hint Resolve rfree_CanSchedule : cost.

Lemma rfree_subscriber id : rfree (subscriber id).
Proof. unfold subscriber. cost. Qed.
Lemma rfree_publish ch ev : rfree (publish ch ev).
Proof. unfold publish. cost. Qed.
#[export] Hint Resolve rfree_subscriber rfree_publish : cost.

(** *** Events *)

(** The event reports the one token its decode step is for. *)
Definition one_token (ev : Event) : Prop := ev_Type ev = EventTypeDecodeChunk -> us_OutputTokens (ev_Usage ev) = 1.

(** Every event a request takes leaves it less to ask for, by one item. *)
Lemma transition_debt req ev rm :
  event_ok req ev -> one_token ev -> req_MaxTokens req < two32 ->
  terminal (req_Phase req) = false ->
  forall items req' ev' rm', transition ev req rm = Some ((items, req', ev'), rm') ->
    ev_RequestId ev' = ev_RequestId ev /\ req_MaxTokens req' = req_MaxTokens req /\
    debt req' + len items <= debt req.
Proof.
  intros Hok Hone Hmax Hterm items req' ev' rm'.
  unfold transition, now_, newUUID, getsO, mbind, M_bind, getS, modS, mret, M_ret. cbn.
  unfold event_ok in Hok. pose proof (debt_nonneg req) as Hnn. destruct (ev_Type ev) eqn:Ht.
  - destruct Hok as (_ & Hpf & H0 & Hi & [Hlt _] & Hp). destruct (slice _ _ _); [|done]. intros [= <- <- <- _].
    split; [done|]. split; [done|]. unfold debt. rewrite Hterm, Hpf. cbn. rewrite u32_small by lia. change (len [_]) with 1. lia.
  - destruct Hok as [_ Hpf]. intros [= <- <- <- _]. split; [done|]. split; [done|]. unfold debt. rewrite Hterm, Hpf. cbn. change (len [_]) with 1. lia.
  - destruct (ev_Done ev || _) eqn:Hb; cbn.
    + intros [= <- <- <- _]. split; [by case_decide|]. split; [done|]. change (len []) with 0. unfold debt at 1. cbn. lia.
    + intros [= <- <- <- _]. split; [done|]. split; [done|]. apply orb_false_iff in Hb as [_ Hg]. cbn in Hg. apply Z.leb_gt in Hg.
      change (len [_]) with 1. rewrite (Hone Ht) in *. pose proof (u32_range (req_GeneratedTokens req + 1)) as Hr.
      unfold debt. cbn -[u32]. rewrite Hterm, (Hone Ht). rewrite (proj2 (Z.ltb_lt _ _) Hg).
      destruct (prefilling req); [lia|]. destruct (req_Phase req); try lia.
      destruct (Z.ltb_spec (req_GeneratedTokens req) (req_MaxTokens req)) as [Hlt|]; [|lia].
      destruct (Z.ltb_spec (req_GeneratedTokens req) 0); [lia|]. rewrite u32_small in * by lia. lia.
  - intros [= <- <- <- _]. split; [done|]. split; [done|]. change (len []) with 0. unfold debt at 1. cbn. lia.
  - intros [= <- <- <- _]. split; [done|]. split; [done|]. change (len []) with 0. unfold debt at 1. cbn. lia.
  - intros [= <- <- <- _]. split; [done|]. split; [done|]. change (len []) with 0. unfold debt at 1. cbn. lia.
  - done.
Qed.

Lemma OnEvent_pays rm ev req :
  sm_requests rm !! ev_RequestId ev = Some req -> event_ok req ev -> one_token ev ->
  terminal (req_Phase req) = false ->
  pays narrow owes (OnEvent ev) 0 (fun r => 8 * len r.1) rm.
Proof.
  intros Hreq Hok Hone Hterm. unfold OnEvent.
  apply (pays_bind _ _ _ _ 0 (fun r => match r with Some (items, _) => 8 * len items | None => 0 end)).
  2: { intros [[items ev']|]; cost. }
  unfold recordEvent. apply pays_get. rewrite Hreq. intros r rm'. unfold mbind at 1, M_bind at 1.
  destruct (transition ev req rm) as [[[[items req'] ev'] rm1]|] eqn:Htr; [|done]. intros [= <- <-] Hn.
  assert (Hrm1 : sm_requests rm1 = sm_requests rm).
  { revert Htr. unfold transition, now_, newUUID, getsO, mbind, M_bind, getS, modS, mret, M_ret. cbn.
    repeat case_match; intros; by simplify_eq. }
  destruct (transition_debt req ev rm Hok Hone (Hn _ _ Hreq) Hterm _ _ _ _ Htr) as (Hid & Hmax & Hd).
  unfold narrow, owes in *. cbn. rewrite Hrm1, Hid. split.
  - intros id r0 [[<- <-]|[_ Hr]]%lookup_insert_Some; [rewrite Hmax|]; eapply Hn; eassumption.
  - rewrite (msum_update debt _ _ req) by done. lia.
Qed.

(** ** Queues *)

(** The items a loop over a queue takes and leaves are those there were. *)
Lemma popLoop_costs works : costs narrow owes (popLoop works) (8 * len works)
  (fun r => 8 * len (option_list r.1) + 8 * len r.2).
Proof.
  induction works as [|w works IH]; cbn [popLoop]; [cost|]. apply costs_then; [cost|]. intros ok. rewrite len_cons.
  destruct ok.
  - apply costs_ret. cbn [fst snd]. change (len (option_list (Some w))) with 1. lia.
  - eapply costs_more; [exact IH|lia].
Qed.

Lemma peekLoop_costs works : costs narrow owes (peekLoop works) (8 * len works) (fun r => 8 * len r.2).
Proof.
  induction works as [|w works IH]; cbn [peekLoop]; [cost|]. apply costs_then; [cost|]. intros ok. rewrite len_cons.
  destruct ok.
  - apply costs_ret. cbn [snd]. by rewrite len_cons.
  - eapply costs_more; [exact IH|lia].
Qed.

Lemma dequeueLoop_costs n works : costs narrow owes (dequeueLoop n works) (8 * len works)
  (fun r => 8 * len r.1 + 8 * len r.2).
Proof.
  revert works. induction n as [|n IH]; intros works; cbn [dequeueLoop]; [cost|].
  destruct works as [|w works]; [cost|]. apply costs_then; [cost|]. intros ok. rewrite len_cons.
  eapply costs_bind; [apply (costs_frame _ _ _ _ _ 8 _ (fun r => 8 * len r.1 + 8 * len r.2 + 8) (IH works)); [lia|intros; cbn beta; lia]|].
  intros r. cbn beta. destruct ok; apply costs_ret; cbn [fst snd]; rewrite ?len_cons; lia.
Qed.

(** ** The scheduler *)

Definition waitingLoad (q : workQueue) : Z := len (wq_works q).
Definition queueLoad (s : scheduler) : Z :=
  msum waitingLoad (sd_decode s) + msum waitingLoad (sd_prefillSmall s) + msum waitingLoad (sd_prefillLarge s).

(** An item weighs less the further it is; [weight] is that of a batch itself. *)
Section weight.
Context (weight : Z) (Hweight : 3 <= weight <= 4).

Definition batchLoad (b : Batch) : Z := 4 * len (bt_Items b) + weight.
Definition chanLoad (q : list Batch) : Z := zsum batchLoad q.
Definition workerLoad (w : worker) : Z :=
  match w with
  | Idle => 0
  | Running b => 3 * len (bt_Items b) + 2
  | Sending events => 2 * len events + 1
  end.
Definition pipeLoad (em : executorManager) : Z :=
  msum chanLoad (em_batchChans em) + msum workerLoad (em_workers em) + len (em_eventChan em).

Definition load (s : scheduler) : Z :=
  owes (sd_requestManager s) + 8 * queueLoad s + pipeLoad (sd_executorManager s).

Lemma chanLoad_nonneg q : 0 <= chanLoad q.
Proof. apply zsum_nonneg, Forall_true. intros b. unfold batchLoad. pose proof (len_nonneg (bt_Items b)). lia. Qed.
Lemma workerLoad_nonneg w : 0 <= workerLoad w.
Proof. destruct w as [|b|evs]; cbn; [lia|pose proof (len_nonneg (bt_Items b))|pose proof (len_nonneg evs)]; lia. Qed.
Lemma pipeLoad_nonneg em : 0 <= pipeLoad em.
Proof.
  unfold pipeLoad. pose proof (msum_nonneg chanLoad (em_batchChans em) chanLoad_nonneg).
  pose proof (msum_nonneg workerLoad (em_workers em) workerLoad_nonneg). pose proof (len_nonneg (em_eventChan em)). lia.
Qed.
Lemma queueLoad_nonneg s : 0 <= queueLoad s.
Proof.
  assert (H : forall q, 0 <= waitingLoad q) by (intros; apply len_nonneg). unfold queueLoad.
  pose proof (msum_nonneg _ (sd_decode s) H). pose proof (msum_nonneg _ (sd_prefillSmall s) H).
  pose proof (msum_nonneg _ (sd_prefillLarge s) H). lia.
Qed.
Lemma load_nonneg s : 0 <= load s.
Proof.
  pose proof (msum_nonneg debt (sm_requests (sd_requestManager s)) debt_nonneg). pose proof (queueLoad_nonneg s).
  pose proof (pipeLoad_nonneg (sd_executorManager s)). unfold load, owes. lia.
Qed.

(** The events on their way report one token for each decode step. *)
Record fruitful (em : executorManager) : Prop := mkFruitful {
  fr_events : Forall one_token (em_eventChan em);
  fr_workers : forall e events, em_workers em !! e = Some (Sending events) -> Forall one_token events
}.
Definition paced (s : scheduler) : Prop := narrow (sd_requestManager s) /\ fruitful (sd_executorManager s).

Local Abbreviation sfree := (free paced load).

Lemma pays_onState {A} (c : M stateManager A) k f s :
  pays narrow owes c k f (sd_requestManager s) -> pays paced load (onState c) k f s.
Proof.
  intros Hc a s'. unfold onState. destruct (c _) as [[x rm']|] eqn:E; [|done]. intros [= <- <-] [Hn Hf].
  destruct (Hc _ _ E Hn). split; [done|]. unfold load, queueLoad in *. cbn. lia.
Qed.
Lemma costs_onState {A} (c : M stateManager A) k f : costs narrow owes c k f -> costs paced load (onState c) k f.
Proof. intros Hc s. by apply pays_onState. Qed.
Lemma sfree_onBlocks {A} (c : M registry A) : sfree (onBlocks c).
Proof. apply costs_onState, rfree_registry. Qed.
Lemma sfree_onState {A} (c : M stateManager A) : free narrow owes c -> sfree (onState c).
Proof. apply costs_onState. Qed.
#[local] Hint Resolve sfree_onBlocks sfree_onState : cost.

(** A change of what does not count. *)
Lemma sfree_mod (f : scheduler -> scheduler) :
  (forall s, sd_requestManager (f s) = sd_requestManager s /\ sd_executorManager (f s) = sd_executorManager s /\
     queueLoad (f s) = queueLoad s) -> sfree (modS f).
Proof. intros Hf. apply free_mod. intros s. destruct (Hf s) as (E1 & E2 & E3). unfold paced, load. rewrite E1, E2, E3. split; [done|lia]. Qed.
Lemma sfree_metric c : sfree (sd_metric c).
Proof. by apply sfree_mod. Qed.
#[local] Hint Resolve sfree_metric : cost.
#[local] Hint Extern 1 (free paced load (modS _)) => (by apply sfree_mod) : cost.

Lemma sfree_forM {A} (l : list A) (c : A -> M scheduler unit) : (forall x, sfree (c x)) -> sfree (forM_ l c).
Proof. apply free_forM. Qed.
#[local] Hint Resolve sfree_forM : cost.

(** *** Its queues *)

Lemma queueLoad_set k e q q' s : queues k s !! e = Some q ->
  queueLoad (setQueues k (<[e := q']> (queues k s)) s) = queueLoad s - waitingLoad q + waitingLoad q'.
Proof. intros Hq. unfold queueLoad. destruct k; cbn in *; rewrite (msum_update _ _ _ q) by done; lia. Qed.

(** A method of a queue that makes it [n] items longer. *)
Lemma onQueue_costs {A} k e (c : M workQueue A) n f :
  (forall q a q', c q = Some (a, q') -> 8 * waitingLoad q' + f a <= 8 * waitingLoad q + n) ->
  costs paced load (onQueue k e c) n f.
Proof.
  intros Hc s a s'. unfold onQueue. destruct (queues k s !! e) as [q|] eqn:Hq; cbn; [|done].
  destruct (c q) as [[x q']|] eqn:E; cbn; [|done]. intros [= <- <-] Hp. specialize (Hc _ _ _ E).
  split; [by destruct k|]. pose proof (queueLoad_set k e q q' s Hq) as HQ. unfold load in *. rewrite HQ.
  assert (E1 : sd_requestManager (setQueues k (<[e:=q']> (queues k s)) s) = sd_requestManager s) by (by destruct k).
  assert (E2 : sd_executorManager (setQueues k (<[e:=q']> (queues k s)) s) = sd_executorManager s) by (by destruct k).
  rewrite E1, E2. lia.
Qed.

Lemma requeue_costs k e w : costs paced load (onQueue k e (QueueRequeue w)) 8 (fun _ => 0).
Proof.
  apply onQueue_costs. intros q [] q' [= <-]. unfold waitingLoad. cbn. rewrite len_app. change (len [w]) with 1. lia.
Qed.

Lemma enqueue_costs k e name w : costs paced load (onQueue k e (QueueEnqueue name w)) 8
  (fun err => match err with None => 0 | Some _ => 8 end).
Proof.
  apply onQueue_costs. intros q err q'. unfold QueueEnqueue, mbind, M_bind, getS, modS, mret, M_ret.
  destruct (_ <=? _); intros [= <- <-]; [lia|]. unfold waitingLoad. cbn. rewrite len_app. change (len [w]) with 1. lia.
Qed.

Lemma sweep_costs {A} k e (loop : list WorkItem -> M stateManager (A * list WorkItem)) f :
  (forall works, costs narrow owes (loop works) (8 * len works) (fun r => f r.1 + 8 * len r.2)) ->
  costs paced load (sweep k e loop) 0 f.
Proof.
  intros Hl s a s'. unfold sweep, getsO, onState, onQueue, mbind, M_bind, modS, mret, M_ret.
  destruct (queues k s !! e) as [q|] eqn:Hq; [|done].
  destruct (loop (wq_works q) (sd_requestManager s)) as [[r rm']|] eqn:E; [|done].
  set (s1 := s <| sd_requestManager := rm' |>). assert (Hq1 : queues k s1 !! e = Some q) by (by destruct k).
  rewrite Hq1. cbn. intros [= <- <-] [Hn Hf]. destruct (Hl _ _ _ _ E Hn) as [Hn' Hle].
  set (q' := q <| wq_works := r.2 |>). pose proof (queueLoad_set k e q q' s1 Hq1) as HQ.
  split; [by destruct k|]. unfold load. rewrite HQ.
  assert (E1 : sd_requestManager (setQueues k (<[e:=q']> (queues k s1)) s1) = rm') by (by destruct k).
  assert (E2 : sd_executorManager (setQueues k (<[e:=q']> (queues k s1)) s1) = sd_executorManager s) by (by destruct k).
  rewrite E1, E2. change (queueLoad s1) with (queueLoad s). unfold waitingLoad. cbn. unfold owes in *. lia.
Qed.

(** *** A batch *)

(** An item weighs 8 in a queue and in the hand of the scheduler. *)
Definition held (r : option WorkItem) : Z := match r with Some _ => 8 | None => 0 end.

Lemma sfree_LengthOf k e : sfree (LengthOf k e).
Proof. unfold LengthOf. cost. Qed.
#[local] Hint Resolve sfree_LengthOf : cost.

Lemma requeueWork_costs w : costs paced load (requeueWork w) 8 (fun _ => 0).
Proof.
  unfold requeueWork. apply costs_get. intros s. destruct (kindOf _ _) as [k|]; [|cost].
  destruct (queues k s !! _); [apply requeue_costs|cost].
Qed.

Lemma tryAllocate_costs w back : costs paced load (tryAllocate w back) 8 held.
Proof.
  unfold tryAllocate. apply costs_then; [cost|]. intros [err|[[|] c]].
  - apply costs_then; [cost|]. intros _. by apply costs_ret.
  - by apply costs_ret.
  - eapply costs_bind; [apply requeueWork_costs|]. intros ?. by apply costs_ret.
Qed.

Lemma Pop_costs k e : costs paced load (Pop k e) 0 held.
Proof.
  apply sweep_costs. intros works. eapply costs_frame; [apply popLoop_costs|apply Z.eq_le_incl, Z.add_0_r|].
  intros [[w|] l]; cbn [fst snd held]; [change (len (option_list (Some w))) with 1|change (len (option_list None)) with 0]; lia.
Qed.

Lemma Peek_costs k e : sfree (Peek k e).
Proof. apply sweep_costs. intros works. exact (peekLoop_costs works). Qed.
#[local] Hint Resolve Peek_costs : cost.

Lemma Dequeue_costs e n : costs paced load (Dequeue e n) 0 (fun l => 8 * len l).
Proof.
  unfold Dequeue. destruct (n =? 0); [apply costs_ret; change (len []) with 0; lia|].
  apply sweep_costs. intros works. apply dequeueLoop_costs.
Qed.

(** What is in the batch of a pick. *)
Definition picked (r : list WorkItem * batchBudget) : Z := 8 * len r.1.

(** An item was tried, and the loop goes on. *)
Lemma costs_tried (batch : list WorkItem) w back
    (c : list WorkItem -> batchBudget -> M scheduler (list WorkItem * batchBudget)) budget budget' :
  (forall b g, costs paced load (c b g) (8 * len b) picked) ->
  costs paced load (r ← tryAllocate w back;
    match r with None => c batch budget | Some x => c (batch ++ [x]) (budget' x) end) (8 + 8 * len batch) picked.
Proof.
  intros Hc. eapply (costs_bind _ _ _ _ _ (fun r => held r + 8 * len batch)).
  - apply (costs_frame _ _ _ _ _ (8 * len batch) _ _ (tryAllocate_costs w back)); [lia|intros; lia].
  - intros [x|]; [|apply (costs_more _ _ _ _ _ _ (Hc _ _)); cbn; lia].
    apply (costs_more _ _ _ _ _ _ (Hc _ _)). rewrite len_app. change (len [x]) with 1. cbn [held]. lia.
Qed.

Lemma pickDecodeLoop_costs works batch budget :
  costs paced load (pickDecodeLoop works batch budget) (8 * len works + 8 * len batch) picked.
Proof.
  revert batch budget. induction works as [|w works IH]; intros batch budget; cbn [pickDecodeLoop].
  { apply costs_ret. unfold picked. cbn [fst]. pose proof (len_nonneg (A:=WorkItem) []). lia. }
  rewrite len_cons. eapply (costs_bind _ _ _ _ _ (fun r => held r + 8 * len works + 8 * len batch)).
  - apply (costs_frame _ _ _ _ _ (8 * len works + 8 * len batch) _ _ (tryAllocate_costs w w)); [lia|intros; lia].
  - intros [x|]; (eapply costs_more; [apply IH|]); [rewrite len_app; change (len [x]) with 1|]; cbn [held]; lia.
Qed.

Lemma pickDecode_costs e batch budget : costs paced load (pickDecode e batch budget) (8 * len batch) picked.
Proof.
  unfold pickDecode. eapply (costs_bind _ _ _ _ _ (fun l => 8 * len l + 8 * len batch)).
  - apply (costs_frame _ _ _ _ _ (8 * len batch) _ _ (Dequeue_costs e _)); [lia|intros; lia].
  - intros works. pose proof (len_nonneg works). destruct (_ =? 0); [apply costs_ret; unfold picked; cbn [fst]; lia|].
    apply pickDecodeLoop_costs.
Qed.

(** [Pop] and then the item it gave. *)
Lemma costs_popped k e (batch : list WorkItem) (c : option WorkItem -> M scheduler (list WorkItem * batchBudget)) :
  (forall r, costs paced load (c r) (held r + 8 * len batch) picked) ->
  costs paced load (r ← Pop k e; c r) (8 * len batch) picked.
Proof.
  intros Hc. eapply (costs_bind _ _ _ _ _ (fun r => held r + 8 * len batch)); [|exact Hc].
  apply (costs_frame _ _ _ _ _ (8 * len batch) _ _ (Pop_costs k e)); [lia|intros; lia].
Qed.

Lemma pickSmallLoop_costs e n batch budget : costs paced load (pickSmallLoop n e batch budget) (8 * len batch) picked.
Proof.
  revert batch budget. induction n as [|n IH]; intros batch budget; cbn [pickSmallLoop]; [by apply costs_ret|].
  case_match; [|by apply costs_ret]. apply costs_then; [cost|]. intros [small|]; [|by apply costs_ret].
  cbv zeta. case_match; [by apply costs_ret|]. apply costs_popped. intros [w|]; [|apply IH].
  apply (costs_tried batch w w (pickSmallLoop n e) budget (fun _ => _) IH).
Qed.

Lemma pickLargeLoop_costs e n batch budget : costs paced load (pickLargeLoop n e batch budget) (8 * len batch) picked.
Proof.
  revert batch budget. induction n as [|n IH]; intros batch budget; cbn [pickLargeLoop]; [by apply costs_ret|].
  match goal with |- context [if ?b then _ else _] => destruct b end; [|by apply costs_ret].
  apply costs_popped. intros [w|]; [|apply costs_ret; unfold picked; cbn [held fst]; lia].
  cbv zeta. apply costs_then; [cost|]. intros split.
  apply (costs_tried batch _ w (pickLargeLoop n e) budget (fun _ => _) IH).
Qed.

Lemma pickBatch_costs e : costs paced load (pickBatch e) 0 (fun batch => 8 * len batch).
Proof.
  unfold pickBatch. apply costs_get. intros s. eapply costs_bind.
  { eapply costs_more; [apply (pickDecode_costs e [])|]. change (len []) with 0. lia. }
  intros r1. unfold pickSmallPrefill. eapply costs_bind; [apply costs_then; [cost|intros n; apply pickSmallLoop_costs]|].
  intros r2. unfold pickLargePrefill. eapply costs_bind; [apply costs_then; [cost|intros n; apply pickLargeLoop_costs]|].
  intros r3. by apply costs_ret.
Qed.

(** *** Submitting *)

Lemma sfree_trySchedule e : sfree (trySchedule e).
Proof.
  assert (Hq : forall ids, sfree (queueLengths ids)).
  { induction ids as [|id ids IH]; cbn [queueLengths]; [cost|]. cost. }
  unfold trySchedule. apply costs_get. intros s. destruct (sd_prefillSmall s !! e); [|cost].
  destruct (sd_prefillLarge s !! e); [|cost]. destruct (sd_decode s !! e); [|cost].
  apply costs_then; [destruct (_ || _); cost|]. intros _. apply costs_then; [apply Hq|]. intros r. cost.
Qed.
#[local] Hint Resolve sfree_trySchedule : cost.

Lemma takeBack_costs batch : costs paced load (takeBack batch) (8 * len batch) (fun _ => 0).
Proof.
  unfold takeBack. induction batch as [|w batch IH]; cbn [forM_]; [apply costs_ret; change (len []) with 0; lia|].
  rewrite len_cons. eapply (costs_bind _ _ _ _ _ (fun _ => 8 * len batch)); [|intros _; exact IH].
  apply costs_then; [cost|]. intros _. apply (costs_frame _ _ _ _ _ (8 * len batch) _ _ (requeueWork_costs w)); [lia|intros; lia].
Qed.

(** A batch that is submitted adds its weight to the pipeline. *)
Lemma Submit_costs ctx room_first b : costs paced load (onExecutors (Submit ctx room_first (Some b))) 0
  (fun r => match r with None => - batchLoad b | Some _ => 0 end).
Proof.
  intros s r s'. unfold onExecutors. destruct (Submit ctx room_first (Some b) _) as [[x em']|] eqn:E; [|done].
  intros [= <- <-] [Hn [Hf1 Hf2]]. destruct x as [err|].
  - apply Submit_reject in E. subst em'. split; [by split|]. unfold load, queueLoad. cbn. lia.
  - apply Submit_accept in E as (q & Hq & _ & ->). split; [by split|].
    unfold load, queueLoad, pipeLoad. cbn -[chanLoad]. rewrite (msum_update chanLoad _ _ q) by done.
    unfold chanLoad at 3. rewrite zsum_app. cbn [zsum]. fold (chanLoad q). lia.
Qed.

Lemma patchExecute_costs ctx room_first e : sfree (patchExecute ctx room_first e).
Proof.
  unfold patchExecute. eapply costs_bind; [apply pickBatch_costs|]. intros batch. cbv beta.
  destruct batch as [|first rest] eqn:Hb; [apply costs_ret; change (len []) with 0; lia|]. rewrite <- Hb.
  assert (Hlen : 1 <= len batch) by (rewrite Hb, len_cons; pose proof (len_nonneg rest); lia).
  apply costs_then; [cost|]. intros _. apply costs_then; [cost|]. intros id. apply costs_get. intros s. cbv zeta.
  set (b := {| bt_BatchID := id |}).
  eapply (costs_bind _ _ _ _ _ (fun r => match r with None => 0 | Some _ => 8 * len batch end)).
  - apply (costs_frame _ _ _ _ _ (8 * len batch) _ _ (Submit_costs ctx room_first b)); [lia|].
    intros [err|]; [lia|]. unfold batchLoad. cbn [bt_Items b]. lia.
  - intros [err|]; [apply takeBack_costs|]. unfold observeBatchStatsAndTimeWait. cost.
Qed.

Lemma BatchRound_costs ctx room_first signal : sfree (BatchRound ctx room_first signal).
Proof.
  unfold BatchRound, patchExecutors. apply costs_then; [destruct signal; cost|]. intros _.
  apply costs_get. intros s. apply sfree_forM. intros e. apply patchExecute_costs.
Qed.

(** *** Events *)

Lemma Enqueue_costs w : costs paced load (Enqueue w) 8 (fun _ => 0).
Proof.
  unfold Enqueue. apply costs_get. intros s. cbv zeta. destruct (kindOf _ _) as [k|]; [|cost].
  eapply (costs_bind _ _ _ _ _ (fun r => match r with None => 0 | Some _ => 8 end)).
  - destruct (queues k s !! _); [|by apply costs_ret].
    eapply costs_bind; [apply enqueue_costs|]. intros [err|]; cbv beta.
    + apply costs_then; [cost|]. intros _. by apply costs_ret.
    + apply costs_then; [cost|]. intros _. by apply costs_ret.
  - intros [err|]; cost.
Qed.

Lemma enqueueAll_costs items : costs paced load (enqueueAll items) (8 * len items) (fun _ => 0).
Proof.
  induction items as [|w items IH]; cbn [enqueueAll]; [apply costs_ret; change (len []) with 0; lia|]. rewrite len_cons.
  eapply (costs_bind _ _ _ _ _ (fun _ => 8 * len items)).
  - apply (costs_frame _ _ _ _ _ (8 * len items) _ _ (Enqueue_costs w)); [lia|intros; lia].
  - intros [err|]; [apply costs_ret; pose proof (len_nonneg items); lia|exact IH].
Qed.

Lemma finalize_requests ev req s r s' : finalize ev req s = Some (r, s') ->
  sm_requests (sd_requestManager s') = sm_requests (sd_requestManager s).
Proof.
  assert (Hb : forall A (c : M registry A) a s', onBlocks c s = Some (a, s') ->
    sm_requests (sd_requestManager s') = sm_requests (sd_requestManager s)).
  { intros A c a s1. unfold onBlocks, onState, onRegistry. destruct (c _) as [[x reg]|]; [|done]. by intros [= _ <-]. }
  unfold finalize, mbind, M_bind, mret, M_ret.
  destruct (negb _); [|destruct (_ || _)];
    (match goal with |- context [onBlocks ?c s] => destruct (onBlocks c s) as [[x s1]|] eqn:E end; [|done]);
    intros [= _ <-]; by apply Hb in E.
Qed.

Lemma sfree_finalize ev req : sfree (finalize ev req).
Proof. unfold finalize. destruct (negb _); [|destruct (_ || _)]; cost. Qed.

Lemma handleEvent_pays s ev : one_token ev ->
  (forall req, sm_requests (sd_requestManager s) !! ev_RequestId ev = Some req ->
     event_ok req ev /\ terminal (req_Phase req) = false) ->
  pays paced load (handleEvent ev) 0 (fun _ => 0) s.
Proof.
  intros Hone Hreq. unfold handleEvent. apply pays_get. unfold Get.
  destruct (sm_requests (sd_requestManager s) !! ev_RequestId ev) as [req|] eqn:Hr; [|by apply costs_ret].
  destruct (Hreq req eq_refl) as [Hok Hterm].
  apply (pays_then _ _ _ _ 0 (fun _ => 0) _ (fun _ s1 => sm_requests (sd_requestManager s1) = sm_requests (sd_requestManager s)));
    [apply sfree_finalize|intros r s1; apply finalize_requests|].
  intros res s1 E. cbv zeta beta. set (ev1 := match res with Some e => failed ev e | None => ev end).
  assert (Hev1 : event_ok req ev1 /\ one_token ev1 /\ ev_RequestId ev1 = ev_RequestId ev) by (unfold ev1; by destruct res).
  destruct Hev1 as (Hok1 & Hone1 & Hid1).
  apply (pays_bind _ _ _ _ 0 (fun r => 8 * len r.1)).
  - apply pays_onState, (OnEvent_pays _ _ req); try done. by rewrite E, Hid1.
  - intros [items ev2]. cbn [fst snd]. eapply costs_bind; [apply enqueueAll_costs|]. intros [err|]; cbv beta; [cost|].
    apply costs_then; [destruct (ev_Done ev2); cost|]. intros [err|]; cost.
Qed.

End weight.
