(* ===== verification/GoSha3.v ===== *)
(** * GoSha3: crypto/sha3

    [sha3.Sum256] of Go's standard library, executable: SHA3-256 (FIPS 202) on a
    list of bytes.  The state of Keccak-f[1600] is 25 lanes of 64 bits, lane
    [x + 5 * y] at index [x + 5 * y]; the tables of rotation offsets and round
    constants are computed by the rules of the standard. *)

From S2P Require Import Prelude GoSha256.

Definition lane (st : list Z) (x y : nat) : Z := nth (x mod 5 + 5 * (y mod 5))%nat st 0.

Definition rotl64 (v : Z) (n : Z) : Z := Z.lor (u64 (Z.shiftl v n)) (Z.shiftr v (64 - n)).

(** A state from its lanes: [f x y] for each position. *)
Definition lanes (f : nat -> nat -> Z) : list Z :=
  (fun i => f (i mod 5) (i / 5))%nat <$> seq 0 25.

Definition theta (st : list Z) : list Z :=
  let c := (fun x => Z.lxor (Z.lxor (Z.lxor (lane st x 0) (lane st x 1)) (Z.lxor (lane st x 2) (lane st x 3)))
                       (lane st x 4)) <$> seq 0 5 in
  let d := (fun x => Z.lxor (nth ((x + 4) mod 5) c 0) (rotl64 (nth ((x + 1) mod 5) c 0) 1)) <$> seq 0 5 in
  lanes (fun x y => Z.lxor (lane st x y) (nth x d 0)).

(** The rotation offset of each lane: the walk (x, y) := (y, 2x + 3y) from (1, 0)
    meets lane number [t] with the offset (t + 1)(t + 2) / 2. *)
Fixpoint rhoWalk (n : nat) (t : Z) (x y : nat) : list (nat * Z) :=
  match n with
  | O => []
  | S n => ((x + 5 * y)%nat, ((t + 1) * (t + 2) / 2) mod 64) ::
           rhoWalk n (t + 1) y ((2 * x + 3 * y) mod 5)%nat
  end.
Definition rhoTable : list (nat * Z) := Eval vm_compute in rhoWalk 24 0 1 0.
Definition rhoOffset (i : nat) : Z :=
  match List.find (fun e => Nat.eqb (fst e) i) rhoTable with Some e => snd e | None => 0 end.
Definition rhoOffsets : list Z := Eval vm_compute in rhoOffset <$> seq 0 25.

Definition rho (st : list Z) : list Z := zip_with rotl64 st rhoOffsets.
Definition pi (st : list Z) : list Z := lanes (fun x y => lane st (x + 3 * y) x).
Definition chi (st : list Z) : list Z :=
  lanes (fun x y => Z.lxor (lane st x y)
    (Z.land (two64 - 1 - lane st (x + 1) y) (lane st (x + 2) y))).

(** The round constants: bit [2^j - 1] of constant [i] is the output bit
    [7 i + j] of a linear feedback shift register. *)
Definition lfsrStep (r : Z) : Z :=
  let r := 2 * r in if 256 <=? r then Z.lxor r 0x171 else r.
Definition rcBit (t : nat) : Z := Nat.iter t lfsrStep 1 mod 2.
Definition roundConstant (i : nat) : Z :=
  foldl (fun acc j => acc + rcBit (7 * i + j) * 2 ^ (2 ^ Z.of_nat j - 1)) 0 (seq 0 7).
Definition roundConstants : list Z := Eval vm_compute in roundConstant <$> seq 0 24.

Definition iota (rc : Z) (st : list Z) : list Z :=
  match st with [] => [] | l :: st => Z.lxor l rc :: st end.

Definition keccakRound (st : list Z) (rc : Z) : list Z := iota rc (chi (pi (rho (theta st)))).
Definition keccakF (st : list Z) : list Z := fold_left keccakRound roundConstants st.

(** *** The sponge with rate 136 *)

(** Little-endian lanes. *)
Fixpoint laneOf (bs : list Z) : Z :=
  match bs with [] => 0 | b :: bs => b + 256 * laneOf bs end.
Fixpoint lanesOf (n : nat) (bs : list Z) : list Z :=
  match n with O => [] | S n => laneOf (take 8 bs) :: lanesOf n (drop 8 bs) end.
Definition bytesOfLane (v : Z) : list Z :=
  (fun i => Z.shiftr v (8 * Z.of_nat i) mod 256) <$> seq 0 8.

Definition absorb (st block : list Z) : list Z :=
  keccakF (zip_with Z.lxor st (lanesOf 17 block ++ replicate 8 0)).

(** [fuel] bounds the number of 136-byte blocks. *)
Fixpoint absorbAll (fuel : nat) (st bs : list Z) : list Z :=
  match fuel with
  | O => st
  | S f => match bs with [] => st | _ => absorbAll f (absorb st (take 136 bs)) (drop 136 bs) end
  end.

(** The padding: domain bits 01, then 1 0* 1. *)
Definition pad3 (msg : list Z) : list Z :=
  let zeros := 135 - len msg mod 136 in
  if zeros =? 0 then msg ++ [0x86]
  else msg ++ 0x06 :: replicate (Z.to_nat (zeros - 1)) 0 ++ [0x80].

Definition Sum256_sha3 (msg : list Z) : list Z :=
  let p := pad3 msg in
  let st := absorbAll (length p) (replicate 25 0) p in
  take 32 (st ≫= bytesOfLane).

Lemma bytesOfLane_range v : Forall (fun b => 0 <= b < 256) (bytesOfLane v).
Proof. apply Forall_fmap, Forall_forall. intros i _. by apply Z.mod_pos_bound. Qed.

(** Test vectors of the standard. *)


Example sha3_empty : EncodeToString (Sum256_sha3 []) =
  "a7ffc6f8bf1ed76651c14756a061d662f580ff4de43b49fa82d80a4b80f8434a".
Proof. vm_compute. reflexivity. Qed.

Example sha3_abc : EncodeToString (Sum256_sha3 (bytes_of "abc")) =
  "3a985da74fe225b2045c172d6bd390bd855f086e3e9d525b46bfe24511431532".
Proof. vm_compute. reflexivity. Qed.
