(* ===== verification/GoStrings.v ===== *)
(** * GoStrings: package strings

    The functions of Go's package strings the engine uses, on strings of bytes:
    [Fields], [Join] and [TrimSpace].  White space is [unicode.IsSpace]: the six
    ASCII characters and the runes U+0085, U+00A0, U+1680, U+2000 to U+200A,
    U+2028, U+2029, U+202F, U+205F and U+3000, in UTF-8.  The encodings start with
    a byte no other rune contains, so scanning byte by byte finds the same runes
    as decoding does. *)

From S2P Require Import Prelude GoSha256.

Definition byte_of (c : Ascii.ascii) : Z := Z.of_N (Ascii.N_of_ascii c).

Definition asciiSpace (b : Z) : bool := (b =? 32) || ((9 <=? b) && (b <=? 13)).

(** The two-byte and three-byte white space. *)
Definition space2 (a b : Z) : bool := (a =? 0xC2) && ((b =? 0x85) || (b =? 0xA0)).
Definition space3 (a b c : Z) : bool :=
  ((a =? 0xE1) && (b =? 0x9A) && (c =? 0x80))
  || ((a =? 0xE2) && (b =? 0x80)
      && (((0x80 <=? c) && (c <=? 0x8A)) || (c =? 0xA8) || (c =? 0xA9) || (c =? 0xAF)))
  || ((a =? 0xE2) && (b =? 0x81) && (c =? 0x9F))
  || ((a =? 0xE3) && (b =? 0x80) && (c =? 0x80)).

(** The width of the white space rune at the head of the string, 0 for none. *)
Definition spaceWidth (s : string) : nat :=
  match s with
  | EmptyString => 0
  | String a s1 =>
      if asciiSpace (byte_of a) then 1
      else match s1 with
      | EmptyString => 0
      | String b s2 =>
          if space2 (byte_of a) (byte_of b) then 2
          else match s2 with
          | EmptyString => 0
          | String c _ => if space3 (byte_of a) (byte_of b) (byte_of c) then 3 else 0
          end
      end
  end%nat.

Definition flush (field : string) (rest : list string) : list string :=
  if String.eqb field "" then rest else field :: rest.

(** [skip] bytes of a white space rune are left; [field] is the field so far. *)
Fixpoint fieldsFrom (skip : nat) (field : string) (s : string) : list string :=
  match s with
  | EmptyString => flush field []
  | String c s' =>
      match skip with
      | S k => fieldsFrom k field s'
      | O => match spaceWidth s with
             | S k => flush field (fieldsFrom k "" s')
             | O => fieldsFrom 0 (field +:+ String c "") s'
             end
      end
  end.

(** [strings.Fields] *)
Definition Fields (s : string) : list string := fieldsFrom 0 "" s.

(** [strings.Join] *)
Fixpoint Join (ws : list string) (sep : string) : string :=
  match ws with
  | [] => ""
  | [w] => w
  | w :: ws => w +:+ sep +:+ Join ws sep
  end.

(** The width of the white space rune at the end of the string, given reversed. *)
Definition spaceWidthRev (r : list Z) : nat :=
  match r with
  | [] => 0
  | a :: r1 =>
      if asciiSpace a then 1
      else match r1 with
      | [] => 0
      | b :: r2 =>
          if space2 b a then 2
          else match r2 with
          | [] => 0
          | c :: _ => if space3 c b a then 3 else 0
          end
      end
  end%nat.

Fixpoint trimLeft (skip : nat) (s : string) : string :=
  match s with
  | EmptyString => ""
  | String _ s' =>
      match skip with
      | S k => trimLeft k s'
      | O => match spaceWidth s with S k => trimLeft k s' | O => s end
      end
  end.

(** How many bytes to cut at the end; [r] is the string reversed. *)
Fixpoint trailing (skip : nat) (r : list Z) : nat :=
  match r with
  | [] => 0
  | _ :: r' =>
      match skip with
      | S k => S (trailing k r')
      | O => match spaceWidthRev r with S k => S (trailing k r') | O => 0 end
      end
  end%nat.

(** [strings.TrimSpace] *)
Definition TrimSpace (s : string) : string :=
  let s := trimLeft 0 s in
  String.substring 0 (String.length s - trailing 0 (rev (bytes_of s))) s.

Example fields_example : Fields "  a bc	d " = ["a"; "bc"; "d"].
Proof. reflexivity. Qed.
Example trim_example : TrimSpace "  a b " = "a b".
Proof. reflexivity. Qed.

(** ** Fields and Join *)

(** A field of some text: not empty and without white space. *)
Definition isField (w : string) : Prop := Fields w = [w] /\ w <> "".

Lemma string_app_nil_r (s : string) : s +:+ "" = s.
Proof. induction s as [|c s IH]; [done|]. change (String c (s +:+ "") = String c s). by rewrite IH. Qed.

Lemma string_app_assoc (a b c : string) : (a +:+ b) +:+ c = a +:+ b +:+ c.
Proof.
  induction a as [|x a IH]; [done|].
  change (String x ((a +:+ b) +:+ c) = String x (a +:+ b +:+ c)). by rewrite IH.
Qed.

Lemma flush_ne field rest : field <> "" -> flush field rest = field :: rest.
Proof. unfold flush. by destruct (String.eqb_spec field ""). Qed.

Lemma snoc_ne (field : string) c : field +:+ String c "" <> "".
Proof. by destruct field. Qed.

(** A space after a string does not complete a white space rune of it. *)
Lemma spaceWidth_app s rest : s <> "" -> spaceWidth s = 0%nat -> spaceWidth (s +:+ " " +:+ rest) = 0%nat.
Proof.
  assert (H2 : forall a, space2 a 32 = false) by (intros a; unfold space2; cbn; apply andb_false_r).
  assert (H3 : forall a c, space3 a 32 c = false).
  { intros a c. unfold space3. cbn. by rewrite !andb_false_r. }
  assert (H3' : forall a b, space3 a b 32 = false).
  { intros a b. unfold space3. cbn. by rewrite !andb_false_r. }
  destruct s as [|a [|b [|c s]]]; intros Hne H; [done| | |exact H].
  - change (spaceWidth (String a (String (Ascii.ascii_of_nat 32) rest)) = 0%nat).
    cbn -[byte_of asciiSpace space2 space3 Ascii.ascii_of_nat] in H |- *.
    change (byte_of (Ascii.ascii_of_nat 32)) with 32. rewrite H2.
    destruct (asciiSpace (byte_of a)); [done|]. destruct rest; [done|]. by rewrite H3.
  - change (spaceWidth (String a (String b (String (Ascii.ascii_of_nat 32) rest))) = 0%nat).
    cbn -[byte_of asciiSpace space2 space3 Ascii.ascii_of_nat] in H |- *.
    change (byte_of (Ascii.ascii_of_nat 32)) with 32. rewrite H3'.
    destruct (asciiSpace (byte_of a)); [done|]. by destruct (space2 (byte_of a) (byte_of b)).
Qed.

Lemma length_app_string (a b : string) : String.length (a +:+ b) = (String.length a + String.length b)%nat.
Proof.
  induction a as [|c a IH]; [done|].
  change (S (String.length (a +:+ b)) = S (String.length a + String.length b)). by rewrite IH.
Qed.

Definition totalLength (ws : list string) : nat := sum_list_with String.length ws.

Lemma flush_length field rest : totalLength (flush field rest) = (String.length field + totalLength rest)%nat.
Proof. unfold flush. by destruct (String.eqb_spec field "") as [->|]. Qed.

Lemma fieldsFrom_length skip field s :
  (totalLength (fieldsFrom skip field s) <= String.length field + String.length s)%nat.
Proof.
  revert skip field. induction s as [|c s IH]; intros skip field; cbn [fieldsFrom].
  { rewrite flush_length. cbn. lia. }
  destruct skip as [|k]; [|specialize (IH k field); cbn; lia].
  destruct (spaceWidth (String c s)) as [|k].
  - specialize (IH 0%nat (field +:+ String c "")). rewrite length_app_string in IH. cbn in *. lia.
  - rewrite flush_length. specialize (IH k ""). cbn in *. lia.
Qed.

(** The word scanned so far, [field], and its rest [w]: when scanning the word
    alone yields the word alone, it has no white space. *)
Lemma fieldsFrom_word w field rest :
  fieldsFrom 0 field w = [field +:+ w] -> field +:+ w <> "" ->
  fieldsFrom 0 field (w +:+ " " +:+ rest) = (field +:+ w) :: Fields rest.
Proof.
  revert field. induction w as [|c w IH]; intros field Hf Hne.
  - rewrite string_app_nil_r in *. change (flush field (Fields rest) = field :: Fields rest).
    by apply flush_ne.
  - cbn [fieldsFrom] in Hf. destruct (spaceWidth (String c w)) as [|k] eqn:Hw.
    + change (String c w +:+ " " +:+ rest) with (String c (w +:+ " " +:+ rest)).
      cbn [fieldsFrom]. pose proof (spaceWidth_app (String c w) rest ltac:(done) Hw) as Hw'.
      change (String c w +:+ " " +:+ rest) with (String c (w +:+ " " +:+ rest)) in Hw'.
      rewrite Hw'. assert (E : field +:+ String c w = (field +:+ String c "") +:+ w) by by rewrite string_app_assoc.
      rewrite E in *. by apply IH.
    + exfalso. apply (f_equal totalLength) in Hf. rewrite flush_length in Hf.
      pose proof (fieldsFrom_length k "" w) as Hl. unfold totalLength at 2 in Hf. cbn in Hf, Hl.
      rewrite length_app_string in Hf. cbn in Hf. lia.
Qed.

(** The fields of joined fields are the fields. *)
Lemma Fields_Join ws : Forall isField ws -> Fields (Join ws " ") = ws.
Proof.
  induction 1 as [|w ws [Hw Hne] Hws IH]; [done|].
  destruct ws as [|w' ws]; [exact Hw|].
  change (Join (w :: w' :: ws) " ") with (w +:+ " " +:+ Join (w' :: ws) " ").
  unfold Fields at 1. rewrite (fieldsFrom_word w ""); [by rewrite IH|exact Hw|exact Hne].
Qed.

(** No white space begins in [f] when it is followed by [s]. *)
Fixpoint clean (f s : string) : Prop :=
  match f with
  | EmptyString => True
  | String c f' => spaceWidth (f +:+ s) = 0%nat /\ clean f' s
  end.

Lemma clean_snoc f c s : clean f (String c s) -> spaceWidth (String c s) = 0%nat -> clean (f +:+ String c "") s.
Proof.
  induction f as [|a f IH]; intros Hf Hc; [by split|]. destruct Hf as [Ha Hf].
  change (clean (String a (f +:+ String c "")) s). split; [|by apply IH].
  change (spaceWidth ((String a f +:+ String c "") +:+ s) = 0%nat). by rewrite string_app_assoc.
Qed.

(** White space at the head is seen whatever follows. *)
Lemma spaceWidth_prefix a s : spaceWidth (a +:+ s) = 0%nat -> spaceWidth a = 0%nat.
Proof.
  destruct a as [|x [|y [|z a]]]; [done| | |done]; cbn -[space2 space3 asciiSpace byte_of].
  - change (String x "" +:+ s) with (String x s). cbn -[space2 space3 asciiSpace byte_of].
    by destruct (asciiSpace (byte_of x)).
  - change (String x (String y "") +:+ s) with (String x (String y s)). cbn -[space2 space3 asciiSpace byte_of].
    destruct (asciiSpace (byte_of x)); [done|]. by destruct (space2 (byte_of x) (byte_of y)).
Qed.

Lemma clean_alone f s : clean f s -> clean f "".
Proof.
  induction f as [|c f IH]; [done|]. intros [Hc Hf]. split; [|by apply IH].
  rewrite string_app_nil_r. by eapply spaceWidth_prefix.
Qed.

Lemma clean_word g f : clean f "" -> fieldsFrom 0 g f = flush (g +:+ f) [].
Proof.
  revert g. induction f as [|c f IH]; intros g.
  - intros _. by rewrite string_app_nil_r.
  - intros [Hc Hf]. rewrite string_app_nil_r in Hc. cbn [fieldsFrom]. rewrite Hc, IH by done.
    by rewrite string_app_assoc.
Qed.

Lemma clean_field f s : clean f s -> Forall isField (flush f []).
Proof.
  intros Hf. unfold flush. destruct (String.eqb_spec f "") as [->|Hne]; [constructor|].
  constructor; [|constructor]. split; [|done]. unfold Fields.
  rewrite (clean_word "") by (by eapply clean_alone). by apply flush_ne.
Qed.

Lemma fieldsFrom_fields skip field s :
  (skip <> 0%nat -> field = "") -> clean field s -> Forall isField (fieldsFrom skip field s).
Proof.
  revert skip field. induction s as [|c s IH]; intros skip field Hs Hf; cbn [fieldsFrom].
  { by eapply clean_field. }
  destruct skip as [|k]; [|apply IH; [intros _; by apply Hs|by rewrite Hs]].
  destruct (spaceWidth (String c s)) as [|k] eqn:Hw.
  - apply IH; [done|]. by apply clean_snoc.
  - pose proof (clean_field _ _ Hf) as H. unfold flush in *.
    destruct (String.eqb field ""); [by apply IH|].
    apply Forall_cons in H as [H _]. constructor; [done|]. by apply IH.
Qed.

Lemma Fields_isField s : Forall isField (Fields s).
Proof. by apply fieldsFrom_fields. Qed.
