(* ===== verification/Tokenizer.v ===== *)
(** * Tokenizer: text to token ids and back (internal/tokenizer)

    The mock tokenizer (mock_tokenzier.go) splits a text into words, hashes each
    to 32 bits and remembers the word of every token; it locks its map once per
    word.  [tokenizer] (tokenizer.go) dispatches on the model.  The Qwen
    tokenizer is the third-party package gotokenizer: its two functions are the
    parameter [gotokenizer].  What reading config.json of a model gives is the
    parameter [readConfig] of [NewTokenizer]. *)

From S2P Require Import Prelude Errors Model GoSha256 GoSha3 GoStrings.

(** ** The mock tokenizer *)

Record mockTokenizer := mkMockTokenizer { mt_reverse : gmap Z string }.
#[export] Instance mockTokenizer_eta : Eta mockTokenizer := fun m => mkMockTokenizer (mt_reverse m).

Definition newMockTokenizer : mockTokenizer := mkMockTokenizer ∅.

Definition stableHash32 (field : string) : Z :=
  match Sum256_sha3 (bytes_of field) with
  | a :: b :: c :: d :: _ => word a b c d
  | _ => 0
  end.

Definition remember (tokenId : Z) (field : string) : M mockTokenizer unit :=
  modS (fun m => m <| mt_reverse := <[tokenId := field]> (mt_reverse m) |>).

(** The loop over the fields. *)
Fixpoint encodeFields (fields : list string) : M mockTokenizer (error + list Z) :=
  match fields with
  | [] => mret (inr [])
  | field :: fields =>
      let tokenId := stableHash32 field in
      m ← getS;
      if match mt_reverse m !! tokenId with
         | Some token => negb (String.eqb token field)
         | None => false
         end
      then mret (inl (TextError "token collision"))
      else
        remember tokenId field ;;
        r ← encodeFields fields;
        mret (match r with inl err => inl err | inr tokens => inr (tokenId :: tokens) end)
  end.

Definition mockEncode (text : string) : M mockTokenizer (error + list Z) :=
  r ← encodeFields (Fields text);
  match r with
  | inl err => mret (inl err)
  | inr [] => let tokenId := stableHash32 "" in remember tokenId "" ;; mret (inr [tokenId])
  | inr tokens => mret (inr tokens)
  end.

(** [fmt.Sprintf("<tok_%d>", tokenID)] stands for an unknown token. *)
Definition mockWord (m : mockTokenizer) (tokenID : Z) : string :=
  match mt_reverse m !! tokenID with
  | Some word => word
  | None => "<tok_" +:+ pretty tokenID +:+ ">"
  end.

Definition mockDecode (tokens : list Z) (m : mockTokenizer) : string :=
  Join (mockWord m <$> tokens) " ".

(** ** The dispatch on the model *)

(** A tokenizer of the package gotokenizer. *)
Record gotokenizer := mkGotokenizer {
  gt_Encode : string -> error + list Z;
  gt_Decode : list Z -> error + string
}.

Inductive tokenize := MockTokenizer (m : mockTokenizer) | QwenTokenizer (q : gotokenizer).

Record tokenizer := mkTokenizer { tk_tokenizers : gmap string tokenize }.
#[export] Instance tokenizer_eta : Eta tokenizer := fun t => mkTokenizer (tk_tokenizers t).

Definition notRegistered (modelID : string) : error :=
  New CodeInvalidArgument ("tokenizer: model not registered " +:+ modelID).

(** The methods of the interface [tokenize] on one tokenizer. *)
Definition tokEncode (text : string) : M tokenize (error + list Z) := fun tok =>
  match tok with
  | MockTokenizer m =>
      match mockEncode text m with Some (r, m') => Some (r, MockTokenizer m') | None => None end
  | QwenTokenizer q => Some (gt_Encode q text, tok)
  end.

Definition tokDecode (tokens : list Z) (tok : tokenize) : error + string :=
  match tok with
  | MockTokenizer m => inr (mockDecode tokens m)
  | QwenTokenizer q => gt_Decode q tokens
  end.

Definition Encode (modelID text : string) : M tokenizer (error + list Z) := fun t =>
  match tk_tokenizers t !! modelID with
  | None => Some (inl (notRegistered modelID), t)
  | Some tok =>
      '(r, tok') ← tokEncode text tok;
      Some (r, t <| tk_tokenizers := <[modelID := tok']> (tk_tokenizers t) |>)
  end.

(** The text and the error; on a failure of the model's tokenizer the text is
    "replace". *)
Definition Decode (modelID : string) (tokens : list Z) (t : tokenizer) : string * option error :=
  match tk_tokenizers t !! modelID with
  | None => ("", Some (notRegistered modelID))
  | Some tok =>
      match tokDecode tokens tok with
      | inl err => ("replace", Some err)
      | inr str => (str, None)
      end
  end.

(** ** Construction *)

(** internal/conf/conf.go *)
Record ModelConf := mkModelConf { mc_ModelID : string; mc_ModelPath : string }.

Section construction.
(** The field model_type of config.json under a path, or the error of reading it. *)
Context (readConfig : string -> error + string).
(** [gotokenizer.NewQwenTokenizer] on the files under a path. *)
Context (newQwen : string -> error + gotokenizer).

Definition readModelType (modelPath : string) : error + string :=
  if String.eqb modelPath "" then inr "mock"
  else match readConfig modelPath with
  | inl err => inl err
  | inr modelType =>
      if String.eqb modelType ""
      then inl (New CodeInvalidArgument ("model config missing model_type: " +:+ modelPath))
      else inr modelType
  end.

Definition newQwen3Tokenizer (modelConf : ModelConf) : error + tokenize :=
  match newQwen (mc_ModelPath modelConf) with inl err => inl err | inr q => inr (QwenTokenizer q) end.

(** The loop over the models. *)
Fixpoint newTokenizers (models : list ModelConf) (t : gmap string tokenize)
    : error + gmap string tokenize :=
  match models with
  | [] => inr t
  | modelConf :: models =>
      match ParseModelID (mc_ModelID modelConf) with
      | inl err => inl err
      | inr modelID =>
      match readModelType (mc_ModelPath modelConf) with
      | inl err => inl err
      | inr modelType =>
          if String.eqb modelType "mock"
          then newTokenizers models (<[modelID := MockTokenizer newMockTokenizer]> t)
          else if String.eqb modelType "qwen3" then
            match newQwen3Tokenizer modelConf with
            | inl err => inl err
            | inr tok => newTokenizers models (<[modelID := tok]> t)
            end
          else inl (New CodeInvalidArgument ("tokenizer: unsupported model_type " +:+ modelType))
      end end
  end.

Definition NewTokenizer (models : list ModelConf) : error + tokenizer :=
  match models with
  | [] => inr (mkTokenizer (<[MockModel := MockTokenizer newMockTokenizer]> ∅))
  | _ => match newTokenizers models ∅ with inl err => inl err | inr t => inr (mkTokenizer t) end
  end.
End construction.

(** ** Round trips of the mock tokenizer *)

(** Every remembered word is under its own hash. *)
Definition Sound (m : mockTokenizer) : Prop :=
  forall id w, mt_reverse m !! id = Some w -> stableHash32 w = id.

#[local] Opaque stableHash32.

Lemma sound_remember m w : Sound m -> Sound (m <| mt_reverse := <[stableHash32 w := w]> (mt_reverse m) |>).
Proof. intros Hm id w'. cbn. intros [[<- <-]|[_ H]]%lookup_insert_Some; [done|by apply Hm]. Qed.

Definition collision (fields : list string) (e : error) : Prop :=
  e = TextError "token collision" /\
  exists w w', w ∈ fields /\ w' <> w /\ stableHash32 w' = stableHash32 w.

Lemma encodeFields_spec fields m : Sound m ->
  wp (encodeFields fields) (fun r m' => Sound m' /\ mt_reverse m ⊆ mt_reverse m' /\
    match r with
    | inr tokens => tokens = stableHash32 <$> fields /\
        Forall (fun w => mt_reverse m' !! stableHash32 w = Some w) fields
    | inl e => collision fields e
    end) m.
Proof.
  revert m. induction fields as [|f fields IH]; intros m Hm; cbn [encodeFields].
  { wp_steps. split; [done|]. split; [reflexivity|]. by split. }
  wp_steps. destruct (mt_reverse m !! stableHash32 f) as [w|] eqn:Hf;
    [destruct (String.eqb_spec w f) as [->|Hne]|]; cbn [negb].
  2: { wp_steps. split; [done|]. split; [reflexivity|]. split; [done|].
       exists f, w. ssplit; [set_solver|done|by apply Hm]. }
  all: unfold remember; wp_steps; set (m1 := m <| mt_reverse := _ |>);
    assert (Hsub : mt_reverse m ⊆ mt_reverse m1)
      by (unfold m1; cbn; first [by rewrite (insert_id _ _ _ Hf)|by apply insert_subseteq]);
    (eapply wp_mono; [apply (IH m1); by apply sound_remember|cbn beta]);
    intros r m2 (Hm2 & Hsub2 & Hr); wp_steps; (split; [done|]; split; [by etrans|]);
    destruct r as [e|tokens];
    [destruct Hr as [-> (w0 & w' & Hw & ?)]; split; [done|exists w0, w'; split; [set_solver|done]]
    |destruct Hr as [-> Hall]; split; [done|]; constructor; [|done];
     eapply lookup_weaken; [|exact Hsub2]; unfold m1; cbn; by rewrite lookup_insert_eq].
Qed.

(** The words [Encode] gives a token each. *)
Definition textWords (text : string) : list string :=
  match Fields text with [] => [""] | ws => ws end.

(** [Encode] of a blank text puts the empty word under its hash whatever was there. *)
Definition keeps (m m' : mockTokenizer) : Prop :=
  forall id w, mt_reverse m !! id = Some w ->
    mt_reverse m' !! id = Some w \/ (id = stableHash32 "" /\ mt_reverse m' !! id = Some "").

Lemma mockEncode_spec text m : Sound m ->
  wp (mockEncode text) (fun r m' => Sound m' /\ keeps m m' /\
    match r with
    | inr tokens => tokens = stableHash32 <$> textWords text /\
        Forall (fun w => mt_reverse m' !! stableHash32 w = Some w) (textWords text)
    | inl e => collision (Fields text) e
    end) m.
Proof.
  intros Hm. unfold mockEncode, textWords. wp_steps. wp_use (encodeFields_spec (Fields text) m Hm).
  intros r m1 (Hm1 & Hsub & Hr). assert (Hk : keeps m m1).
  { intros id w Hw. left. by eapply lookup_weaken. }
  destruct r as [e|tokens]; [by wp_steps|]. destruct Hr as [-> Hall].
  destruct (Fields text) as [|w ws]; [|by wp_steps]. cbn. unfold remember. wp_steps.
  split; [by apply sound_remember|]. split.
  - intros id w Hw. destruct (decide (id = stableHash32 "")) as [->|Hne].
    { right. split; [done|]. cbn. by rewrite lookup_insert_eq. }
    left. cbn. rewrite lookup_insert_ne by done. by eapply lookup_weaken.
  - split; [done|]. constructor; [|constructor]. cbn. by rewrite lookup_insert_eq.
Qed.

Fixpoint encodeAll (texts : list string) : M mockTokenizer unit :=
  match texts with
  | [] => mret tt
  | text :: texts => mockEncode text ;; encodeAll texts
  end.

Lemma encodeAll_spec texts m : Sound m -> wp (encodeAll texts) (fun _ m' => Sound m' /\ keeps m m') m.
Proof.
  revert m. induction texts as [|t texts IH]; intros m Hm; cbn [encodeAll]; wp_steps.
  { split; [done|]. by left. }
  wp_use (mockEncode_spec t m Hm). intros r m1 (Hm1 & Hk1 & _). wp_use (IH m1 Hm1).
  intros [] m2 [Hm2 Hk2]. split; [done|]. intros id w Hw.
  destruct (Hk1 id w Hw) as [H|[H H']]; [by apply Hk2|]. right. split; [done|].
  by destruct (Hk2 id "" H') as [?|[_ ?]].
Qed.

(** A text whose words are all remembered: [Encode] changes nothing. *)
Lemma encodeFields_known fields m :
  Forall (fun w => mt_reverse m !! stableHash32 w = Some w) fields ->
  encodeFields fields m = Some (inr (stableHash32 <$> fields), m).
Proof.
  induction 1 as [|w ws Hw _ IH]; [done|]. cbn [encodeFields].
  unfold remember, mbind, M_bind, getS, modS. rewrite Hw, String.eqb_refl. cbn [negb].
  assert (E : m <| mt_reverse := <[stableHash32 w := w]> (mt_reverse m) |> = m).
  { destruct m as [r]. unfold setf. cbn in *. by rewrite insert_id. }
  cbv beta. rewrite E, IH. done.
Qed.

Lemma textWords_blank text : Fields text = [] -> textWords text = [""].
Proof. unfold textWords. by intros ->. Qed.

Lemma textWords_cases text :
  (Fields text = [] /\ textWords text = [""]) \/ (Fields text = textWords text /\ Fields text <> []).
Proof. unfold textWords. destruct (Fields text); [by left|by right]. Qed.

(** C32: The mock tokenizer loses nothing but white space.  After any texts, encoding
    a text either gives the hash of each of its words (of the empty word for a
    blank text) or reports a token collision, and then one of its words indeed
    shares its 32-bit hash with another word.  After any further texts, decoding
    these tokens gives the words back, separated by single spaces, and encoding
    that again gives the same tokens, provided no word of the text shares the
    hash of the empty word, which a blank text overwrites. *)
Theorem tokenizer_roundtrip earlier text later :
  wp (encodeAll earlier ;; r ← mockEncode text; encodeAll later ;; mret r)
    (fun r m => match r with
      | inl e => collision (Fields text) e
      | inr tokens => tokens = stableHash32 <$> textWords text /\
          (Forall (fun w => stableHash32 w = stableHash32 "" -> w = "") (textWords text) ->
           mockDecode tokens m = Join (textWords text) " " /\
           mockEncode (mockDecode tokens m) m = Some (inr tokens, m))
      end) newMockTokenizer.
Proof.
  assert (H0 : Sound newMockTokenizer) by (intros id w; cbn; by rewrite lookup_empty).
  wp_steps. wp_use (encodeAll_spec earlier _ H0). intros [] m1 [Hm1 _]. wp_steps.
  wp_use (mockEncode_spec text m1 Hm1). intros r m2 (Hm2 & _ & Hr). wp_steps.
  wp_use (encodeAll_spec later m2 Hm2). intros [] m3 [Hm3 Hk]. wp_steps.
  destruct r as [e|tokens]; [done|]. destruct Hr as [-> Hall]. split; [done|]. intros Hblank.
  assert (Hall3 : Forall (fun w => mt_reverse m3 !! stableHash32 w = Some w) (textWords text)).
  { rewrite Forall_forall in Hall, Hblank |- *. intros w Hw.
    destruct (Hk _ _ (Hall w Hw)) as [H|[H H']]; [done|]. by rewrite <- (Hblank w Hw H) in H'. }
  assert (Hdec : mockDecode (stableHash32 <$> textWords text) m3 = Join (textWords text) " ").
  { unfold mockDecode. f_equal. rewrite <- list_fmap_compose. clear -Hall3.
    induction Hall3 as [|w ws Hw _ IH]; [done|]. cbn. unfold mockWord at 1. by rewrite Hw, IH. }
  split; [done|]. rewrite Hdec.
  destruct (textWords_cases text) as [[Hf Hw]|[Hf Hne]].
  - rewrite Hw in *. apply Forall_cons in Hall3 as [Hw3 _]. unfold mockEncode. cbn.
    unfold remember, mbind, M_bind, modS, mret, M_ret. destruct m3 as [rv]. unfold setf. cbn in *.
    by rewrite insert_id.
  - unfold mockEncode. rewrite Fields_Join by (rewrite <- Hf; apply Fields_isField).
    unfold mbind, M_bind, mret, M_ret. rewrite encodeFields_known by done.
    destruct (textWords text); [by rewrite Hf in Hne|done].
Qed.

(** Encoding always answers. *)
Lemma encodeFields_total fields m : exists r m', encodeFields fields m = Some (r, m').
Proof.
  revert m. induction fields as [|f fs IH]; intros m; [by eexists _, _|]. cbn [encodeFields].
  unfold remember, mbind, M_bind, getS, modS, mret, M_ret. case_match; [by eexists _, _|].
  cbv beta. match goal with |- context [encodeFields fs ?m'] => destruct (IH m') as (r & m2 & ->) end.
  by eexists _, _.
Qed.

Lemma tokEncode_total text tok : exists r tok', tokEncode text tok = Some (r, tok').
Proof.
  destruct tok as [m|q]; cbn; [|eauto]. unfold mockEncode, mbind, M_bind.
  destruct (encodeFields_total (Fields text) m) as (r & m' & ->).
  destruct r as [e|[|x l]]; by eexists _, _.
Qed.

Lemma Encode_total modelID text t : exists r t', Encode modelID text t = Some (r, t').
Proof.
  unfold Encode. destruct (tk_tokenizers t !! modelID) as [tok|]; [|by eexists _, _].
  destruct (tokEncode_total text tok) as (r & tok' & ->). by eexists _, _.
Qed.

(** The dispatch only touches the tokenizer of its model. *)
Lemma Encode_other modelID text t other :
  other <> modelID -> wp (Encode modelID text) (fun _ t' => tk_tokenizers t' !! other = tk_tokenizers t !! other) t.
Proof.
  intros Hne. unfold wp, Encode. destruct (tk_tokenizers t !! modelID) as [tok|]; [|done].
  destruct (tokEncode_total text tok) as (r & tok' & ->). cbn. by rewrite lookup_insert_ne.
Qed.

Example mock_words :
  match mockEncode " the  cat" newMockTokenizer with
  | Some (inr tokens, m) => mockDecode tokens m
  | _ => ""
  end = "the cat".
Proof. vm_compute. reflexivity. Qed.
