(* ===== verification/Handler.v ===== *)
(** * Handler: one generation from prompt to last output (internal/handler/inference.go)

    [GenerateStream] tokenizes the prompt, binds the request to an executor,
    creates it, subscribes to its events and queues its first work item; then a
    goroutine turns the events into outputs until the last one.

    [engine] is the state of everything the handler calls.  [openStream] is
    [GenerateStream] up to the start of the goroutine, [streamStep] one iteration
    of the goroutine's loop, for what its select receives; the output channel is
    the list of outputs sent and whether it is closed. *)

From S2P Require Import Prelude Errors Model Metrics FreeQueue BlockManager BlockProperties BlockRegistry StateMachine RequestProperties RequestFrame Executor Queues Scheduler SchedulerPick SchedulerProperties GoSha256 Tokenizer.

Record engine := mkEngine { en_tokenizer : tokenizer; en_scheduler : scheduler }.
#[export] Instance engine_eta : Eta engine := fun e => mkEngine (en_tokenizer e) (en_scheduler e).

Definition onTokenizer {A} (c : M tokenizer A) : M engine A := fun e =>
  match c (en_tokenizer e) with
  | Some (a, t) => Some (a, e <| en_tokenizer := t |>)
  | None => None
  end.

Definition onScheduler {A} (c : M scheduler A) : M engine A := fun e =>
  match c (en_scheduler e) with
  | Some (a, s) => Some (a, e <| en_scheduler := s |>)
  | None => None
  end.

Definition onRequests {A} (c : M stateManager A) : M engine A := onScheduler (onState c).

Definition requestsOf (e : engine) : stateManager := sd_requestManager (en_scheduler e).

(** The model, the request and the channel the goroutine works with. *)
Record stream := mkStream {
  st_modelID : string;
  st_requestId : string;
  st_eventCh : nat;
  st_out : list GenerateOutput;
  st_outClosed : bool;
  st_running : bool
}.
#[export] Instance stream_eta : Eta stream := fun s =>
  mkStream (st_modelID s) (st_requestId s) (st_eventCh s) (st_out s) (st_outClosed s) (st_running s).

(** The request with its prompt tokenized. *)
Definition tokenized (req : Request) (tokens : list Z) : Request :=
  req <| req_TokenIDs := tokens |> <| req_PromptTokens := u32 (len tokens) |>.

Definition internal (err : error) : error := New CodeInternal (Error err).

(** From the created request on. *)
Definition subscribeAndQueue (req : Request) (prefillItem : WorkItem) : M engine (error + stream) :=
  e ← getS;
  match Subscribe (req_RequestId req) (requestsOf e) with
  | inl err =>
      onRequests (Fail_ (wi_RequestId prefillItem) err) ;;
      mret (inl (internal err))
  | inr eventCh =>
      err ← onScheduler (Enqueue prefillItem);
      match err with
      | Some err => mret (inl (internal err))
      | None => mret (inr (mkStream (req_ModelID req) (wi_RequestId prefillItem) eventCh [] false true))
      end
  end.

Definition openStream (req : Request) : M engine (error + stream) :=
  r ← onTokenizer (Encode (req_ModelID req) (req_Prompt req));
  match r with
  | inl err => mret (inl err)
  | inr tokens =>
      a ← onScheduler (AssignExecutor (tokenized req tokens));
      match a with
      | inl err => mret (inl (New CodeExecutorUnavailable (Error err)))
      | inr req =>
          c ← onRequests (Create req);
          match c with
          | inl err => mret (inl (internal err))
          | inr prefillItem => subscribeAndQueue req prefillItem
          end
      end
  end.

(** What the select of the goroutine receives. *)
Inductive streamInput := Received (event : Event) | EventsClosed | ContextDone.

Definition isPrefillChunk (event : Event) : bool :=
  bool_decide (ev_Type event = EventTypePrefillChunk).

(** The output of an event, decoded with the tokenizers [t]. *)
Definition outputOf (modelID : string) (t : tokenizer) (event : Event) : GenerateOutput :=
  let '(outputText, decodeErr) := Decode modelID [ev_TokenId event] t in
  let event := match decodeErr with Some e => event <| ev_Err := Some e |> | None => event end in
  {|
    go_RequestId := ev_RequestId event;
    go_Index := ev_ChunkIndex event;
    go_DeltaText := outputText;
    go_FinishReason := ev_FinishReason event;
    go_Done := ev_Done event;
    go_Usage := ev_Usage event;
    go_Timing := ev_Timing event;
    go_BatchID := ev_BatchId event;
    go_BatchSize := 0;
    go_ExecutorId := ev_ExecutorId event;
    go_Err := ev_Err event
  |}.

(** [close(chOut)] and the return of the goroutine; a second close panics. *)
Definition closeOut (st : stream) : M engine stream :=
  getsO (fun _ => if st_outClosed st then None
                  else Some (st <| st_outClosed := true |> <| st_running := false |>)).

Definition streamStep (i : streamInput) (st : stream) : M engine stream :=
  match i with
  | Received event =>
      if isPrefillChunk event then mret st
      else
        e ← getS;
        let output := outputOf (st_modelID st) (en_tokenizer e) event in
        let st := st <| st_out := st_out st ++ [output] |> in
        if ev_Done event then
          onRequests (Finish (st_requestId st)) ;;
          closeOut st
        else mret st
  | EventsClosed => mret (st <| st_running := false |>)
  | ContextDone =>
      onRequests (Cancel (st_requestId st)) ;;
      closeOut st
  end.

Fixpoint streamRun (inputs : list streamInput) (st : stream) : M engine stream :=
  match inputs with
  | [] => mret st
  | i :: inputs =>
      if st_running st then st ← streamStep i st; streamRun inputs st
      else mret st
  end.

(** ** The goroutine *)

(** The input ends the loop. *)
Definition stops (i : streamInput) : bool :=
  match i with
  | Received event => negb (isPrefillChunk event) && ev_Done event
  | EventsClosed | ContextDone => true
  end.

(** The inputs the loop takes: up to the first that ends it. *)
Definition handled (inputs : list streamInput) : list streamInput := upto stops inputs.

(** The events that become outputs. *)
Definition forwarded (inputs : list streamInput) : list Event :=
  omap (fun i => match i with
    | Received event => if isPrefillChunk event then None else Some event
    | _ => None end) inputs.

Lemma wp_onRequests {A} (c : M stateManager A) P e :
  wp c (fun a rm => P a (e <| en_scheduler := en_scheduler e <| sd_requestManager := rm |> |>)) (requestsOf e) ->
  wp (onRequests c) P e.
Proof.
  unfold wp, onRequests, onScheduler, onState, requestsOf.
  by destruct (c (sd_requestManager (en_scheduler e))) as [[a rm]|].
Qed.

(** The engine after the request was ended, told nothing more. *)
Definition requestEnded (e e' : engine) (id : string) : Prop :=
  exists rm, e' = e <| en_scheduler := en_scheduler e <| sd_requestManager := rm |> |> /\
    SMOK rm /\ ended (requestsOf e) rm id [].

Lemma end_spec p e id : SMOK (requestsOf e) ->
  wp (onRequests (ch ← endRequest p id; closeOpt ch)) (fun _ e' => requestEnded e e' id) e.
Proof.
  intros HS. apply wp_onRequests. wp_use (closeOpt_spec p (requestsOf e) id HS).
  intros _ rm [HS' Hend]. by exists rm.
Qed.

(** How the loop leaves the stream and the engine after its last input. *)
Definition settledBy (i : option streamInput) (e e' : engine) (st st' : stream) : Prop :=
  match i with
  | None => e' = e /\ st_running st' = true /\ st_outClosed st' = false
  | Some EventsClosed => e' = e /\ st_running st' = false /\ st_outClosed st' = false
  | Some _ => requestEnded e e' (st_requestId st) /\ st_running st' = false /\ st_outClosed st' = true
  end.

(** A stream delivers the events of its request in order and ends it once.  For
    any sequence of inputs, the goroutine takes them up to the first that stops
    it: a [Done] event, the end of the context, or the closing of the event
    channel.  The outputs are those of the events taken, prefill chunks left out,
    decoded one token at a time.  A [Done] event or the end of the context ends
    the request in the request manager, frees its blocks and closes the output
    channel, exactly once and as the last thing; when the event channel is closed
    first, the goroutine returns and leaves the output channel open. *)
Lemma streamRun_spec e st inputs
  (HS : SMOK (requestsOf e)) (Hrun : st_running st = true) (Hopen : st_outClosed st = false) :
  wp (streamRun inputs st) (fun st' e' =>
    st_out st' = st_out st ++ (outputOf (st_modelID st) (en_tokenizer e) <$> forwarded (handled inputs)) /\
    st_requestId st' = st_requestId st /\
    settledBy (List.find stops inputs) e e' st st') e.
Proof.
  revert st Hrun Hopen. induction inputs as [|i inputs IH]; intros st Hrun Hopen; cbn [streamRun].
  { wp_steps. cbn. by rewrite app_nil_r. }
  rewrite Hrun. wp_steps. destruct (stops i) eqn:Hi.
  - unfold handled; cbn [upto List.find]. rewrite Hi.
    assert (Hstop : forall st1, st_running st1 = false -> forall Q : stream -> engine -> Prop, forall e1,
      Q st1 e1 -> wp (streamRun inputs st1) Q e1).
    { intros st1 H1 Q e1 HQ. destruct inputs; cbn [streamRun]; [by wp_steps|]. rewrite H1. by wp_steps. }
    destruct i as [event| |]; cbn [streamStep].
    + cbn in Hi. apply andb_true_iff in Hi as [Hc%negb_true_iff Hd]. rewrite Hc, Hd. wp_steps.
      eapply wp_mono; [apply (end_spec _ e (st_requestId st) HS)|cbn beta]. intros _ e1 He. wp_steps.
      unfold closeOut. eapply wp_getsO; [cbn; by rewrite Hopen|].
      apply Hstop; [done|]. cbn. rewrite Hc. cbn. by ssplit.
    + wp_steps. apply Hstop; [done|]. cbn. rewrite app_nil_r. by ssplit.
    + wp_steps. eapply wp_mono; [apply (end_spec _ e (st_requestId st) HS)|cbn beta]. intros _ e1 He. wp_steps.
      unfold closeOut. eapply wp_getsO; [cbn; by rewrite Hopen|].
      apply Hstop; [done|]. cbn. rewrite app_nil_r. by ssplit.
  - unfold handled; cbn [upto List.find]. rewrite Hi. fold (handled inputs). destruct i as [event| |]; [|done..]. cbn [streamStep].
    cbn in Hi. cbn [forwarded omap list_omap]. destruct (isPrefillChunk event) eqn:Hc; cbn [negb andb] in Hi.
    + wp_steps. by apply IH.
    + wp_steps. rewrite Hi. wp_steps. set (st1 := st <| st_out := _ |>).
      eapply wp_mono; [apply (IH st1 Hrun Hopen)|]. intros st2 e2 (Ho & Hid & Hs). split.
      * rewrite Ho. cbn. by rewrite <- app_assoc.
      * split; [done|]. exact Hs.
Qed.

(** ** Opening a stream *)

Lemma wp_onScheduler {A} (c : M scheduler A) P e :
  wp c (fun a s => P a (e <| en_scheduler := s |>)) (en_scheduler e) -> wp (onScheduler c) P e.
Proof. unfold wp, onScheduler. by destruct (c (en_scheduler e)) as [[a s]|]. Qed.

(** A request without an executor gets a registered one, whatever the counter. *)
Lemma AssignExecutor_bound req s :
  wp (AssignExecutor req) (fun r s' => (exists n, s' = s <| sd_nextExecutor := n |>) /\
    match r with
    | inl _ => True
    | inr req' => exists id, id ∈ sd_executorIDs s /\ req' = req <| req_ExecutorID := id |>
    end) s.
Proof.
  assert (Hs : exists n, s = s <| sd_nextExecutor := n |>) by (exists (sd_nextExecutor s); by destruct s).
  unfold AssignExecutor. wp_steps. destruct (String.eqb (req_ExecutorID req) "").
  - destruct (Z.eqb_spec (len (sd_executorIDs s)) 0) as [|Hne]; [by wp_steps|]. wp_steps.
    pose proof (len_nonneg (sd_executorIDs s)).
    pose proof (Z.mod_pos_bound (sd_nextExecutor s) (len (sd_executorIDs s)) ltac:(lia)) as Hm.
    destruct (proj2 (idx_is_Some (sd_executorIDs s) _) Hm) as [id Hid].
    eapply wp_getsO; [exact Hid|]. wp_steps. split; [by eexists|].
    exists id. split; [by eapply idx_elem|done].
  - destruct (existsb (String.eqb (req_ExecutorID req)) (sd_executorIDs s)) eqn:Hx; wp_steps; [|done].
    split; [done|]. apply existsb_exists in Hx as (x & Hx & E%String.eqb_eq).
    exists x. split; [by apply list_elem_of_In|]. subst x. by destruct req.
Qed.

Lemma subscribeAndQueue_spec e req w k ch :
  wired (en_scheduler e) -> SMOK (requestsOf e) ->
  (forall k q, queues k (en_scheduler e) !! wi_ExecutorID w = Some q -> len (wq_works q) < two32) ->
  sm_subscribeCh (requestsOf e) !! req_RequestId req = Some ch ->
  kindOf (sd_longPrefillThreshold (en_scheduler e)) w = Some k ->
  wp (subscribeAndQueue req w) (fun res e' =>
    match res with
    | inl err => CodeOf (Some err) = CodeInternal /\
        exists err', rejected (en_scheduler e) (en_scheduler e') (wi_RequestId w) err'
    | inr st => st = mkStream (req_ModelID req) (wi_RequestId w) ch [] false true /\
        exists q b l, queues k (en_scheduler e) !! wi_ExecutorID w = Some q /\
          en_scheduler e' = setQueues k (<[wi_ExecutorID w := q <| wq_works :=
            wq_works q ++ [w <| wi_EnqueuedAt := sm_now (requestsOf e) |>] |>]> (queues k (en_scheduler e)))
            (en_scheduler e) <| sd_patchExecuteChan := b |> <| sd_metrics := l |>
    end) e.
Proof.
  intros Hw HS Hlen Hch Hk. unfold subscribeAndQueue, Subscribe. wp_steps. rewrite Hch. wp_steps.
  apply wp_onScheduler. wp_use (Enqueue_spec (en_scheduler e) w Hw HS Hlen). rewrite Hk.
  intros res s'. destruct (queues k (en_scheduler e) !! wi_ExecutorID w) as [q|] eqn:Hq.
  - destruct (len (wq_works q) <? wq_size q).
    + intros [-> (b & l & ->)]. wp_steps. split; [done|]. by exists q, b, l.
    + intros (err & -> & _ & Hrej). wp_steps. split; [done|]. by exists err.
  - intros (err & -> & _ & Hrej). wp_steps. split; [done|]. by exists err.
Qed.

(** The stream of [req], prompt [tokens], is open: the request is live, its
    channel empty, and its first work item [w] the last of its queue. *)
Definition opened (e e' : engine) (req : Request) (tokens : list Z) (st : stream) : Prop :=
  let id := req_RequestId req in
  let rm := requestsOf e in let rm' := requestsOf e' in
  st = mkStream (req_ModelID req) id (st_eventCh st) [] false true /\
  sm_requests rm !! id = None /\
  sm_subscribeCh rm' = <[id := st_eventCh st]> (sm_subscribeCh rm) /\
  sm_channels rm' !! st_eventCh st = Some (mkChannel [] false) /\
  exists ex req' k q w,
    ex ∈ sd_executorIDs (en_scheduler e) /\
    sm_requests rm' = <[id := req']> (sm_requests rm) /\
    req_ExecutorID req' = ex /\ req_TokenIDs req' = tokens /\
    kindOf (sd_longPrefillThreshold (en_scheduler e)) w = Some k /\
    wi_RequestId w = id /\ wi_ExecutorID w = ex /\
    queues k (en_scheduler e) !! ex = Some q /\
    forall k', queues k' (en_scheduler e') =
      if decide (k' = k) then <[ex := q <| wq_works := wq_works q ++ [w] |>]> (queues k (en_scheduler e))
      else queues k' (en_scheduler e).

(** Nothing of the request is left. *)
Definition unopened (e e' : engine) : Prop :=
  sm_requests (requestsOf e') = sm_requests (requestsOf e) /\
  sm_subscribeCh (requestsOf e') = sm_subscribeCh (requestsOf e) /\
  forall k, queues k (en_scheduler e') = queues k (en_scheduler e).

Lemma created_kind s s' req e pm w t : created s s' req e pm w -> exists k, kindOf t w = Some k.
Proof.
  intros (m & m' & ids & H). destruct_and! H. unfold kindOf.
  case_match; destruct_and!; (replace (wi_Phase w) with WorkPhaseDecode by done) || (replace (wi_Phase w) with WorkPhasePrefill by done); by eexists.
Qed.

(** Queueing the item of a created request opens the stream, or undoes the creation. *)
Lemma created_opens e t' n rm req tokens ex pm w ch :
  let s1 := en_scheduler e <| sd_nextExecutor := n |> <| sd_requestManager := rm |> in
  let req1 := tokenized req tokens <| req_ExecutorID := ex |> in
  SMOK rm -> wired (en_scheduler e) ->
  (forall k ex q, queues k (en_scheduler e) !! ex = Some q -> len (wq_works q) < two32) ->
  sm_requests (requestsOf e) !! req_RequestId req = None ->
  sm_subscribeCh (requestsOf e) !! req_RequestId req = None ->
  ex ∈ sd_executorIDs (en_scheduler e) -> created (requestsOf e) rm req1 ex pm w ->
  sm_subscribeCh rm = <[req_RequestId req := ch]> (sm_subscribeCh (requestsOf e)) ->
  sm_channels rm !! ch = Some (mkChannel [] false) ->
  wp (subscribeAndQueue req1 w) (fun res e' => SMOK (requestsOf e') /\
    match res with
    | inr st => opened e e' req tokens st
    | inl err => unopened e e' /\ CodeOf (Some err) = CodeInternal
    end) (mkEngine t' s1).
Proof.
  intros s1 req1 HS Hw Hlen Hnew Hnsub Hex Hcr Hsub Hch.
  destruct (created_kind _ _ _ _ _ _ (sd_longPrefillThreshold (en_scheduler e)) Hcr) as [k Hk].
  assert (Hqs : forall k, queues k s1 = queues k (en_scheduler e)) by (by intros []).
  pose proof Hcr as (m & m' & ids & _ & _ & _ & _ & _ & _ & _ & Hreq & Hid & Hwe & _).
  eapply wp_mono; [apply (subscribeAndQueue_spec _ _ _ k ch); try done|cbn beta].
  - intros k' q'. change (queues k' s1 !! wi_ExecutorID w = Some q' -> len (wq_works q') < two32). rewrite Hqs. apply Hlen.
  - cbn. by rewrite Hsub, lookup_insert_eq.
  - intros [err|st] e'.
    + intros (Hcode & err' & rm2 & l & Hs2 & HS2 & _ & uuid & Hr & Hs & _).
      rewrite Hid in Hr, Hs. split; [unfold requestsOf; by rewrite Hs2|]. split; [|done]. unfold unopened, requestsOf at 1 3. rewrite Hs2. ssplit.
      * change (sm_requests rm2 = sm_requests (requestsOf e)). rewrite Hr. cbn. rewrite Hreq. by apply delete_insert_id.
      * change (sm_subscribeCh rm2 = sm_subscribeCh (requestsOf e)). rewrite Hs. cbn. rewrite Hsub. by apply delete_insert_id.
      * intros k'. rewrite <- Hqs. by destruct k'.
    + intros (-> & q & b & l & Hq & Hs'). rewrite Hid, Hwe in *.
      change (queues k s1 !! ex = Some q) in Hq. change (en_scheduler (mkEngine t' s1)) with s1 in Hs'.
      rewrite Hqs in Hq, Hs'.
      assert (Hrm : requestsOf e' = rm) by (unfold requestsOf; rewrite Hs'; by destruct k).
      rewrite Hrm. split; [done|]. unfold opened. rewrite Hrm. ssplit; try done.
      eexists ex, _, k, q, (w <| wi_EnqueuedAt := sm_now rm |>).
      ssplit; [exact Hex|exact Hreq|reflexivity|reflexivity|exact Hk|exact Hid|exact Hwe|exact Hq|].
      intros k'. rewrite Hs'. rewrite <- Hqs. etrans; [apply (queues_other k k')|]. by rewrite Hqs.
Qed.

Lemma openStream_spec e req
  (HS : SMOK (requestsOf e)) (Hw : wired (en_scheduler e)) (Hids : "" ∉ sd_executorIDs (en_scheduler e))
  (Hlen : forall k ex q, queues k (en_scheduler e) !! ex = Some q -> len (wq_works q) < two32)
  (Hroom : forall tokens t', Encode (req_ModelID req) (req_Prompt req) (en_tokenizer e) = Some (inr tokens, t') ->
    room (sm_registry (requestsOf e)) (tokenized req tokens)) :
  wp (openStream req) (fun res e' => SMOK (requestsOf e') /\
    match res with
    | inr st => exists tokens t', Encode (req_ModelID req) (req_Prompt req) (en_tokenizer e) = Some (inr tokens, t') /\
        opened e e' req tokens st
    | inl err => unopened e e' /\
        ((exists t', Encode (req_ModelID req) (req_Prompt req) (en_tokenizer e) = Some (inl err, t')) \/
         CodeOf (Some err) = CodeExecutorUnavailable \/ CodeOf (Some err) = CodeInternal)
    end) e.
Proof.
  unfold openStream. apply wp_bind. unfold onTokenizer, wp at 1.
  destruct (Encode_total (req_ModelID req) (req_Prompt req) (en_tokenizer e)) as (r & t' & Henc). rewrite Henc.
  destruct r as [err|tokens]; [split; [done|]; split; [done|left; by eexists]|].
  specialize (Hroom _ _ Henc). set (e1 := e <| en_tokenizer := t' |>).
  apply wp_bind, wp_onScheduler. wp_use (AssignExecutor_bound (tokenized req tokens) (en_scheduler e1)).
  intros a s1 [[n ->] Ha]. destruct a as [err|req1]; [wp_steps; split; [done|]; split; [done|]; by right; left|].
  destruct Ha as (ex & Hex & ->). wp_steps. apply wp_onRequests.
  set (req1 := tokenized req tokens <| req_ExecutorID := ex |>).
  wp_use (Create_spec (requestsOf e) req1 HS Hroom). intros [err|w] rm [HS1 Hc].
  { wp_steps. destruct Hc as [(H1 & H2 & _) _]. split; [done|]. split; [done|]. by right; right. }
  destruct Hc as (Hnew & ex' & pm & Hb & Hcr & Hact & ch & Hsub & Hch).
  assert (Hnsub : sm_subscribeCh (requestsOf e) !! req_RequestId req = None).
  { apply eq_None_not_Some. rewrite <- (so_dom _ HS). change (req_RequestId req) with (req_RequestId req1).
    rewrite Hnew. by intros [? ?]. }
  assert (ex' = ex) as ->.
  { revert Hb. unfold bound_executor. cbn. destruct (String.eqb_spec ex "") as [->|]; [done|]. congruence. }
  wp_steps. eapply wp_mono; [by eapply created_opens|cbn beta].
  intros [err|st] e' [HS2 H]; (split; [exact HS2|]); [|by exists tokens, t'].
  destruct H as [H Hcode]. split; [done|]. by right; right.
Qed.

(** C15: Opening a stream is all or nothing.  [GenerateStream] always answers.  When
    it answers with a stream, the request is live with the tokens of its prompt,
    on a registered executor; its channel is subscribed, empty and open, and its
    first work item stands at the end of one queue of that executor, the other
    queues untouched.  When it answers with an error, the requests, their
    channels and the queues are as they were (whatever was done is undone), and
    the error is the tokenizer's own, or carries the code of an unavailable
    executor when none could be assigned, or the internal code. *)
Theorem open_stream_all_or_nothing e req
  (HS : SMOK (requestsOf e)) (Hw : wired (en_scheduler e)) (Hids : "" ∉ sd_executorIDs (en_scheduler e))
  (Hlen : forall k ex q, queues k (en_scheduler e) !! ex = Some q -> len (wq_works q) < two32)
  (Hroom : forall tokens t', Encode (req_ModelID req) (req_Prompt req) (en_tokenizer e) = Some (inr tokens, t') ->
    room (sm_registry (requestsOf e)) (tokenized req tokens)) :
  wp (openStream req) (fun res e' =>
    match res with
    | inr st => exists tokens t', Encode (req_ModelID req) (req_Prompt req) (en_tokenizer e) = Some (inr tokens, t') /\
        opened e e' req tokens st
    | inl err => unopened e e' /\
        ((exists t', Encode (req_ModelID req) (req_Prompt req) (en_tokenizer e) = Some (inl err, t')) \/
         CodeOf (Some err) = CodeExecutorUnavailable \/ CodeOf (Some err) = CodeInternal)
    end) e.
Proof. wp_use openStream_spec; try done. by intros res e' [_ H]. Qed.
