(* ===== verification/EngineProperties.v ===== *)
(** * EngineProperties: the engine as a whole

    The goroutines of the server as one step relation over the state of [Handler]:
    a stream is opened, its goroutine takes an event or is cancelled, the
    scheduler makes a round of batches, an event is handled, a consumer takes a
    batch, its call returns, an event is sent, time passes.  Every step keeps the
    invariant [Flow], so that no step panics and no request is lost. *)

From S2P Require Import Prelude Errors Model Metrics FreeQueue BlockManager BlockProperties BlockRegistry StateMachine RequestProperties RequestFrame Executor ExecutorProperties Queues QueueProperties Scheduler SchedulerPick SchedulerProperties Engine EngineRequests EngineSteps GoSha256 Tokenizer Handler.
(** ** Steps *)

Definition workOf (e : engine) : list token := tokens (en_scheduler e).

(** What the system asks of a new request.  Its id, which the client chooses, is
    not that of work still under way for an ended request; its prompt has at
    least one token, and the block references of the executors, whatever part
    of the prompt is cached, stay below 2^32. *)
Definition admissible (e : engine) (req : Request) : Prop :=
  (live_in (requestsOf e) (req_RequestId req) \/ req_RequestId req ∉ (tok_rid <$> workOf e)) /\
  forall tokens t', Encode (req_ModelID req) (req_Prompt req) (en_tokenizer e) = Some (inr tokens, t') ->
    tokens <> [] /\ spacious (requestsOf e) (tokenized req tokens).

(** A piece of a consumer goroutine. *)
Definition onConsumer {A} (c : M executorManager A) : M engine A := onScheduler (onExecutors c).

Definition workerOf (e : engine) (id : string) : option worker := em_workers (sd_executorManager (en_scheduler e)) !! id.
Definition batchesOf (e : engine) (id : string) : option (list Batch) := em_batchChans (sd_executorManager (en_scheduler e)) !! id.

(** One send of the events of executor [id], which a full channel blocks. *)
Definition sendEvent (id : string) (event : Event) (events : list Event) : M executorManager unit :=
  modS (fun em => em <| em_eventChan := em_eventChan em ++ [event] |>
                     <| em_workers := <[id := Sending events]> (em_workers em) |>).

(** The pieces the goroutines run between two blocking operations, with the
    condition under which the scheduler of the language may run them. *)
Inductive action :=
| AOpen (req : Request)
| AStream (i : streamInput) (st : stream)
| ABatch (ctx : option error) (room_first signal : bool)
| APatch (ctx : option error) (room_first : bool) (id : string)   (* one executor of a round *)
| AEvent
| ATake (id : string) (batch : Batch) (rest : list Batch)
| AOutcome (id : string) (batch : Batch) (resp : error + list ExecuteResult) (now : Time)
| ASend (id : string) (event : Event) (events : list Event)
| ADone (id : string)
| AClock (t : Time).

Definition may_run (a : action) (e : engine) : Prop :=
  match a with
  | AOpen req => admissible e req
  | AStream i st => st_outClosed st = false
  | ATake id batch rest => workerOf e id = Some Idle /\ batchesOf e id = Some (batch :: rest)
  | AOutcome id batch resp now => workerOf e id = Some (Running batch) /\ honest (bt_Items batch) resp
  | ASend id event events => workerOf e id = Some (Sending (event :: events)) /\
      len (em_eventChan (sd_executorManager (en_scheduler e))) < chanCap
  | ADone id => workerOf e id = Some (Sending [])
  | APatch _ _ id => id ∈ sd_executorIDs (en_scheduler e)
  | ABatch _ _ _ | AEvent | AClock _ => True
  end.

Definition perform (a : action) : M engine unit :=
  match a with
  | AOpen req => openStream req ;; mret tt
  | AStream i st => streamStep i st ;; mret tt
  | ABatch ctx room_first signal => onScheduler (BatchRound ctx room_first signal)
  | APatch ctx room_first id => onScheduler (patchExecute ctx room_first id)
  | AEvent => onScheduler consumeEvent
  | ATake id batch rest => onConsumer (consumeBatch id batch rest)
  | AOutcome id batch resp now => onConsumer (consumeOutcome id batch resp now) ;; mret tt
  | ASend id event events => onConsumer (sendEvent id event events)
  | ADone id => onConsumer (setWorker id Idle)
  | AClock t => onRequests (modS (fun rm => rm <| sm_now := t |>))
  end.

Inductive served (e0 : engine) : engine -> Prop :=
| serve_start : served e0 e0
| serve_step a e e' : served e0 e -> may_run a e -> perform a e = Some (tt, e') -> served e0 e'.

Definition EngineOK (e : engine) : Prop := Flow (en_scheduler e) [].

(** ** Each action keeps the invariant *)

Lemma flow_nextExecutor s H n : Flow s H -> Flow (s <| sd_nextExecutor := n |>) H.
Proof. intros [H1 H2 H3 H4 H5]. split; try done. by destruct H2. Qed.

Lemma flow_clock s H t : Flow s H -> Flow (s <| sd_requestManager := sd_requestManager s <| sm_now := t |> |>) H.
Proof.
  intros [H1 H2 H3 H4 H5]. assert (HS : SMOK (sd_requestManager s <| sm_now := t |>)) by (by apply smok_now).
  split; try done; [by apply wired_requests|].
  apply (work_end _ (sd_requestManager s) _ _ []); try done; [|set_solver]. by apply evolves_same.
Qed.

Lemma Cancel_flow s H id p : Flow s H -> (forall t, t ∈ H -> tok_rid t <> id) ->
  wp (onState (ch ← endRequest p id; closeOpt ch)) (fun _ s' => Forall (live (sd_requestManager s')) H -> Flow s' H) s.
Proof.
  intros HF Hne. apply wp_onState_with.
  wp_use (closeOpt_work (sd_longPrefillThreshold s) _ (H ++ tokens s) p id (fl_requests _ _ HF) (fl_work _ _ HF)).
  intros _ rm' (HS' & Hr & HW & Hu) Hl. split; try done; [apply wired_requests; [apply HF|done]|].
  intros e. apply Hr, HF.
Qed.

Lemma Cancel_engine p id e : EngineOK e ->
  wp (onRequests (ch ← endRequest p id; closeOpt ch)) (fun _ e' => EngineOK e') e.
Proof.
  intros HF. unfold onRequests. apply wp_onScheduler. wp_use (Cancel_flow (en_scheduler e) [] id p HF); [set_solver|].
  intros _ s' Hs. apply Hs. constructor.
Qed.

Lemma streamStep_ok i st e : EngineOK e -> st_outClosed st = false ->
  wp (streamStep i st) (fun _ e' => EngineOK e') e.
Proof.
  intros HF Hopen. unfold streamStep. destruct i as [event| |].
  - destruct (isPrefillChunk event); wp_steps; [done|]. destruct (ev_Done event); wp_steps; [|done].
    wp_use (Cancel_engine RequestPhaseFinished (st_requestId st) e HF). intros _ e1 HF1. wp_steps.
    unfold closeOut. eapply wp_getsO; [cbn; by rewrite Hopen|done].
  - by wp_steps.
  - wp_steps. wp_use (Cancel_engine RequestPhaseCanceled (st_requestId st) e HF). intros _ e1 HF1. wp_steps.
    unfold closeOut. eapply wp_getsO; [cbn; by rewrite Hopen|done].
Qed.

(** A live id is refused, and nothing changes. *)
Lemma Create_exists rm req : live_in rm (req_RequestId req) ->
  exists err, Create req rm = Some (inl err, rm).
Proof. intros [r Hr]. unfold Create, mbind, M_bind, getS. rewrite Hr. by eexists. Qed.

Lemma subscribeAndQueue_ok req w e : Flow (en_scheduler e) [Queued w] ->
  wp (subscribeAndQueue req w) (fun _ e' => EngineOK e') e.
Proof.
  intros HF. unfold subscribeAndQueue. wp_steps. destruct (Subscribe _ _) as [err|ch].
  - wp_steps. unfold onRequests. apply wp_onScheduler. wp_use (flow_fail (en_scheduler e) [] (Queued w) err HF).
    intros _ s' [HF' _]. by wp_steps.
  - wp_steps. apply wp_onScheduler. wp_use (Enqueue_flow (en_scheduler e) [] w HF). intros r s' (_ & HF' & _).
    destruct r; by wp_steps.
Qed.

Lemma openStream_ok req e : EngineOK e -> admissible e req -> wp (openStream req) (fun _ e' => EngineOK e') e.
Proof.
  intros HF [Hid Hprompt]. unfold openStream. apply wp_bind. unfold onTokenizer, wp at 1.
  destruct (Encode_total (req_ModelID req) (req_Prompt req) (en_tokenizer e)) as (r & t' & Henc). rewrite Henc.
  destruct r as [err|toks]; [done|]. destruct (Hprompt _ _ Henc) as [Hne Hsp].
  set (e1 := e <| en_tokenizer := t' |>). apply wp_bind, wp_onScheduler.
  wp_use (AssignExecutor_bound (tokenized req toks) (en_scheduler e1)). intros a s1 [[n ->] Ha].
  assert (HF1 : Flow (en_scheduler e <| sd_nextExecutor := n |>) []) by (by apply flow_nextExecutor).
  destruct a as [err|req1]; [by wp_steps|]. destruct Ha as (ex & _ & ->). wp_steps.
  set (req1 := tokenized req toks <| req_ExecutorID := ex |>). apply wp_onRequests.
  pose proof HF1 as [HS HWd Hroom Hheld HW]. destruct Hid as [Hl|Hnew].
  { destruct (Create_exists (requestsOf e) req1 Hl) as [err Hc].
    match goal with |- wp _ _ ?x => change x with (requestsOf e) end. unfold wp. rewrite Hc. by wp_steps. }
  match goal with |- wp _ _ ?x => change x with (requestsOf e) end.
  assert (Hp : req_PromptTokens req1 = len (req_TokenIDs req1)).
  { cbn. apply u32_small. split; [apply len_nonneg|apply Hsp]. }
  wp_use (Create_work _ (requestsOf e) (tokens (en_scheduler e)) req1 HS (wd_uuids _ HWd) HW Hroom Hnew Hsp Hne Hp).
  intros res rm' (HS' & Hroom' & Hu & Hres). set (s2 := setf sd_requestManager _ _).
  assert (Hw2 : Wired (en_scheduler e <| sd_nextExecutor := n |> <| sd_requestManager := rm' |>)) by (by apply wired_requests).
  destruct res as [err|w]; wp_steps; [by split|]. destruct Hres as [HW' Hl]. apply subscribeAndQueue_ok.
  split; try done. by constructor.
Qed.

Lemma onConsumer_ok {A} (c : M executorManager A) e :
  wp c (fun _ em => Flow (en_scheduler e <| sd_executorManager := em |>) []) (sd_executorManager (en_scheduler e)) ->
  wp (onConsumer c) (fun _ e' => EngineOK e') e.
Proof. intros Hc. unfold onConsumer. apply wp_onScheduler, wp_onExecutors. by wp_use Hc. Qed.

(** Every action the invariant's state allows returns, and keeps it. *)
Lemma perform_ok a e : EngineOK e -> may_run a e -> wp (perform a) (fun _ e' => EngineOK e') e.
Proof.
  intros HF Ha. destruct a as [req|i st|ctx rf sg|ctx rf id| |id b rest|id b resp now|id ev evs|id|t]; cbn [perform] in *; wp_steps.
  - wp_use (openStream_ok req e HF Ha). intros ? ? ?. by wp_steps.
  - wp_use (streamStep_ok i st e HF Ha). intros ? ? ?. by wp_steps.
  - apply wp_onScheduler. wp_use (BatchRound_flow ctx rf sg (en_scheduler e) [] HF). by intros _ s' [_ ?].
  - apply wp_onScheduler. wp_use (patchExecute_flow ctx rf id (en_scheduler e) [] HF Ha). by intros _ s' [_ ?].
  - apply wp_onScheduler. by wp_use (consumeEvent_flow (en_scheduler e) [] HF).
  - destruct Ha. by apply onConsumer_ok, take_flow.
  - destruct Ha. wp_use (onConsumer_ok (consumeOutcome id b resp now) e (outcome_flow _ _ _ _ _ _ HF ltac:(done) ltac:(done))).
    intros ? ? ?. by wp_steps.
  - destruct Ha. apply onConsumer_ok. unfold sendEvent. wp_steps. by apply send_flow.
  - apply onConsumer_ok. unfold setWorker. wp_steps. by apply done_flow.
  - unfold onRequests. apply wp_onScheduler, wp_onState_with. wp_steps. by apply flow_clock.
Qed.

Lemma served_ok e0 e : EngineOK e0 -> served e0 e -> EngineOK e.
Proof.
  intros H0. induction 1 as [|a e e' _ IH Ha Hp]; [done|]. pose proof (perform_ok a e IH Ha) as Hw.
  unfold wp in Hw. by rewrite Hp in Hw.
Qed.

(** ** What the invariant says *)

(** One piece of work for every request that can run. *)
Lemma flow_one s : Flow s [] -> forall id req, sm_requests (sd_requestManager s) !! id = Some req ->
  terminal (req_Phase req) = false -> exists t, filter (fun t => tok_rid t = id) (tokens s) = [t].
Proof.
  intros [_ _ _ _ HW] id req Hr Ht. cbn in HW. pose proof (wk_lost _ _ _ HW id req Hr Ht) as Hin.
  pose proof (wk_rids _ _ _ HW) as Hnd.
  assert (Hl : live_in (sd_requestManager s) id) by (by exists req). clear HW. induction (tokens s) as [|t T IH]; [by apply not_elem_of_nil in Hin|].
  rewrite filter_cons. rewrite filter_cons in Hnd. destruct (decide (tok_rid t = id)) as [E|E].
  - exists t. f_equal. rewrite decide_True in Hnd by (unfold live; by rewrite E). rewrite fmap_cons in Hnd.
    apply NoDup_cons in Hnd as [Hnot _]. clear -Hnot E Hl. induction T as [|t' T IH]; [done|].
    rewrite filter_cons in Hnot |- *. destruct (decide (tok_rid t' = id)) as [E'|E'].
    + rewrite decide_True in Hnot by (unfold live; by rewrite E'). exfalso. apply Hnot. rewrite fmap_cons, E, <- E'. by left.
    + apply IH. intros Hx. apply Hnot. case_decide; [rewrite fmap_cons; by right|done].
  - apply IH.
    + rewrite fmap_cons in Hin. apply elem_of_cons in Hin as [?|?]; [congruence|done].
    + case_decide; [rewrite fmap_cons in Hnd; by apply NoDup_cons in Hnd as [_ ?]|done].
Qed.

(** The queued items of an executor are tokens. *)
Lemma flow_queued s k e w : Flow s [] -> w ∈ queued k e s -> Queued w ∈ tokens s.
Proof.
  intros HF Hw. pose proof (fl_wired _ _ HF) as HWd.
  assert (He : e ∈ sd_executorIDs s).
  { apply (wd_queues _ HWd k). unfold queued in Hw. destruct (queues k s !! e); [by eexists|by apply not_elem_of_nil in Hw]. }
  destruct (tokens_at s e (wd_ids _ HWd) He) as (rest & _ & _ & ->). unfold executorTokens, queueTokens.
  apply elem_of_app. left. apply elem_of_app. left. apply list_elem_of_fmap_2. rewrite !elem_of_app. destruct k; tauto.
Qed.

(** The scheduler's view of every executor is in order. *)
Lemma flow_schedulable s e : Flow s [] -> e ∈ sd_executorIDs s -> SchedOK e s.
Proof.
  intros HF He. pose proof HF as [HS HWd Hroom _ HW]. cbn in HW. split; try done.
  - intros k. by apply (wd_queues _ HWd).
  - apply HWd.
  - intros k w Hw Hrun. destruct (wd_kinds _ HWd k e w Hw) as [Hk Hwe]. destruct (runnable_live _ _ Hrun) as [req Hreq].
    pose proof (proj1 (Forall_forall _ _) (wk_ok _ _ _ HW) _ (flow_queued s k e w HF Hw)) as [_ Hok].
    destruct (Hok req Hreq) as (Hterm & m & c & Hm & Hc & (k' & Hwf) & Hwc & Hcont & Hback).
    pose proof Hwf as (Hwe' & Hk' & _). rewrite Hwe in Hwe'. subst e. assert (k' = k) as -> by congruence.
    split; [by rewrite Hwe'|]. destruct (backed_has_table m w c Hback Hwc) as (old & Htab & _ & Hno).
    exists req, m, c, old. rewrite Hwe'. by ssplit.
  - unfold waiting. set (W := _ ++ _ ++ _).
    destruct (tokens_at s e (wd_ids _ HWd) He) as (rest & _ & _ & Ht).
    pose proof (wk_rids _ _ _ HW) as Hnd. rewrite Ht in Hnd. unfold executorTokens, queueTokens in Hnd. fold W in Hnd.
    rewrite <- !app_assoc, filter_app, fmap_app in Hnd. apply NoDup_app in Hnd as [Hnd _].
    apply (sublist_NoDup _ _ Hnd). clear. induction W as [|w W IH]; [done|]. rewrite fmap_cons, !filter_cons.
    destruct (decide (runnable (sd_requestManager s) w = true)) as [Hr|Hr].
    + rewrite decide_True by (by apply runnable_live in Hr). by apply sublist_skip.
    + case_decide; [by apply sublist_cons|done].
Qed.
