(* ===== verification/EngineTermination.v ===== *)
(** * EngineTermination: the engine does bounded work

    The load of [EngineLoad] along the actions of [EngineProperties]: no action
    but the opening of a stream adds to it, and an action that moves work on
    takes some away.  So the goroutines can only do a bounded number of steps that
    matter until a new request comes. *)

From S2P Require Import Prelude Errors Model Metrics FreeQueue BlockManager BlockProperties BlockRegistry StateMachine RequestProperties RequestFrame Executor ExecutorProperties Queues QueueProperties Scheduler SchedulerPick SchedulerProperties Engine EngineRequests EngineSteps EngineLoad GoSha256 Tokenizer Handler EngineProperties.
(** ** The consumers *)

Definition managerOf (e : engine) : executorManager := sd_executorManager (en_scheduler e).

Section weight.
Context (weight : Z) (Hweight : 3 <= weight <= 4).

Lemma load_manager s em : load weight (s <| sd_executorManager := em |>) =
  load weight s - pipeLoad weight (sd_executorManager s) + pipeLoad weight em.
Proof. unfold load, queueLoad. cbn. lia. Qed.

(** What a piece of a consumer does to the pipeline. *)
Definition lightens (em em' : executorManager) : Prop :=
  pipeLoad weight em' < pipeLoad weight em /\ (fruitful em -> fruitful em').

Lemma take_lightens e batch rest em em' :
  em_workers em !! e = Some Idle -> em_batchChans em !! e = Some (batch :: rest) ->
  consumeBatch e batch rest em = Some (tt, em') -> lightens em em'.
Proof using Hweight.
  intros Hw Hq [= <-]. split.
  - unfold pipeLoad. cbn -[chanLoad workerLoad]. rewrite (msum_update _ _ _ _ _ Hq), (msum_update _ _ _ _ _ Hw).
    unfold chanLoad at 2. cbn [zsum workerLoad]. fold (chanLoad weight rest). unfold batchLoad. pose proof (len_nonneg (bt_Items batch)). lia.
  - intros [H1 H2]. split; [done|]. cbn. intros e' evs. intros [[_ ?]|[_ H]]%lookup_insert_Some; [done|by eapply H2].
Qed.

Lemma send_lightens e event events em em' :
  em_workers em !! e = Some (Sending (event :: events)) ->
  sendEvent e event events em = Some (tt, em') -> lightens em em'.
Proof.
  intros Hw [= <-]. split.
  - unfold pipeLoad. cbn -[chanLoad workerLoad]. rewrite (msum_update _ _ _ _ _ Hw). cbn. rewrite len_app, len_cons.
    change (len [event]) with 1. lia.
  - intros [H1 H2]. pose proof (H2 _ _ Hw) as Hev. apply Forall_cons in Hev as [Hev Hevs]. split.
    + cbn. apply Forall_app. split; [done|]. by constructor.
    + cbn. intros e' evs. intros [[_ [= <-]]|[_ H]]%lookup_insert_Some; [done|by eapply H2].
Qed.

Lemma done_lightens e em em' : em_workers em !! e = Some (Sending []) ->
  setWorker e Idle em = Some (tt, em') -> lightens em em'.
Proof.
  intros Hw [= <-]. split.
  - unfold pipeLoad. cbn -[chanLoad workerLoad]. rewrite (msum_update _ _ _ _ _ Hw). cbn. change (len []) with 0. lia.
  - intros [H1 H2]. split; [done|]. cbn. intros e' evs. intros [[_ ?]|[_ H]]%lookup_insert_Some; [done|by eapply H2].
Qed.

(** An answer reports one token for each decode item it answers. *)
Definition generous (items : list WorkItem) (resp : error + list ExecuteResult) : Prop :=
  match resp with
  | inl _ => True
  | inr results => forall r w, r ∈ results -> w ∈ items -> er_WorkId r = wi_WorkId w ->
      wi_Phase w = WorkPhaseDecode -> er_ErrorMessage r = "" -> er_GeneratedTokens r = 1
  end.

Lemma outcome_fruitful m x resp batch now events isErr : generous (bt_Items batch) resp ->
  outcome m x resp batch now = Some (events, isErr) -> Forall one_token events.
Proof.
  intros Hg. unfold outcome, Execute. destruct (BatchToExecute _ batch); [|done]. cbn.
  destruct resp as [err|results]; intros [= <- _]; apply Forall_forall; intros ev.
  - intros (w & -> & _)%list_elem_of_fmap. by intros [=].
  - unfold resultEvents. intros (r & Hr & Hev)%list_elem_of_omap.
    destruct (worksOf (bt_Items batch) !! er_WorkId r) as [w|] eqn:Hw; [|done]. injection Hev as <-.
    destruct (worksOf_lookup _ ∅ _ _ Hw) as [[Hin Hid]|Hl]; [|by rewrite lookup_empty in Hl].
    unfold one_token. cbn. unfold nextPhase, resultError.
    destruct (String.eqb_spec (er_ErrorMessage r) "") as [E|E]; [|done]. intros Ht.
    apply (Hg r w Hr Hin); [done| |done]. destruct (wi_Phase w); [by case_match|done..].
Qed.

Lemma outcome_lightens s H e batch resp now events em' : Flow s H ->
  em_workers (sd_executorManager s) !! e = Some (Running batch) ->
  honest (bt_Items batch) resp -> generous (bt_Items batch) resp ->
  consumeOutcome e batch resp now (sd_executorManager s) = Some (events, em') ->
  lightens (sd_executorManager s) em'.
Proof.
  intros HF Hw Hh Hg. unfold consumeOutcome, runOutcome, addInflight, setWorker, em_metric, getsO, mbind, M_bind, modS, mret, M_ret.
  destruct (em_executors _ !! e) as [m|] eqn:Hm; cbn; [|done].
  destruct (outcome m e resp batch now) as [[evs isErr]|] eqn:Ho; cbn; [|done].
  assert (Hnd : NoDup (wi_WorkId <$> bt_Items batch)).
  { pose proof HF as [_ HWd _ _ HW]. assert (He : e ∈ sd_executorIDs s) by (apply (wd_workers _ HWd); by eexists).
    pose proof (wk_wids _ _ _ HW) as Hnd. destruct (tokens_at s e (wd_ids _ HWd) He) as (rest & _ & _ & Ht).
    rewrite Ht in Hnd. unfold executorTokens, workerTokens in Hnd. rewrite Hw in Hnd. rewrite !fmap_app in Hnd.
    apply NoDup_app in Hnd as (_ & _ & Hnd). apply NoDup_app in Hnd as (Hnd & _ & _).
    apply NoDup_app in Hnd as (_ & _ & Hnd). apply NoDup_app in Hnd as (_ & _ & Hnd).
    rewrite <- list_fmap_compose in Hnd. exact Hnd. }
  destruct (outcome_reports _ _ _ _ _ _ _ Hnd Hh Ho) as (items & Hp & Hrep).
  assert (Hlen : len evs = len (bt_Items batch)).
  { unfold len. f_equal. rewrite <- (Forall2_length _ _ _ Hrep). by apply Permutation_length. }
  pose proof (outcome_fruitful _ _ _ _ _ _ _ Hg Ho) as Hone. pose proof (len_nonneg (bt_Items batch)).
  assert (Hend : forall em', em_batchChans em' = em_batchChans (sd_executorManager s) ->
    em_eventChan em' = em_eventChan (sd_executorManager s) ->
    em_workers em' = <[e := Sending evs]> (em_workers (sd_executorManager s)) -> lightens (sd_executorManager s) em').
  { intros em1 E1 E2 E3. split.
    - unfold pipeLoad. rewrite E1, E2, E3, (msum_update _ _ _ _ _ Hw). cbn. lia.
    - intros [H1 H2]. split; [by rewrite E2|]. rewrite E3. intros e' evs'.
      intros [[_ [= <-]]|[_ ?]]%lookup_insert_Some; [done|by eapply H2]. }
  destruct isErr; cbn; intros [= _ <-]; by apply Hend.
Qed.
End weight.

(** ** The actions *)

(** The batches no consumer has taken yet. *)
Definition batchesWaiting (em : executorManager) : Z := msum len (em_batchChans em).

Lemma zsum_plus {A} (f g : A -> Z) l : zsum (fun x => f x + g x) l = zsum f l + zsum g l.
Proof. induction l as [|x l IH]; cbn; lia. Qed.

Lemma zsum_ext {A} (f g : A -> Z) l : (forall x, f x = g x) -> zsum f l = zsum g l.
Proof. intros H. induction l as [|x l IH]; cbn; [done|]. by rewrite H, IH. Qed.

Lemma chanLoad_batches q : chanLoad 4 q = chanLoad 3 q + len q.
Proof.
  unfold chanLoad. induction q as [|b q IH]; [done|]. cbn [zsum]. rewrite len_cons, IH. unfold batchLoad. lia.
Qed.

Lemma load_batches s : load 4 s = load 3 s + batchesWaiting (sd_executorManager s).
Proof.
  unfold load, pipeLoad, batchesWaiting.
  assert (msum (chanLoad 4) (em_batchChans (sd_executorManager s)) =
    msum (chanLoad 3) (em_batchChans (sd_executorManager s)) + msum len (em_batchChans (sd_executorManager s))) as ->; [|lia].
  unfold msum. rewrite <- zsum_plus. apply zsum_ext. intros kv. apply chanLoad_batches.
Qed.

(** The actions of the engine's own goroutines, the executors answering
    generously. *)
Definition unprompted (a : action) : Prop :=
  match a with
  | AOpen _ => False
  | AOutcome _ batch resp _ => generous (bt_Items batch) resp
  | _ => True
  end.

(** The action moves work on: a round submits a batch, an event is handled, a
    consumer makes its next step.  A round that finds nothing to submit, a tick
    of the clock and the goroutine of a stream do not. *)
Definition moves (a : action) (e e' : engine) : Prop :=
  match a with
  | AOpen _ | AStream _ _ | AClock _ => False
  | ABatch _ _ _ | APatch _ _ _ => batchesWaiting (managerOf e) < batchesWaiting (managerOf e')
  | AEvent => em_eventChan (managerOf e) <> []
  | ATake _ _ _ | AOutcome _ _ _ _ | ASend _ _ _ | ADone _ => True
  end.

Definition loadOf (e : engine) : Z := load 3 (en_scheduler e).

(** What an action does to the load. *)
Definition lighter (a : action) (e e' : engine) : Prop :=
  paced (en_scheduler e') /\ loadOf e' <= loadOf e /\ (moves a e e' -> loadOf e' < loadOf e).

Lemma free_onScheduler {A} w (c : M scheduler A) e a e' : free paced (load w) c ->
  onScheduler c e = Some (a, e') -> paced (en_scheduler e) ->
  paced (en_scheduler e') /\ load w (en_scheduler e') <= load w (en_scheduler e).
Proof.
  intros Hc. unfold onScheduler. destruct (c (en_scheduler e)) as [[x s]|] eqn:E; [|done]. intros [= <- <-] Hp.
  destruct (Hc _ _ _ E Hp). split; [done|]. cbn. lia.
Qed.

Lemma round_lighter a (c : M scheduler unit) e e' :
  (forall w, 3 <= w <= 4 -> free paced (load w) c) -> onScheduler c e = Some (tt, e') -> paced (en_scheduler e) ->
  (moves a e e' -> batchesWaiting (managerOf e) < batchesWaiting (managerOf e')) -> lighter a e e'.
Proof.
  intros Hc Hrun Hp Hm. destruct (free_onScheduler 3 c e tt e' (Hc 3 ltac:(lia)) Hrun Hp) as [Hp' H3].
  destruct (free_onScheduler 4 c e tt e' (Hc 4 ltac:(lia)) Hrun Hp) as [_ H4].
  split; [done|]. unfold loadOf. split; [done|]. intros H%Hm. rewrite !load_batches in H4. unfold managerOf in H. lia.
Qed.

Lemma consumer_lighter {A} a (c : M executorManager A) e x e' :
  onConsumer c e = Some (x, e') ->
  (forall y em', c (managerOf e) = Some (y, em') -> lightens 3 (managerOf e) em') ->
  paced (en_scheduler e) -> lighter a e e'.
Proof.
  unfold onConsumer, onScheduler, onExecutors, managerOf. destruct (c _) as [[y em']|] eqn:E; [|done]. intros [= _ <-] Hl [Hn Hf].
  destruct (Hl _ _ eq_refl) as [Hlt Hf']. split; [by split; [|apply Hf']|].
  pose proof (load_manager 3 (en_scheduler e) em') as Hload. unfold loadOf.
  match goal with |- load 3 ?s <= _ /\ _ => change (load 3 s) with (load 3 (en_scheduler e <| sd_executorManager := em' |>)) end.
  split; [lia|]. intros _. lia.
Qed.

Lemma free_engine {A} (c : M scheduler A) : free paced (load 3) c ->
  free (fun e => paced (en_scheduler e)) loadOf (onScheduler c).
Proof. intros Hc e a e' Hrun Hp. destruct (free_onScheduler 3 c e a e' Hc Hrun Hp). unfold loadOf. split; [done|lia]. Qed.

Lemma free_requests {A} (c : M stateManager A) : free narrow owes c ->
  free (fun e => paced (en_scheduler e)) loadOf (onRequests c).
Proof. intros Hc. apply free_engine. by apply costs_onState. Qed.

Lemma streamStep_free i st : free (fun e => paced (en_scheduler e)) loadOf (streamStep i st).
Proof.
  assert (Hclose : forall st, free (fun e => paced (en_scheduler e)) loadOf (closeOut st)) by (intros; unfold closeOut; cost).
  unfold streamStep. destruct i as [event| |]; [| |].
  - destruct (isPrefillChunk event); [cost|]. apply costs_get. intros e. cbv zeta.
    destruct (ev_Done event); [|cost]. apply costs_then; [apply free_requests, rfree_close_end|]. intros _. apply Hclose.
  - cost.
  - apply costs_then; [apply free_requests, rfree_close_end|]. intros _. apply Hclose.
Qed.

Lemma free_lighter a (c : M engine unit) e e' : free (fun e => paced (en_scheduler e)) loadOf c ->
  c e = Some (tt, e') -> paced (en_scheduler e) -> (moves a e e' -> False) -> lighter a e e'.
Proof. intros Hc Hrun Hp Hm. destruct (Hc _ _ _ Hrun Hp). split; [done|]. split; [lia|]. by intros ?%Hm. Qed.

(** An event on its way to a live request is one the request can take. *)
Lemma flow_event s ev events : Flow s [] -> em_eventChan (sd_executorManager s) = ev :: events ->
  forall req, sm_requests (sd_requestManager s) !! ev_RequestId ev = Some req ->
    event_ok req ev /\ terminal (req_Phase req) = false.
Proof.
  intros HF Hev req Hreq. pose proof (wk_ok _ _ _ (fl_work _ _ HF)) as Hok.
  assert (Hin : Landed ev ∈ [] ++ tokens s).
  { unfold tokens. rewrite Hev. cbn. apply elem_of_app. right. by left. }
  destruct (proj2 (proj1 (Forall_forall _ _) Hok _ Hin) req Hreq) as (Ht & m & c & _ & _ & Hl). by destruct Hl.
Qed.

Lemma event_lighter e e' : EngineOK e -> paced (en_scheduler e) ->
  onScheduler consumeEvent e = Some (tt, e') -> lighter AEvent e e'.
Proof.
  intros HF Hp. unfold onScheduler, consumeEvent, onExecutors, managerOf, mbind, M_bind, getS, modS, mret, M_ret.
  set (s := en_scheduler e) in *. destruct (em_eventChan (sd_executorManager s)) as [|ev events] eqn:Hev.
  - intros [= <-]. split; [done|]. split; [done|]. unfold moves, managerOf. fold s. by rewrite Hev.
  - set (em1 := sd_executorManager s <| em_eventChan := events |>). set (s1 := s <| sd_executorManager := em1 |>).
    change (setf sd_executorManager (fun _ => em1) s) with s1.
    assert (Hone : one_token ev /\ paced s1 /\ load 3 s1 < load 3 s).
    { destruct Hp as [Hn [H1 H2]]. rewrite Hev in H1. apply Forall_cons in H1 as [? H1]. split; [done|]. split; [by split|].
      unfold s1. rewrite load_manager. unfold pipeLoad. cbn. rewrite Hev, len_cons. lia. }
    destruct Hone as (Hone & Hp1 & Hl1).
    pose proof (handleEvent_pays 3 s1 ev Hone) as Hh.
    destruct (handleEvent ev s1) as [[r s2]|] eqn:Hrun; [|done]. intros [= <-].
    destruct (Hh (flow_event s ev events HF Hev) _ _ Hrun Hp1) as [Hp2 Hl2].
    split; [exact Hp2|]. unfold loadOf. fold s. change (load 3 (en_scheduler (e <| en_scheduler := s2 |>))) with (load 3 s2).
    split; [lia|]. intros _. lia.
Qed.

(** Every action of the engine's own goroutines. *)
Lemma perform_lighter a e e' : EngineOK e -> paced (en_scheduler e) -> unprompted a -> may_run a e ->
  perform a e = Some (tt, e') -> lighter a e e'.
Proof.
  intros HF Hp Hu Ha Hrun.
  assert (Hdrop : forall A (c : M engine A), (c ;; mret tt) e = Some (tt, e') -> exists x, c e = Some (x, e')).
  { intros A c. unfold mbind, M_bind, mret, M_ret. destruct (c e) as [[x e1]|]; [|done]. intros [= <-]. by exists x. }
  destruct a as [req|i st|ctx rf sg|ctx rf id| |id b rest|id b resp now|id ev evs|id|t]; cbn [perform] in Hrun; [done|..].
  - apply Hdrop in Hrun as [x Hrun]. destruct (streamStep_free i st _ _ _ Hrun Hp). split; [done|]. split; [lia|done].
  - apply (round_lighter _ (BatchRound ctx rf sg)); try done. intros w Hw. by apply BatchRound_costs.
  - apply (round_lighter _ (patchExecute ctx rf id)); try done. intros w Hw. by apply patchExecute_costs.
  - by apply event_lighter.
  - destruct Ha as [Hw Hq]. eapply consumer_lighter; [exact Hrun| |done]. intros [] em'. by apply take_lightens.
  - apply Hdrop in Hrun as [x Hrun]. destruct Ha as [Hw Hh]. eapply consumer_lighter; [exact Hrun| |done].
    intros y em'. by eapply outcome_lightens.
  - destruct Ha as [Hw _]. eapply consumer_lighter; [exact Hrun| |done]. intros [] em'. by apply send_lightens.
  - eapply consumer_lighter; [exact Hrun| |done]. intros [] em'. by apply done_lightens.
  - eapply free_lighter; [|exact Hrun|done|done]. apply free_requests. cost.
Qed.

(** *** Opening a stream *)

(** What a new request adds: its prompt, its limit, its first item. *)
Definition asks (req : Request) (e : engine) : Z :=
  match Encode (req_ModelID req) (req_Prompt req) (en_tokenizer e) with
  | Some (inr tokens, _) => 8 * (len tokens + req_MaxTokens req + 4)
  | _ => 0
  end.

Lemma created_load rm rm' req e pm w : created rm rm' req e pm w -> sm_requests rm !! req_RequestId req = None ->
  0 <= req_MaxTokens req < two32 -> req_PromptTokens req = len (req_TokenIDs req) -> narrow rm ->
  narrow rm' /\ owes rm' <= owes rm + 8 * (3 + len (req_TokenIDs req) + req_MaxTokens req).
Proof.
  intros (m & m' & ids & _ & _ & _ & _ & _ & Hc0 & _ & Hr & _) Hnew Hmax Hp Hn. unfold narrow, owes in *. rewrite Hr. split.
  - intros id r [[<- <-]|[_ Hr']]%lookup_insert_Some; [cbn; lia|by eapply Hn].
  - rewrite msum_insert by done. unfold debt at 1. cbn. pose proof (len_nonneg (req_TokenIDs req)). lia.
Qed.

Lemma subscribeAndQueue_costs req w :
  costs (fun e => paced (en_scheduler e)) loadOf (subscribeAndQueue req w) 8 (fun _ => 0).
Proof.
  unfold subscribeAndQueue. apply costs_get. intros e. destruct (Subscribe _ _) as [err|ch].
  - apply costs_then; [apply free_requests; cost|]. intros _. by apply costs_ret.
  - eapply (costs_bind _ _ _ _ _ (fun _ => 0)).
    + intros e1 a e2. unfold onScheduler. destruct (Enqueue w (en_scheduler e1)) as [[x s]|] eqn:E; [|done].
      intros [= <- <-] Hp. by apply (Enqueue_costs 3 w _ _ _ E Hp).
    + intros [err|]; by apply costs_ret.
Qed.

Lemma openStream_load req e r e' : EngineOK e -> admissible e req -> 0 <= req_MaxTokens req < two32 ->
  paced (en_scheduler e) -> openStream req e = Some (r, e') ->
  paced (en_scheduler e') /\ loadOf e' <= loadOf e + asks req e.
Proof.
  intros HF [_ Hprompt] Hmax Hp. unfold openStream, asks. unfold mbind at 1, M_bind at 1, onTokenizer.
  destruct (Encode _ _ _) as [[[err|tokens] t']|] eqn:Henc; [|specialize (Hprompt _ _ eq_refl) as [_ Hsp]|done].
  { intros [= _ <-]. split; [done|]. unfold loadOf. cbn. lia. }
  assert (Hpos : 0 <= 8 * (len tokens + req_MaxTokens req + 4)) by (pose proof (len_nonneg tokens); lia).
  unfold mbind at 1, M_bind at 1, onScheduler at 1. cbn [en_scheduler setf].
  set (s := en_scheduler e) in *. pose proof (AssignExecutor_bound (tokenized req tokens) s) as Ha. unfold wp in Ha.
  change (en_scheduler (setf en_tokenizer (fun _ => t') e)) with s.
  destruct (AssignExecutor _ s) as [[a s1]|]; [|done]. destruct Ha as [[n ->] Ha].
  assert (Hload : loadOf e = load 3 (s <| sd_nextExecutor := n |>)) by done.
  destruct a as [err|req1]; [intros [= _ <-]; split; [done|]; unfold loadOf in *; cbn in *; lia|].
  destruct Ha as (ex & _ & ->). set (req1 := tokenized req tokens <| req_ExecutorID := ex |>).
  unfold mbind at 1, M_bind at 1, onRequests, onScheduler at 1, onState at 1. cbn [en_scheduler setf].
  match goal with |- context [Create req1 ?x] => change (Create req1 x) with (Create req1 (requestsOf e)) end.
  assert (Hp1 : req_PromptTokens req1 = len (req_TokenIDs req1)) by (cbn; apply u32_small; split; [apply len_nonneg|apply Hsp]).
  pose proof (Create_spec (requestsOf e) req1 (fl_requests _ _ HF) (spacious_room _ _ (fl_requests _ _ HF) Hsp)) as Hc.
  unfold wp in Hc. destruct (Create req1 (requestsOf e)) as [[[err|w] rm']|]; [| |done]; destruct Hc as [_ Hc].
  - intros [= _ <-]. destruct Hc as [(Hr & _) _]. destruct Hp as [Hn Hf].
    destruct (owes_same (requestsOf e) rm' Hr Hn) as [Hn' Ho]. split; [by split|].
    unfold loadOf, load, queueLoad, requestsOf, s in *. cbn in *. lia.
  - destruct Hc as (Hnew & ex' & pm & _ & Hc & _). destruct Hp as [Hn Hf].
    destruct (created_load _ _ _ _ _ _ Hc Hnew Hmax Hp1 Hn) as [Hn' Ho]. intros Hrun.
    destruct (subscribeAndQueue_costs req1 w _ _ _ Hrun) as [Hp' Hl']; [by split|]. split; [done|].
    cbn [req_TokenIDs req_MaxTokens req1 tokenized setf] in Ho.
    unfold loadOf, load, queueLoad, requestsOf, s in *. cbn in *. lia.
Qed.

(** Runs of the goroutines, with the number of actions that moved work on and
    what the requests opened on the way add. *)
Inductive busy (e0 : engine) : nat -> Z -> engine -> Prop :=
| busy_start : busy e0 0 0 e0
| busy_open n k req e e' : busy e0 n k e -> 0 <= req_MaxTokens req < two32 -> may_run (AOpen req) e ->
    perform (AOpen req) e = Some (tt, e') -> busy e0 n (k + asks req e) e'
| busy_idle n k a e e' : busy e0 n k e -> unprompted a -> may_run a e -> perform a e = Some (tt, e') -> busy e0 n k e'
| busy_move n k a e e' : busy e0 n k e -> unprompted a -> may_run a e -> perform a e = Some (tt, e') ->
    moves a e e' -> busy e0 (S n) k e'.

Lemma busy_load e0 n k e : EngineOK e0 -> paced (en_scheduler e0) -> busy e0 n k e ->
  EngineOK e /\ paced (en_scheduler e) /\ Z.of_nat n + loadOf e <= loadOf e0 + k.
Proof.
  intros H0 Hp0. induction 1 as [|n k req e e' _ IH Hmax Ha Hrun|n k a e e' _ IH Hu Ha Hrun|n k a e e' _ IH Hu Ha Hrun Hm];
    [by ssplit; [| |lia]|..]; destruct IH as (HF & Hp & Hl);
    pose proof (perform_ok _ e HF Ha) as HF'; unfold wp in HF'; rewrite Hrun in HF'; (split; [done|]).
  - cbn [perform] in Hrun. unfold mbind, M_bind, mret, M_ret in Hrun.
    destruct (openStream req e) as [[r e1]|] eqn:E; [|done]. injection Hrun as <-.
    destruct (openStream_load req e r e1 HF Ha Hmax Hp E). split; [done|lia].
  - destruct (perform_lighter a e e' HF Hp Hu Ha Hrun) as (Hp' & Hle & Hlt). split; [done|lia].
  - destruct (perform_lighter a e e' HF Hp Hu Ha Hrun) as (Hp' & Hle & Hlt). split; [done|]. specialize (Hlt Hm). lia.
Qed.
