(* ===== verification/EngineProgress.v ===== *)
(** * EngineProgress: the engine makes progress

    When work waits for an executor whose consumer is idle and whose manager has
    the blocks, a round submits a batch or drops work that cannot run; so, with
    the bound of [EngineTermination], the engine can always be driven to a state in
    which no request is left to run, or one waits for blocks. *)

From S2P Require Import Prelude Errors Model Metrics FreeQueue BlockManager BlockProperties BlockRegistry StateMachine RequestProperties RequestFrame Executor ExecutorProperties Queues QueueProperties Scheduler SchedulerPick SchedulerProperties Engine EngineRequests EngineSteps EngineLoad GoSha256 Tokenizer Handler EngineProperties EngineTermination.
(** ** Assertions about the results there are *)

Definition wlp {S A} (c : M S A) (Q : A -> S -> Prop) (s : S) : Prop := forall a s', c s = Some (a, s') -> Q a s'.

Section wlp.
Context {S : Type}.

Lemma wlp_ret {A} (a : A) (Q : A -> S -> Prop) s : Q a s -> wlp (mret a) Q s.
Proof. by intros HQ b s' [= <- <-]. Qed.
Lemma wlp_bind {A B} (c : M S A) (f : A -> M S B) Q s : wlp c (fun a s' => wlp (f a) Q s') s -> wlp (c ≫= f) Q s.
Proof. intros Hc b s2. unfold mbind, M_bind. destruct (c s) as [[a s1]|] eqn:E; [|done]. by apply Hc. Qed.
Lemma wlp_mono {A} (c : M S A) (P Q : A -> S -> Prop) s : wlp c P s -> (forall a s', P a s' -> Q a s') -> wlp c Q s.
Proof. intros Hc HPQ a s' E. by apply HPQ, Hc. Qed.
Lemma wlp_true {A} (c : M S A) (Q : A -> S -> Prop) s : (forall a s', Q a s') -> wlp c Q s.
Proof. intros HQ a s' _. apply HQ. Qed.
Lemma wlp_and {A} (c : M S A) (P Q : A -> S -> Prop) s : wlp c P s -> wlp c Q s -> wlp c (fun a s' => P a s' /\ Q a s') s.
Proof. intros HP HQ a s' E. split; [by apply HP|by apply HQ]. Qed.
Lemma wlp_get {B} (g : S -> M S B) Q s : wlp (g s) Q s -> wlp (getS ≫= g) Q s.
Proof. done. Qed.
Lemma wp_wlp {A} (c : M S A) Q s : wp c Q s -> wlp c Q s.
Proof. intros H a s' E. unfold wp in H. by rewrite E in H. Qed.
Lemma wp_with_wlp {A} (c : M S A) (P Q : A -> S -> Prop) s : wp c P s -> wlp c Q s -> wp c (fun a s' => P a s' /\ Q a s') s.
Proof. unfold wp, wlp. intros HP HQ. destruct (c s) as [[a s']|]; [|done]. split; [done|by apply HQ]. Qed.
End wlp.

(** ** Blocks *)

(** The blocks an item needs beyond those its request has. *)
Definition blocksNeeded (m : manager) (w : WorkItem) : Z :=
  neededBlocks m w (default [] (m_requestBlocks m !! wi_RequestId w)).

Lemma blocksNeeded_table m w old : has_table m w old -> blocksNeeded m w = neededBlocks m w old.
Proof. unfold blocksNeeded. by intros [->|(-> & -> & _)]. Qed.

(** [AllocateBlocks] succeeds when there are the blocks; otherwise it changes
    nothing but a counter. *)
Lemma RegAllocateBlocks_decides rm e m w :
  SMOK rm -> ready rm e w -> roomy rm e -> wi_ExecutorID w = e -> r_managers (sm_registry rm) !! e = Some m ->
  wp (onRegistry (RegAllocateBlocks w)) (fun r rm' =>
    if m_freeCount m <? blocksNeeded m w
    then r = inr (false, w) /\ rm' = rm <| sm_registry := sm_registry rm <| r_managers :=
           <[e := m <| m_metrics := m_metrics m ++ [IncAllocationFailure (m_executorID m)] |>]> (r_managers (sm_registry rm)) |> |>
    else exists c, r = inr (true, c)) rm.
Proof.
  intros HS (req & m0 & c & old & Hreq & He & Hm0 & Ht & Hc & Hno) Hroom Hwe Hm.
  assert (m0 = m) as -> by congruence.
  destruct (rg_managers _ (so_reg _ HS) _ _ Hm) as [p HI]. set (pins := pinsOf e _) in HI.
  pose proof (slack_bound _ _ _ HI) as Hsl. pose proof (Hroom m Hm) as Hrm. fold pins in Hrm. unfold refs_of in Hsl.
  rewrite (blocksNeeded_table _ _ _ Ht), (rep_count _ _ (inv_rep _ _ _ HI)).
  apply wp_onRegistry. unfold RegAllocateBlocks. rewrite Hwe. eapply wp_withManager; [exact Hm|].
  wp_use (AllocateBlocks_inv m pins p w c old HI Ht Hc Hno); [lia|]. intros x m'. case_match.
  - by intros [-> ->].
  - intros (ids & p' & _ & -> & _). by eexists.
Qed.

(** ** A sweep over a queue *)

Lemma CanSchedule_true w rm ok rm' : CanSchedule w rm = Some (ok, rm') -> ok = true -> rm' = rm /\ runnable rm w = true.
Proof.
  unfold CanSchedule, runnable, expired, mbind, M_bind, getS, mret, M_ret. cbn.
  destruct (sm_requests rm !! wi_RequestId w) as [req|]; [|by intros [= <- _]]. destruct (negb _ && _); cbn.
  - destruct (deleteRequest _ _) as [[[] rm1]|]; cbn; [|done]. destruct (failChannel _ _ _ _) as [[[] rm2]|]; cbn; [|done].
    by intros [= <- _].
  - by intros [= <- <-].
Qed.

(** A loop found its items at the start of the queue, or dropped some. *)
Lemma dequeueLoop_finds n works rm : wlp (dequeueLoop n works) (fun r rm' =>
  (rm' = rm /\ r = (take n works, drop n works) /\ Forall (fun w => runnable rm w = true) (take n works)) \/
  len r.1 + len r.2 < len works) rm.
Proof.
  revert works rm. induction n as [|n IH]; intros works rm; cbn [dequeueLoop].
  { apply wlp_ret. left. by rewrite take_0, drop_0. }
  destruct works as [|w works]; [apply wlp_ret; left; by rewrite take_nil, drop_nil|].
  apply wlp_bind. intros ok rm1 E1. apply wlp_bind. intros r rm2 E2. apply wlp_ret.
  pose proof (IH works rm1 r rm2 E2) as Hr.
  assert (Hle : len r.1 + len r.2 <= len works).
  { destruct Hr as [(_ & -> & _)|?]; [|lia]. cbn [fst snd]. rewrite <- len_app, take_drop. lia. }
  destruct ok; cbn [fst snd]; rewrite ?len_cons; [|right; lia].
  destruct (CanSchedule_true _ _ _ _ E1 eq_refl) as [-> Hrun]. destruct Hr as [(-> & -> & Hf)|Hlt]; [|right; lia].
  left. split; [done|]. split; [done|]. cbn [take]. by constructor.
Qed.

Lemma peekLoop_finds works rm : wlp (peekLoop works) (fun r rm' =>
  (rm' = rm /\ r.2 = works /\ match r.1 with Some w => head works = Some w /\ runnable rm w = true | None => works = [] end) \/
  len r.2 < len works) rm.
Proof.
  revert rm. induction works as [|w works IH]; intros rm; cbn [peekLoop]; [apply wlp_ret; by left|].
  apply wlp_bind. intros ok rm1 E1. destruct ok.
  - apply wlp_ret. left. by destruct (CanSchedule_true _ _ _ _ E1 eq_refl) as [-> Hrun].
  - intros r rm2 E2. right. rewrite len_cons. destruct (IH rm1 r rm2 E2) as [(_ & -> & _)|?]; lia.
Qed.

Lemma popLoop_finds works rm : wlp (popLoop works) (fun r rm' =>
  (rm' = rm /\ match r.1 with Some w => works = w :: r.2 /\ runnable rm w = true | None => works = [] /\ r.2 = [] end) \/
  len (option_list r.1) + len r.2 < len works) rm.
Proof.
  revert rm. induction works as [|w works IH]; intros rm; cbn [popLoop]; [apply wlp_ret; by left|].
  apply wlp_bind. intros ok rm1 E1. destruct ok.
  - apply wlp_ret. left. by destruct (CanSchedule_true _ _ _ _ E1 eq_refl) as [-> Hrun].
  - intros r rm2 E2. right. rewrite len_cons. destruct (IH rm1 r rm2 E2) as [[_ H]|?]; [|lia].
    destruct r as [[x|] l]; cbn [fst snd option_list] in *.
    + destruct H as [-> _]. rewrite len_cons. change (len (option_list (Some x))) with 1. lia.
    + destruct H as [-> ->]. change (len (option_list None)) with 0. change (len []) with 0. lia.
Qed.

Lemma free_dequeueLoop n works : free narrow owes (dequeueLoop n works).
Proof.
  revert works. induction n as [|n IH]; intros works; cbn [dequeueLoop]; [cost|]. destruct works as [|w works]; [cost|].
  cost.
Qed.
Lemma free_peekLoop works : free narrow owes (peekLoop works).
Proof. induction works as [|w works IH]; cbn [peekLoop]; cost. Qed.
Lemma free_popLoop works : free narrow owes (popLoop works).
Proof. induction works as [|w works IH]; cbn [popLoop]; cost. Qed.

(** A sweep found what [G] says at the start of the queue and left the rest, or
    it dropped items. [out] counts the items taken. *)
Lemma sweep_finds {A} k e (loop : list WorkItem -> M stateManager (A * list WorkItem)) (out : A -> Z) (G : A -> list WorkItem -> Prop) q s :
  queues k s !! e = Some q -> paced s -> free narrow owes (loop (wq_works q)) ->
  wlp (loop (wq_works q)) (fun r rm' => (rm' = sd_requestManager s /\ G r.1 r.2) \/
    out r.1 + len r.2 < len (wq_works q)) (sd_requestManager s) ->
  wlp (sweep k e loop) (fun a s' => paced s' /\
    ((exists l, G a l /\ s' = setQueues k (<[e := q <| wq_works := l |>]> (queues k s)) s) \/
     load 3 s' + 8 * out a < load 3 s)) s.
Proof.
  intros Hq [Hn Hf] Hfree Hloop a s'. unfold sweep, getsO, onState, onQueue, mbind, M_bind, modS, mret, M_ret. rewrite Hq.
  destruct (loop (wq_works q) (sd_requestManager s)) as [[r rm']|] eqn:E; [|done].
  set (s1 := s <| sd_requestManager := rm' |>). assert (Hq1 : queues k s1 !! e = Some q) by (by destruct k).
  rewrite Hq1. cbn. intros [= <- <-]. destruct (Hfree _ _ _ E Hn) as [Hn' Hle].
  set (q' := q <| wq_works := r.2 |>). pose proof (queueLoad_set k e q q' s1 Hq1) as HQ.
  split; [by destruct k|]. destruct (Hloop _ _ E) as [[E1 HG]|Hlt]; [left|right].
  - exists r.2. split; [done|]. unfold s1. rewrite E1. by destruct s, k.
  - unfold load. rewrite HQ.
    assert (E1 : sd_requestManager (setQueues k (<[e:=q']> (queues k s1)) s1) = rm') by (by destruct k).
    assert (E2 : sd_executorManager (setQueues k (<[e:=q']> (queues k s1)) s1) = sd_executorManager s) by (by destruct k).
    rewrite E1, E2. change (queueLoad s1) with (queueLoad s). unfold waitingLoad. cbn [wq_works]. 
    change (wq_works q') with r.2. unfold owes in *. lia.
Qed.

Lemma setQueues_same k e q s : queues k s !! e = Some q ->
  setQueues k (<[e := q <| wq_works := wq_works q |>]> (queues k s)) s = s.
Proof.
  intros Hq. assert (q <| wq_works := wq_works q |> = q) as -> by (by destruct q). rewrite insert_id by done. by destruct s, k.
Qed.

(** ** A batch that is not empty *)

(** A pick only adds to its batch. *)
Definition extends (batch : list WorkItem) (c : M scheduler (list WorkItem * batchBudget)) : Prop :=
  forall s, wlp c (fun r _ => batch `prefix_of` r.1) s.

Lemma extends_ret batch batch' budget : batch `prefix_of` batch' -> extends batch (mret (batch', budget)).
Proof. intros Hp s. by apply wlp_ret. Qed.
Lemma extends_bind {A} batch (c : M scheduler A) f : (forall a, extends batch (f a)) -> extends batch (c ≫= f).
Proof. intros Hf s. apply wlp_bind. intros a s' _. apply Hf. Qed.
Lemma extends_snoc batch w c : extends (batch ++ [w]) c -> extends batch c.
Proof. intros Hc s. eapply wlp_mono; [apply Hc|]. intros r s' Hp. etrans; [|exact Hp]. by eexists. Qed.

Ltac extends := repeat first
  [ progress cbv beta zeta
  | apply extends_ret; reflexivity
  | apply extends_bind; intros ?
  | assumption
  | match goal with
    | IH : forall b g, extends b _ |- extends ?b (_ (?b ++ [?w]) _) => apply (extends_snoc b w), IH
    | IH : forall b g, extends b _ |- _ => apply IH
    | |- extends _ (match ?x with _ => _ end) => destruct x
    end ].

Lemma pickDecodeLoop_extends works batch budget : extends batch (pickDecodeLoop works batch budget).
Proof. revert batch budget. induction works as [|w works IH]; intros batch budget; cbn [pickDecodeLoop]; extends. Qed.
Lemma pickSmallLoop_extends n e batch budget : extends batch (pickSmallLoop n e batch budget).
Proof. revert batch budget. induction n as [|n IH]; intros batch budget; cbn [pickSmallLoop]; extends. Qed.
Lemma pickLargeLoop_extends n e batch budget : extends batch (pickLargeLoop n e batch budget).
Proof. revert batch budget. induction n as [|n IH]; intros batch budget; cbn [pickLargeLoop]; extends. Qed.

Lemma extends_nonempty batch c s : extends batch c -> batch <> [] -> wlp c (fun r _ => r.1 <> []) s.
Proof. intros Hc Hne. eapply wlp_mono; [apply Hc|]. intros r s' [l E] E0. rewrite E0 in E. by destruct batch. Qed.

(** The part of an item the next batch can take. *)
Definition nextPart (B : batchBudget) (k : queueKind) (w : WorkItem) : WorkItem :=
  match k with
  | LargePrefill =>
      let t := Z.min (WorkBudgetCost w) (bg_remainTokens B) in
      w <| wi_NumNewTokens := t |> <| wi_TokenIDs := take (Z.to_nat t) (wi_TokenIDs w) |>
  | _ => w
  end.

Lemma tryAllocate_supplied s e m w back :
  SMOK (sd_requestManager s) -> ready (sd_requestManager s) e w -> roomy (sd_requestManager s) e ->
  wi_ExecutorID w = e -> r_managers (sm_registry (sd_requestManager s)) !! e = Some m ->
  blocksNeeded m w <= m_freeCount m -> wlp (tryAllocate w back) (fun r _ => r <> None) s.
Proof.
  intros HS Hr Hroom He Hm Hsup. unfold tryAllocate. apply wlp_bind, wp_wlp. unfold onBlocks. apply wp_onState_with.
  wp_use (RegAllocateBlocks_decides _ e m w HS Hr Hroom He Hm). intros r rm'.
  rewrite (proj2 (Z.ltb_ge _ _)) by lia. intros [c ->]. by apply wlp_ret.
Qed.

Section progress.
Context (e : string) (s0 : scheduler) (m : manager).
Context (HS : SchedOK e s0) (Hp0 : paced s0).
Context (Hm : r_managers (sm_registry (sd_requestManager s0)) !! e = Some m).

Let B := sd_batchBudget s0.
Let rm0 := sd_requestManager s0.

(** The scheduler can put one item into a batch: there is room for a sequence
    and a token, and a short prompt fits. *)
Context (Hseqs : 1 <= bg_remainSeqs B) (Htokens : 1 <= bg_remainTokens B).
Context (Hsmall : forall w, w ∈ queued SmallPrefill e s0 -> runnable rm0 w = true -> WorkBudgetCost w <= bg_remainTokens B).
Context (Hfew : forall k, len (queued k e s0) < two32).

(** There are blocks for every item that can run. *)
Context (Hsup : forall k w, w ∈ queued k e s0 -> runnable rm0 w = true -> blocksNeeded m (nextPart B k w) <= m_freeCount m).

(** The pick has found something, or dropped something. *)
Definition ahead (r : list WorkItem * batchBudget) (s : scheduler) : Prop :=
  paced s /\ (r.1 <> [] \/ load 3 s < load 3 s0).

Lemma ahead_tail batch s c : paced s -> (batch <> [] \/ load 3 s < load 3 s0) ->
  costs paced (load 3) c (8 * len batch) picked -> extends batch c -> wlp c ahead s.
Proof.
  intros Hp Hor Hc He r s' E. destruct (Hc _ _ _ E Hp) as [Hp' Hl]. split; [done|].
  destruct batch as [|w batch].
  - change (len []) with 0 in Hl. destruct Hor as [|Hlt]; [done|]. right. unfold picked in Hl. pose proof (len_nonneg r.1). lia.
  - left. eapply extends_nonempty; [exact He|done|exact E].
Qed.

Lemma paid_ahead k s (c : M scheduler (list WorkItem * batchBudget)) : paced s -> load 3 s + k < load 3 s0 ->
  costs paced (load 3) c k picked -> wlp c ahead s.
Proof.
  intros Hp Hlt Hc r s' E. destruct (Hc _ _ _ E Hp) as [Hp' Hl]. split; [done|]. right. unfold picked in Hl.
  pose proof (len_nonneg r.1). lia.
Qed.

(** A queued item that can run is given its blocks. *)
Lemma first_allocated k w back s : w ∈ queued k e s0 -> runnable rm0 w = true -> sd_requestManager s = rm0 ->
  wlp (tryAllocate (nextPart B k w) back) (fun r _ => r <> None) s.
Proof using HS Hm Hsup.
  intros Hw Hrun Hs. destruct HS as [HSM _ Hroom _ Hq _]. destruct (Hq k w Hw Hrun) as [(Hwe & _) Hready].
  apply (tryAllocate_supplied s e m); rewrite ?Hs; try done; [| |by apply Hsup].
  - destruct Hready as (req & m' & c & old & H1 & H2 & H3 & H4 & H5 & H6). exists req, m', c, old. by destruct k.
  - by destruct k.
Qed.
Lemma queue_of k : exists q, queues k s0 !! e = Some q /\ queued k e s0 = wq_works q.
Proof using HS. destruct (sk_exist _ _ HS k) as [q Hq]. exists q. split; [done|]. unfold queued. by rewrite Hq. Qed.

(** The loops, started with an item that can run in the hand. *)
Lemma hand_ahead w hand budget s : w ∈ queued Decoding e s0 -> runnable rm0 w = true ->
  sd_requestManager s = rm0 -> paced s -> wlp (pickDecodeLoop (w :: hand) [] budget) ahead s.
Proof using HS Hm Hsup.
  intros Hw Hrun Hs Hp r s' E. split; [by destruct (pickDecodeLoop_costs 3 _ _ _ _ _ _ E Hp)|]. left. revert r s' E.
  cbn [pickDecodeLoop]. apply wlp_bind. eapply wlp_mono; [exact (first_allocated Decoding w w s Hw Hrun Hs)|].
  intros [c|] s1 Hc; [|done]. apply (extends_nonempty ([] ++ [c])); [apply pickDecodeLoop_extends|done].
Qed.

Lemma pickDecode_ahead : wlp (pickDecode e [] B) (fun r s => ahead r s \/
  (queued Decoding e s0 = [] /\ s = s0 /\
   r = ([], B <| bg_remainPrefill := bg_remainSeqs B |> <| bg_remainLargePrefill := bg_remainSeqs B |>))) s0.
Proof using HS Hm Hsup Hp0 Hseqs Htokens Hfew.
  destruct (queue_of Decoding) as (q & Hq & Hqw). unfold pickDecode, Dequeue.
  set (n := Z.min (bg_remainSeqs B) (bg_remainTokens B)). rewrite (proj2 (Z.eqb_neq n 0)) by (unfold n; lia).
  apply wlp_bind. eapply wlp_mono; [apply (sweep_finds Decoding e _ len
    (fun a l => (a, l) = (take (Z.to_nat n) (wq_works q), drop (Z.to_nat n) (wq_works q)) /\
       Forall (fun w => runnable rm0 w = true) (take (Z.to_nat n) (wq_works q))) q s0 Hq Hp0 (free_dequeueLoop _ _))|].
  { eapply wlp_mono; [apply dequeueLoop_finds|]. intros r rm' [(-> & -> & Hf)|?]; [by left|by right]. }
  intros hand s1 [Hp1 [(l & ([= -> ->] & Hf) & ->)|Hlt]].
  - rewrite <- Hqw in *. set (s1 := setQueues _ _ _) in *. destruct (queued Decoding e s0) as [|w works] eqn:Hd.
    + rewrite take_nil. cbn. apply wlp_ret. right. ssplit; try done.
      rewrite <- (setQueues_same Decoding e q s0 Hq) at 2. unfold s1. by rewrite drop_nil, <- Hqw.
    + destruct (Z.to_nat n) as [|n'] eqn:Hn; [unfold n in Hn; lia|]. cbn [take] in *. apply Forall_cons in Hf as [Hw _].
      assert (Hlen : 0 < len (w :: take n' works) < two32).
      { rewrite len_cons. pose proof (len_nonneg (take n' works)). specialize (Hfew Decoding). rewrite Hd, len_cons in Hfew.
        unfold len in *. rewrite length_take in *. lia. }
      rewrite u32_small, (proj2 (Z.eqb_neq _ _)) by lia.
      eapply wlp_mono; [apply (hand_ahead w); [rewrite Hd; by left|done|done|exact Hp1]|]. intros r s'. by left.
  - pose proof (len_nonneg hand). case_match.
    + apply wlp_ret. left. split; [done|]. right. lia.
    + eapply wlp_mono; [|intros r s'; by left]. apply (paid_ahead (8 * len hand)); [done|lia|].
      eapply costs_more; [apply pickDecodeLoop_costs|]. change (len []) with 0. lia.
Qed.
(** A budget with room for one item of the tokens of [B]. *)
Definition fresh (g : batchBudget) : Prop := bg_remainTokens g = bg_remainTokens B /\
  1 <= bg_remainSeqs g /\ 1 <= bg_remainPrefill g /\ 1 <= bg_remainLargePrefill g.

(** What [Pop] takes from the queue [k] as it was. *)
Lemma Pop_ahead k q : queues k s0 !! e = Some q ->
  wlp (Pop k e) (fun r s => paced s /\
    ((sd_requestManager s = rm0 /\ (match r with
      | Some w => head (wq_works q) = Some w /\ runnable rm0 w = true
      | None => wq_works q = [] end)) \/ load 3 s + held r < load 3 s0)) s0.
Proof using Hp0.
  intros Hq. eapply wlp_mono; [apply (sweep_finds k e popLoop (fun r => len (option_list r))
    (fun r l => match r with Some w => wq_works q = w :: l /\ runnable rm0 w = true | None => wq_works q = [] /\ l = [] end)
    q s0 Hq Hp0 (free_popLoop _))|].
  { eapply wlp_mono; [apply popLoop_finds|]. intros r rm' [H|?]; [by left|by right]. }
  intros r s [Hp [(l & Hr & ->)|Hlt]]; (split; [done|]).
  - left. split; [by destruct k|]. destruct r as [w|]; [by destruct Hr as [-> ?]|by destruct Hr].
  - right. destruct r as [w|]; [change (len (option_list (Some w))) with 1 in Hlt|]; cbn [held]; [lia|].
    change (len (option_list None)) with 0 in Hlt. lia.
Qed.

(** An item of the queue is tried and the loop goes on. *)
Lemma tried_ahead k w back (c : list WorkItem -> batchBudget -> M scheduler (list WorkItem * batchBudget)) g g' s :
  w ∈ queued k e s0 -> runnable rm0 w = true -> sd_requestManager s = rm0 -> paced s ->
  (forall b g, costs paced (load 3) (c b g) (8 * len b) picked) -> (forall b g, extends b (c b g)) ->
  wlp (r ← tryAllocate (nextPart B k w) back;
    match r with None => c [] g | Some x => c ([] ++ [x]) (g' x) end) ahead s.
Proof using HS Hm Hsup.
  intros Hw Hrun Hs Hp Hc He r s' E.
  split; [by destruct (costs_tried 3 [] (nextPart B k w) back c g g' Hc _ _ _ E Hp)|]. left. revert r s' E.
  apply wlp_bind. eapply wlp_mono; [exact (first_allocated k w back s Hw Hrun Hs)|].
  intros [x|] s1 Hx; [|done]. by apply (extends_nonempty ([] ++ [x])).
Qed.

Lemma scan_length k q : queues k s0 !! e = Some q -> wq_works q <> [] ->
  exists n, Z.to_nat (QueueLength q) = S n.
Proof using Hfew.
  intros Hq Hne. specialize (Hfew k). unfold queued in Hfew. rewrite Hq in Hfew. unfold QueueLength.
  pose proof (len_nonneg (wq_works q)). rewrite u32_small by lia. destruct (wq_works q) as [|w l]; [done|].
  rewrite len_cons. pose proof (len_nonneg l). exists (Z.to_nat (len l)). lia.
Qed.

Lemma pickSmall_ahead g : fresh g -> wlp (pickSmallPrefill e [] g) (fun r s => ahead r s \/
  (queued SmallPrefill e s0 = [] /\ s = s0 /\ r = ([], g))) s0.
Proof using HS Hm Hsup Hp0 Hsmall Hfew Htokens.
  intros (Et & Hs & Hp & _). destruct (queue_of SmallPrefill) as (q & Hq & Hqw). unfold pickSmallPrefill, LengthOf.
  apply wlp_bind. intros z s' E. unfold getsO in E. rewrite Hq in E. injection E as <- <-.
  destruct (decide (wq_works q = [])) as [E0|Hne].
  { unfold QueueLength. rewrite E0. apply wlp_ret. right. by rewrite Hqw. }
  destruct (scan_length SmallPrefill q Hq Hne) as [n ->]. cbn [pickSmallLoop].
  rewrite (proj2 (Z.ltb_lt 0 (bg_remainSeqs g))), (proj2 (Z.ltb_lt 0 (bg_remainTokens g))), (proj2 (Z.ltb_lt 0 (bg_remainPrefill g))) by lia.
  cbn [andb]. apply wlp_bind. eapply wlp_mono; [apply (sweep_finds SmallPrefill e peekLoop (fun _ => 0)
    (fun r l => l = wq_works q /\ match r with Some w => head (wq_works q) = Some w /\ runnable rm0 w = true | None => wq_works q = [] end)
    q s0 Hq Hp0 (free_peekLoop _))|].
  { eapply wlp_mono; [apply peekLoop_finds|]. intros r rm' [(? & ? & ?)|?]; [by left|by right]. }
  intros small s1 [Hp1 [(l & [-> Hh] & ->)|Hlt]].
  - rewrite (setQueues_same SmallPrefill e q s0 Hq). destruct small as [w|]; [|done]. destruct Hh as [Hh Hrun].
    assert (Hw : w ∈ queued SmallPrefill e s0) by (rewrite Hqw; by apply head_Some_elem_of).
    cbv zeta. rewrite (proj2 (Z.ltb_ge _ _)) by (rewrite Et; by apply Hsmall).
    apply wlp_bind. eapply wlp_mono; [exact (Pop_ahead SmallPrefill q Hq)|]. intros r s2 [Hp2 [[Hrm Hr]|Hlt]].
    + destruct r as [w'|]; [|done]. destruct Hr as [Hh' _]. rewrite Hh in Hh'. injection Hh' as <-.
      eapply wlp_mono; [apply (tried_ahead SmallPrefill w w (pickSmallLoop n e) g (fun _ => _) s2 Hw Hrun Hrm Hp2);
        [intros; apply pickSmallLoop_costs|intros; apply pickSmallLoop_extends]|]. intros ? ?. by left.
    + eapply wlp_mono; [|intros r' s'; by left]. apply (paid_ahead (held r)); [done|done|].
      destruct r as [x|]; [|apply pickSmallLoop_costs].
      apply (costs_tried 3 [] x x (pickSmallLoop n e) g (fun _ => _)). intros. apply pickSmallLoop_costs.
  - eapply wlp_mono; [|intros r' s'; by left]. apply (paid_ahead 0); [done|lia|].
    destruct small as [w|]; [|by apply costs_ret]. cbv zeta. case_match; [by apply costs_ret|].
    apply (costs_popped 3 SmallPrefill e []). intros [x|]; [|apply pickSmallLoop_costs].
    apply (costs_tried 3 [] x x (pickSmallLoop n e) g (fun _ => _)). intros. apply pickSmallLoop_costs.
Qed.
Lemma nextPart_split w : w ∈ queued LargePrefill e s0 -> runnable rm0 w = true -> exists rest,
  splitPrefillChunk w (Z.min (WorkBudgetCost w) (bg_remainTokens B)) = Some (nextPart B LargePrefill w, rest).
Proof using HS Htokens.
  intros Hw Hrun. destruct (sk_queued _ _ HS LargePrefill w Hw Hrun) as [(_ & Hk & Hn) _]. unfold kindOf in Hk.
  destruct (wi_Phase w) eqn:Hph; [|done|done]. destruct Hn as [Hr Hl].
  assert (Hc : WorkBudgetCost w = wi_NumNewTokens w).
  { unfold WorkBudgetCost. rewrite Hph. by rewrite (proj2 (Z.ltb_lt 0 _)) by lia. }
  destruct (split_spec w (Z.min (WorkBudgetCost w) (bg_remainTokens B)) Hph Hr Hl ltac:(lia)) as (rest & Hs & _).
  exists rest. rewrite Hs. unfold nextPart. rewrite Hc.
  assert (Z.min (Z.min (wi_NumNewTokens w) (bg_remainTokens B)) (wi_NumNewTokens w) = Z.min (wi_NumNewTokens w) (bg_remainTokens B)) as -> by lia.
  done.
Qed.

Lemma pickLarge_ahead g : fresh g -> wlp (pickLargePrefill e [] g) (fun r s => ahead r s \/
  queued LargePrefill e s0 = []) s0.
Proof using HS Hm Hsup Hp0 Hfew Htokens.
  intros (Et & Hs & Hp & Hl). destruct (queue_of LargePrefill) as (q & Hq & Hqw). unfold pickLargePrefill, LengthOf.
  apply wlp_bind. intros z s' E. unfold getsO in E. rewrite Hq in E. injection E as <- <-.
  destruct (decide (wq_works q = [])) as [E0|Hne]; [apply wlp_true; intros; right; by rewrite Hqw|].
  destruct (scan_length LargePrefill q Hq Hne) as [n ->]. cbn [pickLargeLoop].
  rewrite (proj2 (Z.ltb_lt 0 (bg_remainSeqs g))), (proj2 (Z.ltb_lt 0 (bg_remainTokens g))),
    (proj2 (Z.ltb_lt 0 (bg_remainPrefill g))), (proj2 (Z.ltb_lt 0 (bg_remainLargePrefill g))) by lia.
  cbn [andb]. eapply wlp_mono; [|intros r s'; by left].
  apply wlp_bind. eapply wlp_mono; [exact (Pop_ahead LargePrefill q Hq)|]. intros r s2 [Hp2 [[Hrm Hr]|Hlt]].
  - destruct r as [w|]; [|done]. destruct Hr as [Hh Hrun].
    assert (Hw : w ∈ queued LargePrefill e s0) by (rewrite Hqw; by apply head_Some_elem_of).
    cbv zeta. rewrite Et. destruct (nextPart_split w Hw Hrun) as [rest Hsplit].
    apply wlp_bind. intros sp s3 E. unfold getsO in E. rewrite Hsplit in E. injection E as <- <-. cbn [fst].
    apply (tried_ahead LargePrefill w w (pickLargeLoop n e) g (fun _ => _) s2 Hw Hrun Hrm Hp2);
      [intros; apply pickLargeLoop_costs|intros; apply pickLargeLoop_extends].
  - apply (paid_ahead (held r)); [done|done|]. destruct r as [x|]; [|by apply costs_ret].
    cbv zeta. apply costs_then; [apply free_getsO|]. intros sp.
    apply (costs_tried 3 [] _ x (pickLargeLoop n e) g (fun _ => _)). intros. apply pickLargeLoop_costs.
Qed.

(** A pick with work that can run takes an item or drops some. *)
Lemma pickBatch_ahead k w : w ∈ queued k e s0 ->
  wlp (pickBatch e) (fun batch s => paced s /\ (batch <> [] \/ load 3 s < load 3 s0)) s0.
Proof using HS Hm Hsup Hp0 Hseqs Htokens Hsmall Hfew.
  intros Hw. unfold pickBatch. apply wlp_get. fold B.
  assert (Hsc : forall n b g, costs paced (load 3) (pickSmallLoop n e b g) (8 * len b) picked) by (intros; apply pickSmallLoop_costs).
  assert (Hlc : forall n b g, costs paced (load 3) (pickLargeLoop n e b g) (8 * len b) picked) by (intros; apply pickLargeLoop_costs).
  assert (Hend : forall r s, ahead r s -> wlp (mret r.1 : M scheduler (list WorkItem))
    (fun batch s => paced s /\ (batch <> [] \/ load 3 s < load 3 s0)) s) by (intros r s Ha; by apply wlp_ret).
  assert (Hlast : forall r s, ahead r s -> wlp (r ← pickLargePrefill e r.1 r.2; mret r.1)
    (fun batch s => paced s /\ (batch <> [] \/ load 3 s < load 3 s0)) s).
  { intros r s [Hp Ha]. apply wlp_bind. eapply wlp_mono; [|intros r' s'; apply Hend]. unfold pickLargePrefill.
    apply (ahead_tail r.1 s _ Hp Ha); [apply costs_then; [apply free_getsO|intros; apply Hlc]|].
    apply extends_bind. intros. apply pickLargeLoop_extends. }
  assert (Hmid : forall r s, ahead r s -> wlp (r ← pickSmallPrefill e r.1 r.2; r ← pickLargePrefill e r.1 r.2; mret r.1)
    (fun batch s => paced s /\ (batch <> [] \/ load 3 s < load 3 s0)) s).
  { intros r s [Hp Ha]. apply wlp_bind. eapply wlp_mono; [|intros r' s'; apply Hlast]. unfold pickSmallPrefill.
    apply (ahead_tail r.1 s _ Hp Ha); [apply costs_then; [apply free_getsO|intros; apply Hsc]|].
    apply extends_bind. intros. apply pickSmallLoop_extends. }
  apply wlp_bind. eapply wlp_mono; [exact pickDecode_ahead|]. intros r s [Ha|(Hd & -> & ->)]; [by apply Hmid|]. cbn [fst snd].
  set (g := setf bg_remainLargePrefill _ _). assert (Hg : fresh g) by (unfold fresh, g; cbn; split; [done|lia]).
  apply wlp_bind. eapply wlp_mono; [exact (pickSmall_ahead g Hg)|]. intros r s [Ha|(Hsm & -> & ->)]; [by apply Hlast|]. cbn [fst snd].
  apply wlp_bind. eapply wlp_mono; [exact (pickLarge_ahead g Hg)|]. intros r s [Ha|Hlg]; [by apply Hend|].
  exfalso. destruct k; [rewrite Hsm in Hw|rewrite Hlg in Hw|rewrite Hd in Hw]; by apply not_elem_of_nil in Hw.
Qed.
End progress.

(** ** A round *)

Lemma pickBatch_items e s : SchedOK e s -> wlp (pickBatch e) (fun batch s' =>
  Forall (fun b => wi_ExecutorID b = e) batch /\ sd_executorManager s' = sd_executorManager s) s.
Proof.
  intros [Hsmok Hex Hroom HB Hq Huniq]. apply wp_wlp.
  set (Q := fun k => match queues k s !! e with Some q => q | None => NewQueue 0 end).
  assert (HQ : forall k, queues k s !! e = Some (Q k)).
  { intros k. unfold Q. by destruct (Hex k) as [q ->]. }
  assert (Hwk : forall k, queued k e s = works0 Q k) by (intros k; unfold queued, works0; by rewrite HQ).
  assert (Hwait : waiting s e s = able s (allWorks (works0 Q))).
  { unfold waiting, able, allWorks. by rewrite !Hwk. }
  rewrite Hwait in Huniq.
  wp_use (pickBatch_spec s e Q HQ Huniq Hsmok Hroom); [intros k w; rewrite <- Hwk; apply Hq|exact HB|].
  intros batch s' (rm & ws & P & left & -> & _ & HW & _). split; [|done].
  eapply Forall_impl; [exact (wn_items _ _ _ _ _ _ HW)|]. by intros b (_ & ? & _).
Qed.

Section round.
Context (e : string) (s0 : scheduler) (m : manager).
Context (HF : Flow s0 []) (He : e ∈ sd_executorIDs s0) (Hp0 : paced s0).
Context (Hm : r_managers (sm_registry (sd_requestManager s0)) !! e = Some m).

Let B := sd_batchBudget s0.
Let rm0 := sd_requestManager s0.

Context (Hseqs : 1 <= bg_remainSeqs B) (Htokens : 1 <= bg_remainTokens B).
Context (Hthreshold : sd_longPrefillThreshold s0 <= bg_remainTokens B).
Context (Hfew : forall k, len (queued k e s0) < two32).
Context (Hsup : forall k w, w ∈ queued k e s0 -> runnable rm0 w = true -> blocksNeeded m (nextPart B k w) <= m_freeCount m).

(** A short prompt is no longer than the threshold. *)
Lemma small_fits w : w ∈ queued SmallPrefill e s0 -> runnable rm0 w = true -> WorkBudgetCost w <= bg_remainTokens B.
Proof using HF Hthreshold.
  intros Hw Hrun. destruct (wd_kinds _ (fl_wired _ _ HF) _ _ _ Hw) as [Hk _]. destruct (runnable_live _ _ Hrun) as [req Hreq].
  pose proof (proj1 (Forall_forall _ _) (wk_ok _ _ _ (fl_work _ _ HF)) _ (flow_queued s0 _ e w HF Hw)) as [_ Hok].
  destruct (Hok req Hreq) as (_ & m' & c & _ & _ & (k' & _ & Hk' & Hn) & _ & Hcont & _).
  unfold kindOf in Hk. destruct (wi_Phase w) eqn:Hph; [|done|done].
  destruct (Hcont Hph) as (_ & Ho & Htot & H0 & Hn0 & Hle & _).
  destruct (wi_TokenCntTotal w <=? sd_longPrefillThreshold s0) eqn:Hth; [|done]. apply Z.leb_le in Hth.
  unfold WorkBudgetCost. rewrite Hph, (proj2 (Z.ltb_lt 0 _)) by lia. lia.
Qed.

(** The consumer's channel has room, and something waits: the round is not idle. *)
Lemma patchExecute_ahead k w q : w ∈ queued k e s0 -> em_batchChans (sd_executorManager s0) !! e = Some q ->
  len q < chanCap -> wlp (patchExecute None true e) (fun _ s => load 3 s < load 3 s0) s0.
Proof using HF He Hp0 Hm Hseqs Htokens Hthreshold Hfew Hsup.
  intros Hw Hq Hroom. pose proof (flow_schedulable s0 e HF He) as HS. unfold patchExecute. apply wlp_bind.
  intros batch s1 E1. destruct (pickBatch_items e s0 HS _ _ E1) as [Hitems Hem].
  destruct (pickBatch_ahead e s0 m HS Hp0 Hm Hseqs Htokens small_fits Hfew Hsup k w Hw _ _ E1) as [Hp1 Hor].
  destruct (pickBatch_costs 3 e _ _ _ E1 Hp0) as [_ Hl1].
  destruct batch as [|first rest] eqn:Hb; [apply wlp_ret; by destruct Hor|]. rewrite <- Hb in *.
  assert (Hn : 1 <= len batch) by (rewrite Hb, len_cons; pose proof (len_nonneg rest); lia).
  assert (Hfirst : wi_ExecutorID first = e) by (rewrite Hb in Hitems; by inversion Hitems).
  apply wlp_bind. intros u s2 E2. destruct (sfree_trySchedule 3 e _ _ _ E2 Hp1) as [Hp2 Hl2].
  assert (Hem2 : sd_executorManager s2 = sd_executorManager s0).
  { rewrite <- Hem. revert E2. pose proof (pickBatch_flow s0 [] e HF He) as Hf. unfold wp in Hf. rewrite E1 in Hf.
    destruct Hf as [_ Hf]. pose proof (trySchedule_spec e s1 (flow_wired _ _ Hf)) as Ht. intros E2. unfold wp in Ht. rewrite E2 in Ht.
    by destruct Ht as (b & l & ->). }
  apply wlp_bind. intros id s3 E3.
  destruct (costs_onState 3 _ _ _ rfree_uuid _ _ _ E3 Hp2) as [Hp3 Hl3].
  assert (Hem3 : sd_executorManager s3 = sd_executorManager s0).
  { rewrite <- Hem2. revert E3. unfold onState. destruct (newUUID _) as [[x rm]|]; [|done]. by intros [= _ <-]. }
  apply wlp_get. cbv zeta. set (b := {| bt_BatchID := id |}). apply wlp_bind. intros r s4 E4.
  destruct (Submit_costs 3 None true b _ _ _ E4 Hp3) as [Hp4 Hl4].
  assert (r = None) as ->.
  { revert E4. unfold onExecutors, Submit, mbind, M_bind, getS, modS, mret, M_ret. cbn [bt_ExecutorID b]. rewrite Hem3, Hfirst, Hq.
    rewrite (proj2 (Z.ltb_lt _ _) Hroom). by intros [= <- _]. }
  unfold batchLoad in Hl4. cbn [bt_Items b] in Hl4. intros x s5 E5.
  assert (Hobs : free paced (load 3) (observeBatchStatsAndTimeWait batch (sm_now (sd_requestManager s3)))).
  { unfold observeBatchStatsAndTimeWait. apply costs_then; [apply sfree_metric|]. intros _. apply sfree_forM. intros. apply sfree_metric. }
  destruct (Hobs _ _ _ E5 Hp4) as [_ Hl5]. lia.
Qed.
End round.
