(* ===== verification/EngineDrain.v ===== *)
(** * EngineDrain: driving the engine to rest

    From every state the engine's goroutines can be run, the executors answering
    as they do, until no request is left that can run or one waits for blocks. *)

From stdpp Require Import relations.
From S2P Require Import Prelude Errors Model Metrics FreeQueue BlockManager BlockProperties BlockRegistry StateMachine RequestProperties RequestFrame Executor ExecutorProperties Queues QueueProperties Scheduler SchedulerPick SchedulerProperties Engine EngineRequests EngineSteps EngineLoad GoSha256 Tokenizer Handler EngineProperties EngineTermination EngineProgress.
(** ** What the scheduler never changes *)

Definition steadily {A} (c : M scheduler A) : Prop := forall s, wlp c (fun _ s' => steady s s') s.

Lemma steadily_ret {A} (a : A) : steadily (mret a).
Proof. intros s. by apply wlp_ret. Qed.
Lemma steadily_get {A} (f : scheduler -> M scheduler A) : (forall s, steadily (f s)) -> steadily (getS ≫= f).
Proof. intros Hf s. apply wlp_get, Hf. Qed.
Lemma steadily_bind {A B} (c : M scheduler A) (f : A -> M scheduler B) :
  steadily c -> (forall a, steadily (f a)) -> steadily (c ≫= f).
Proof.
  intros Hc Hf s. apply wlp_bind. eapply wlp_mono; [apply Hc|]. intros a s1 Hs. eapply wlp_mono; [apply Hf|].
  intros b s2. by apply steady_trans.
Qed.
Lemma steadily_mod f : (forall s, steady s (f s)) -> steadily (modS f).
Proof. intros Hf s x s' [= _ <-]. apply Hf. Qed.
Lemma steadily_getsO {A} (f : scheduler -> option A) : steadily (getsO f).
Proof. intros s a s'. unfold getsO. destruct (f s); [|done]. by intros [= _ <-]. Qed.
Lemma steadily_onState {A} (c : M stateManager A) : steadily (onState c).
Proof. intros s a s'. unfold onState. destruct (c _) as [[x rm]|]; [|done]. by intros [= _ <-]. Qed.
Lemma steadily_onExecutors {A} (c : M executorManager A) : steadily (onExecutors c).
Proof. intros s a s'. unfold onExecutors. destruct (c _) as [[x rm]|]; [|done]. by intros [= _ <-]. Qed.
Lemma steadily_onQueue {A} k e (c : M workQueue A) : steadily (onQueue k e c).
Proof.
  intros s a s'. unfold onQueue. destruct (queues k s !! e) as [q|]; cbn; [|done]. destruct (c q) as [[x q']|]; cbn; [|done].
  intros [= _ <-]. by destruct k.
Qed.

Create HintDb steady.
#[export] Hint Resolve steadily_ret steadily_getsO steadily_onState steadily_onExecutors steadily_onQueue : steady.
#[export] Hint Extern 1 (steadily (modS _)) => (by apply steadily_mod) : steady.

Ltac steady := repeat first
  [ progress cbv beta zeta
  | solve [eauto 2 with steady nocore]
  | match goal with
    | |- steadily (getS ≫= _) => apply steadily_get; intros ?
    | |- steadily (_ ≫= _) => apply steadily_bind; [|intros ?]
    | |- steadily (match ?x with _ => _ end) => destruct x
    end ].

Lemma steadily_trySchedule e : steadily (trySchedule e).
Proof.
  assert (Hq : forall ids, steadily (queueLengths ids)).
  { induction ids as [|id ids IH]; cbn [queueLengths]; unfold LengthOf; steady. }
  unfold trySchedule, sd_metric. apply steadily_get. intros s. destruct (sd_prefillSmall s !! e); [|steady].
  destruct (sd_prefillLarge s !! e); [|steady]. destruct (sd_decode s !! e); [|steady].
  apply steadily_bind; [destruct (_ || _); steady|]. intros _. apply steadily_bind; [apply Hq|]. intros r. steady.
Qed.
#[export] Hint Resolve steadily_trySchedule : steady.

Lemma steadily_Enqueue w : steadily (Enqueue w).
Proof.
  unfold Enqueue, sd_metric. steady.
Qed.
#[export] Hint Resolve steadily_Enqueue : steady.

Lemma steadily_enqueueAll items : steadily (enqueueAll items).
Proof. induction items as [|w items IH]; cbn [enqueueAll]; steady. Qed.
#[export] Hint Resolve steadily_enqueueAll : steady.

Lemma steadily_finalize ev req : steadily (finalize ev req).
Proof.
  unfold finalize, onBlocks. steady.
Qed.

#[export] Hint Resolve steadily_finalize : steady.

Lemma steadily_consumeEvent : steadily consumeEvent.
Proof.
  unfold consumeEvent, handleEvent, onBlocks, sd_metric. steady.
Qed.

(** ** The runs *)

(** The executors answer by [runtime]. *)
Definition driven_by (runtime : string -> Batch -> error + list ExecuteResult) (a : action) : Prop :=
  match a with
  | ABatch ctx room_first _ | APatch ctx room_first _ => ctx = None /\ room_first = true
  | AOutcome id batch resp _ => resp = runtime id batch
  | AEvent | ATake _ _ _ | ASend _ _ _ | ADone _ => True
  | AOpen _ | AStream _ _ | AClock _ => False
  end.

Definition drives (runtime : string -> Batch -> error + list ExecuteResult) (e e' : engine) : Prop :=
  exists a, driven_by runtime a /\ may_run a e /\ perform a e = Some (tt, e').

(** A runtime that answers every item, decode items with one token. *)
Definition answers (runtime : string -> Batch -> error + list ExecuteResult) : Prop :=
  forall id batch, honest (bt_Items batch) (runtime id batch) /\ generous (bt_Items batch) (runtime id batch).

(** A batch has room for a sequence and a token, and a short prompt fits. *)
Definition workable (s : scheduler) : Prop :=
  1 <= bg_remainSeqs (sd_batchBudget s) /\ 1 <= bg_remainTokens (sd_batchBudget s) /\
  sd_longPrefillThreshold s <= bg_remainTokens (sd_batchBudget s).

(** Every request has ended or its deadline has passed. *)
Definition drained (e : engine) : Prop :=
  map_Forall (fun _ req => terminal (req_Phase req) = true \/ expired (requestsOf e) req = true) (sm_requests (requestsOf e)).

(** An item that can run waits for more blocks than are free. *)
Definition starved (e : engine) : Prop :=
  exists ex m k w, r_managers (sm_registry (requestsOf e)) !! ex = Some m /\ w ∈ queued k ex (en_scheduler e) /\
    runnable (requestsOf e) w = true /\
    m_freeCount m < blocksNeeded m (nextPart (sd_batchBudget (en_scheduler e)) k w).

Lemma steady_workable s s' : steady s s' -> workable s -> workable s'.
Proof. unfold workable. by intros (_ & -> & ->). Qed.

(** The same of a computation of the engine. *)
Definition steadyE {A} (c : M engine A) : Prop := forall e, wlp c (fun _ e' => steady (en_scheduler e) (en_scheduler e')) e.

Lemma steadyE_ret {A} (a : A) : steadyE (mret a).
Proof. intros e. by apply wlp_ret. Qed.
Lemma steadyE_get {A} (f : engine -> M engine A) : (forall e, steadyE (f e)) -> steadyE (getS ≫= f).
Proof. intros Hf e. apply wlp_get, Hf. Qed.
Lemma steadyE_bind {A B} (c : M engine A) (f : A -> M engine B) :
  steadyE c -> (forall a, steadyE (f a)) -> steadyE (c ≫= f).
Proof.
  intros Hc Hf e. apply wlp_bind. eapply wlp_mono; [apply Hc|]. intros a e1 Hs. eapply wlp_mono; [apply Hf|].
  intros b e2. by apply steady_trans.
Qed.
Lemma steadyE_scheduler {A} (c : M scheduler A) : steadily c -> steadyE (onScheduler c).
Proof.
  intros Hc e a e'. unfold onScheduler. destruct (c _) as [[x s]|] eqn:E; [|done]. intros [= _ <-]. by apply (Hc _ _ _ E).
Qed.
Lemma steadyE_requests {A} (c : M stateManager A) : steadyE (onRequests c).
Proof. apply steadyE_scheduler, steadily_onState. Qed.
Lemma steadyE_tokenizer {A} (f : tokenizer -> option (A * tokenizer)) : steadyE (onTokenizer f).
Proof. intros e a e'. unfold onTokenizer. destruct (f _) as [[x t]|]; [|done]. by intros [= _ <-]. Qed.
Lemma steadyE_getsO {A} (f : engine -> option A) : steadyE (getsO f).
Proof. intros e a e'. unfold getsO. destruct (f e); [|done]. by intros [= _ <-]. Qed.
#[export] Hint Resolve steadyE_ret steadyE_requests steadyE_tokenizer steadyE_getsO : steady.

Ltac steadyE := repeat first
  [ progress cbv beta zeta
  | solve [eauto 2 with steady nocore]
  | match goal with
    | |- steadyE (getS ≫= _) => apply steadyE_get; intros ?
    | |- steadyE (_ ≫= _) => apply steadyE_bind; [|intros ?]
    | |- steadyE (match ?x with _ => _ end) => destruct x
    | |- steadyE (onScheduler _) => apply steadyE_scheduler; steady
    end ].

Lemma steadyE_openStream req : steadyE (openStream req).
Proof. unfold openStream, subscribeAndQueue, AssignExecutor. steadyE. Qed.
Lemma steadyE_streamStep i st : steadyE (streamStep i st).
Proof. unfold streamStep, closeOut. steadyE. Qed.

Lemma perform_steady a e e' : EngineOK e -> may_run a e -> perform a e = Some (tt, e') ->
  steady (en_scheduler e) (en_scheduler e').
Proof.
  intros HF Ha. assert (Hsch : forall A (c : M scheduler A) x e1, wlp c (fun _ s' => steady (en_scheduler e) s') (en_scheduler e) ->
    onScheduler c e = Some (x, e1) -> steady (en_scheduler e) (en_scheduler e1)).
  { intros A c x e1 Hc. unfold onScheduler. destruct (c _) as [[y s]|] eqn:E; [|done]. intros [= _ <-]. by eapply Hc. }
  assert (Hdrop : forall A (c : M engine A), (c ;; mret tt) e = Some (tt, e') -> exists x, c e = Some (x, e')).
  { intros A c. unfold mbind, M_bind, mret, M_ret. destruct (c e) as [[x e1]|]; [|done]. intros [= <-]. by exists x. }
  destruct a as [req|i st|ctx rf sg|ctx rf id| |id b rest|id b resp now|id ev evs|id|t]; cbn [perform].
  - intros [x Hrun]%Hdrop. by apply (steadyE_openStream _ _ _ _ Hrun).
  - intros [x Hrun]%Hdrop. by apply (steadyE_streamStep _ _ _ _ _ Hrun).
  - apply Hsch, wp_wlp. eapply wp_mono; [apply (BatchRound_flow ctx rf sg _ [] HF)|]. by intros ? ? [? _].
  - apply Hsch, wp_wlp. eapply wp_mono; [apply (patchExecute_flow ctx rf id _ [] HF Ha)|]. by intros ? ? [? _].
  - apply Hsch, steadily_consumeEvent.
  - apply Hsch, steadily_onExecutors.
  - intros [x Hrun]%Hdrop. revert Hrun. apply Hsch, steadily_onExecutors.
  - apply Hsch, steadily_onExecutors.
  - apply Hsch, steadily_onExecutors.
  - apply Hsch, steadily_onState.
Qed.

Lemma driven_unprompted r a e : answers r -> driven_by r a ->
  match a with AOutcome id batch _ _ => workerOf e id = Some (Running batch) -> may_run a e | _ => True end /\ unprompted a.
Proof.
  intros Hr Hd. destruct a; try done. cbn in *. subst. destruct (Hr id batch) as [Hh Hg]. by split.
Qed.

(** ** One step forward *)

Section forward.
Context (runtime : string -> Batch -> error + list ExecuteResult) (Hruntime : answers runtime).
Context (e : engine) (HF : EngineOK e) (Hp : paced (en_scheduler e)).
Context (Hwork : workable (en_scheduler e)) (Hload : loadOf e < 8 * two32).

Let s := en_scheduler e.

(** There is a step that takes from the load. *)
Definition forward : Prop := exists e', drives runtime e e' /\ loadOf e' < loadOf e.

Lemma forward_by a : driven_by runtime a -> may_run a e -> (forall e', perform a e = Some (tt, e') -> moves a e e') -> forward.
Proof using Hruntime HF Hp.
  intros Hd Ha Hm. pose proof (perform_ok a e HF Ha) as H. apply wp_run in H as ([] & e' & Hrun & _).
  exists e'. split; [by exists a|]. destruct (driven_unprompted runtime a e Hruntime Hd) as [_ Hu].
  by apply (perform_lighter a e e' HF Hp Hu Ha Hrun), Hm.
Qed.

(** Nothing is on its way to or from the executor. *)
Definition restful (ex : string) : bool :=
  match workerOf e ex, batchesOf e ex with Some Idle, Some [] => true | _, _ => false end.

Lemma forward_pipeline ex : ex ∈ sd_executorIDs s -> restful ex = false -> forward.
Proof using Hruntime HF Hp.
  intros Hex Hr. pose proof (fl_wired _ _ HF) as HWd.
  destruct (em_eventChan (managerOf e)) as [|ev evs] eqn:Hev.
  2: { apply (forward_by AEvent); [done|done|]. intros e' _. cbn. by rewrite Hev. }
  destruct (proj2 (wd_workers _ HWd ex) Hex) as [w Hw]. destruct (proj2 (wd_chans _ HWd ex) Hex) as [q Hq].
  unfold restful, workerOf, batchesOf in Hr. fold s in Hr. unfold s in Hw, Hq. fold s in Hw, Hq. rewrite Hw, Hq in Hr. destruct w as [|b|[|ev evs]].
  - destruct q as [|b rest]; [done|]. by apply (forward_by (ATake ex b rest)).
  - destruct (Hruntime ex b) as [Hh _]. by apply (forward_by (AOutcome ex b (runtime ex b) 0)).
  - by apply (forward_by (ADone ex)).
  - apply (forward_by (ASend ex ev evs)); [done| |done]. split; [done|]. fold s. change (sd_executorManager s) with (managerOf e).
    by rewrite Hev.
Qed.

Lemma forward_events : em_eventChan (managerOf e) <> [] -> forward.
Proof using Hruntime HF Hp. intros Hev. by apply (forward_by AEvent). Qed.

(** The items of a queue are few when the load is. *)
Lemma queue_few k ex : len (queued k ex s) < two32.
Proof using Hload.
  assert (Hq : len (queued k ex s) <= queueLoad s).
  { assert (H0 : forall q, 0 <= waitingLoad q) by (intros; apply len_nonneg).
    assert (Hone : forall qs : gmap string workQueue, (match qs !! ex with Some q => len (wq_works q) | None => 0 end) <= msum waitingLoad qs).
    { intros qs. pose proof (msum_nonneg waitingLoad (delete ex qs) H0). destruct (qs !! ex) as [q|] eqn:E.
      - rewrite (msum_delete waitingLoad qs ex q E). unfold waitingLoad at 1. lia.
      - by apply msum_nonneg. }
    pose proof (msum_nonneg _ (sd_decode s) H0). pose proof (msum_nonneg _ (sd_prefillSmall s) H0).
    pose proof (msum_nonneg _ (sd_prefillLarge s) H0).
    pose proof (Hone (sd_decode s)). pose proof (Hone (sd_prefillSmall s)). pose proof (Hone (sd_prefillLarge s)).
    unfold queueLoad, queued. destruct k; cbn [queues];
      (match goal with |- context [?qs !! ex] => destruct (qs !! ex); [|change (len []) with 0] end); lia. }
  pose proof (msum_nonneg debt (sm_requests (sd_requestManager s)) debt_nonneg).
  pose proof (pipeLoad_nonneg 3 ltac:(lia) (sd_executorManager s)). unfold loadOf, load, owes in Hload. fold s in Hload. lia.
Qed.

Lemma forward_round ex k w : ex ∈ sd_executorIDs s -> w ∈ queued k ex s -> restful ex = true ->
  is_Some (r_managers (sm_registry (requestsOf e)) !! ex) -> starved e \/ forward.
Proof using Hruntime HF Hp Hwork Hload.
  intros Hex Hw Hrest [m Hm]. unfold restful, workerOf, batchesOf in Hrest. fold s in Hrest.
  destruct (em_workers _ !! ex) as [[| |]|]; [|done..]. destruct (em_batchChans _ !! ex) as [[|? ?]|] eqn:Hq; [|done..].
  set (short := fun k w => runnable (requestsOf e) w = true /\ m_freeCount m < blocksNeeded m (nextPart (sd_batchBudget s) k w)).
  assert (Hdec : forall k, Exists (short k) (queued k ex s) \/ Forall (fun w => ~ short k w) (queued k ex s)).
  { intros k'. destruct (decide (Exists (short k') (queued k' ex s))) as [|Hno]; [by left|right; by apply not_Exists_Forall in Hno; [|intros; apply _]]. }
  assert (Hstarved : forall k', Exists (short k') (queued k' ex s) -> starved e).
  { intros k' (x & Hx & Hrun & Hsh)%Exists_exists. by exists ex, m, k', x. }
  destruct (Hdec SmallPrefill) as [Hst|H1]; [left; by eapply Hstarved|].
  destruct (Hdec LargePrefill) as [Hst|H2]; [left; by eapply Hstarved|].
  destruct (Hdec Decoding) as [Hst|H3]; [left; by eapply Hstarved|]. right.
  destruct Hwork as (Hs & Ht & Hth). fold s in Hs, Ht, Hth.
  assert (Hsup : forall k w, w ∈ queued k ex s -> runnable (requestsOf e) w = true ->
    blocksNeeded m (nextPart (sd_batchBudget s) k w) <= m_freeCount m).
  { intros k' x Hx Hrun. assert (Hno : ~ short k' x) by (destruct k'; [exact (proj1 (Forall_forall _ _) H1 x Hx)|exact (proj1 (Forall_forall _ _) H2 x Hx)|
      exact (proj1 (Forall_forall _ _) H3 x Hx)]). unfold short in Hno.
    apply Z.nlt_ge. intros ?. by apply Hno. }
  pose proof (patchExecute_ahead ex s m HF Hex Hp Hm Hs Ht Hth (fun k => queue_few k ex) Hsup k w [] Hw Hq ltac:(done)) as Hah.
  pose proof (perform_ok (APatch None true ex) e HF Hex) as H. apply wp_run in H as ([] & e' & Hrun & _).
  exists e'. split; [by exists (APatch None true ex)|]. revert Hrun. cbn [perform]. unfold onScheduler. fold s.
  destruct (patchExecute None true ex s) as [[[] s']|] eqn:E; [|done]. intros [= <-]. exact (Hah _ _ E).
Qed.

(** As long as a request can run, there is a step forward, or blocks are short. *)
Lemma forward_or_starved : drained e \/ starved e \/ forward.
Proof using Hruntime HF Hp Hwork Hload.
  destruct (decide (drained e)) as [|Hno]; [by left|right].
  apply map_not_Forall in Hno as (id & req & Hreq & Hrun); [|apply _].
  assert (Hterm : terminal (req_Phase req) = false) by (destruct (terminal _); tauto).
  destruct (decide (em_eventChan (managerOf e) = [])) as [Hev|Hev]; [|right; by apply forward_events].
  destruct (decide (Forall (fun ex => restful ex = true) (sd_executorIDs s))) as [Hall|Hex].
  2: { right. apply not_Forall_Exists in Hex; [|intros; apply _]. apply Exists_exists in Hex as (ex & Hex & Hr).
       apply (forward_pipeline ex Hex). by apply not_true_is_false. }
  pose proof (wk_lost _ _ _ (fl_work _ _ HF) id req Hreq Hterm) as Hin. cbn [app] in Hin.
  apply list_elem_of_fmap in Hin as (t & -> & Ht).
  assert (Hq : exists ex k w, ex ∈ sd_executorIDs s /\ w ∈ queued k ex s /\ t = Queued w).
  { unfold tokens in Ht. change (sd_executorManager (en_scheduler e)) with (managerOf e) in Ht. rewrite Hev, app_nil_r in Ht.
    apply list_elem_of_In, in_concat in Ht as (l & Hl & Ht).
    apply list_elem_of_In, list_elem_of_fmap in Hl as (ex & -> & Hex). apply list_elem_of_In in Ht. exists ex.
    pose proof (proj1 (Forall_forall _ _) Hall ex Hex) as Hrest. unfold restful, workerOf, batchesOf in Hrest.
    unfold executorTokens, chanTokens, workerTokens in Ht.
    destruct (em_workers _ !! ex) as [[| |]|]; [|done..]. destruct (em_batchChans _ !! ex) as [[|? ?]|]; [|done..].
    cbn in Ht. rewrite app_nil_r in Ht. unfold queueTokens in Ht. apply list_elem_of_fmap in Ht as (w & -> & Hw).
    apply elem_of_app in Hw as [Hw|[Hw|Hw]%elem_of_app]; [exists Decoding, w|exists SmallPrefill, w|exists LargePrefill, w]; by ssplit. }
  destruct Hq as (ex & k & w & Hex & Hw & ->).
  pose proof (proj1 (Forall_forall _ _) (wk_ok _ _ _ (fl_work _ _ HF)) _ Ht) as [_ Hok].
  destruct (Hok req Hreq) as (_ & m & c & Hm & _ & (k' & Hwf) & _). pose proof Hwf as (Hwe & _).
  destruct (wd_kinds _ (fl_wired _ _ HF) _ _ _ Hw) as [_ Hwe']. rewrite Hwe' in Hwe.
  apply (forward_round ex k w Hex Hw); [by apply (proj1 (Forall_forall _ _) Hall)|]. exists m. unfold requestsOf. by rewrite Hwe.
Qed.
End forward.

(** ** Liveness *)

Lemma loadOf_nonneg e : 0 <= loadOf e.
Proof.
  unfold loadOf, load, owes. assert (H0 : forall q, 0 <= waitingLoad q) by (intros; apply len_nonneg).
  pose proof (msum_nonneg debt (sm_requests (sd_requestManager (en_scheduler e))) debt_nonneg).
  pose proof (pipeLoad_nonneg 3 ltac:(lia) (sd_executorManager (en_scheduler e))).
  unfold queueLoad. pose proof (msum_nonneg _ (sd_decode (en_scheduler e)) H0).
  pose proof (msum_nonneg _ (sd_prefillSmall (en_scheduler e)) H0).
  pose proof (msum_nonneg _ (sd_prefillLarge (en_scheduler e)) H0). lia.
Qed.

(** The states a drive goes through keep what the next step needs. *)
Lemma drives_keeps runtime e e' : answers runtime -> EngineOK e -> paced (en_scheduler e) -> drives runtime e e' ->
  EngineOK e' /\ paced (en_scheduler e') /\ loadOf e' <= loadOf e /\ steady (en_scheduler e) (en_scheduler e').
Proof.
  intros Hr HF Hp (a & Hd & Ha & Hrun). pose proof (perform_ok a e HF Ha) as HF'. unfold wp in HF'. rewrite Hrun in HF'.
  destruct (driven_unprompted runtime a e Hr Hd) as [_ Hu].
  destruct (perform_lighter a e e' HF Hp Hu Ha Hrun) as (Hp' & Hl & _). ssplit; try done. by eapply perform_steady.
Qed.

Lemma drains_load runtime n : answers runtime -> forall e, EngineOK e -> paced (en_scheduler e) ->
  workable (en_scheduler e) -> loadOf e < 8 * two32 -> loadOf e < Z.of_nat n ->
  exists e', rtc (drives runtime) e e' /\ (drained e' \/ starved e').
Proof.
  intros Hr. induction n as [|n IH]; intros e HF Hp Hw Hl Hn; [pose proof (loadOf_nonneg e); lia|].
  destruct (forward_or_starved runtime Hr e HF Hp Hw Hl) as [Hd|[Hs|(e1 & Hstep & Hlt)]].
  - exists e. split; [constructor|by left].
  - exists e. split; [constructor|by right].
  - destruct (drives_keeps runtime e e1 Hr HF Hp Hstep) as (HF1 & Hp1 & _ & Hst).
    destruct (IH e1 HF1 Hp1 (steady_workable _ _ Hst Hw) ltac:(lia) ltac:(lia)) as (e2 & Hrtc & Hend).
    exists e2. split; [by eapply rtc_l|done].
Qed.
