(* ===== verification/Transport.v ===== *)
(** * Transport: the two inference calls (internal/transport/inference.go)

    [Generate] and [GenerateStream] open a stream with the handler and read its
    output channel until the last message; they measure the time to the first
    token and between tokens, and on every way out record the duration and the
    status of the request.

    [service] is the state: the engine behind the handler and the metric calls
    made.  What the loop's select receives is a list of [chanInput]s: a message
    with the time it is read and, for the streaming call, the error of sending
    its chunk; the closing of the channel; the end of the context.  A result
    [None] is a loop that still waits.  An error goes out as its connect code. *)

From S2P Require Import Prelude Errors Model Metrics FreeQueue BlockManager BlockRegistry StateMachine Executor Queues Scheduler Tokenizer Handler.

Record service := mkService { sv_engine : engine; sv_metrics : MetricLog }.
#[export] Instance service_eta : Eta service := fun s => mkService (sv_engine s) (sv_metrics s).

Definition onEngine {A} (c : M engine A) : M service A := fun s =>
  match c (sv_engine s) with
  | Some (a, e) => Some (a, s <| sv_engine := e |>)
  | None => None
  end.

Definition sv_metric (c : MetricCall) : M service unit :=
  modS (fun s => s <| sv_metrics := sv_metrics s ++ [c] |>).

Inductive chanInput :=
| Output (now : Time) (msg : GenerateOutput) (sendErr : option error)
| OutClosed
| CtxDone (err : error).

(** What the deferred function records, and the result of the call. *)
Record callOutcome (A : Type) := mkCallOutcome {
  oc_status : string;
  oc_executorId : string;
  oc_result : (ConnectCode * error) + A
}.
Arguments mkCallOutcome {A} _ _ _.
Arguments oc_status {A} _.
Arguments oc_executorId {A} _.
Arguments oc_result {A} _.

Definition failedCall {A} (executorId : string) (err : error) : callOutcome A :=
  mkCallOutcome (CodeOf (Some err)) executorId (inl (ToConnectCode (Some err), err)).

Definition closedEarly : error := New CodeInternal "stream closed before completion".

(** The deferred function. *)
Definition deferred {A} (start endTime : Time) (o : callOutcome A) : M service ((ConnectCode * error) + A) :=
  sv_metric (ObserveRequestDuration (endTime - start)) ;;
  sv_metric (IncRequest (oc_status o) (oc_executorId o)) ;;
  mret (oc_result o).

(** [firstTokenAt] and [lastTokenAt] *)
Record tokenClock := mkTokenClock { tc_first : Time; tc_last : Time }.
Definition clock0 : tokenClock := mkTokenClock 0 0.

Definition observeToken (start now : Time) (delta : string) (ck : tokenClock) : M service tokenClock :=
  if String.eqb delta "" then mret ck
  else if IsZero (tc_first ck) then
    sv_metric (ObserveTTFT (now - start)) ;;
    mret (mkTokenClock now now)
  else if negb (IsZero (tc_last ck)) then
    sv_metric (ObserveTBT (now - tc_last ck)) ;;
    mret (mkTokenClock (tc_first ck) now)
  else mret (mkTokenClock (tc_first ck) now).

(** The request at [now] and the stream the handler opens for it. *)
Definition openRequest (now : Time) (request : GenerateRequest) : M service (error + stream) :=
  match ProtoMsgToModel now request with
  | inl err => mret (inl err)
  | inr req => onEngine (openStream req)
  end.

(** ** Generate *)

(** The collected output at the last message [msg]. *)
Definition completed (out msg : GenerateOutput) : GenerateOutput := {|
  go_RequestId := go_RequestId out;
  go_Index := go_Index msg;
  go_DeltaText := go_DeltaText out;
  go_FinishReason := go_FinishReason msg;
  go_Done := go_Done msg;
  go_Usage := go_Usage msg;
  go_Timing := go_Timing msg;
  go_BatchID := go_BatchID msg;
  go_BatchSize := go_BatchSize msg;
  go_ExecutorId := go_ExecutorId msg;
  go_Err := go_Err msg
|}.

Fixpoint generateLoop (start : Time) (inputs : list chanInput) (out : GenerateOutput) (ck : tokenClock)
    : M service (option (callOutcome GenerateResponse)) :=
  match inputs with
  | [] => mret None
  | Output now msg _ :: inputs =>
      let out := out <| go_DeltaText := go_DeltaText out +:+ go_DeltaText msg |> in
      ck ← observeToken start now (go_DeltaText msg) ck;
      if go_Done msg
      then mret (Some (mkCallOutcome "ok" (go_ExecutorId msg) (inr (ModelToProtoMsg (completed out msg)))))
      else generateLoop start inputs out ck
  | OutClosed :: _ => mret (Some (failedCall "unknown" closedEarly))
  | CtxDone err :: _ => mret (Some (failedCall "unknown" err))
  end.

Definition newOutput (requestId : string) : GenerateOutput := {|
  go_RequestId := requestId; go_Index := 0; go_DeltaText := ""; go_FinishReason := FinishReasonUnspecified;
  go_Done := false; go_Usage := Usage0; go_Timing := Timing0; go_BatchID := ""; go_BatchSize := 0;
  go_ExecutorId := ""; go_Err := None
|}.

Definition Generate (start now : Time) (request : GenerateRequest) (inputs : list chanInput) (endTime : Time)
    : M service (option ((ConnectCode * error) + GenerateResponse)) :=
  r ← openRequest now request;
  match r with
  | inl err => res ← deferred start endTime (failedCall "unknown" err); mret (Some res)
  | inr _ =>
      o ← generateLoop start inputs (newOutput (gr_RequestId request)) clock0;
      match o with
      | None => mret None
      | Some o => res ← deferred start endTime o; mret (Some res)
      end
  end.

(** ** GenerateStream *)

(** The chunks sent before, and the executor named last. *)
Fixpoint generateStreamLoop (start : Time) (inputs : list chanInput) (executorId : string)
    (sent : list GenerateResponseChunk) (ck : tokenClock)
    : M service (list GenerateResponseChunk * option (callOutcome unit)) :=
  match inputs with
  | [] => mret (sent, None)
  | Output now msg sendErr :: inputs =>
      let executorId := if String.eqb (go_ExecutorId msg) "" then executorId else go_ExecutorId msg in
      ck ← observeToken start now (go_DeltaText msg) ck;
      match sendErr with
      | Some err => mret (sent, Some (failedCall executorId err))
      | None =>
          let sent := sent ++ [ModelToProtoMsgStream msg] in
          if go_Done msg then mret (sent, Some (mkCallOutcome "ok" executorId (inr tt)))
          else generateStreamLoop start inputs executorId sent ck
      end
  | OutClosed :: _ => mret (sent, Some (failedCall executorId closedEarly))
  | CtxDone err :: _ => mret (sent, Some (failedCall executorId err))
  end.

Definition GenerateStream (start now : Time) (request : GenerateRequest) (inputs : list chanInput) (endTime : Time)
    : M service (list GenerateResponseChunk * option ((ConnectCode * error) + unit)) :=
  r ← openRequest now request;
  match r with
  | inl err => res ← deferred start endTime (failedCall "unknown" err); mret ([], Some res)
  | inr _ =>
      '(sent, o) ← generateStreamLoop start inputs "unknown" [] clock0;
      match o with
      | None => mret (sent, None)
      | Some o => res ← deferred start endTime o; mret (sent, Some res)
      end
  end.
