(* ===== verification/TransportProperties.v ===== *)
(** * TransportProperties: what a client receives

    The answer of [Generate], the chunks of [GenerateStream] and the latencies
    both record, as functions of what is read from the handler's channel; and
    the composition with the handler's goroutine, from events to answer. *)

From S2P Require Import Prelude Errors Model Metrics FreeQueue BlockManager BlockRegistry StateMachine RequestProperties Executor Queues Scheduler SchedulerProperties GoStrings Tokenizer Handler Transport.

(** ** Latencies *)

(** When a message with text was read. *)
Definition tokenTime (i : chanInput) : option Time :=
  match i with
  | Output now msg _ => if String.eqb (go_DeltaText msg) "" then None else Some now
  | _ => None
  end.
Definition tokenTimes (inputs : list chanInput) : list Time := omap tokenTime inputs.

(** The time to the first token, then the times between tokens. *)
Fixpoint gaps (t : Time) (ts : list Time) : list MetricCall :=
  match ts with
  | [] => []
  | u :: ts => ObserveTBT (u - t) :: gaps u ts
  end.
Definition latencies (start : Time) (ts : list Time) : list MetricCall :=
  match ts with
  | [] => []
  | t :: ts => ObserveTTFT (t - start) :: gaps t ts
  end.

Definition lastTime (t : Time) (ts : list Time) : Time := foldl (fun _ u => u) t ts.

Definition clockOf (ts : list Time) : tokenClock :=
  match ts with [] => clock0 | t :: ts => mkTokenClock t (lastTime t ts) end.

Lemma gaps_snoc t ts u : gaps t (ts ++ [u]) = gaps t ts ++ [ObserveTBT (u - lastTime t ts)].
Proof. revert t. induction ts as [|v ts IH]; intros t; [done|]. cbn. by rewrite IH. Qed.

Lemma lastTime_nonzero t ts : t <> 0 -> Forall (fun t => t <> 0) ts -> lastTime t ts <> 0.
Proof.
  revert t. induction ts as [|u ts IH]; intros t Ht Hts; [done|].
  apply Forall_cons in Hts as [Hu Hts]. exact (IH u Hu Hts).
Qed.

Lemma tokenTimes_upto stops inputs :
  Forall (fun t => t <> 0) (tokenTimes inputs) -> Forall (fun t => t <> 0) (tokenTimes (upto stops inputs)).
Proof.
  intros H. induction inputs as [|i inputs IH]; [done|]. unfold tokenTimes in *. cbn [upto].
  destruct (stops i); cbn in H |- *; destruct (tokenTime i); try apply Forall_cons in H as [Ht H];
    try apply Forall_cons; eauto using Forall_nil.
Qed.

(** The clock and the metrics follow the times of the tokens. *)
Lemma observeToken_spec start now msg e ts m s :
  Forall (fun t => t <> 0) ts -> (tokenTime (Output now msg e) = Some now -> now <> 0) ->
  sv_metrics s = m ++ latencies start ts ->
  let ts' := ts ++ option_list (tokenTime (Output now msg e)) in
  wp (observeToken start now (go_DeltaText msg) (clockOf ts)) (fun ck s' =>
    ck = clockOf ts' /\ s' = s <| sv_metrics := m ++ latencies start ts' |> /\ Forall (fun t => t <> 0) ts') s.
Proof.
  intros Hts Hnow Hm ts'. unfold observeToken. subst ts'. cbn [tokenTime] in *.
  destruct (String.eqb (go_DeltaText msg) ""); cbn [option_list].
  { wp_steps. rewrite app_nil_r, <- Hm. ssplit; [done| |done]. by destruct s. }
  specialize (Hnow eq_refl). assert (Hall : Forall (fun t => t <> 0) (ts ++ [now])).
  { apply Forall_app. split; [done|]. by constructor. }
  destruct ts as [|t ts]; cbn [clockOf tc_first tc_last].
  - cbn. unfold sv_metric. wp_steps. rewrite Hm, app_nil_r. by ssplit.
  - apply Forall_cons in Hts as [Ht Hts]. unfold IsZero. rewrite (proj2 (Z.eqb_neq _ _)) by done.
    rewrite (proj2 (Z.eqb_neq _ _)) by (by apply lastTime_nonzero). cbn [negb].
    unfold sv_metric. wp_steps. rewrite Hm. change ((t :: ts) ++ option_list (Some now)) with (t :: (ts ++ [now])). cbn [clockOf latencies]. rewrite gaps_snoc.
    assert (E : lastTime t (ts ++ [now]) = now) by (unfold lastTime; by rewrite foldl_app).
    rewrite E. ssplit; [done| |done]. cbn. by rewrite <- !app_assoc.
Qed.

(** ** Generate *)

Definition ends (i : chanInput) : bool :=
  match i with Output _ msg _ => go_Done msg | _ => true end.

Definition message (i : chanInput) : option GenerateOutput :=
  match i with Output _ msg _ => Some msg | _ => None end.

Definition deltas (inputs : list chanInput) : string :=
  foldr String.append "" (go_DeltaText <$> omap message inputs).

(** The answer collected from [text] when the last message is [msg]. *)
Definition answer (requestId text : string) (msg : GenerateOutput) : GenerateResponse := {|
  gs_RequestId := requestId;
  gs_OutputText := text;
  gs_FinishReason := go_FinishReason msg;
  gs_Usage := mkPbUsage (us_InputTokens (go_Usage msg)) (us_OutputTokens (go_Usage msg))
                (us_TotalTokens (go_Usage msg));
  gs_Timing := mkPbTiming (durationToMilliseconds (tm_Queue (go_Timing msg)))
                 (durationToMilliseconds (tm_BatchWait (go_Timing msg)))
                 (durationToMilliseconds (tm_Execution (go_Timing msg)))
                 (durationToMilliseconds (tm_Total (go_Timing msg)));
  gs_Batch := mkPbBatchInfo (go_BatchID msg) (go_BatchSize msg);
  gs_ExecutorId := go_ExecutorId msg;
  gs_ErrorMessage := errorMessage (go_Err msg)
|}.

(** The outcome of a loop whose last input is [i]. *)
Definition answerOutcome (requestId text : string) (i : chanInput) : callOutcome GenerateResponse :=
  match i with
  | Output _ msg _ => mkCallOutcome "ok" (go_ExecutorId msg) (inr (answer requestId text msg))
  | OutClosed => mkCallOutcome CodeInternal "unknown" (inl (ConnectInternal, closedEarly))
  | CtxDone err => mkCallOutcome (CodeOf (Some err)) "unknown" (inl (ToConnectCode (Some err), err))
  end.

Lemma generateLoop_spec start inputs out ts m s :
  Forall (fun t => t <> 0) (ts ++ tokenTimes (upto ends inputs)) ->
  sv_metrics s = m ++ latencies start ts ->
  wp (generateLoop start inputs out (clockOf ts)) (fun o s' =>
    o = answerOutcome (go_RequestId out) (go_DeltaText out +:+ deltas (upto ends inputs)) <$> List.find ends inputs /\
    s' = s <| sv_metrics := m ++ latencies start (ts ++ tokenTimes (upto ends inputs)) |>) s.
Proof.
  revert out ts s. induction inputs as [|i inputs IH]; intros out ts s Hts Hm; cbn [generateLoop].
  { wp_steps. by rewrite app_nil_r, <- Hm; destruct s. }
  destruct i as [now msg e| |err]; cbn [upto List.find ends] in *; cycle 1.
  1-2: wp_steps; change (tokenTimes _) with (@nil Time); by rewrite app_nil_r, <- Hm; destruct s.
  set (cur := Output now msg e) in *.
  assert (Ht : tokenTimes (if go_Done msg then [cur] else cur :: upto ends inputs) =
    option_list (tokenTime cur) ++ tokenTimes (if go_Done msg then [] else upto ends inputs)).
  { unfold tokenTimes. destruct (go_Done msg); cbn; by destruct (String.eqb _ _). }
  rewrite Ht, app_assoc in Hts |- *. pose proof Hts as [[Hts1 Hcur]%Forall_app _]%Forall_app.
  wp_steps. eapply wp_mono; [apply (observeToken_spec start now msg e ts m s); try done|cbn beta].
  { intros E. fold cur in E. rewrite E in Hcur. by apply Forall_cons in Hcur as [? _]. }
  fold cur. intros ck s1 (-> & -> & _).
  destruct (go_Done msg) eqn:Hd; wp_steps.
  - cbn. rewrite !app_nil_r. split; [|done]. by rewrite string_app_nil_r.
  - eapply wp_mono; [apply IH; [exact Hts|reflexivity]|cbn beta].
    intros o s2 [-> ->]. split; [|done]. cbn. by rewrite string_app_assoc.
Qed.

Lemma openRequest_metrics now request s r s1 :
  openRequest now request s = Some (r, s1) -> sv_metrics s1 = sv_metrics s.
Proof.
  unfold openRequest, onEngine. destruct (ProtoMsgToModel now request) as [err|req].
  - unfold mret, M_ret. by intros [= _ <-].
  - destruct (openStream req (sv_engine s)) as [[r' e]|]; [|done]. by intros [= _ <-].
Qed.

(** What a call records on the way out. *)
Definition recorded {A} (start endTime : Time) (o : callOutcome A) : list MetricCall :=
  [ObserveRequestDuration (endTime - start); IncRequest (oc_status o) (oc_executorId o)].

Lemma deferred_run {A} start endTime (o : callOutcome A) s :
  deferred start endTime o s = Some (oc_result o, s <| sv_metrics := sv_metrics s ++ recorded start endTime o |>).
Proof.
  unfold deferred, sv_metric, recorded, mbind, M_bind, modS, mret, M_ret. cbn. by rewrite <- app_assoc.
Qed.

Lemma Generate_spec start now request inputs endTime s r s1
  (Hopen : openRequest now request s = Some (r, s1)) (Htimes : Forall (fun t => t <> 0) (tokenTimes inputs)) :
  let metrics l := s1 <| sv_metrics := sv_metrics s ++ l |> in
  let taken := upto ends inputs in
  Generate start now request inputs endTime s = Some
    match r with
    | inl err =>
        let o := failedCall "unknown" err in (Some (oc_result o), metrics (recorded start endTime o))
    | inr _ =>
        let lat := latencies start (tokenTimes taken) in
        match List.find ends inputs with
        | Some i =>
            let o := answerOutcome (gr_RequestId request) (deltas taken) i in
            (Some (oc_result o), metrics (lat ++ recorded start endTime o))
        | None => (None, metrics lat)
        end
    end.
Proof.
  intros metrics taken. pose proof (openRequest_metrics _ _ _ _ _ Hopen) as Hm.
  unfold Generate, mbind, M_bind. rewrite Hopen. destruct r as [err|st].
  { rewrite deferred_run. unfold mret, M_ret. cbn. unfold metrics. by rewrite <- Hm. }
  assert (Ht : Forall (fun t => t <> 0) ([] ++ tokenTimes taken)) by by apply tokenTimes_upto.
  pose proof (generateLoop_spec start inputs (newOutput (gr_RequestId request)) [] (sv_metrics s) s1 Ht) as H.
  cbn [latencies] in H. rewrite app_nil_r in H. specialize (H Hm). unfold wp in H. cbn [clockOf] in H.
  destruct (generateLoop _ _ _ _ _) as [[o s2]|]; [|done]. destruct H as [-> ->].
  destruct (List.find ends inputs) as [i|]; cbn [fmap option_fmap option_map]; [|done].
  rewrite deferred_run. unfold mret, M_ret. cbn. unfold metrics. by rewrite <- app_assoc.
Qed.

(** The unary call answers with the whole generation.  When the stream cannot be
    opened, the client gets the error with its code.  Otherwise the call takes
    the messages up to the first that is [Done] and answers with the
    concatenation of their texts, under the request's own id, and with the last
    one's reason, usage, timing, batch, executor and error; when the channel is
    closed or the context ends before, the client gets that error, and while
    neither has happened the call waits.  In every case exactly one duration and
    one request are counted, after the time to the first text and the times
    between texts. *)
Theorem generate_collects start now request inputs endTime s r s1
  (Hopen : openRequest now request s = Some (r, s1)) (Htimes : Forall (fun t => t <> 0) (tokenTimes inputs)) :
  let metrics l := s1 <| sv_metrics := sv_metrics s ++ l |> in
  let taken := upto ends inputs in
  Generate start now request inputs endTime s = Some
    match r with
    | inl err =>
        let o := failedCall "unknown" err in (Some (oc_result o), metrics (recorded start endTime o))
    | inr _ =>
        let lat := latencies start (tokenTimes taken) in
        match List.find ends inputs with
        | Some i =>
            let o := answerOutcome (gr_RequestId request) (deltas taken) i in
            (Some (oc_result o), metrics (lat ++ recorded start endTime o))
        | None => (None, metrics lat)
        end
    end.
Proof. by apply Generate_spec. Qed.

(** ** GenerateStream *)

Definition endsStream (i : chanInput) : bool :=
  match i with Output _ msg sendErr => go_Done msg || bool_decide (is_Some sendErr) | _ => true end.

Definition chunkOf (i : chanInput) : option GenerateResponseChunk :=
  match i with Output _ msg None => Some (ModelToProtoMsgStream msg) | _ => None end.

(** The executor named last. *)
Definition namedBy (executorId : string) (i : chanInput) : string :=
  match i with
  | Output _ msg _ => if String.eqb (go_ExecutorId msg) "" then executorId else go_ExecutorId msg
  | _ => executorId
  end.

Definition streamOutcome (executorId : string) (i : chanInput) : callOutcome unit :=
  match i with
  | Output _ _ None => mkCallOutcome "ok" executorId (inr tt)
  | Output _ _ (Some err) => failedCall executorId err
  | OutClosed => failedCall executorId closedEarly
  | CtxDone err => failedCall executorId err
  end.

Lemma generateStreamLoop_spec start inputs ex sent ts m s :
  Forall (fun t => t <> 0) (ts ++ tokenTimes (upto endsStream inputs)) ->
  sv_metrics s = m ++ latencies start ts ->
  let taken := upto endsStream inputs in
  wp (generateStreamLoop start inputs ex sent (clockOf ts)) (fun r s' =>
    r = (sent ++ omap chunkOf taken, streamOutcome (foldl namedBy ex taken) <$> List.find endsStream inputs) /\
    s' = s <| sv_metrics := m ++ latencies start (ts ++ tokenTimes taken) |>) s.
Proof.
  revert ex sent ts s. induction inputs as [|i inputs IH]; intros ex sent ts s Hts Hm; cbn [generateStreamLoop].
  { wp_steps. by rewrite !app_nil_r, <- Hm; destruct s. }
  destruct i as [now msg e| |err]; cbn [upto List.find endsStream] in *; cycle 1.
  1-2: wp_steps; change (tokenTimes _) with (@nil Time); by rewrite !app_nil_r, <- Hm; destruct s.
  set (cur := Output now msg e) in *. set (stop := go_Done msg || bool_decide (is_Some e)) in *.
  assert (Ht : tokenTimes (if stop then [cur] else cur :: upto endsStream inputs) =
    option_list (tokenTime cur) ++ tokenTimes (if stop then [] else upto endsStream inputs)).
  { unfold tokenTimes. destruct stop; cbn; by destruct (String.eqb _ _). }
  rewrite Ht, app_assoc in Hts |- *. pose proof Hts as [[Hts1 Hcur]%Forall_app _]%Forall_app.
  wp_steps. eapply wp_mono; [apply (observeToken_spec start now msg e ts m s); try done|cbn beta].
  { intros E. fold cur in E. rewrite E in Hcur. by apply Forall_cons in Hcur as [? _]. }
  fold cur. intros ck s1 (-> & -> & _). destruct e as [err|].
  { assert (stop = true) as -> by (unfold stop; by destruct (go_Done msg)). wp_steps. cbn. by rewrite !app_nil_r. }
  assert (stop = go_Done msg) as -> by (unfold stop; by destruct (go_Done msg)).
  destruct (go_Done msg) eqn:Hd; wp_steps.
  - cbn. by rewrite !app_nil_r.
  - eapply wp_mono; [apply IH; [exact Hts|reflexivity]|cbn beta].
    intros r s2 [-> ->]. split; [|done]. cbn. by rewrite <- app_assoc.
Qed.

(** C31: The streaming call forwards every message in order.  Once the stream is open,
    the chunks the client receives are those of the messages read, one each, in
    their order, up to the first message that is [Done] or cannot be sent, or to
    the closing of the channel or the end of the context; only a [Done] message
    that was sent ends the call without an error.  In every case exactly one
    duration and one request are counted, under the executor a message named
    last, after the time to the first text and the times between texts. *)
Theorem stream_forwards start now request inputs endTime s r s1
  (Hopen : openRequest now request s = Some (r, s1)) (Htimes : Forall (fun t => t <> 0) (tokenTimes inputs)) :
  let metrics l := s1 <| sv_metrics := sv_metrics s ++ l |> in
  let taken := upto endsStream inputs in
  GenerateStream start now request inputs endTime s = Some
    match r with
    | inl err =>
        let o := failedCall "unknown" err in (([], Some (oc_result o)), metrics (recorded start endTime o))
    | inr _ =>
        let lat := latencies start (tokenTimes taken) in
        match List.find endsStream inputs with
        | Some i =>
            let o := streamOutcome (foldl namedBy "unknown" taken) i in
            ((omap chunkOf taken, Some (oc_result o)), metrics (lat ++ recorded start endTime o))
        | None => ((omap chunkOf taken, None), metrics lat)
        end
    end.
Proof.
  intros metrics taken. pose proof (openRequest_metrics _ _ _ _ _ Hopen) as Hm.
  unfold GenerateStream, mbind, M_bind. rewrite Hopen. destruct r as [err|st].
  { rewrite deferred_run. unfold mret, M_ret. cbn. unfold metrics. by rewrite <- Hm. }
  assert (Ht : Forall (fun t => t <> 0) ([] ++ tokenTimes taken)) by by apply tokenTimes_upto.
  pose proof (generateStreamLoop_spec start inputs "unknown" [] [] (sv_metrics s) s1 Ht) as H.
  cbn [latencies] in H. rewrite app_nil_r in H. specialize (H Hm). unfold wp in H. cbn [clockOf] in H.
  destruct (generateStreamLoop _ _ _ _ _) as [[[sent o] s2]|]; [|done]. destruct H as [[= -> ->] ->].
  destruct (List.find endsStream inputs) as [i|]; cbn [fmap option_fmap option_map]; [|done].
  rewrite deferred_run. unfold mret, M_ret. cbn. unfold metrics. by rewrite <- app_assoc.
Qed.

(** ** From events to the answer *)

(** The messages of a stream as the transport reads them at the given times. *)
Definition reads (times : list Time) (st : stream) : list chanInput :=
  zip_with (fun t msg => Output t msg None) times (st_out st).

Lemma reads_times times st : Forall (fun t => t <> 0) times -> Forall (fun t => t <> 0) (tokenTimes (reads times st)).
Proof.
  unfold reads, tokenTimes. intros H. generalize (st_out st).
  induction H as [|t times Ht _ IH]; intros [|m outs]; cbn; try constructor.
  destruct (String.eqb (go_DeltaText m) ""); [apply IH|]. constructor; [exact Ht|apply IH].
Qed.

Lemma outputOf_fields modelID t ev :
  let o := outputOf modelID t ev in
  go_DeltaText o = (Decode modelID [ev_TokenId ev] t).1 /\ go_Done o = ev_Done ev /\
  go_FinishReason o = ev_FinishReason ev /\ go_Usage o = ev_Usage ev /\ go_ExecutorId o = ev_ExecutorId ev.
Proof. unfold outputOf. by destruct (Decode modelID [ev_TokenId ev] t) as [text [err|]]. Qed.

(** A stream whose last event is its first [Done] one is read to the end. *)
Lemma handled_finished evs fin :
  Forall (fun ev => ev_Done ev = false) evs -> ev_Done fin = true -> ev_Type fin <> EventTypePrefillChunk ->
  forwarded (handled (Received <$> evs ++ [fin])) = filter (fun ev => ev_Type ev <> EventTypePrefillChunk) evs ++ [fin] /\
  List.find stops (Received <$> evs ++ [fin]) = Some (Received fin).
Proof.
  intros Hevs Hfin Htok. assert (Hp : isPrefillChunk fin = false) by by apply bool_decide_eq_false.
  assert (Hl : Forall (fun i => stops i = false) (Received <$> evs)).
  { apply Forall_fmap. eapply Forall_impl; [exact Hevs|]. cbn. intros ev ->. apply andb_false_r. }
  assert (Hx : stops (Received fin) = true) by (cbn; by rewrite Hp, Hfin).
  rewrite fmap_app. cbn [fmap list_fmap]. unfold handled.
  destruct (upto_last stops (Received <$> evs) (Received fin) Hl Hx) as [-> ->]. split; [|done].
  unfold forwarded. rewrite omap_app. cbn [omap list_omap]. rewrite Hp. f_equal. clear -evs.
  induction evs as [|ev evs IH]; [done|]. cbn [fmap list_fmap omap list_omap]. rewrite filter_cons. unfold isPrefillChunk in *.
  repeat case_decide; try case_bool_decide; try done; by rewrite IH.
Qed.

(** Messages whose last one is the first that is [Done] are all taken. *)
Lemma reads_finished times st outs o :
  st_out st = outs ++ [o] -> length times = length (st_out st) ->
  Forall (fun msg => go_Done msg = false) outs -> go_Done o = true ->
  deltas (upto ends (reads times st)) = foldr String.append "" (go_DeltaText <$> outs ++ [o]) /\
  exists t, List.find ends (reads times st) = Some (Output t o None).
Proof.
  intros Hout Hlen Houts Ho. rewrite Hout, length_app in Hlen. cbn in Hlen.
  destruct times as [|t times] using rev_ind; [cbn in Hlen; lia|]. clear IHtimes.
  rewrite length_app in Hlen. cbn in Hlen. assert (Hl : length times = length outs) by lia.
  unfold reads. rewrite Hout, zip_with_app by done. cbn [zip_with].
  assert (Hall : Forall (fun i => ends i = false) (zip_with (fun t msg => Output t msg None) times outs)).
  { clear -Houts. revert times. induction Houts as [|m outs Hm _ IH]; intros [|t times]; cbn; constructor; auto. }
  destruct (upto_last ends _ (Output t o None) Hall Ho) as [-> ->]. split; [|by exists t].
  unfold deltas. rewrite omap_app. cbn [omap list_omap message]. do 3 f_equal. clear -Hl.
  revert times Hl. induction outs as [|m outs IH]; intros [|t times] Hl; try done. cbn.
  f_equal. apply IH. by injection Hl.
Qed.

(** C14: The answer holds the generated tokens.  A client whose request was opened as
    the stream [st], and whose request manager publishes the events [evs] and then
    the [Done] event [fin], gets from the unary call the texts of the tokens of
    these events, decoded one by one and put together in order, prefill chunks
    left out, with the usage, reason and executor of [fin]; the request is ended
    in the request manager by then. *)
Theorem answer_end_to_end start now request endTime s st s1 evs fin times e'' st'
  (Hopen : openRequest now request s = Some (inr st, s1))
  (Hfresh : st_out st = [] /\ st_running st = true /\ st_outClosed st = false)
  (HS : SMOK (requestsOf (sv_engine s1)))
  (Hevs : Forall (fun ev => ev_Done ev = false) evs) (Hfin : ev_Done fin = true)
  (Htok : ev_Type fin <> EventTypePrefillChunk)
  (Hrun : streamRun (Received <$> evs ++ [fin]) st (sv_engine s1) = Some (st', e''))
  (Htimes : Forall (fun t => t <> 0) times) (Hlen : length times = length (st_out st')) :
  let word ev := (Decode (st_modelID st) [ev_TokenId ev] (en_tokenizer (sv_engine s1))).1 in
  let said := filter (fun ev => ev_Type ev <> EventTypePrefillChunk) evs in
  requestEnded (sv_engine s1) e'' (st_requestId st) /\
  exists resp s2, Generate start now request (reads times st') endTime s = Some (Some (inr resp), s2) /\
    gs_OutputText resp = foldr String.append "" (word <$> said ++ [fin]) /\
    gs_RequestId resp = gr_RequestId request /\
    gs_FinishReason resp = ev_FinishReason fin /\ gs_ExecutorId resp = ev_ExecutorId fin /\
    gs_Usage resp = mkPbUsage (us_InputTokens (ev_Usage fin)) (us_OutputTokens (ev_Usage fin))
                      (us_TotalTokens (ev_Usage fin)).
Proof.
  intros word said. destruct Hfresh as (Hout & Hr & Ho).
  pose proof (streamRun_spec (sv_engine s1) st (Received <$> evs ++ [fin]) HS Hr Ho) as H.
  unfold wp in H. rewrite Hrun in H. destruct (handled_finished evs fin Hevs Hfin Htok) as [Hf Hl].
  rewrite Hl, Hf, Hout in H. destruct H as (Hout' & _ & [Hend _]). split; [exact Hend|].
  cbn [app] in Hout'. rewrite fmap_app in Hout'.
  set (out := outputOf (st_modelID st) (en_tokenizer (sv_engine s1))) in *.
  assert (Hf' : forall ev, go_DeltaText (out ev) = word ev /\ go_Done (out ev) = ev_Done ev /\
    go_FinishReason (out ev) = ev_FinishReason ev /\ go_Usage (out ev) = ev_Usage ev /\
    go_ExecutorId (out ev) = ev_ExecutorId ev) by (intros ev; apply outputOf_fields).
  destruct (Hf' fin) as (_ & Hd & Hreason & Husage & Hexec).
  destruct (reads_finished times st' (out <$> said) (out fin) Hout' Hlen) as [Hdeltas [t Hfind]].
  { apply Forall_fmap, Forall_forall. intros ev [_ Hev]%list_elem_of_filter. cbn.
    rewrite (proj1 (proj2 (Hf' ev))). by apply (proj1 (Forall_forall _ _) Hevs). }
  { by rewrite Hd. }
  assert (Htt : Forall (fun t => t <> 0) (tokenTimes (reads times st'))) by by apply reads_times.
  pose proof (Generate_spec start now request (reads times st') endTime s (inr st) s1 Hopen Htt) as HG.
  cbn beta iota zeta in HG. rewrite Hfind, Hdeltas in HG. eexists _, _. split; [exact HG|].
  cbn [gs_OutputText gs_RequestId gs_FinishReason gs_ExecutorId gs_Usage answer].
  rewrite Hreason, Husage, Hexec. ssplit; try done.
  f_equal. rewrite !fmap_app, <- list_fmap_compose. cbn. rewrite (proj1 (Hf' fin)). f_equal.
  apply list_fmap_ext. intros _ ev _. apply Hf'.
Qed.
