(* ===== verification/Admin.v ===== *)
(** * Admin: the admin service (internal/transport/admin.go)

    [GetRuntimeStats] shows the snapshot of the metrics in 32 bits,
    [GetExecutors] the runtimes of the executors by executor id. *)

From S2P Require Import Prelude Errors Model Metrics FreeQueue BlockManager BlockRegistry Executor ExecutorExamples.
From stdpp Require Import sorting.

(** The messages of the admin service. *)
Record GetRuntimeStatsResponse := mkGetRuntimeStatsResponse {
  ar_PrefillQueueLen : Z;
  ar_DecodeQueueLen : Z;
  ar_InflightRequests : Z;
  ar_InflightBatches : Z;
  ar_BusyExecutors : Z;
  ar_IdleExecutors : Z
}.

Definition Health : string := "ok".

Definition GetRuntimeStats (m : metrics) : GetRuntimeStatsResponse :=
  let snapshot := Snapshot m in {|
    ar_PrefillQueueLen := u32 (rs_PrefillQueueLength snapshot);
    ar_DecodeQueueLen := u32 (rs_DecodeQueueLength snapshot);
    ar_InflightRequests := u32 (rs_ActiveRequests snapshot);
    ar_InflightBatches := u32 (rs_InflightBatches snapshot);
    ar_BusyExecutors := u32 (rs_BusyExecutors snapshot);
    ar_IdleExecutors := u32 (rs_IdleExecutors snapshot)
  |}.

Definition runtimeResponse (state : ExecutorStats) : GetRuntimeResponse := {|
  rr_ExecutorId := es_ExecutorId state;
  rr_RuntimeEpoch := es_RuntimeEpoch state;
  rr_ModelId := es_ModelId state;
  rr_ModelType := es_ModelType state;
  rr_Dtype := es_Dtype state;
  rr_DeviceType := es_DeviceType state;
  rr_TensorParallelSize := es_TensorParallelSize state;
  rr_BlockSize := es_BlockSize state;
  rr_NumKvBlocks := es_NumKvBlocks state;
  rr_NumHiddenLayers := es_NumHiddenLayers state;
  rr_NumKvHeads := es_NumKvHeads state;
  rr_HeadDim := es_HeadDim state;
  rr_TotalMemoryBytes := es_TotalMemoryBytes state;
  rr_AvailableMemoryBytes := es_AvailableMemoryBytes state;
  rr_KvCacheBytes := es_KVCacheBytes state;
  rr_ModelRevision := es_ModelRevision state;
  rr_KvLayoutVersion := es_KVLayoutVersion state;
  rr_KvCompatibilityId := es_KVCompatibilityID state;
  rr_TransferEndpoint := es_TransferEndpoint state
|}.

(** [None]: a nil runtime is dereferenced. *)
Definition GetExecutors (e : executorManager) : option (list GetRuntimeResponse) :=
  let states := runtimeStates e in
  let executorIDs := sortStrings (map_to_list states).*1 in
  mapM (fun executorID => runtimeResponse <$> states !! executorID) executorIDs.

(** ** What the service shows *)

(** The wire form of a runtime loses nothing. *)
Lemma runtime_roundtrip state : RuntimeProtoToModel (runtimeResponse state) = state.
Proof. by destruct state. Qed.

Lemma runtimeStates_spec e :
  (forall id ex, em_executors e !! id = Some ex -> es_ExecutorId (ex_runtime ex) = id) ->
  runtimeStates e = ex_runtime <$> em_executors e.
Proof.
  intros Hid. unfold runtimeStates.
  assert (H : forall l : list (string * executor), (forall id ex, (id, ex) ∈ l -> es_ExecutorId (ex_runtime ex) = id) ->
    foldr (fun ex acc => <[es_ExecutorId (ex_runtime ex) := ex_runtime ex]> acc) ∅ l.*2 =
    list_to_map (prod_map id ex_runtime <$> l) :> gmap string ExecutorStats).
  { induction l as [|[id ex] l IH]; intros Hl; [done|]. cbn. rewrite IH, (Hl id ex) by set_solver. done. }
  rewrite H by (intros id ex ?%elem_of_map_to_list; by apply Hid).
  rewrite list_to_map_fmap, list_to_map_to_list. done.
Qed.

(** The admin service lists every executor once, in the order of their ids.
    When every executor has a runtime with its own id (as [NewExecutors]
    guarantees), [GetExecutors] answers; the ids are sorted and distinct, an
    executor is listed if and only if it is registered, and the conversion back
    from the wire gives the very runtimes the executors reported. *)
Theorem admin_lists_executors e
  (Hid : forall id ex, em_executors e !! id = Some ex -> es_ExecutorId (ex_runtime ex) = id) :
  exists rs, GetExecutors e = Some rs /\
    Sorted string_le (rr_ExecutorId <$> rs) /\ NoDup (rr_ExecutorId <$> rs) /\
    forall state, state ∈ (RuntimeProtoToModel <$> rs) <->
      exists id ex, em_executors e !! id = Some ex /\ state = ex_runtime ex.
Proof.
  unfold GetExecutors. rewrite runtimeStates_spec by done. set (states := ex_runtime <$> em_executors e).
  set (ids := sortStrings (map_to_list states).*1).
  assert (Hperm : ids ≡ₚ (map_to_list states).*1) by apply merge_sort_Permutation.
  assert (Hin : forall id, id ∈ ids <-> is_Some (states !! id)).
  { intros id. rewrite Hperm, list_elem_of_fmap. split.
    - intros ([id' state] & -> & Hst%elem_of_map_to_list). by exists state.
    - intros [state Hst]. exists (id, state). by rewrite elem_of_map_to_list. }
  assert (Hown : forall id state, states !! id = Some state -> es_ExecutorId state = id).
  { intros id state. unfold states. rewrite lookup_fmap_Some. intros (ex & <- & Hex). by apply Hid. }
  assert (Hall : is_Some (mapM (fun id => runtimeResponse <$> states !! id) ids)).
  { apply mapM_is_Some, Forall_forall. intros id Hi. apply fmap_is_Some. by apply Hin. }
  destruct Hall as [rs Hrs]. apply mapM_Some in Hrs as Hf. exists rs. split; [by apply mapM_Some|].
  assert (Hids : rr_ExecutorId <$> rs = ids).
  { clear -Hf Hown. induction Hf as [|id r ids rs Hr _ IH]; [done|]. cbn. rewrite IH.
    apply fmap_Some in Hr as (state & Hst & ->). cbn. by rewrite (Hown _ _ Hst). }
  rewrite Hids. ssplit.
  - apply Sorted_merge_sort. apply _.
  - rewrite Hperm. apply NoDup_fst_map_to_list.
  - intros state. rewrite list_elem_of_fmap. split.
    + intros (r & -> & Hr). apply list_elem_of_lookup in Hr as [i Hr].
      destruct (Forall2_lookup_r _ _ _ _ _ Hf Hr) as (id & Hi & Hs).
      apply fmap_Some in Hs as (state & Hst & ->). rewrite runtime_roundtrip.
      unfold states in Hst. apply lookup_fmap_Some in Hst as (ex & <- & Hex). by exists id, ex.
    + intros (id & ex & Hex & ->). assert (Hst : states !! id = Some (ex_runtime ex)) by (unfold states; by rewrite lookup_fmap, Hex).
      assert (Hi : id ∈ ids) by (apply Hin; by eexists). apply list_elem_of_lookup in Hi as [i Hi].
      destruct (Forall2_lookup_l _ _ _ _ _ Hf Hi) as (r & Hr & Hs). rewrite Hst in Hs. injection Hs as <-.
      exists (runtimeResponse (ex_runtime ex)). rewrite runtime_roundtrip. split; [done|by eapply list_elem_of_lookup_2].
Qed.

Lemma admin_lists_executors_witness :
  exists rs, GetExecutors em0 = Some rs /\ NoDup (rr_ExecutorId <$> rs).
Proof.
  destruct (admin_lists_executors em0) as (rs & Hrs & _ & Hnd & _).
  - intros id ex. change (em_executors em0) with execs0. unfold execs0.
    intros [[<- <-]|[_ H]]%lookup_insert_Some; [reflexivity|by rewrite lookup_empty in H].
  - by exists rs.
Defined.
