(* ===== verification/Cors.v ===== *)
(** * Cors: the filter for cross-origin requests (internal/transport/cors.go)

    [withCORS] wraps a handler of net/http.  A header is a map from canonical
    keys to values, with net/http's [Get], [Set], [Add] and [Del]; a response is
    the header, the status once it is written, and the body.  The wrapped
    handler is the parameter [next]. *)

From S2P Require Import Prelude GoStrings.

(** ** net/http *)

Definition Header := gmap string (list string).

Definition HeaderGet (key : string) (h : Header) : string :=
  match h !! key with Some (v :: _) => v | _ => "" end.
Definition Set_ (key value : string) (h : Header) : Header := <[key := [value]]> h.
Definition Add_ (key value : string) (h : Header) : Header :=
  <[key := default [] (h !! key) ++ [value]]> h.

Record HttpRequest := mkHttpRequest { hq_Method : string; hq_Path : string; hq_Header : Header }.
Record HttpResponse := mkHttpResponse {
  hp_Header : Header;
  hp_Status : option Z;
  hp_Body : string
}.
#[export] Instance HttpResponse_eta : Eta HttpResponse := fun w =>
  mkHttpResponse (hp_Header w) (hp_Status w) (hp_Body w).

Definition MethodOptions : string := "OPTIONS".
Definition StatusNoContent : Z := 204.
Definition StatusForbidden : Z := 403.

(** The first status written counts. *)
Definition WriteHeader (code : Z) (w : HttpResponse) : HttpResponse :=
  match hp_Status w with Some _ => w | None => w <| hp_Status := Some code |> end.

Definition header (f : Header -> Header) (w : HttpResponse) : HttpResponse :=
  w <| hp_Header := f (hp_Header w) |>.

(** [http.Error] *)
Definition HttpError (msg : string) (code : Z) (w : HttpResponse) : HttpResponse :=
  let w := header (fun h => Set_ "X-Content-Type-Options" "nosniff"
    (Set_ "Content-Type" "text/plain; charset=utf-8" (delete "Content-Length" h))) w in
  let w := WriteHeader code w in
  w <| hp_Body := hp_Body w +:+ msg +:+ String (Ascii.ascii_of_nat 10) "" |>.

(** ** The filter *)

Definition allowed (allowedOrigins : list string) : gset string :=
  foldl (fun allowed origin =>
    let origin := TrimSpace origin in
    if String.eqb origin "" then allowed else {[origin]} ∪ allowed) ∅ allowedOrigins.

Definition allowOrigin : string := "Access-Control-Allow-Origin".
Definition exposeHeaders : string := "Access-Control-Expose-Headers".

Definition withCORS (allowedOrigins : list string) (next : HttpRequest -> HttpResponse -> HttpResponse)
    (r : HttpRequest) (w : HttpResponse) : HttpResponse :=
  let origin := HeaderGet "Origin" (hq_Header r) in
  if String.eqb origin "" then next r w
  else if negb (bool_decide (origin ∈ allowed allowedOrigins)) then
    if String.eqb (hq_Method r) MethodOptions
    then HttpError "origin is not allowed" StatusForbidden w
    else next r w
  else
    let w := header (Add_ "Vary" "Origin") w in
    let w := header (Set_ allowOrigin origin) w in
    let w := header (Set_ exposeHeaders
      "Connect-Content-Encoding,Connect-Accept-Encoding,Grpc-Status,Grpc-Message") w in
    if String.eqb (hq_Method r) MethodOptions then
      let w := header (Add_ "Vary" "Access-Control-Request-Method") w in
      let w := header (Add_ "Vary" "Access-Control-Request-Headers") w in
      let w := header (Set_ "Access-Control-Allow-Methods" "GET,POST,OPTIONS") w in
      let w := header (Set_ "Access-Control-Allow-Headers"
        (HeaderGet "Access-Control-Request-Headers" (hq_Header r))) w in
      let w := header (Set_ "Access-Control-Max-Age" "7200") w in
      WriteHeader StatusNoContent w
    else next r w.

(** ** What the filter grants *)

(** The origin is one of the configured ones, white space around them aside. *)
Definition configured (allowedOrigins : list string) (origin : string) : Prop :=
  origin <> "" /\ origin ∈ (TrimSpace <$> allowedOrigins).

Lemma allowed_spec origins origin : origin ∈ allowed origins <-> configured origins origin.
Proof.
  unfold allowed, configured. induction origins as [|o origins IH] using rev_ind; [set_solver|].
  rewrite foldl_app, fmap_app, elem_of_app. cbn [foldl fmap list_fmap]. rewrite list_elem_of_singleton.
  destruct (String.eqb_spec (TrimSpace o) "") as [E|E].
  - rewrite IH, E. naive_solver.
  - rewrite elem_of_union, elem_of_singleton, IH. naive_solver.
Qed.

#[export] Instance configured_dec origins origin : Decision (configured origins origin).
Proof. unfold configured. apply _. Defined.

Lemma WriteHeader_header code w : hp_Header (WriteHeader code w) = hp_Header w.
Proof. unfold WriteHeader. by destruct (hp_Status w). Qed.

Lemma WriteHeader_fresh code w : hp_Status w = None -> hp_Status (WriteHeader code w) = Some code.
Proof. unfold WriteHeader. by intros ->. Qed.

Lemma Set_ne key key' v h : key' <> key -> Set_ key v h !! key' = h !! key'.
Proof. intros. by apply lookup_insert_ne. Qed.
Lemma Set_eq key v h : Set_ key v h !! key = Some [v].
Proof. apply lookup_insert_eq. Qed.
Lemma Add_ne key key' v h : key' <> key -> Add_ key v h !! key' = h !! key'.
Proof. intros. by apply lookup_insert_ne. Qed.

#[local] Arguments Set_ : simpl never.
#[local] Arguments Add_ : simpl never.

(** Look a key up behind writes to other keys. *)
Ltac cors_lookup := repeat first [rewrite Set_ne by done | rewrite Add_ne by done]; rewrite ?Set_eq.

(** C38: A foreign page gets exactly what the configuration grants.  For a handler that
    leaves the header alone, the response names an allowed origin if and only if
    the request comes from a configured origin (not empty, white space around the
    configured ones aside), and then exactly that origin.  A preflight request
    with an origin never reaches the handler: it is answered with 204 for a
    configured origin and 403 for another.  Every other request reaches the
    handler, with at most the three headers for the browser added. *)
Theorem cors_policy origins next r w
  (Hnext : forall r w, hp_Header (next r w) !! allowOrigin = hp_Header w !! allowOrigin)
  (Hfresh : hp_Header w !! allowOrigin = None /\ hp_Status w = None) :
  let origin := HeaderGet "Origin" (hq_Header r) in
  let w' := withCORS origins next r w in
  hp_Header w' !! allowOrigin = (if decide (configured origins origin) then Some [origin] else None) /\
  (origin <> "" -> hq_Method r = MethodOptions ->
    hp_Status w' = Some (if decide (configured origins origin) then StatusNoContent else StatusForbidden) /\
    forall other, withCORS origins other r w = w') /\
  (origin = "" \/ hq_Method r <> MethodOptions ->
    exists w0, w' = next r w0 /\ hp_Status w0 = None /\ hp_Body w0 = hp_Body w /\
      forall key, key ∉ ["Vary"; allowOrigin; exposeHeaders] -> hp_Header w0 !! key = hp_Header w !! key).
Proof.
  intros origin. cbv zeta. destruct Hfresh as [Hh Hs].
  unfold withCORS. fold origin.
  destruct (String.eqb_spec origin "") as [E|E].
  { rewrite decide_False by (by intros [? _]). rewrite Hnext. ssplit; [done|done|]. intros _. by exists w. }
  rewrite (bool_decide_ext _ _ (allowed_spec origins origin)).
  destruct (decide (configured origins origin)) as [Hc|Hc];
    [rewrite bool_decide_true by done|rewrite bool_decide_false by done]; cbn [negb];
    destruct (String.eqb_spec (hq_Method r) MethodOptions) as [Ho|Ho].
  - rewrite WriteHeader_header, WriteHeader_fresh by done. cbn. ssplit; [by cors_lookup|done|].
    by intros [?|?].
  - rewrite Hnext. cbn. ssplit; [by cors_lookup|done|].
    intros _. eexists. ssplit; [reflexivity|done|done|]. intros key Hkey. cbn.
    rewrite !Set_ne, Add_ne by (intros ->; set_solver). done.
  - unfold HttpError. cbn. rewrite WriteHeader_header, WriteHeader_fresh by done. cbn.
    ssplit; [cors_lookup; etrans; [by apply lookup_delete_ne|exact Hh]|done|]. by intros [?|?].
  - rewrite Hnext. ssplit; [done|done|]. intros _. by exists w.
Qed.

Lemma cors_policy_witness :
  let serve (_ : HttpRequest) (w : HttpResponse) := w <| hp_Status := Some 200 |> in
  let ask origin := mkHttpRequest "OPTIONS" "/" {[ "Origin" := [origin] ]} in
  let answer origin := withCORS [" http://localhost:5173"] serve (ask origin) (mkHttpResponse ∅ None "") in
  hp_Status (answer "http://localhost:5173") = Some 204 /\ hp_Status (answer "https://example.com") = Some 403.
Proof.
  intros serve ask answer.
  assert (H : forall origin, origin <> "" -> hp_Status (answer origin) =
    Some (if decide (configured [" http://localhost:5173"] origin) then StatusNoContent else StatusForbidden)).
  { intros origin Ho.
    destruct (cors_policy [" http://localhost:5173"] serve (ask origin) (mkHttpResponse ∅ None "")) as (_ & Hp & _).
    - by intros [].
    - by split.
    - exact (proj1 (Hp Ho eq_refl)). }
  assert (Ht : TrimSpace <$> [" http://localhost:5173"] = ["http://localhost:5173"]) by reflexivity.
  split; (rewrite H by done).
  - rewrite decide_True; [done|]. unfold configured. rewrite Ht. split; [done|]. by left.
  - rewrite decide_False; [done|]. unfold configured. rewrite Ht. by intros [_ Hin%list_elem_of_singleton].
Defined.
