(* ===== verification/Connect.v ===== *)
(** * Connect: the routes of the RPC services (gen/go/kvtide/v1/kvtidev1connect)

    The generated glue between the services and the library connectrpc: the
    procedures, the clients with the URL each call goes to, and the handlers
    that dispatch a request by its path; and the clients of cmd/client on top.
    The library itself is not part of the repository: what it makes of a
    procedure, a method and its schema is a parameter of the definitions.

    The package net/http of the standard library routes a request to the handler
    with the most specific pattern ([muxServe]). *)

From S2P Require Import Prelude Errors Model Placement Cors.

(** ** net/http *)

Definition HttpHandler : Type := HttpRequest -> HttpResponse -> HttpResponse.

Definition NotFound (_ : HttpRequest) (w : HttpResponse) : HttpResponse :=
  HttpError "404 page not found" 404 w.

(** [http.Redirect] to a URL without characters to escape. *)
Definition Redirect (url : string) (code : Z) (status : string) (r : HttpRequest) (w : HttpResponse) : HttpResponse :=
  let hadCT := bool_decide (is_Some (hp_Header w !! "Content-Type")) in
  let isGet := String.eqb (hq_Method r) "GET" in
  let w := header (Set_ "Location" url) w in
  let w := if negb hadCT && (isGet || String.eqb (hq_Method r) "HEAD")
           then header (Set_ "Content-Type" "text/html; charset=utf-8") w else w in
  let w := WriteHeader code w in
  if negb hadCT && isGet then
    let quote := String (Ascii.ascii_of_nat 34) "" in
    let newline := String (Ascii.ascii_of_nat 10) "" in
    w <| hp_Body := hp_Body w +:+ "<a href=" +:+ quote +:+ url +:+ quote +:+ ">" +:+ status +:+ "</a>."
                    +:+ newline +:+ newline |>
  else w.

Definition slash : Ascii.ascii := Ascii.ascii_of_nat 47.

Fixpoint endsInSlash (s : string) : bool :=
  match s with
  | EmptyString => false
  | String c EmptyString => Ascii.eqb c slash
  | String _ s => endsInSlash s
  end.

(** A pattern without method, host and wildcards matches its own path and, when
    it ends in a slash, every path below. *)
Definition patternMatches (path pattern : string) : bool :=
  String.eqb pattern path || endsInSlash pattern && String.prefix pattern path.

(** The matching entry with the longest pattern; a [ServeMux] with the patterns
    in the order in which they were registered. *)
Definition ServeMux : Type := list (string * HttpHandler).

Fixpoint muxMatch (mux : ServeMux) (path : string) : option (string * HttpHandler) :=
  match mux with
  | [] => None
  | (pattern, h) :: mux =>
      match muxMatch mux path with
      | Some (pattern', h') =>
          if patternMatches path pattern && (String.length pattern' <? String.length pattern)%nat
          then Some (pattern, h) else Some (pattern', h')
      | None => if patternMatches path pattern then Some (pattern, h) else None
      end
  end.

Definition muxHas (mux : ServeMux) (pattern : string) : bool :=
  existsb (fun e => String.eqb e.1 pattern) mux.

(** The handler of a clean path: the slash an exact pattern misses is answered
    with a redirect. *)
Definition muxServe (mux : ServeMux) : HttpHandler := fun r w =>
  let path := hq_Path r in
  if negb (muxHas mux path) && negb (endsInSlash path) && negb (String.eqb path "")
     && muxHas mux (path +:+ "/")
  then Redirect (path +:+ "/") 301 "Moved Permanently" r w
  else match muxMatch mux path with
       | Some (_, h) => h r w
       | None => NotFound r w
       end.

(** [strings.TrimRight(s, "/")] *)
Fixpoint TrimRightSlash (s : string) : string :=
  match s with
  | EmptyString => EmptyString
  | String c s =>
      let s := TrimRightSlash s in
      if String.eqb s "" && Ascii.eqb c slash then EmptyString else String c s
  end.

(** ** Procedures *)

Definition ExecutorServiceName : string := "kvtide.v1.ExecutorService".
Definition ExecutorServiceGetRuntimeProcedure : string := "/kvtide.v1.ExecutorService/GetRuntime".
Definition ExecutorServiceExecuteBatchProcedure : string := "/kvtide.v1.ExecutorService/ExecuteBatch".
Definition ExecutorServiceReleaseBlocksProcedure : string := "/kvtide.v1.ExecutorService/ReleaseBlocks".
Definition ExecutorServiceTriggerKVPushProcedure : string := "/kvtide.v1.ExecutorService/TriggerKVPush".
Definition ExecutorServicePushKVProcedure : string := "/kvtide.v1.ExecutorService/PushKV".

Definition InferenceServiceName : string := "kvtide.v1.InferenceService".
Definition InferenceServiceGenerateProcedure : string := "/kvtide.v1.InferenceService/Generate".
Definition InferenceServiceGenerateStreamProcedure : string := "/kvtide.v1.InferenceService/GenerateStream".

Definition AdminServiceName : string := "kvtide.v1.AdminService".
Definition AdminServiceHealthProcedure : string := "/kvtide.v1.AdminService/Health".
Definition AdminServiceGetRuntimeStatsProcedure : string := "/kvtide.v1.AdminService/GetRuntimeStats".
Definition AdminServiceGetExecutorsProcedure : string := "/kvtide.v1.AdminService/GetExecutors".

(** ** The library connectrpc *)

(** A service of a .proto file and one of its methods, as
    [Services().ByName(...).Methods().ByName(...)] finds it. *)
Record Schema := mkSchema { sc_Service : string; sc_Method : string }.

(** What the glue calls: clients for a URL, and handlers for a procedure with
    the method [Impl] that implements it. *)
Record connectrpc := mkConnectrpc {
  cr_Client : Type;
  cr_NewClient : string -> Schema -> cr_Client;
  cr_CallUnary : forall Req Resp : Type, cr_Client -> Req -> option Resp * option error;
  cr_CallServerStream : forall Req Stream : Type, cr_Client -> Req -> option Stream * option error;
  cr_Impl : Type;
  cr_NewUnaryHandlerSimple : string -> cr_Impl -> Schema -> HttpHandler;
  cr_NewServerStreamHandlerSimple : string -> cr_Impl -> Schema -> HttpHandler
}.

(** ** The clients *)

Section connect.
Context (C : connectrpc).

(** The body every unary method has: the message of the response, if there is
    one, and the error. *)
Definition callUnary {Req Resp} (c : cr_Client C) (req : Req) : option Resp * option error :=
  let '(response, err) := cr_CallUnary C Req Resp c req in
  match response with
  | Some msg => (Some msg, err)
  | None => (None, err)
  end.

Record executorServiceClient := mkExecutorServiceClient {
  xc_getRuntime : cr_Client C;
  xc_executeBatch : cr_Client C;
  xc_releaseBlocks : cr_Client C;
  xc_triggerKVPush : cr_Client C;
  xc_pushKV : cr_Client C
}.

Definition NewExecutorServiceClient (baseURL : string) : executorServiceClient :=
  let baseURL := TrimRightSlash baseURL in
  let executorServiceMethods := mkSchema "ExecutorService" in {|
    xc_getRuntime := cr_NewClient C (baseURL +:+ ExecutorServiceGetRuntimeProcedure)
      (executorServiceMethods "GetRuntime");
    xc_executeBatch := cr_NewClient C (baseURL +:+ ExecutorServiceExecuteBatchProcedure)
      (executorServiceMethods "ExecuteBatch");
    xc_releaseBlocks := cr_NewClient C (baseURL +:+ ExecutorServiceReleaseBlocksProcedure)
      (executorServiceMethods "ReleaseBlocks");
    xc_triggerKVPush := cr_NewClient C (baseURL +:+ ExecutorServiceTriggerKVPushProcedure)
      (executorServiceMethods "TriggerKVPush");
    xc_pushKV := cr_NewClient C (baseURL +:+ ExecutorServicePushKVProcedure)
      (executorServiceMethods "PushKV")
  |}.

Definition ExecutorServiceClientGetRuntime {Req} (c : executorServiceClient) (req : Req)
    : option GetRuntimeResponse * option error := callUnary (xc_getRuntime c) req.
Definition ExecutorServiceClientExecuteBatch {Req Resp} (c : executorServiceClient) (req : Req)
    : option Resp * option error := callUnary (xc_executeBatch c) req.
Definition ExecutorServiceClientReleaseBlocks {Req Resp} (c : executorServiceClient) (req : Req)
    : option Resp * option error := callUnary (xc_releaseBlocks c) req.
Definition ExecutorServiceClientTriggerKVPush (c : executorServiceClient) (req : TriggerKVPushRequest)
    : option TriggerKVPushResponse * option error := callUnary (xc_triggerKVPush c) req.
Definition ExecutorServiceClientPushKV {Req Resp} (c : executorServiceClient) (req : Req)
    : option Resp * option error := callUnary (xc_pushKV c) req.

Record inferenceServiceClient := mkInferenceServiceClient {
  ic_generate : cr_Client C;
  ic_generateStream : cr_Client C
}.

Definition NewInferenceServiceClient (baseURL : string) : inferenceServiceClient :=
  let baseURL := TrimRightSlash baseURL in
  let inferenceServiceMethods := mkSchema "InferenceService" in {|
    ic_generate := cr_NewClient C (baseURL +:+ InferenceServiceGenerateProcedure)
      (inferenceServiceMethods "Generate");
    ic_generateStream := cr_NewClient C (baseURL +:+ InferenceServiceGenerateStreamProcedure)
      (inferenceServiceMethods "GenerateStream")
  |}.

Definition InferenceServiceClientGenerate (c : inferenceServiceClient) (req : GenerateRequest)
    : option GenerateResponse * option error := callUnary (ic_generate c) req.
Definition InferenceServiceClientGenerateStream {Stream} (c : inferenceServiceClient) (req : GenerateRequest)
    : option Stream * option error := cr_CallServerStream C GenerateRequest Stream (ic_generateStream c) req.

Record adminServiceClient := mkAdminServiceClient {
  ac_health : cr_Client C;
  ac_getRuntimeStats : cr_Client C;
  ac_getExecutors : cr_Client C
}.

Definition NewAdminServiceClient (baseURL : string) : adminServiceClient :=
  let baseURL := TrimRightSlash baseURL in
  let adminServiceMethods := mkSchema "AdminService" in {|
    ac_health := cr_NewClient C (baseURL +:+ AdminServiceHealthProcedure) (adminServiceMethods "Health");
    ac_getRuntimeStats := cr_NewClient C (baseURL +:+ AdminServiceGetRuntimeStatsProcedure)
      (adminServiceMethods "GetRuntimeStats");
    ac_getExecutors := cr_NewClient C (baseURL +:+ AdminServiceGetExecutorsProcedure)
      (adminServiceMethods "GetExecutors")
  |}.

Definition AdminServiceClientHealth {Req Resp} (c : adminServiceClient) (req : Req)
    : option Resp * option error := callUnary (ac_health c) req.
Definition AdminServiceClientGetRuntimeStats {Req Resp} (c : adminServiceClient) (req : Req)
    : option Resp * option error := callUnary (ac_getRuntimeStats c) req.
Definition AdminServiceClientGetExecutors {Req Resp} (c : adminServiceClient) (req : Req)
    : option Resp * option error := callUnary (ac_getExecutors c) req.

(** *** cmd/client: the connection settings of every client, in nanoseconds and
    numbers of connections; 0 is no limit. *)

Record Transport := mkTransport {
  tr_MaxIdleConns : Z;
  tr_MaxIdleConnsPerHost : Z;
  tr_MaxConnsPerHost : Z;
  tr_IdleConnTimeout : Duration;
  tr_DialTimeout : Duration;
  tr_DialKeepAlive : Duration;
  tr_TLSHandshakeTimeout : Duration
}.

Definition newLongConnTransport : Transport := {|
  tr_MaxIdleConns := 0;
  tr_MaxIdleConnsPerHost := 0;
  tr_MaxConnsPerHost := 0;
  tr_IdleConnTimeout := 0;
  tr_DialTimeout := 5 * Second;
  tr_DialKeepAlive := 30 * Second;
  tr_TLSHandshakeTimeout := 10 * Second
|}.

(** *** cmd/client: the first endpoint is dialled; [None] is the panic on an
    empty list of endpoints. *)

Record ExecutorClient := mkExecutorClient {
  xl_client : executorServiceClient;
  xl_endpoints : list string;
  xl_Transport : Transport;
  xl_Timeout : Duration
}.

Definition NewExecutorClient (endpoints : list string) (timeoutMs : Z) : option ExecutorClient :=
  endpoint ← idx endpoints 0;
  Some (mkExecutorClient (NewExecutorServiceClient endpoint) endpoints newLongConnTransport
    (i64 (timeoutMs * Millisecond))).

Definition ExecutorClientExecuteBatch {Req Resp} (e : ExecutorClient) (request : Req)
    : option Resp * option error := ExecutorServiceClientExecuteBatch (xl_client e) request.

(** The empty [GetRuntimeRequest] is [tt].  A response without an error that is
    nil is converted like any other; [None] is the panic. *)
Definition ExecutorClientGetRuntime (e : ExecutorClient) : option (error + ExecutorStats) :=
  let '(resp, err) := ExecutorServiceClientGetRuntime (xl_client e) tt in
  match err with
  | Some err => Some (inl err)
  | None => resp ← resp; Some (inr (RuntimeProtoToModel resp))
  end.

Record ReleaseBlocksRequest := mkReleaseBlocksRequest { rl_RuntimeEpoch : Z; rl_BlockIds : list Z }.

Definition ExecutorClientReleaseBlocks {Resp} (e : ExecutorClient) (epoch : Z) (blockIds : list Z)
    : option Resp * option error :=
  ExecutorServiceClientReleaseBlocks (xl_client e) (mkReleaseBlocksRequest epoch blockIds).

Definition ExecutorClientTriggerKVPush (e : ExecutorClient) (request : TriggerKVPushRequest)
    : option TriggerKVPushResponse * option error :=
  ExecutorServiceClientTriggerKVPush (xl_client e) request.

Record InferenceClient := mkInferenceClient {
  il_client : inferenceServiceClient;
  il_endpoints : list string;
  il_Transport : Transport;
  il_Timeout : Duration
}.

Definition dialInference (endpoints : list string) : option inferenceServiceClient :=
  endpoint ← idx endpoints 0; Some (NewInferenceServiceClient endpoint).

Definition NewClient (endpoints : list string) (timeout : Duration) : option InferenceClient :=
  client ← dialInference endpoints; Some (mkInferenceClient client endpoints newLongConnTransport timeout).

Definition InferenceClientGenerate (c : InferenceClient) (request : GenerateRequest)
    : option GenerateResponse * option error := InferenceServiceClientGenerate (il_client c) request.
Definition InferenceClientGenerateStream {Stream} (c : InferenceClient) (req : GenerateRequest)
    : option Stream * option error := InferenceServiceClientGenerateStream (il_client c) req.

Record AdminClient := mkAdminClient {
  al_client : adminServiceClient;
  al_endpoints : list string;
  al_Transport : Transport;
  al_Timeout : Duration
}.

Definition dialAdmin (endpoints : list string) : option adminServiceClient :=
  endpoint ← idx endpoints 0; Some (NewAdminServiceClient endpoint).

Definition NewAdminClient (endpoints : list string) : option AdminClient :=
  client ← dialAdmin endpoints; Some (mkAdminClient client endpoints newLongConnTransport (10 * Second)).

Definition AdminClientHealth {Req Resp} (a : AdminClient) (request : Req)
    : option Resp * option error := AdminServiceClientHealth (al_client a) request.
Definition AdminClientGetRuntimeStats {Req Resp} (a : AdminClient) (request : Req)
    : option Resp * option error := AdminServiceClientGetRuntimeStats (al_client a) request.

(** ** The handlers *)

Record ExecutorServiceHandler := mkExecutorServiceHandler {
  xh_GetRuntime : cr_Impl C;
  xh_ExecuteBatch : cr_Impl C;
  xh_ReleaseBlocks : cr_Impl C;
  xh_TriggerKVPush : cr_Impl C;
  xh_PushKV : cr_Impl C
}.

(** The path to mount the handler on, and the handler. *)
Definition NewExecutorServiceHandler (svc : ExecutorServiceHandler) : string * HttpHandler :=
  let executorServiceMethods := mkSchema "ExecutorService" in
  let executorServiceGetRuntimeHandler := cr_NewUnaryHandlerSimple C ExecutorServiceGetRuntimeProcedure
    (xh_GetRuntime svc) (executorServiceMethods "GetRuntime") in
  let executorServiceExecuteBatchHandler := cr_NewUnaryHandlerSimple C ExecutorServiceExecuteBatchProcedure
    (xh_ExecuteBatch svc) (executorServiceMethods "ExecuteBatch") in
  let executorServiceReleaseBlocksHandler := cr_NewUnaryHandlerSimple C ExecutorServiceReleaseBlocksProcedure
    (xh_ReleaseBlocks svc) (executorServiceMethods "ReleaseBlocks") in
  let executorServiceTriggerKVPushHandler := cr_NewUnaryHandlerSimple C ExecutorServiceTriggerKVPushProcedure
    (xh_TriggerKVPush svc) (executorServiceMethods "TriggerKVPush") in
  let executorServicePushKVHandler := cr_NewUnaryHandlerSimple C ExecutorServicePushKVProcedure
    (xh_PushKV svc) (executorServiceMethods "PushKV") in
  ("/kvtide.v1.ExecutorService/", fun r w =>
    let path := hq_Path r in
    if String.eqb path ExecutorServiceGetRuntimeProcedure then executorServiceGetRuntimeHandler r w
    else if String.eqb path ExecutorServiceExecuteBatchProcedure then executorServiceExecuteBatchHandler r w
    else if String.eqb path ExecutorServiceReleaseBlocksProcedure then executorServiceReleaseBlocksHandler r w
    else if String.eqb path ExecutorServiceTriggerKVPushProcedure then executorServiceTriggerKVPushHandler r w
    else if String.eqb path ExecutorServicePushKVProcedure then executorServicePushKVHandler r w
    else NotFound r w).

Record InferenceServiceHandler := mkInferenceServiceHandler {
  ih_Generate : cr_Impl C;
  ih_GenerateStream : cr_Impl C
}.

Definition NewInferenceServiceHandler (svc : InferenceServiceHandler) : string * HttpHandler :=
  let inferenceServiceMethods := mkSchema "InferenceService" in
  let inferenceServiceGenerateHandler := cr_NewUnaryHandlerSimple C InferenceServiceGenerateProcedure
    (ih_Generate svc) (inferenceServiceMethods "Generate") in
  let inferenceServiceGenerateStreamHandler := cr_NewServerStreamHandlerSimple C
    InferenceServiceGenerateStreamProcedure (ih_GenerateStream svc) (inferenceServiceMethods "GenerateStream") in
  ("/kvtide.v1.InferenceService/", fun r w =>
    let path := hq_Path r in
    if String.eqb path InferenceServiceGenerateProcedure then inferenceServiceGenerateHandler r w
    else if String.eqb path InferenceServiceGenerateStreamProcedure then inferenceServiceGenerateStreamHandler r w
    else NotFound r w).

Record AdminServiceHandler := mkAdminServiceHandler {
  ah_Health : cr_Impl C;
  ah_GetRuntimeStats : cr_Impl C;
  ah_GetExecutors : cr_Impl C
}.

Definition NewAdminServiceHandler (svc : AdminServiceHandler) : string * HttpHandler :=
  let adminServiceMethods := mkSchema "AdminService" in
  let adminServiceHealthHandler := cr_NewUnaryHandlerSimple C AdminServiceHealthProcedure
    (ah_Health svc) (adminServiceMethods "Health") in
  let adminServiceGetRuntimeStatsHandler := cr_NewUnaryHandlerSimple C AdminServiceGetRuntimeStatsProcedure
    (ah_GetRuntimeStats svc) (adminServiceMethods "GetRuntimeStats") in
  let adminServiceGetExecutorsHandler := cr_NewUnaryHandlerSimple C AdminServiceGetExecutorsProcedure
    (ah_GetExecutors svc) (adminServiceMethods "GetExecutors") in
  ("/kvtide.v1.AdminService/", fun r w =>
    let path := hq_Path r in
    if String.eqb path AdminServiceHealthProcedure then adminServiceHealthHandler r w
    else if String.eqb path AdminServiceGetRuntimeStatsProcedure then adminServiceGetRuntimeStatsHandler r w
    else if String.eqb path AdminServiceGetExecutorsProcedure then adminServiceGetExecutorsHandler r w
    else NotFound r w).
End connect.

(** *** The handlers without methods of their own

    Each method answers that it is not implemented. *)

Definition unimplemented (procedure : string) : ConnectCode * error :=
  (ConnectUnimplemented, TextError (procedure +:+ " is not implemented")).

(** A method that returns a message or an error. *)
Definition unimplementedUnary {Resp} (procedure : string) : option Resp * option (ConnectCode * error) :=
  (None, Some (unimplemented procedure)).

Definition UnimplementedExecutorGetRuntime {Req Resp} (_ : Req) : option Resp * option (ConnectCode * error) :=
  unimplementedUnary "kvtide.v1.ExecutorService.GetRuntime".
Definition UnimplementedExecutorExecuteBatch {Req Resp} (_ : Req) : option Resp * option (ConnectCode * error) :=
  unimplementedUnary "kvtide.v1.ExecutorService.ExecuteBatch".
Definition UnimplementedExecutorReleaseBlocks {Req Resp} (_ : Req) : option Resp * option (ConnectCode * error) :=
  unimplementedUnary "kvtide.v1.ExecutorService.ReleaseBlocks".
Definition UnimplementedExecutorTriggerKVPush {Req Resp} (_ : Req) : option Resp * option (ConnectCode * error) :=
  unimplementedUnary "kvtide.v1.ExecutorService.TriggerKVPush".
Definition UnimplementedExecutorPushKV {Req Resp} (_ : Req) : option Resp * option (ConnectCode * error) :=
  unimplementedUnary "kvtide.v1.ExecutorService.PushKV".
Definition UnimplementedInferenceGenerate {Req Resp} (_ : Req) : option Resp * option (ConnectCode * error) :=
  unimplementedUnary "kvtide.v1.InferenceService.Generate".
Definition UnimplementedInferenceGenerateStream {Req} (_ : Req) : option (ConnectCode * error) :=
  Some (unimplemented "kvtide.v1.InferenceService.GenerateStream").
Definition UnimplementedAdminHealth {Req Resp} (_ : Req) : option Resp * option (ConnectCode * error) :=
  unimplementedUnary "kvtide.v1.AdminService.Health".
Definition UnimplementedAdminGetRuntimeStats {Req Resp} (_ : Req) : option Resp * option (ConnectCode * error) :=
  unimplementedUnary "kvtide.v1.AdminService.GetRuntimeStats".
Definition UnimplementedAdminGetExecutors {Req Resp} (_ : Req) : option Resp * option (ConnectCode * error) :=
  unimplementedUnary "kvtide.v1.AdminService.GetExecutors".

(** ** Where a call arrives *)

(** The path of the request for a URL [http://<authority><path>]. *)
Fixpoint fromSlash (s : string) : string :=
  match s with
  | EmptyString => EmptyString
  | String c s' => if Ascii.eqb c slash then s else fromSlash s'
  end.
Definition requestPath (url : string) : string := fromSlash (String.substring 7 (String.length url - 7) url).

Fixpoint slashes (n : nat) : string := match n with O => "" | S n => String slash (slashes n) end.

Fixpoint hasSlash (s : string) : bool :=
  match s with EmptyString => false | String c s => Ascii.eqb c slash || hasSlash s end.

Lemma TrimRightSlash_slashes n : TrimRightSlash (slashes n) = "".
Proof. induction n as [|n IH]; [done|]. cbn [slashes TrimRightSlash]. by rewrite IH. Qed.

Lemma append_nil_r (s : string) : s +:+ "" = s.
Proof. induction s as [|c s IH]; [done|]. change (String c (s +:+ "") = String c s). by rewrite IH. Qed.

(** Trailing slashes go, and only they. *)
Lemma TrimRightSlash_app s n : endsInSlash s = false -> TrimRightSlash (s +:+ slashes n) = s.
Proof.
  induction s as [|c s IH]; intros H; [apply TrimRightSlash_slashes|].
  change (TrimRightSlash (String c (s +:+ slashes n)) = String c s). cbn [TrimRightSlash].
  destruct s as [|c' s].
  - change ("" +:+ slashes n) with (slashes n). rewrite TrimRightSlash_slashes. cbn in H |- *. by rewrite H.
  - rewrite IH by exact H. done.
Qed.

Lemma fromSlash_app s p : hasSlash s = false -> fromSlash (s +:+ String slash p) = String slash p.
Proof.
  induction s as [|c s IH]; intros H; [done|]. cbn in H. apply orb_false_iff in H as [Hc Hs].
  change (fromSlash (String c (s +:+ String slash p)) = String slash p). cbn [fromSlash]. rewrite Hc. by apply IH.
Qed.

Lemma hasSlash_ends s : hasSlash s = false -> endsInSlash s = false.
Proof.
  induction s as [|c s IH]; intros H; [done|]. cbn in H. apply orb_false_iff in H as [Hc Hs].
  destruct s; cbn; [done|by apply IH].
Qed.

Lemma substring_whole s : String.substring 0 (String.length s) s = s.
Proof. induction s as [|c s IH]; [done|]. cbn. by rewrite IH. Qed.

(** The URL a client of [http://host] with any number of trailing slashes makes
    for a procedure leads to that procedure. *)
Lemma requestPath_url host n p : hasSlash host = false -> host <> "" ->
  requestPath (TrimRightSlash ("http://" +:+ host +:+ slashes n) +:+ String slash p) = String slash p.
Proof.
  intros Hh Hne. replace ("http://" +:+ host +:+ slashes n) with (("http://" +:+ host) +:+ slashes n) by done.
  rewrite TrimRightSlash_app.
  - unfold requestPath. replace (("http://" +:+ host) +:+ String slash p) with ("http://" +:+ (host +:+ String slash p)) by done.
    change (String.substring 7 (String.length ("http://" +:+ (host +:+ String slash p)) - 7) ("http://" +:+ (host +:+ String slash p)))
      with (String.substring 0 (String.length (host +:+ String slash p) - 0) (host +:+ String slash p)).
    rewrite Nat.sub_0_r, substring_whole. by apply fromSlash_app.
  - destruct host as [|c host]; [done|]. apply hasSlash_ends in Hh. exact Hh.
Qed.
