(* ===== verification/ConnectProperties.v ===== *)
(** * ConnectProperties: calls arrive where they are meant to

    The generated clients and handlers agree on the paths: a call of a method of
    a client reaches, through the mux of the server, the handler of the same
    method with the same schema, and no other path is served. *)

From S2P Require Import Prelude Errors Model Placement Cors Connect.

(** A call of a client made for [base] goes to a URL whose path the mux gives to
    the handler [h] makes for the same procedure and schema. *)
Definition reaches (C : connectrpc) (mux : ServeMux) (base : string) (client : cr_Client C)
    (h : string -> Schema -> HttpHandler) : Prop :=
  exists proc schema, client = cr_NewClient C (TrimRightSlash base +:+ proc) schema /\
    requestPath (TrimRightSlash base +:+ proc) = proc /\
    forall r w, hq_Path r = proc -> muxServe mux r w = h proc schema r w.

(** The address of a server without its path. *)
Definition authority (host : string) : Prop := hasSlash host = false /\ host <> "".

Lemma reaches_intro C mux host n p client h schema : authority host ->
  client = cr_NewClient C (TrimRightSlash ("http://" +:+ host +:+ slashes n) +:+ String slash p) schema ->
  (forall r w, hq_Path r = String slash p -> muxServe mux r w = h (String slash p) schema r w) ->
  reaches C mux ("http://" +:+ host +:+ slashes n) client h.
Proof. intros [Hh Hne] Hc Hm. exists (String slash p), schema. ssplit; [done|by apply requestPath_url|done]. Qed.

(** A path is known to a mux of one service: a procedure, or the service without
    its last slash. *)
Definition no_route (mux : ServeMux) (paths : list string) : Prop :=
  forall r w, hq_Path r ∉ paths -> muxServe mux r w = NotFound r w.

Lemma string_length_app (a b : string) : String.length (a +:+ b) = (String.length a + String.length b)%nat.
Proof. induction a as [|c a IH]; [done|]. change (S (String.length (a +:+ b)) = S (String.length a + String.length b)). by rewrite IH. Qed.

Lemma string_app_inj_r (a b s : string) : a +:+ s = b +:+ s -> a = b.
Proof.
  intros E. assert (Hl : String.length a = String.length b).
  { apply (f_equal String.length) in E. rewrite !string_length_app in E. lia. }
  revert b E Hl. induction a as [|c a IH]; intros [|d b] E Hl; try done. cbn in Hl. injection E as -> E.
  f_equal. apply IH; [exact E|lia].
Qed.

(** The redirect is to a registered path, and never taken for [path]. *)
Lemma muxServe_direct mux r w : (forall e, e ∈ mux -> e.1 <> hq_Path r +:+ "/") ->
  muxServe mux r w = match muxMatch mux (hq_Path r) with Some (_, h) => h r w | None => NotFound r w end.
Proof.
  intros Hno. unfold muxServe. replace (muxHas mux (hq_Path r +:+ "/")) with false; [by rewrite andb_false_r|].
  symmetry. unfold muxHas. apply not_true_is_false. intros (e & He & E%String.eqb_eq)%existsb_exists.
  by apply (Hno e); [apply list_elem_of_In|].
Qed.

Section routes.
Context (C : connectrpc).

(** The mux of the inference server and of the admin server. *)
Definition inferenceMux (svc : InferenceServiceHandler C) : ServeMux := [NewInferenceServiceHandler C svc].
Definition adminMux (svc : AdminServiceHandler C) (metricsHandler : HttpHandler) : ServeMux :=
  [NewAdminServiceHandler C svc; ("/metrics", metricsHandler)].

(** What a concrete path gives is computed. *)
Ltac reach Hh := eapply reaches_intro; [exact Hh|reflexivity|];
  let m := fresh in let p := fresh in let hd := fresh in let Hp := fresh in
  intros [m p hd] ? Hp; cbn in Hp; subst p; reflexivity.

Lemma inference_reaches svc host n : authority host ->
  let base := "http://" +:+ host +:+ slashes n in
  let c := NewInferenceServiceClient C base in
  reaches C (inferenceMux svc) base (ic_generate C c)
    (fun proc => cr_NewUnaryHandlerSimple C proc (ih_Generate C svc)) /\
  reaches C (inferenceMux svc) base (ic_generateStream C c)
    (fun proc => cr_NewServerStreamHandlerSimple C proc (ih_GenerateStream C svc)).
Proof. intros Hh base c. split; reach Hh. Qed.

Lemma admin_reaches svc mh host n : authority host ->
  let base := "http://" +:+ host +:+ slashes n in
  let c := NewAdminServiceClient C base in
  reaches C (adminMux svc mh) base (ac_health C c)
    (fun proc => cr_NewUnaryHandlerSimple C proc (ah_Health C svc)) /\
  reaches C (adminMux svc mh) base (ac_getRuntimeStats C c)
    (fun proc => cr_NewUnaryHandlerSimple C proc (ah_GetRuntimeStats C svc)) /\
  reaches C (adminMux svc mh) base (ac_getExecutors C c)
    (fun proc => cr_NewUnaryHandlerSimple C proc (ah_GetExecutors C svc)).
Proof. intros Hh base c. ssplit; reach Hh. Qed.

Lemma executor_reaches svc host n : authority host ->
  let base := "http://" +:+ host +:+ slashes n in
  let c := NewExecutorServiceClient C base in
  let unary impl proc := cr_NewUnaryHandlerSimple C proc (impl : cr_Impl C) in
  reaches C [NewExecutorServiceHandler C svc] base (xc_getRuntime C c) (unary (xh_GetRuntime C svc)) /\
  reaches C [NewExecutorServiceHandler C svc] base (xc_executeBatch C c) (unary (xh_ExecuteBatch C svc)) /\
  reaches C [NewExecutorServiceHandler C svc] base (xc_releaseBlocks C c) (unary (xh_ReleaseBlocks C svc)) /\
  reaches C [NewExecutorServiceHandler C svc] base (xc_triggerKVPush C c) (unary (xh_TriggerKVPush C svc)) /\
  reaches C [NewExecutorServiceHandler C svc] base (xc_pushKV C c) (unary (xh_PushKV C svc)).
Proof. intros Hh base c unary. ssplit; reach Hh. Qed.

(** The paths that lead somewhere: the procedures, and the service without its
    last slash, which is redirected. *)
Definition inferencePaths : list string := [
  "/kvtide.v1.InferenceService"; InferenceServiceGenerateProcedure; InferenceServiceGenerateStreamProcedure].
Definition adminPaths : list string := [
  "/kvtide.v1.AdminService"; AdminServiceHealthProcedure; AdminServiceGetRuntimeStatsProcedure;
  AdminServiceGetExecutorsProcedure; "/metrics"].

Lemma inference_no_route svc : no_route (inferenceMux svc) inferencePaths.
Proof.
  intros r w Hp. unfold inferencePaths in Hp. rewrite !not_elem_of_cons in Hp. destruct Hp as (H1 & H2 & H3 & _).
  rewrite muxServe_direct.
  - unfold inferenceMux, NewInferenceServiceHandler. cbn [muxMatch]. destruct (patternMatches _ _); [|done].
    by rewrite !(proj2 (String.eqb_neq _ _)) by done.
  - intros e ->%list_elem_of_singleton E. apply H1. symmetry. by apply (string_app_inj_r _ _ "/").
Qed.

Lemma endsInSlash_app p : endsInSlash (p +:+ "/") = true.
Proof.
  induction p as [|c p IH]; [done|]. change (endsInSlash (String c (p +:+ "/")) = true). cbn [endsInSlash].
  destruct (p +:+ "/"); [done|exact IH].
Qed.

Lemma metrics_not_slashed p : "/metrics" <> p +:+ "/".
Proof. intros E. pose proof (endsInSlash_app p) as H. by rewrite <- E in H. Qed.

Lemma admin_no_route svc mh : no_route (adminMux svc mh) adminPaths.
Proof.
  intros r w Hp. unfold adminPaths in Hp. rewrite !not_elem_of_cons in Hp. destruct Hp as (H1 & H2 & H3 & H4 & H5 & _).
  rewrite muxServe_direct.
  - assert (Hm : patternMatches (hq_Path r) "/metrics" = false).
    { unfold patternMatches. rewrite (proj2 (String.eqb_neq _ _)) by done. done. }
    unfold adminMux, NewAdminServiceHandler. cbn [muxMatch]. rewrite Hm.
    destruct (patternMatches (hq_Path r) "/kvtide.v1.AdminService/"); [|done].
    by rewrite !(proj2 (String.eqb_neq _ _)) by done.
  - intros e [->|He]%elem_of_cons E; [|apply list_elem_of_singleton in He; subst e].
    + apply H1. symmetry. by apply (string_app_inj_r _ _ "/").
    + by apply (metrics_not_slashed (hq_Path r)).
Qed.
End routes.
