(* ===== verification/Uuid.v ===== *)
(** * Uuid: time-ordered identifiers (internal/utils/uuid.go)

    [GenerateUUIDv7] at the Unix time [ts] in milliseconds, with the ten bytes (or
    the error) crypto/rand gives.  The identifiers of batches, work items, events
    and transfers come from here; the other components take them as a supply of
    strings. *)

From S2P Require Import Prelude Errors GoSha256.

Definition byte (z : Z) : Z := z mod 256.

Definition uuidBytes (ts : Z) (random : list Z) : list Z :=
  let u := [byte (Z.shiftr ts 40); byte (Z.shiftr ts 32); byte (Z.shiftr ts 24);
            byte (Z.shiftr ts 16); byte (Z.shiftr ts 8); byte ts] ++ random in
  let u := alter (fun b => Z.lor (Z.land b 0x0f) 0x70) 6%nat u in
  alter (fun b => Z.lor (Z.land b 0x3f) 0x80) 8%nat u.

Definition formatUUID (u : list Z) : string :=
  EncodeToString (take 4 u) +:+ "-" +:+ EncodeToString (take 2 (drop 4 u)) +:+ "-" +:+
  EncodeToString (take 2 (drop 6 u)) +:+ "-" +:+ EncodeToString (take 2 (drop 8 u)) +:+ "-" +:+
  EncodeToString (take 6 (drop 10 u)).

Definition GenerateUUIDv7 (ts : Z) (random : error + list Z) : error + string :=
  match random with
  | inl err => inl err
  | inr random => inr (formatUUID (uuidBytes (u64 ts) random))
  end.

(** The wall-clock time stands in when there is no randomness. *)
Definition MustGenerateUUIDv7 (ts : Z) (random : error + list Z) (clockText : string) : string :=
  match GenerateUUIDv7 ts random with inl _ => clockText | inr str => str end.

(** ** Layout, order and uniqueness *)

Lemma byte_check (P : Z -> bool) : forallb P (seqZ 0 256) = true -> forall b, is_byte b -> P b = true.
Proof. rewrite forallb_forall. intros H b Hb. apply H, list_elem_of_In, elem_of_seqZ. unfold is_byte in Hb. lia. Qed.

Definition versionByte (b : Z) : Z := Z.lor (Z.land b 0x0f) 0x70.
Definition variantByte (b : Z) : Z := Z.lor (Z.land b 0x3f) 0x80.

Lemma versionByte_exact b : is_byte b -> versionByte b = 112 + b mod 16.
Proof. intros Hb. apply Z.eqb_eq. by apply (byte_check (fun b => versionByte b =? 112 + b mod 16)). Qed.
Lemma variantByte_exact b : is_byte b -> variantByte b = 128 + b mod 64.
Proof. intros Hb. apply Z.eqb_eq. by apply (byte_check (fun b => variantByte b =? 128 + b mod 64)). Qed.

Lemma hexdigit_lt c d : 0 <= c -> c < d -> d < 16 -> Ascii.compare (hexdigit c) (hexdigit d) = Lt.
Proof.
  intros Hc Hcd Hd.
  assert (H : forallb (fun c => forallb (fun d => implb (c <? d)
    (match Ascii.compare (hexdigit c) (hexdigit d) with Lt => true | _ => false end)) (seqZ 0 16)) (seqZ 0 16) = true)
    by (vm_compute; reflexivity).
  rewrite forallb_forall in H. specialize (H c ltac:(apply list_elem_of_In, elem_of_seqZ; lia)). cbv beta in H.
  rewrite forallb_forall in H. specialize (H d ltac:(apply list_elem_of_In, elem_of_seqZ; lia)). cbv beta in H.
  rewrite (proj2 (Z.ltb_lt c d)) in H by done. cbn in H. by destruct (Ascii.compare _ _).
Qed.

Lemma ascii_compare_refl c : Ascii.compare c c = Eq.
Proof. apply N.compare_refl. Qed.

(** The text of two bytes compares as they do. *)
Lemma hexbyte_lt b c s t : is_byte b -> is_byte c -> b < c ->
  String.compare (String (hexdigit (b / 16)) (String (hexdigit (b mod 16)) s))
                 (String (hexdigit (c / 16)) (String (hexdigit (c mod 16)) t)) = Lt.
Proof.
  unfold is_byte. intros Hb Hc Hlt. cbn [String.compare].
  destruct (decide (b / 16 = c / 16)) as [E|E].
  - rewrite E, ascii_compare_refl, hexdigit_lt; [done|Z.to_euclidean_division_equations; lia..].
  - rewrite hexdigit_lt; [done|Z.to_euclidean_division_equations; lia..].
Qed.

(** The milliseconds the six first bytes stand for. *)
Lemma ts_bytes ts : 0 <= ts < 2 ^ 48 ->
  ts = ((((byte (Z.shiftr ts 40) * 256 + byte (Z.shiftr ts 32)) * 256 + byte (Z.shiftr ts 24)) * 256
    + byte (Z.shiftr ts 16)) * 256 + byte (Z.shiftr ts 8)) * 256 + byte ts.
Proof.
  intros H. unfold byte. rewrite !Z.shiftr_div_pow2 by lia.
  change (2 ^ 8) with 256. change (2 ^ 16) with 65536. change (2 ^ 24) with 16777216.
  change (2 ^ 32) with 4294967296. change (2 ^ 40) with 1099511627776. change (2 ^ 48) with 281474976710656 in H.
  Z.to_euclidean_division_equations. lia.
Qed.

Lemma byte_is_byte z : is_byte (byte z).
Proof. apply Z.mod_pos_bound. lia. Qed.

Definition hexbyte (b : Z) (s : string) : string :=
  String (hexdigit (b / 16)) (String (hexdigit (b mod 16)) s).

Lemma hexbyte_step b c s t : is_byte b -> is_byte c ->
  (b < c \/ b = c /\ String.compare s t = Lt) -> String.compare (hexbyte b s) (hexbyte c t) = Lt.
Proof.
  intros Hb Hc [Hlt|[-> H]]; [by apply hexbyte_lt|].
  unfold hexbyte. cbn [String.compare]. by rewrite !ascii_compare_refl.
Qed.

(** A smaller number has the smaller text, whatever follows. *)
Lemma stamp_lt b0 b1 b2 b3 b4 b5 c0 c1 c2 c3 c4 c5 s t :
  Forall is_byte [b0; b1; b2; b3; b4; b5] -> Forall is_byte [c0; c1; c2; c3; c4; c5] ->
  ((((b0 * 256 + b1) * 256 + b2) * 256 + b3) * 256 + b4) * 256 + b5 <
  ((((c0 * 256 + c1) * 256 + c2) * 256 + c3) * 256 + c4) * 256 + c5 ->
  let dash := Ascii.ascii_of_nat 45 in
  String.compare (hexbyte b0 (hexbyte b1 (hexbyte b2 (hexbyte b3 (String dash (hexbyte b4 (hexbyte b5 s)))))))
    (hexbyte c0 (hexbyte c1 (hexbyte c2 (hexbyte c3 (String dash (hexbyte c4 (hexbyte c5 t))))))) = Lt.
Proof.
  rewrite !Forall_cons. unfold is_byte. intros Hb Hc Hlt. destruct_and!.
  assert (Hdash : forall s t, String.compare s t = Lt ->
    String.compare (String (Ascii.ascii_of_nat 45) s) (String (Ascii.ascii_of_nat 45) t) = Lt).
  { intros s' t' H'. cbn [String.compare]. by rewrite ascii_compare_refl. }
  do 4 (apply hexbyte_step; [done..|];
    match goal with |- ?b < ?c \/ _ => destruct (Z.lt_trichotomy b c) as [?|[?|?]]; [by left|right; split; [done|]|exfalso; lia] end).
  apply Hdash. apply hexbyte_step; [done..|].
  destruct (Z.lt_trichotomy b4 c4) as [?|[?|?]]; [by left|right; split; [done|]|exfalso; lia].
  apply hexbyte_step; [done..|]. left. lia.
Qed.

(** The bytes of an identifier. *)
Lemma uuidBytes_eq ts r0 r1 r2 r3 r4 r5 r6 r7 r8 r9 :
  uuidBytes ts [r0; r1; r2; r3; r4; r5; r6; r7; r8; r9] =
  [byte (Z.shiftr ts 40); byte (Z.shiftr ts 32); byte (Z.shiftr ts 24); byte (Z.shiftr ts 16);
   byte (Z.shiftr ts 8); byte ts; versionByte r0; r1; variantByte r2; r3; r4; r5; r6; r7; r8; r9].
Proof. reflexivity. Qed.

Lemma formatUUID_inj u v : length u = 16%nat -> length v = 16%nat -> Forall is_byte u -> Forall is_byte v ->
  formatUUID u = formatUUID v -> u = v.
Proof.
  intros Hu Hv Hbu Hbv H. apply EncodeToString_inj; [done..|].
  do 16 (destruct u as [|? u]; [done|]). destruct u; [|done].
  do 16 (destruct v as [|? v]; [done|]). destruct v; [|done].
  unfold formatUUID in H. cbn [take drop EncodeToString] in *. injection H. intros. congruence.
Qed.

Lemma versionByte_byte b : is_byte b -> is_byte (versionByte b).
Proof. intros Hb. rewrite versionByte_exact by done. pose proof (Z.mod_pos_bound b 16). unfold is_byte. lia. Qed.
Lemma variantByte_byte b : is_byte b -> is_byte (variantByte b).
Proof. intros Hb. rewrite variantByte_exact by done. pose proof (Z.mod_pos_bound b 64). unfold is_byte. lia. Qed.

Lemma uuidBytes_bytes ts random : length random = 10%nat -> Forall is_byte random ->
  length (uuidBytes ts random) = 16%nat /\ Forall is_byte (uuidBytes ts random).
Proof.
  intros Hl Hb. do 10 (destruct random as [|? random]; [done|]). destruct random; [|done].
  rewrite uuidBytes_eq. split; [done|]. rewrite !Forall_cons in Hb |- *. destruct_and!.
  rewrite ?Forall_cons. ssplit; first [apply byte_is_byte | by apply versionByte_byte | by apply variantByte_byte | done].
Qed.

(** The random bits an identifier keeps: 4 and 2 of the 80 are overwritten. *)
Definition keptBits (random : list Z) : list Z :=
  alter (fun b => b mod 64) 2%nat (alter (fun b => b mod 16) 0%nat random).

Lemma hexdigit_version b : is_byte b -> hexdigit (versionByte b / 16) = Ascii.ascii_of_nat 55.
Proof.
  intros Hb. rewrite versionByte_exact by done. replace ((112 + b mod 16) / 16) with 7; [done|].
  unfold is_byte in Hb. Z.to_euclidean_division_equations. lia.
Qed.

Lemma hexdigit_variant b : is_byte b ->
  hexdigit (variantByte b / 16) ∈ (Ascii.ascii_of_nat <$> [56; 57; 97; 98]%nat).
Proof.
  intros Hb. assert (H : existsb (fun c => Ascii.eqb (hexdigit (variantByte b / 16)) c)
    (Ascii.ascii_of_nat <$> [56; 57; 97; 98]%nat) = true).
  { by apply (byte_check (fun b => existsb (fun c => Ascii.eqb (hexdigit (variantByte b / 16)) c)
      (Ascii.ascii_of_nat <$> [56; 57; 97; 98]%nat))). }
  apply existsb_exists in H as (c & Hc & E%Ascii.eqb_eq). rewrite E. by apply list_elem_of_In.
Qed.

Lemma versionByte_kept b c : is_byte b -> is_byte c -> versionByte b = versionByte c -> b mod 16 = c mod 16.
Proof. intros Hb Hc. rewrite !versionByte_exact by done. lia. Qed.
Lemma variantByte_kept b c : is_byte b -> is_byte c -> variantByte b = variantByte c -> b mod 64 = c mod 64.
Proof. intros Hb Hc. rewrite !variantByte_exact by done. lia. Qed.

Lemma get_is (o : option Ascii.ascii) c c' : o = Some c -> c = c' -> o = Some c'.
Proof. congruence. Qed.

(** C39: Identifiers are UUIDs of version 7: unique up to their randomness and ordered
    by time.  Up to the year 10889 (48 bits of milliseconds), an identifier has 36
    characters, dashes after the 8th, 12th, 16th and 20th digit, version 7 and
    the variant bits 10; an identifier made in a later millisecond is greater as
    a string; two equal identifiers were made in the same millisecond from the
    same 74 random bits. *)
Theorem uuid_v7 ts ts' random random' id id'
  (Hts : 0 <= ts < 2 ^ 48) (Hts' : 0 <= ts' < 2 ^ 48)
  (Hr : length random = 10%nat /\ Forall is_byte random) (Hr' : length random' = 10%nat /\ Forall is_byte random')
  (Hid : GenerateUUIDv7 ts (inr random) = inr id) (Hid' : GenerateUUIDv7 ts' (inr random') = inr id') :
  String.length id = 36%nat /\
  (forall i, i ∈ [8; 13; 18; 23]%nat -> String.get i id = Some (Ascii.ascii_of_nat 45)) /\
  String.get 14 id = Some (Ascii.ascii_of_nat 55) /\
  (exists c, String.get 19 id = Some c /\ c ∈ (Ascii.ascii_of_nat <$> [56; 57; 97; 98]%nat)) /\
  (ts < ts' -> String.compare id id' = Lt) /\
  (id = id' -> ts = ts' /\ keptBits random = keptBits random').
Proof.
  destruct Hr as [Hl Hb], Hr' as [Hl' Hb'].
  assert (E : forall t, 0 <= t < 2 ^ 48 -> u64 t = t).
  { intros t Ht. apply Z.mod_small. change (2 ^ 48) with 281474976710656 in Ht. unfold two64. lia. }
  unfold GenerateUUIDv7 in *. rewrite E in Hid, Hid' by done. injection Hid as <-. injection Hid' as <-.
  destruct (uuidBytes_bytes ts random Hl Hb) as [Hl1 Hb1], (uuidBytes_bytes ts' random' Hl' Hb') as [Hl2 Hb2].
  pose proof (formatUUID_inj _ _ Hl1 Hl2 Hb1 Hb2) as Hinj.
  do 10 (destruct random as [|? random]; [done|]). destruct random; [|done].
  do 10 (destruct random' as [|? random']; [done|]). destruct random'; [|done].
  rewrite !uuidBytes_eq in *. rewrite !Forall_cons in Hb, Hb'. destruct_and!.
  ssplit.
  - reflexivity.
  - intros i Hi. repeat (apply elem_of_cons in Hi as [->|Hi]; [reflexivity|]). by apply elem_of_nil in Hi.
  - eapply get_is; [reflexivity|]. by apply hexdigit_version.
  - eexists. split; [reflexivity|]. by apply hexdigit_variant.
  - intros Hlt. apply stamp_lt; [repeat constructor; apply byte_is_byte..|].
    by rewrite <- !ts_bytes.
  - intros Heq. apply Hinj in Heq. injection Heq. intros.
    split; [rewrite (ts_bytes ts), (ts_bytes ts') by done; congruence|].
    unfold keptBits. cbn -[Z.modulo]. repeat lazymatch goal with |- _ :: _ = _ :: _ => apply (f_equal2 cons) end;
      first [done|by apply versionByte_kept|by apply variantByte_kept].
Qed.

Lemma uuid_v7_witness :
  let at_ ts := GenerateUUIDv7 ts (inr [1; 2; 3; 4; 5; 6; 7; 8; 9; 10]) in
  match at_ 255, at_ 256 with
  | inr id, inr id' => String.length id = 36%nat /\ String.compare id id' = Lt
  | _, _ => False
  end.
Proof.
  intros at_.
  assert (Hr : length [1; 2; 3; 4; 5; 6; 7; 8; 9; 10] = 10%nat /\ Forall is_byte [1; 2; 3; 4; 5; 6; 7; 8; 9; 10])
    by (split; [done|]; repeat constructor; done).
  destruct (at_ 255) as [e|id] eqn:E; [by exfalso|]. destruct (at_ 256) as [e|id'] eqn:E'; [by exfalso|].
  destruct (uuid_v7 255 256 _ _ id id' ltac:(lia) ltac:(lia) Hr Hr E E') as (H1 & _ & _ & _ & H2 & _).
  split; [exact H1|apply H2; lia].
Defined.
