(* ===== verification/Util.v ===== *)
(** * Util: the port of an address (internal/utils/util.go)

    [net.SplitHostPort] and [strconv.Atoi] of Go's standard library, and
    [ExtractPortNumber], with which the server finds its port. *)

From S2P Require Import Prelude Errors GoStrings.

Definition colon : Ascii.ascii := Ascii.ascii_of_nat 58.
Definition bracketOpen : Ascii.ascii := Ascii.ascii_of_nat 91.
Definition bracketClose : Ascii.ascii := Ascii.ascii_of_nat 93.

(** ** net *)

(** [strings.IndexByte], -1 without the byte *)
Fixpoint IndexByte (s : string) (c : Ascii.ascii) : Z :=
  match s with
  | EmptyString => -1
  | String d s => if Ascii.eqb d c then 0
                  else let i := IndexByte s c in if i <? 0 then -1 else i + 1
  end.

Fixpoint LastIndexByte (s : string) (c : Ascii.ascii) : Z :=
  match s with
  | EmptyString => -1
  | String d s =>
      let i := LastIndexByte s c in
      if 0 <=? i then i + 1 else if Ascii.eqb d c then 0 else -1
  end.

Definition from (s : string) (lo : Z) : string :=
  String.substring (Z.to_nat lo) (String.length s - Z.to_nat lo) s.
Definition upTo (s : string) (hi : Z) : string := String.substring 0 (Z.to_nat hi) s.

(** The error of [net.AddrError] *)
Definition addrErr (addr why : string) : error := TextError ("address " +:+ addr +:+ ": " +:+ why).
Definition missingPort : string := "missing port in address".
Definition tooManyColons : string := "too many colons in address".

(** The checks on brackets behind the host, and the port after the last colon [i]. *)
Definition portAfter (hostport : string) (i j k : Z) : error + string :=
  if 0 <=? IndexByte (from hostport j) bracketOpen
  then inl (addrErr hostport "unexpected '[' in address")
  else if 0 <=? IndexByte (from hostport k) bracketClose
  then inl (addrErr hostport "unexpected ']' in address")
  else inr (from hostport (i + 1)).

(** The port of [net.SplitHostPort]. *)
Definition SplitHostPort (hostport : string) : error + string :=
  let i := LastIndexByte hostport colon in
  if i <? 0 then inl (addrErr hostport missingPort)
  else if bool_decide (String.get 0 hostport = Some bracketOpen) then
    let e := IndexByte hostport bracketClose in
    if e <? 0 then inl (addrErr hostport "missing ']' in address")
    else if e + 1 =? Z.of_nat (String.length hostport) then inl (addrErr hostport missingPort)
    else if e + 1 =? i then portAfter hostport i 1 (e + 1)
    else if bool_decide (String.get (Z.to_nat (e + 1)) hostport = Some colon)
    then inl (addrErr hostport tooManyColons)
    else inl (addrErr hostport missingPort)
  else if 0 <=? IndexByte (upTo hostport i) colon
  then inl (addrErr hostport tooManyColons)
  else portAfter hostport i 0 0.

(** ** strconv *)

Fixpoint decimal (acc : Z) (s : string) : option Z :=
  match s with
  | EmptyString => Some acc
  | String c s =>
      let d := Z.of_N (Ascii.N_of_ascii c) - 48 in
      if (0 <=? d) && (d <=? 9) then decimal (10 * acc + d) s else None
  end.

Definition quoted (s : string) : string :=
  String (Ascii.ascii_of_nat 34) (s +:+ String (Ascii.ascii_of_nat 34) "").

(** [strconv.Atoi]; int has 64 bits.  The error quotes [s], without the escapes an
    unprintable text would get. *)
Definition Atoi (s : string) : error + Z :=
  let syntax := inl (TextError ("strconv.Atoi: parsing " +:+ quoted s +:+ ": invalid syntax")) in
  let '(neg, digits) :=
    match s with
    | String c rest =>
        if Ascii.eqb c (Ascii.ascii_of_nat 45) then (true, rest)
        else if Ascii.eqb c (Ascii.ascii_of_nat 43) then (false, rest) else (false, s)
    | EmptyString => (false, s)
    end in
  match digits with
  | EmptyString => syntax
  | _ =>
      match decimal 0 digits with
      | None => syntax
      | Some n =>
          let n := if neg then - n else n in
          if (- 2 ^ 63 <=? n) && (n <? 2 ^ 63) then inr n
          else inl (TextError ("strconv.Atoi: parsing " +:+ quoted s +:+ ": value out of range"))
      end
  end.

(** ** ExtractPortNumber *)

Definition ExtractPortNumber (addr : string) : error + Z :=
  match SplitHostPort addr with
  | inl err => inl err
  | inr p =>
      match Atoi p with
      | inl err => inl err
      | inr port =>
          if (port <? 1) || (65535 <? port) then inl (TextError "invalid port") else inr port
      end
  end.

Example port_ipv6 : ExtractPortNumber "[::1]:8080" = inr 8080.
Proof. reflexivity. Qed.
Example port_url : exists err, ExtractPortNumber "http://localhost:8080" = inl err.
Proof. by eexists. Qed.

(** ** Every port comes back *)

Lemma decimal_pretty_go x s : (0 < x)%N -> decimal 0 (pretty_N_go x s) = decimal (Z.of_N x) s.
Proof.
  revert s. induction (N.lt_wf_0 x) as [x _ IH]. intros s Hx. rewrite pretty_N_go_step by done.
  assert (Hstep : forall acc, decimal acc (String (pretty_N_char (x mod 10)) s) = decimal (10 * acc + Z.of_N (x mod 10)) s).
  { intros acc. pose proof (N.mod_lt x 10 ltac:(done)) as Hm. revert Hm. generalize (x mod 10)%N. clear. intros m Hm.
    assert (H : forallb (fun k => Z.of_N (Ascii.N_of_ascii (pretty_N_char (N.of_nat k))) - 48 =? Z.of_nat k) (seq 0 10) = true)
      by (vm_compute; reflexivity).
    rewrite forallb_forall in H. specialize (H (N.to_nat m) ltac:(apply in_seq; lia)). cbv beta in H.
    rewrite N2Nat.id in H. apply Z.eqb_eq in H. cbn [decimal]. rewrite H.
    rewrite (proj2 (Z.leb_le _ _)), (proj2 (Z.leb_le _ _)) by lia. cbn [andb]. f_equal. lia. }
  pose proof (N.div_mod x 10 ltac:(done)) as Hdiv.
  destruct (N.eq_dec (x / 10) 0) as [E|E].
  - rewrite E, pretty_N_go_0, Hstep. f_equal. lia.
  - rewrite IH by (first [by apply N.neq_0_lt_0 | apply N.div_lt; [exact Hx|done]]). rewrite Hstep. f_equal. lia.
Qed.

Lemma decimal_pretty p : 0 < p -> decimal 0 (pretty p) = Some p.
Proof.
  destruct p as [|p|p]; [lia| |lia]. intros _. change (pretty (Z.pos p)) with (pretty (N.pos p)).
  unfold pretty, pretty_N. rewrite decide_False by lia. by rewrite decimal_pretty_go.
Qed.

(** A byte that is no digit. *)
Definition notDigit (c : Ascii.ascii) : Prop := decimal 0 (String c "") = None.

Lemma decimal_no s acc n c : decimal acc s = Some n -> notDigit c -> IndexByte s c = -1 /\ LastIndexByte s c = -1.
Proof.
  intros H Hc. revert acc H. induction s as [|d s IH]; intros acc H; [done|]. cbn [decimal] in H.
  assert (Hne : Ascii.eqb d c = false).
  { destruct (Ascii.eqb_spec d c) as [->|]; [|done]. unfold notDigit in Hc. cbn [decimal] in Hc.
    by destruct ((0 <=? _) && (_ <=? 9)). }
  destruct ((0 <=? _) && (_ <=? 9)); [|done]. destruct (IH _ H) as [H1 H2].
  cbn [IndexByte LastIndexByte]. by rewrite Hne, H1, H2.
Qed.

Lemma LastIndexByte_sep host c s : LastIndexByte s c = -1 ->
  LastIndexByte (host +:+ String c s) c = Z.of_nat (String.length host).
Proof.
  intros Hs. induction host as [|d host IH].
  - change ("" +:+ String c s) with (String c s). cbn [LastIndexByte]. rewrite Hs. cbn. by rewrite Ascii.eqb_refl.
  - change (String d host +:+ String c s) with (String d (host +:+ String c s)). cbn [LastIndexByte String.length].
    rewrite IH, (proj2 (Z.leb_le _ _)) by lia. lia.
Qed.

Lemma IndexByte_app a b c : IndexByte a c = -1 -> IndexByte b c = -1 -> IndexByte (a +:+ b) c = -1.
Proof.
  intros Ha Hb. induction a as [|d a IH]; [done|]. change (String d a +:+ b) with (String d (a +:+ b)).
  cbn [IndexByte] in Ha |- *. destruct (Ascii.eqb d c); [done|].
  destruct (Z.ltb_spec (IndexByte a c) 0) as [Hlt|Hge]; [|lia]. rewrite IH; [done|].
  clear -Hlt. assert (H : forall s, -1 <= IndexByte s c).
  { induction s as [|d s IH]; [done|]. cbn [IndexByte]. destruct (Ascii.eqb d c); [done|].
    destruct (Z.ltb_spec (IndexByte s c) 0); lia. }
  specialize (H a). lia.
Qed.

Lemma substring_all s : String.substring 0 (String.length s) s = s.
Proof. induction s as [|c s IH]; [done|]. cbn. by rewrite IH. Qed.

Lemma upTo_app a b : upTo (a +:+ b) (Z.of_nat (String.length a)) = a.
Proof.
  unfold upTo. rewrite Nat2Z.id. induction a as [|c a IH]; [by destruct b|].
  change (String c a +:+ b) with (String c (a +:+ b)). cbn. by rewrite IH.
Qed.

Lemma from_app a b : from (a +:+ b) (Z.of_nat (String.length a)) = b.
Proof.
  unfold from. rewrite Nat2Z.id, length_app_string.
  replace (String.length a + String.length b - String.length a)%nat with (String.length b) by lia.
  induction a as [|c a IH]; [apply substring_all|].
  change (String c a +:+ b) with (String c (a +:+ b)). exact IH.
Qed.

(** A port is only accepted in its range, and a host without colons and brackets,
    a colon and a port give that port. *)
Theorem extract_port_roundtrip :
  (forall addr port, ExtractPortNumber addr = inr port -> 1 <= port <= 65535) /\
  forall host port, 1 <= port <= 65535 ->
    IndexByte host colon = -1 -> IndexByte host bracketOpen = -1 -> IndexByte host bracketClose = -1 ->
    ExtractPortNumber (host +:+ ":" +:+ pretty port) = inr port.
Proof.
  split.
  - intros addr port. unfold ExtractPortNumber. destruct (SplitHostPort addr); [done|]. destruct (Atoi _) as [|n]; [done|].
    destruct (Z.ltb_spec n 1), (Z.ltb_spec 65535 n); cbn; intros [=]; lia.
  - intros host port Hp Hc Ho Hb. set (digits := pretty port).
    assert (Hd : decimal 0 digits = Some port) by (apply decimal_pretty; lia).
    destruct (decimal_no digits 0 port colon Hd eq_refl) as [Hdc Hdl].
    change (":" +:+ digits) with (String colon digits). unfold ExtractPortNumber, SplitHostPort.
    rewrite LastIndexByte_sep by done. rewrite (proj2 (Z.ltb_ge _ _)) by lia.
    rewrite bool_decide_false.
    2: { destruct host as [|d host]; [done|]. change (String d host +:+ ?x) with (String d (host +:+ x)). cbn.
         cbn [IndexByte] in Ho. intros [= ->]. by rewrite Ascii.eqb_refl in Ho. }
    rewrite upTo_app, Hc. change (0 <=? -1) with false. unfold portAfter.
    assert (Hfrom : forall s, from s 0 = s) by (intros s; unfold from; cbn; rewrite Nat.sub_0_r; apply substring_all).
    assert (Hno : forall c, notDigit c -> Ascii.eqb colon c = false -> IndexByte host c = -1 ->
      IndexByte (host +:+ String colon digits) c = -1).
    { intros c Hnd Hne Hh. apply IndexByte_app; [done|]. cbn [IndexByte].
      by rewrite Hne, (proj1 (decimal_no digits 0 port c Hd Hnd)). }
    rewrite !Hfrom, !Hno by done. change (0 <=? -1) with false. cbv beta iota.
    replace (from (host +:+ String colon digits) (Z.of_nat (String.length host) + 1)) with digits.
    2: { symmetry. assert (E : host +:+ String colon digits = (host +:+ ":") +:+ digits) by (by rewrite string_app_assoc).
         rewrite E. replace (Z.of_nat (String.length host) + 1) with (Z.of_nat (String.length (host +:+ ":")))
           by (rewrite length_app_string; cbn; lia). apply from_app. }
    assert (Ha : Atoi digits = inr port).
    { clearbody digits. unfold Atoi. destruct digits as [|c rest]; [injection Hd; lia|].
      assert (Hs : forall k, notDigit (Ascii.ascii_of_nat k) -> Ascii.eqb c (Ascii.ascii_of_nat k) = false).
      { intros k Hk. destruct (Ascii.eqb_spec c (Ascii.ascii_of_nat k)) as [->|]; [|done].
        destruct (decimal_no _ 0 port _ Hd Hk) as [H _]. cbn [IndexByte] in H. by rewrite Ascii.eqb_refl in H. }
      rewrite !Hs by done. rewrite Hd. cbn [negb].
      rewrite (proj2 (Z.leb_le _ _)), (proj2 (Z.ltb_lt _ _)) by lia. done. }
    rewrite Ha. rewrite (proj2 (Z.ltb_ge _ _)), (proj2 (Z.ltb_ge _ _)) by lia. done.
Qed.
