(* ===== verification/Server.v ===== *)
(** * Server: configuration, start-up and shutdown (cmd/server, internal/conf, internal/transport)

    [NewConfFromPath] reads the configuration, [newApp] builds the program from
    it in the order in which the constructors need one another, [OnStart] and
    [OnStop] are the hooks that open and close the two HTTP servers, [Batch] is
    the loop of the scheduler.  A constructor that panics makes [newApp] [None].

    Parameters are the configuration library with its parsers, the tokenizer
    library, the executors' answers, connectrpc, the h2c and Prometheus handlers,
    and what the network answers to [Listen] and [Shutdown]. *)

From S2P Require Import Prelude Errors Model Metrics FreeQueue BlockManager BlockProperties BlockRegistry StateMachine RequestProperties RequestFrame Executor ExecutorProperties Queues QueueProperties Scheduler SchedulerPick SchedulerProperties Engine EngineRequests EngineSteps GoSha256 Tokenizer Handler EngineProperties Admin Cors Connect ConnectProperties Util.
(** ** Configuration *)

Record ServerConf := mkServerConf {
  sv_Address : string;
  sv_AdminPort : Z;
  sv_AllowedOrigins : list string;
  sv_ScheduleConf : ScheduleConf
}.
Record Conf := mkConf {
  co_Server : ServerConf;
  co_Models : list ModelConf;
  co_Executors : list ExecutorConf
}.

Definition dot : Ascii.ascii := Ascii.ascii_of_nat 46.

(** [filepath.Ext]: from the last dot of the last element of the path on. *)
Fixpoint Ext (path : string) : string :=
  match path with
  | EmptyString => EmptyString
  | String c rest =>
      let e := Ext rest in
      if negb (String.eqb e "") then e
      else if Ascii.eqb c dot && negb (hasSlash rest) then path else ""
  end.

Inductive Parser := TomlParser | YamlParser | JsonParser.

Section conf.
(** koanf: the file read with a parser, and the values as a structure. *)
Context {Koanf : Type} (Load : Parser -> string -> error + Koanf) (Unmarshal : Koanf -> error + Conf).

Definition NewConfFromPath (path : string) : error + Conf :=
  let ext := Ext path in
  let parser :=
    if String.eqb ext ".toml" then Some TomlParser
    else if String.eqb ext ".yaml" || String.eqb ext ".yml" then Some YamlParser
    else if String.eqb ext ".json" then Some JsonParser
    else None in
  match parser with
  | None => inl (TextError ("conf: unsupported file type: " +:+ ext))
  | Some parser =>
      match Load parser path with
      | inl err => inl err
      | inr k => Unmarshal k
      end
  end.
End conf.

(** ** The HTTP servers *)

Record HTTPServer := mkHTTPServer {
  hs_Addr : string;
  hs_Handler : HttpHandler;
  hs_ReadTimeout : Duration;
  hs_ReadHeaderTimeout : Duration;
  hs_WriteTimeout : Duration;
  hs_IdleTimeout : Duration
}.

Section servers.
Context (C : connectrpc) (h2cNewHandler : HttpHandler -> HttpHandler).

(** The port is checked by panicking. *)
Definition NewLLMServingServer (cfg : Conf) (svc : InferenceServiceHandler C) : option HTTPServer :=
  let h2cHandler := h2cNewHandler (muxServe (inferenceMux C svc)) in
  let handlerWithCORS := withCORS (sv_AllowedOrigins (co_Server cfg)) h2cHandler in
  match ExtractPortNumber (sv_Address (co_Server cfg)) with
  | inl _ => None
  | inr port => Some {|
      hs_Addr := "0.0.0.0:" +:+ pretty port;
      hs_Handler := handlerWithCORS;
      hs_ReadTimeout := 3 * Second;
      hs_ReadHeaderTimeout := 3 * Second;
      hs_WriteTimeout := 0;
      hs_IdleTimeout := 60 * Second |}
  end.

(** The port is checked with a line in the log only. *)
Definition NewAdminService (cfg : Conf) (metricsHandler : HttpHandler) (svc : AdminServiceHandler C) : HTTPServer :=
  let h2cHandler := h2cNewHandler (muxServe (adminMux C svc metricsHandler)) in
  let handlerWithCORS := withCORS (sv_AllowedOrigins (co_Server cfg)) h2cHandler in
  let port := sv_AdminPort (co_Server cfg) in
  {| hs_Addr := "0.0.0.0:" +:+ pretty port;
     hs_Handler := handlerWithCORS;
     hs_ReadTimeout := 5 * Second;
     hs_ReadHeaderTimeout := 5 * Second;
     hs_WriteTimeout := 5 * Second;
     hs_IdleTimeout := 15 * Second |}.
End servers.

(** The addresses with an open listener, and those that are served. *)
Record netState := mkNetState { ns_listening : list string; ns_serving : list string }.
#[export] Instance netState_eta : Eta netState := fun n => mkNetState (ns_listening n) (ns_serving n).

Section lifecycle.
(** The errors of [Listen] on an address, and of [Shutdown] once its listener is closed. *)
Context (Listen Shutdown : string -> option error).

Definition listen (srv : HTTPServer) : M netState (option error) :=
  match Listen (hs_Addr srv) with
  | Some err => mret (Some err)
  | None => modS (fun n => n <| ns_listening := hs_Addr srv :: ns_listening n |>) ;; mret None
  end.

(** The goroutine that serves a listener. *)
Definition serve (srv : HTTPServer) : M netState unit :=
  modS (fun n => n <| ns_serving := hs_Addr srv :: ns_serving n |>).

Definition shutdown (srv : HTTPServer) : M netState (option error) :=
  modS (fun n => n <| ns_listening := filter (.≠ hs_Addr srv) (ns_listening n) |>
                   <| ns_serving := filter (.≠ hs_Addr srv) (ns_serving n) |>) ;;
  mret (Shutdown (hs_Addr srv)).

(** The hooks of [StartServer]. *)
Definition OnStart (i a : HTTPServer) : M netState (option error) :=
  err ← listen i;
  match err with
  | Some err => mret (Some err)
  | None =>
      err ← listen a;
      match err with
      | Some err => mret (Some err)
      | None => serve i ;; serve a ;; mret None
      end
  end.

Definition OnStop (i a : HTTPServer) : M netState (option error) :=
  err ← shutdown i;
  match err with
  | Some err => mret (Some err)
  | None => shutdown a
  end.
End lifecycle.

(** ** The hooks *)

(** The state the hooks share: the network, the goroutines that were started with
    the context of the loops, and the error of that context. *)
Record process := mkProcess { ps_net : netState; ps_loops : list string; ps_runCtx : option error }.
#[export] Instance process_eta : Eta process := fun p => mkProcess (ps_net p) (ps_loops p) (ps_runCtx p).

Record Hook := mkHook { hk_OnStart : M process (option error); hk_OnStop : M process (option error) }.

Definition onNet {A} (c : M netState A) : M process A := fun p =>
  match c (ps_net p) with Some (a, n) => Some (a, p <| ps_net := n |>) | None => None end.

(** [go f] of a loop under the context. *)
Definition goLoop (name : string) : M process unit := modS (fun p => p <| ps_loops := ps_loops p ++ [name] |>).

(** [cancel()]; the first cancellation counts. *)
Definition cancelRun : M process unit :=
  modS (fun p => p <| ps_runCtx := match ps_runCtx p with Some err => Some err | None => Some ContextCanceled end |>).

Section hooks.
Context (Listen Shutdown : string -> option error).

(** The lifecycle with the hook of [StartServer], or of [StartBatchLoop], appended. *)
Definition StartServer (lc : list Hook) (i a : HTTPServer) : list Hook :=
  lc ++ [mkHook (onNet (OnStart Listen i a)) (onNet (OnStop Shutdown i a))].

Definition StartBatchLoop (lc : list Hook) : list Hook :=
  lc ++ [mkHook (goLoop "Batch" ;; goLoop "Consume" ;; mret None) (cancelRun ;; mret None)].

(** What [main] invokes. *)
Definition invoked (i a : HTTPServer) : list Hook := StartBatchLoop (StartServer [] i a).
End hooks.

(** ** The program *)

Definition newBlockRegistry (executors : executorManager) : option (error + registry) :=
  NewRegistry (Some <$> runtimeStates executors).

Record app := mkApp { ap_engine : engine; ap_inference : HTTPServer; ap_admin : HTTPServer }.

Section app.
Context (readConfig : string -> error + string) (newQwen : string -> error + gotokenizer).
Context (connect : ExecutorConf -> nat -> error + ExecutorStats).
Context (C : connectrpc) (h2cNewHandler : HttpHandler -> HttpHandler) (metricsHandler : HttpHandler).
Context (inferenceService : InferenceServiceHandler C) (adminService : AdminServiceHandler C).
Context (now : Time) (uuids : nat -> string).

(** What [fx.New] builds for [StartServer] and [StartBatchLoop]. *)
Definition newApp (cfg : Conf) : option (error + app) :=
  match NewTokenizer readConfig newQwen (co_Models cfg) with
  | inl err => Some (inl err)
  | inr tokenizer =>
      match NewExecutors connect (co_Executors cfg) with
      | inl err => Some (inl err)
      | inr executors =>
          let manager := NewExecutorManager executors in
          r ← newBlockRegistry manager;
          match r with
          | inl err => Some (inl err)
          | inr reg =>
              let requests := NewRequestLifecycleStateManager reg now uuids in
              let s := NewScheduler (sv_ScheduleConf (co_Server cfg)) manager requests in
              i ← NewLLMServingServer C h2cNewHandler cfg inferenceService;
              let a := NewAdminService C h2cNewHandler cfg metricsHandler adminService in
              Some (inr (mkApp (mkEngine tokenizer s) i a))
          end
      end
  end.
End app.

(** ** The loops [StartBatchLoop] starts *)

(** [time.NewTicker] *)
Definition NewTicker (d : Duration) : option unit := if d <=? 0 then None else Some tt.

(** What the select of the loop takes: the end of the context, the signal, which
    is there when [patchExecuteChan] is filled, or a tick; and, for the round,
    what [Submit] takes. *)
Inductive batchInput :=
| BatchDone
| BatchSignal (ctx : option error) (room_first : bool)
| BatchTick (ctx : option error) (room_first : bool).

Fixpoint batchLoop (inputs : list batchInput) : M scheduler unit :=
  match inputs with
  | [] | BatchDone :: _ => mret tt
  | BatchSignal ctx room_first :: inputs => BatchRound ctx room_first true ;; batchLoop inputs
  | BatchTick ctx room_first :: inputs => BatchRound ctx room_first false ;; batchLoop inputs
  end.

(** The loop; [consumeEvents] runs beside it. *)
Definition Batch_ (inputs : list batchInput) : M scheduler unit :=
  getsO (fun s => NewTicker (sd_scheduleRoundDelay s)) ;; batchLoop inputs.

(** The consumers that [Consume] starts, one for each listed executor. *)
Definition Consume (e : executorManager) : gmap string worker :=
  list_to_map ((fun executorId => (executorId, Idle)) <$> em_executorList e).
