(* ===== verification/ServerProperties.v ===== *)
(** * ServerProperties: the program from start-up on

    What the start-up builds satisfies the invariant of [EngineProperties], so
    that what is proved there of every state the engine can be in holds of the
    program; the loop of the scheduler; the start and stop of the servers. *)

From stdpp Require Import sorting.
From S2P Require Import Prelude Errors Model Metrics FreeQueue BlockManager BlockProperties BlockRegistry StateMachine RequestProperties RequestFrame Executor ExecutorProperties Queues QueueProperties Scheduler SchedulerPick SchedulerProperties Engine EngineRequests EngineSteps GoSha256 Tokenizer Handler EngineProperties Admin Cors Connect ConnectProperties Util Server.
(** ** Start-up *)

(** The fields of the configuration have the ranges of their types. *)
Definition conf_in_range (cfg : ScheduleConf) : Prop :=
  0 <= cf_MaxBatchTokens cfg < two32 /\ 0 <= cf_MaxBatchSeq cfg < two32 /\
  0 <= cf_MaxPartialPrefills cfg < two32 /\ 0 <= cf_MaxLongPartialPrefills cfg < two32.

Lemma Consume_start exs : em_workers (NewExecutorManager exs) = Consume (NewExecutorManager exs).
Proof.
  unfold Consume, NewExecutorManager. cbn. apply map_eq. intros id.
  assert (Hperm : sortStrings (map_to_list exs).*1 ≡ₚ (map_to_list exs).*1) by apply merge_sort_Permutation.
  assert (Hnd : NoDup ((fun executorId => (executorId, Idle)) <$> sortStrings (map_to_list exs).*1).*1).
  { rewrite <- list_fmap_compose. cbn. rewrite list_fmap_id, Hperm. apply NoDup_fst_map_to_list. }
  apply option_eq. intros w. rewrite <- elem_of_list_to_map by done. rewrite lookup_fmap_Some, list_elem_of_fmap.
  setoid_rewrite Hperm. split.
  - intros (ex & <- & Hex). exists id. split; [done|]. apply list_elem_of_fmap. exists (id, ex).
    split; [done|]. by apply elem_of_map_to_list.
  - intros (id' & [= -> ->] & ([id'' ex] & -> & Hex%elem_of_map_to_list)%list_elem_of_fmap). by exists ex.
Qed.

Lemma NewScheduler_queue cfg em rm k e :
  queues k (NewScheduler cfg em rm) !! e =
    if decide (e ∈ ExecutorIDs (sm_registry rm)) then Some (NewQueue (cf_QueueLength cfg)) else None.
Proof.
  assert (H : forall ids : list string, (list_to_map ((fun id => (id, NewQueue (cf_QueueLength cfg))) <$> ids) : gmap string workQueue) !! e =
    if decide (e ∈ ids) then Some (NewQueue (cf_QueueLength cfg)) else None).
  { induction ids as [|id ids IH]; [by rewrite decide_False by apply not_elem_of_nil|]. cbn.
    destruct (decide (id = e)) as [->|Hne]; [rewrite lookup_insert_eq, decide_True by (by left); done|].
    rewrite lookup_insert_ne by done. rewrite IH. repeat case_decide; set_solver. }
  destruct k; apply H.
Qed.

Lemma NewScheduler_queued cfg em rm k e : queued k e (NewScheduler cfg em rm) = [].
Proof. unfold queued. rewrite NewScheduler_queue. by case_decide. Qed.

Lemma concat_nil {A B} (f : A -> list B) l : (forall x, f x = []) -> concat (f <$> l) = [].
Proof. intros Hf. induction l as [|x l IH]; [done|]. cbn. by rewrite Hf, IH. Qed.

(** Nothing is under way in a new engine. *)
Lemma tokens_start cfg exs rm : tokens (NewScheduler cfg (NewExecutorManager exs) rm) = [].
Proof.
  unfold tokens. cbn [sd_executorManager NewScheduler NewExecutorManager em_eventChan]. rewrite app_nil_r.
  apply concat_nil. intros e. unfold executorTokens, queueTokens. rewrite !NewScheduler_queued.
  unfold chanTokens, workerTokens. cbn. rewrite !lookup_fmap. by destruct (exs !! e).
Qed.

Section start.
Context (cfg : ScheduleConf) (exs : gmap string executor) (reg : registry) (now : Time) (uuids : nat -> string).
Context (Hcfg : conf_in_range cfg) (Huuids : Inj (=) (=) uuids).
Context (HR : RegOK reg) (Hpt : r_pendingTransfers reg = ∅).
Context (Hnew : forall e m, r_managers reg !! e = Some m -> newborn m).
Context (Hnd : NoDup (ExecutorIDs reg)) (Hids : forall e, e ∈ ExecutorIDs reg <-> is_Some (exs !! e)).

Let rm := NewRequestLifecycleStateManager reg now uuids.

Lemma start_roomy e : roomy rm e.
Proof.
  intros m Hm. destruct (Hnew e m Hm) as (_ & Hrb & _ & Hlen). change (sm_registry rm) with reg. rewrite Hpt.
  unfold slack, refs_of. rewrite Hrb. change (pinsOf e ∅ ++ tab ∅) with ([] : list Z).
  assert (dups [] = 0) as -> by done. unfold two31, two32 in *. lia.
Qed.

Lemma start_flow : Flow (NewScheduler cfg (NewExecutorManager exs) rm) [].
Proof.
  split.
  - apply new_smok; [done|]. intros e m Hm. by destruct (Hnew e m Hm) as (_ & ? & _).
  - split; try done.
    + intros k e. rewrite NewScheduler_queue. change (sm_registry rm) with reg. cbn.
      case_decide; [split; [done|by eexists]|split; [by intros [? ?]|done]].
    + intros e. cbn. rewrite lookup_fmap, fmap_is_Some. by rewrite Hids.
    + intros e. cbn. rewrite lookup_fmap, fmap_is_Some. by rewrite Hids.
    + intros k e w. rewrite NewScheduler_queued. by intros ?%not_elem_of_nil.
  - apply start_roomy.
  - constructor.
  - rewrite tokens_start. cbn. split; try constructor. intros id req. cbn. by rewrite lookup_empty.
Qed.
End start.

(** ** The program *)

Section program.
Context (readConfig : string -> error + string) (newQwen : string -> error + gotokenizer).
Context (connect : ExecutorConf -> nat -> error + ExecutorStats).
Context (C : connectrpc) (h2cNewHandler : HttpHandler -> HttpHandler) (metricsHandler : HttpHandler).
Context (inferenceService : InferenceServiceHandler C) (adminService : AdminServiceHandler C).
Context (now : Time) (uuids : nat -> string) (cfg : Conf).

Let start := newApp readConfig newQwen connect C h2cNewHandler metricsHandler inferenceService adminService now uuids cfg.

(** What is known of the configuration and of the runtimes the executors report:
    the ranges of their fields.  UUIDs are distinct. *)
Context (Hcfg : conf_in_range (sv_ScheduleConf (co_Server cfg))).
Context (Hconnect : forall ec i rt, connect ec i = inr rt -> in_range (Some rt)).
Context (Huuids : Inj (=) (=) uuids).

(** The registry of the executors of the configuration. *)
Lemma registry_start exs : NewExecutors connect (co_Executors cfg) = inr exs ->
  exists res, newBlockRegistry (NewExecutorManager exs) = Some res /\
    match res with
    | inl _ => True
    | inr r => RegOK r /\ r_pendingTransfers r = ∅ /\ (forall e m, r_managers r !! e = Some m -> newborn m) /\
        NoDup (ExecutorIDs r) /\ Sorted string_le (ExecutorIDs r) /\
        (forall e, e ∈ ExecutorIDs r <-> is_Some (exs !! e))
    end.
Proof.
  intros Hexs. unfold newBlockRegistry. rewrite runtimeStates_spec.
  2: { cbn. intros id ex Hex. by apply (NewExecutors_id connect (co_Executors cfg) exs). }
  cbn [em_executors NewExecutorManager].
  destruct (new_registry_spec (Some <$> (ex_runtime <$> exs))) as (res & Hres & H).
  { intros e o. rewrite !lookup_fmap. destruct (exs !! e) as [ex|] eqn:Hex; [|done]. intros [= <-].
    destruct (NewExecutors_id _ _ _ _ _ Hexs Hex) as (_ & ec & _ & i & _ & Hi & _). by eapply Hconnect. }
  exists res. split; [exact Hres|]. destruct res as [err|r]; [done|].
  destruct H as (_ & _ & HR & Hpt & Hnew & _ & Hnd & Hsort & Hids). ssplit; try done.
  intros e. rewrite Hids, !lookup_fmap, !fmap_is_Some. done.
Qed.

Lemma start_spec :
  match start with
  | None => exists err, ExtractPortNumber (sv_Address (co_Server cfg)) = inl err
  | Some (inl _) => True
  | Some (inr a) => EngineOK (ap_engine a) /\
      (forall e, e ∈ sd_executorIDs (en_scheduler (ap_engine a)) <-> e ∈ (ec_ExecutorID <$> co_Executors cfg)) /\
      sd_scheduleRoundDelay (en_scheduler (ap_engine a)) = ScheduleDelay (sv_ScheduleConf (co_Server cfg))
  end.
Proof.
  unfold start, newApp. destruct (NewTokenizer _ _ _) as [|tok]; [done|].
  destruct (NewExecutors connect (co_Executors cfg)) as [|exs] eqn:Hexs; [done|].
  destruct (registry_start exs Hexs) as (res & -> & Hres). cbn [mbind option_bind].
  destruct res as [|reg]; [done|]. destruct Hres as (HR & Hpt & Hnew & Hnd & _ & Hids).
  unfold NewLLMServingServer.
  destruct (ExtractPortNumber _) as [err|port]; cbn [mbind option_bind]; [by exists err|].
  split; [by apply start_flow|]. split; [|done]. cbn. intros e. rewrite Hids.
  destruct (proj1 (NewExecutors_spec _ _ _) Hexs) as (_ & _ & es & Hes & ->). rewrite list_elem_of_fmap. split.
  - intros [ex Hex]. apply (NewExecutors_lookup connect (co_Executors cfg)) in Hex as (ec & rt & Hin & -> & _); [by exists ec|done].
  - intros (ec & -> & Hin). destruct (elem_zip ec_ExecutorID _ _ _ _ Hes Hin) as (ex & Hacc & _).
    apply accepted_spec in Hacc as (_ & _ & rt & Hans & _). exists (mkExecutor (ec_ExecutorID ec) rt (ec_Address ec)).
    apply (NewExecutors_lookup connect (co_Executors cfg) _ _ _ Hexs). by exists ec, rt.
Qed.

(** C16: Start-up yields an engine in order.  Whatever the configuration says, within
    the ranges of its fields, and whatever the executors report, the program
    either stops with an error of a constructor, or panics because the serving
    address has no valid port, or comes up with the invariant of the engine
    established; then it schedules for exactly the configured executors, and its
    rounds come at the configured delay in milliseconds, wrapped to 64 bits. *)
Theorem start_up :
  match start with
  | None => exists err, ExtractPortNumber (sv_Address (co_Server cfg)) = inl err
  | Some (inl _) => True
  | Some (inr a) => EngineOK (ap_engine a) /\
      (forall e, e ∈ sd_executorIDs (en_scheduler (ap_engine a)) <-> e ∈ (ec_ExecutorID <$> co_Executors cfg)) /\
      sd_scheduleRoundDelay (en_scheduler (ap_engine a)) = ScheduleDelay (sv_ScheduleConf (co_Server cfg))
  end.
Proof. exact start_spec. Qed.

Lemma started_ok a e : start = Some (inr a) -> served (ap_engine a) e -> EngineOK e.
Proof. intros Ha. apply served_ok. pose proof start_spec as H. rewrite Ha in H. apply H. Qed.



End program.

(** ** The loop of the scheduler *)

Lemma batchLoop_flow inputs s : Flow s [] -> wp (batchLoop inputs) (fun _ s' => Flow s' []) s.
Proof.
  revert s. induction inputs as [|[|ctx rf|ctx rf] inputs IH]; intros s HF; cbn [batchLoop]; wp_steps; try done;
    (wp_use (BatchRound_flow ctx rf); [exact HF|]); intros _ s' [_ HF']; by apply IH.
Qed.

(** The scheduler's loop.  With a delay of zero or less, which the
    configuration may give, it panics at once; otherwise it runs its rounds,
    whatever signals and ticks come, without a panic, and keeps the engine in
    order. *)
Theorem batch_loop inputs s (HF : Flow s []) :
  if sd_scheduleRoundDelay s <=? 0 then Batch_ inputs s = None
  else wp (Batch_ inputs) (fun _ s' => Flow s' []) s.
Proof.
  unfold Batch_, NewTicker. destruct (sd_scheduleRoundDelay s <=? 0) eqn:Hd.
  - unfold mbind, M_bind, getsO. by rewrite Hd.
  - wp_steps. eapply wp_getsO; [by rewrite Hd|]. by apply batchLoop_flow.
Qed.

(** ** The servers *)

(** Starting and stopping the servers.  [OnStart] succeeds when both addresses
    can be listened on, and then both are served; it fails with the error of the
    first that cannot, but when that is the admin address, the inference
    listener stays open though nothing serves it.  [OnStop] closes the inference
    server and then the admin server, which stays open when the shutdown of the
    inference server fails. *)
Theorem server_lifecycle Listen Shutdown i a n :
  let iAddr := hs_Addr i in let aAddr := hs_Addr a in
  OnStart Listen i a n = Some (
    match Listen iAddr, Listen aAddr with
    | Some err, _ => (Some err, n)
    | None, Some err => (Some err, n <| ns_listening := iAddr :: ns_listening n |>)
    | None, None => (None, n <| ns_listening := aAddr :: iAddr :: ns_listening n |>
                             <| ns_serving := aAddr :: iAddr :: ns_serving n |>)
    end) /\
  exists n', OnStop Shutdown i a n = Some (
      match Shutdown iAddr with Some err => Some err | None => Shutdown aAddr end, n') /\
    iAddr ∉ ns_listening n' /\ iAddr ∉ ns_serving n' /\
    (Shutdown iAddr = None -> aAddr ∉ ns_listening n' /\ aAddr ∉ ns_serving n') /\
    (is_Some (Shutdown iAddr) -> aAddr <> iAddr -> aAddr ∈ ns_serving n -> aAddr ∈ ns_serving n').
Proof.
  intros iAddr aAddr. split.
  - unfold OnStart, listen, serve, mbind, M_bind, mret, M_ret, modS. fold iAddr aAddr.
    destruct (Listen iAddr); [done|]. cbn. fold aAddr. by destruct (Listen aAddr).
  - unfold OnStop, shutdown, mbind, M_bind, mret, M_ret, modS. fold iAddr aAddr. cbn. fold iAddr.
    destruct (Shutdown iAddr) as [err|]; cbn; fold aAddr; eexists; (split; [reflexivity|]); cbn;
      rewrite !list_elem_of_filter; ssplit; try tauto; try done; intros [? [=]].
Qed.

(** The hooks of the program, started in the order they are invoked and stopped in
    the opposite order.  When both addresses can be listened on, both servers are
    served and the two loops run; stopping then cancels the loops and, whatever
    the shutdown of the servers answers, the inference server is closed. *)
Theorem hooks_start_stop Listen Shutdown i a p (Hi : Listen (hs_Addr i) = None) (Ha : Listen (hs_Addr a) = None) :
  exists h1 h2 p1 p2, invoked Listen Shutdown i a = [h1; h2] /\
    (hk_OnStart h1 ;; hk_OnStart h2) p = Some (None, p1) /\
    ps_loops p1 = ps_loops p ++ ["Batch"; "Consume"] /\ ps_runCtx p1 = ps_runCtx p /\
    hs_Addr i ∈ ns_serving (ps_net p1) /\ hs_Addr a ∈ ns_serving (ps_net p1) /\
    (hk_OnStop h2 ;; hk_OnStop h1) p1 =
      Some (match Shutdown (hs_Addr i) with Some err => Some err | None => Shutdown (hs_Addr a) end, p2) /\
    is_Some (ps_runCtx p2) /\ hs_Addr i ∉ ns_serving (ps_net p2) /\
    (Shutdown (hs_Addr i) = None -> hs_Addr a ∉ ns_serving (ps_net p2)).
Proof.
  destruct (server_lifecycle Listen Shutdown i a (ps_net p)) as [Hstart _]. rewrite Hi, Ha in Hstart.
  set (n1 := setf ns_serving _ _) in Hstart.
  destruct (server_lifecycle Listen Shutdown i a n1) as (_ & n2 & Hstop & _ & Hgone & Hboth & _).
  set (p1 := p <| ps_net := n1 |> <| ps_loops := (ps_loops p ++ ["Batch"]) ++ ["Consume"] |>).
  set (p2 := p1 <| ps_runCtx := match ps_runCtx p with Some err => Some err | None => Some ContextCanceled end |> <| ps_net := n2 |>).
  eexists _, _, p1, p2. split; [reflexivity|]. split.
  { cbn [hk_OnStart]. unfold onNet, goLoop, mbind, M_bind, modS, mret, M_ret. rewrite Hstart. reflexivity. }
  split; [cbn; by rewrite <- app_assoc|]. split; [done|]. split; [by right; left|]. split; [by left|]. split.
  { cbn [hk_OnStop]. unfold onNet, cancelRun, mbind, M_bind, modS, mret, M_ret. cbn -[OnStop]. rewrite Hstop. reflexivity. }
  split; [cbn; destruct (ps_runCtx p); by eexists|]. split; [done|]. intros H. by apply Hboth.
Qed.
