(* ===== verification/HandlerExamples.v ===== *)
(** * HandlerExamples: one request through the service

    A service over one executor and the mock tokenizer opens a stream for the
    prompt "hello world"; a decode event and the last one are published.  The
    witnesses of the theorems of Handler and TransportProperties. *)

From S2P Require Import Prelude Errors Model Metrics FreeQueue GoSha256 BlockManager BlockProperties BlockExamples BlockRegistry StateMachine RequestProperties RequestRuns RequestExamples RequestFrame Executor ExecutorExamples Queues QueueProperties Scheduler SchedulerPick SchedulerProperties SchedulerExamples Tokenizer Handler Transport TransportProperties.

Definition wire0 : GenerateRequest := mkGenerateRequest "r0" "" "mock" "hello world" 4 1000 ∅.
Definition tok0 : tokenizer := mkTokenizer (<[MockModel := MockTokenizer newMockTokenizer]> ∅).
Definition engine0 : engine := mkEngine tok0 (NewScheduler cfg0 em0 sm0).
Definition svc0 : service := mkService engine0 [].

Definition request0 : Request :=
  match ProtoMsgToModel 1 wire0 with inr req => req | inl _ => req0 end.
Definition tokensOf (r : option ((error + list Z) * tokenizer)) : list Z :=
  match r with Some (inr tokens, _) => tokens | _ => [] end.

Lemma request0_eq : ProtoMsgToModel 1 wire0 = inr request0.
Proof. reflexivity. Qed.

Lemma two_tokens : len (tokensOf (Encode (req_ModelID request0) (req_Prompt request0) (en_tokenizer engine0))) = 2.
Proof. by vm_compute. Qed.

Lemma tokensOf_eq r tokens t' n : r = Some (inr tokens, t') -> len (tokensOf r) = n -> len tokens = n.
Proof. by intros ->. Qed.

Lemma wired0 : wired (en_scheduler engine0).
Proof. apply wired_new. Qed.

Lemma ids0 : sd_executorIDs (en_scheduler engine0) = ["e0"].
Proof. by vm_compute. Qed.

Lemma lengths0 k ex q : queues k (en_scheduler engine0) !! ex = Some q -> len (wq_works q) < two32.
Proof.
  assert (H : queues k (en_scheduler engine0) = <["e0" := NewQueue 2]> ∅) by (destruct k; by vm_compute).
  rewrite H. by intros [[<- <-]|[_ E]]%lookup_insert_Some; [|rewrite lookup_empty in E].
Qed.

(** Two tokens fit the executor of the examples. *)
Lemma room_two req : len (req_TokenIDs req) = 2 -> room reg1 req.
Proof.
  intros Hl. split; rewrite Hl; [done|]. intros e m. cbn [r_managers reg1].
  intros [[_ <-]|[_ E]]%lookup_insert_Some; [by vm_compute|by rewrite lookup_empty in E].
Qed.

Lemma room0 tokens t' : Encode (req_ModelID request0) (req_Prompt request0) (en_tokenizer engine0) = Some (inr tokens, t') ->
  room (sm_registry (requestsOf engine0)) (tokenized request0 tokens).
Proof.
  intros H. exact (room_two (tokenized request0 tokens) (tokensOf_eq _ _ _ _ H two_tokens)).
Qed.

Lemma open_stream_all_or_nothing_witness :
  wp (openStream request0) (fun res e' => match res with
    | inr st => sm_channels (requestsOf e') !! st_eventCh st = Some (mkChannel [] false)
    | inl _ => sm_requests (requestsOf e') = sm_requests (requestsOf engine0) end) engine0.
Proof.
  eapply wp_mono; [exact (open_stream_all_or_nothing engine0 request0 sm0_ok wired0
    ltac:(rewrite ids0; by intros [?|?%elem_of_nil]%elem_of_cons) lengths0 room0)|].
  intros [err|st] e'.
  - by intros [[H _] _].
  - by intros (tokens & t' & _ & _ & _ & _ & H & _).
Defined.

(** ** The stream opened *)

Definition streamOf (r : option ((error + stream) * service)) : option (stream * service) :=
  match r with Some (inr st, s) => Some (st, s) | _ => None end.

Lemma opened0_some : (if streamOf (openRequest 1 wire0 svc0) then true else false) = true.
Proof. by vm_compute. Qed.

(** An opened request leaves a fresh stream and a consistent request manager. *)
Lemma openRequest_fresh now wire req s :
  ProtoMsgToModel now wire = inr req ->
  wp (openStream req) (fun res e' => SMOK (requestsOf e') /\
    match res with inr st => st_out st = [] /\ st_running st = true /\ st_outClosed st = false | inl _ => True end)
    (sv_engine s) ->
  (if streamOf (openRequest now wire s) then true else false) = true ->
  exists st s1, openRequest now wire s = Some (inr st, s1) /\
    (st_out st = [] /\ st_running st = true /\ st_outClosed st = false) /\ SMOK (requestsOf (sv_engine s1)).
Proof.
  intros Hreq Hwp. unfold openRequest. rewrite Hreq. unfold onEngine, wp in *.
  destruct (openStream req (sv_engine s)) as [[[err|st] e']|]; cbn; try done.
  intros _. destruct Hwp as [HS Hst]. by eexists _, _.
Qed.

Lemma opened0 : exists st s1, openRequest 1 wire0 svc0 = Some (inr st, s1) /\
  (st_out st = [] /\ st_running st = true /\ st_outClosed st = false) /\ SMOK (requestsOf (sv_engine s1)).
Proof.
  apply (openRequest_fresh 1 wire0 request0 svc0 request0_eq); [|exact opened0_some].
  eapply wp_mono; [exact (openStream_spec engine0 request0 sm0_ok wired0
    ltac:(rewrite ids0; by intros [?|?%elem_of_nil]%elem_of_cons) lengths0 room0)|].
  intros [err|st] e' [HS H]; (split; [exact HS|]); [done|].
  destruct H as (tokens & t' & _ & -> & _). done.
Qed.

Definition last1 : Event := token1 <| ev_Done := true |> <| ev_FinishReason := FinishReasonLength |>.
Definition msg1 : GenerateOutput := newOutput "r0" <| go_DeltaText := "a" |> <| go_ExecutorId := "e0" |>.
Definition msg2 : GenerateOutput := msg1 <| go_DeltaText := "b" |> <| go_Done := true |>.
Definition inputs0 : list chanInput := [Output 10 msg1 None; Output 17 msg2 None].

Lemma times0 : Forall (fun t => t <> 0) (tokenTimes inputs0).
Proof. by repeat constructor. Qed.

(** ** Witnesses *)

Lemma generate_collects_witness : exists resp s2,
  Generate 1 1 wire0 inputs0 20 svc0 = Some (Some (inr resp), s2) /\ gs_OutputText resp = "ab" /\
  sv_metrics s2 = [ObserveTTFT 9; ObserveTBT 7; ObserveRequestDuration 19; IncRequest "ok" "e0"].
Proof.
  destruct opened0 as (st & s1 & Hopen & _).
  pose proof (generate_collects 1 1 wire0 inputs0 20 svc0 (inr st) s1 Hopen times0) as H.
  eexists _, _. split; [exact H|]. by split.
Defined.

Lemma stream_forwards_witness : exists s2,
  GenerateStream 1 1 wire0 (inputs0 ++ [OutClosed]) 20 svc0 =
    Some (([ModelToProtoMsgStream msg1; ModelToProtoMsgStream msg2], Some (inr tt)), s2).
Proof.
  destruct opened0 as (st & s1 & Hopen & _).
  pose proof (stream_forwards 1 1 wire0 (inputs0 ++ [OutClosed]) 20 svc0 (inr st) s1 Hopen times0) as H.
  eexists. exact H.
Defined.

Lemma answer_end_to_end_witness : exists st s1 st' e'' resp s2,
  openRequest 1 wire0 svc0 = Some (inr st, s1) /\
  streamRun (Received <$> [chunk1; token1] ++ [last1]) st (sv_engine s1) = Some (st', e'') /\
  Generate 1 1 wire0 (reads [10; 17] st') 20 svc0 = Some (Some (inr resp), s2) /\
  gs_RequestId resp = "r0" /\ gs_FinishReason resp = FinishReasonLength.
Proof.
  destruct opened0 as (st & s1 & Hopen & Hfresh & HS).
  assert (Hevs : Forall (fun ev => ev_Done ev = false) [chunk1; token1]) by (by repeat constructor).
  assert (Htok : ev_Type last1 <> EventTypePrefillChunk) by done.
  destruct (handled_finished [chunk1; token1] last1 Hevs eq_refl Htok) as [Hf _].
  pose proof (streamRun_spec (sv_engine s1) st (Received <$> [chunk1; token1] ++ [last1]) HS (proj1 (proj2 Hfresh)) (proj2 (proj2 Hfresh))) as Hrun.
  apply wp_run in Hrun as (st' & e'' & Hrun & Hout & _).
  assert (Hlen : length [10; 17] = length (st_out st')).
  { rewrite Hout, (proj1 Hfresh), Hf, length_app, length_fmap. reflexivity. }
  assert (Ht : Forall (fun t => t <> 0) [10; 17]) by (by repeat constructor).
  destruct (answer_end_to_end 1 1 wire0 20 svc0 st s1 [chunk1; token1] last1 [10; 17] e'' st'
    Hopen Hfresh HS Hevs eq_refl Htok Hrun Ht Hlen) as (_ & resp & s2 & HG & _ & Hid & Hfin & _).
  exists st, s1, st', e'', resp, s2. ssplit; [exact Hopen|exact Hrun|exact HG|exact Hid|exact Hfin].
Defined.
