(* ===== verification/ServerExamples.v ===== *)
(** * ServerExamples: the program on one executor

    The program comes up from a configuration with one executor and the mock
    tokenizer, and opens a stream for the prompt "hello world".  The witnesses of
    the theorems of ServerProperties and ConnectProperties. *)

From S2P Require Import Prelude Errors Model Metrics FreeQueue GoSha256 BlockManager BlockProperties BlockExamples BlockRegistry Placement TransferExamples StateMachine RequestProperties RequestFrame Executor ExecutorProperties Queues QueueProperties Scheduler SchedulerPick SchedulerProperties SchedulerExamples Engine EngineRequests EngineSteps Tokenizer Handler EngineProperties Transport HandlerExamples Admin Cors Connect ConnectProperties Util Server ServerProperties.

Definition conf0 : Conf := mkConf
  (mkServerConf "127.0.0.1:8080" 9090 ["http://localhost:3000"] (mkScheduleConf 16 8 64 8 2 1 5)) []
  [mkExecutorConf "e0" ["http://127.0.0.1:19991"] 1000].

Definition connect0 (ec : ExecutorConf) (i : nat) : error + ExecutorStats := inr (stats (ec_ExecutorID ec) 7).

(** A library whose clients are their URLs and schemas. *)
Definition rpc0 : connectrpc := mkConnectrpc (string * Schema) pair (fun _ _ _ _ => (None, None))
  (fun _ _ _ _ => (None, None)) unit (fun _ _ _ _ w => w) (fun _ _ _ _ w => w).

Definition uuids0 (i : nat) : string := pretty (N.of_nat i).

Definition readConfig0 (path : string) : error + string := inr "mock".
Definition newQwen0 (path : string) : error + gotokenizer := inl (TextError "no files").
Definition inference0 : InferenceServiceHandler rpc0 := mkInferenceServiceHandler rpc0 tt tt.
Definition admin0 : AdminServiceHandler rpc0 := mkAdminServiceHandler rpc0 tt tt tt.

Definition start0 : option (error + app) :=
  newApp readConfig0 newQwen0 connect0 rpc0 id NotFound inference0 admin0 0 uuids0 conf0.

Lemma conf0_range : conf_in_range (sv_ScheduleConf (co_Server conf0)).
Proof. by vm_compute. Qed.

Lemma connect0_range ec i rt : connect0 ec i = inr rt -> in_range (Some rt).
Proof. intros [= <-] r [= <-]. by vm_compute. Qed.

Lemma uuids0_inj : Inj (=) (=) uuids0.
Proof. intros i j H. apply (inj pretty) in H. lia. Qed.

(** What a computation says of the program that comes up. *)
Lemma started (f : app -> bool) :
  (match start0 with Some (inr a) => f a | _ => false end) = true -> exists a, start0 = Some (inr a) /\ f a = true.
Proof. destruct start0 as [[err|a]|]; [done| |done]. intros H. by exists a. Qed.

(** ** The stream opened *)

Definition spaciousb (e : engine) (n : Z) : bool :=
  forallb (fun em => slack em.2 (pinsOf em.1 (r_pendingTransfers (sm_registry (requestsOf e)))) + n / m_blockSize em.2 <? two32)
    (map_to_list (r_managers (sm_registry (requestsOf e)))).

Definition admissibleb (e : engine) (req : Request) : bool :=
  match workOf e, Encode (req_ModelID req) (req_Prompt req) (en_tokenizer e) with
  | [], Some (inr (t :: ts), _) => (len (t :: ts) <? two32) && spaciousb e (len (t :: ts))
  | _, _ => false
  end.

Lemma admissibleb_spec e req : admissibleb e req = true -> admissible e req.
Proof.
  unfold admissibleb. destruct (workOf e) eqn:Hw; [|done].
  destruct (Encode _ _ _) as [[[err|[|t ts]] t']|] eqn:He; [done|done| |done].
  intros [Hl Hs]%andb_prop. split.
  - right. rewrite Hw. apply not_elem_of_nil.
  - intros tokens t'' E. rewrite He in E. injection E as <- <-. split; [done|]. split; [cbn [req_TokenIDs tokenized setf]; lia|].
    intros e0 m Hm. unfold spaciousb in Hs. rewrite forallb_forall in Hs.
    specialize (Hs (e0, m)). cbn [fst snd] in Hs. apply Z.ltb_lt, Hs.
    by apply list_elem_of_In, elem_of_map_to_list.
Qed.

Definition liveb (e : engine) (id : string) : bool :=
  match sm_requests (requestsOf e) !! id with Some req => negb (terminal (req_Phase req)) | None => false end.

Lemma opened1 : exists a, start0 = Some (inr a) /\
  (admissibleb (ap_engine a) request0 &&
   match perform (AOpen request0) (ap_engine a) with
   | Some (_, e1) => liveb e1 "r0" && bool_decide ("e0" ∈ sd_executorIDs (en_scheduler e1)) | None => false end) = true.
Proof. apply started. by vm_compute. Qed.


(** The state after the request was opened. *)
Lemma served1 : exists a e1, start0 = Some (inr a) /\ served (ap_engine a) e1 /\ liveb e1 "r0" = true /\
  "e0" ∈ sd_executorIDs (en_scheduler e1).
Proof.
  destruct opened1 as (a & Ha & [Hadm H]%andb_prop). exists a.
  destruct (perform (AOpen request0) (ap_engine a)) as [[[] e1]|] eqn:Hp; [|done]. exists e1.
  apply andb_prop in H as [Hl Hx%bool_decide_eq_true]. split; [exact Ha|]. split; [|exact (conj Hl Hx)].
  apply (serve_step _ (AOpen request0) (ap_engine a)); [constructor|exact (admissibleb_spec _ _ Hadm)|exact Hp].
Qed.



Lemma start_up_witness : exists a, start0 = Some (inr a) /\ EngineOK (ap_engine a) /\
  sd_scheduleRoundDelay (en_scheduler (ap_engine a)) = 5000000.
Proof.
  destruct opened1 as (a & Ha & _). exists a. split; [done|].
  pose proof (start_up readConfig0 newQwen0 connect0 rpc0 id NotFound inference0 admin0 0 uuids0 conf0 conf0_range connect0_range uuids0_inj) as H. fold start0 in H. rewrite Ha in H. destruct H as (H & _ & ->). by split.
Defined.

Lemma started0 : exists a, start0 = Some (inr a) /\ EngineOK (ap_engine a) /\
  sd_scheduleRoundDelay (en_scheduler (ap_engine a)) = 5000000.
Proof.
  destruct opened1 as (a & Ha & _). exists a. split; [done|].
  pose proof (start_spec readConfig0 newQwen0 connect0 rpc0 id NotFound inference0 admin0 0 uuids0 conf0 conf0_range
    connect0_range uuids0_inj) as H. fold start0 in H. rewrite Ha in H. destruct H as (H & _ & ->). by split.
Qed.

(** A configuration without a delay stops the scheduler. *)
Lemma batch_loop_witness : exists a, start0 = Some (inr a) /\
  wp (Batch_ [BatchTick None true; BatchSignal None true]) (fun _ s' => Flow s' []) (en_scheduler (ap_engine a)).
Proof.
  destruct started0 as (a & Ha & HF & Hd). exists a. split; [exact Ha|].
  pose proof (batch_loop [BatchTick None true; BatchSignal None true] (en_scheduler (ap_engine a)) HF) as H.
  rewrite Hd in H. exact H.
Defined.


(** ** A request id used again

    The request "r0" is cancelled while its item is executed, and a request with
    the same id is opened before the event comes back. *)

(** The consumer of "e0" goes on by one piece, each item answered. *)
Definition answer0 (w : WorkItem) : ExecuteResult :=
  mkExecuteResult (wi_WorkId w) (wi_RequestId w) 5 false FinishReasonUnspecified (wi_NumNewTokens w) 0 1 "".

Definition consumer0 : M engine unit :=
  e ← getS;
  match workerOf e "e0", batchesOf e "e0" with
  | Some Idle, Some (batch :: rest) => perform (ATake "e0" batch rest)
  | Some (Running batch), _ => perform (AOutcome "e0" batch (inr (answer0 <$> bt_Items batch)) 0)
  | Some (Sending (event :: events)), _ => perform (ASend "e0" event events)
  | Some (Sending []), _ => perform (ADone "e0")
  | _, _ => mret tt
  end.

Definition reuse0 : M engine unit :=
  perform (AOpen request0) ;;
  perform (ABatch None true false) ;;
  consumer0 ;;
  perform (AStream ContextDone (mkStream "mock" "r0" 0 [] false true)) ;;
  perform (AOpen request0) ;;
  consumer0 ;; consumer0 ;;
  perform AEvent.


(** ** A prompt of no tokens *)

(** A program with a tokenizer that has no token for the empty text. *)
Definition qwen0 : gotokenizer := mkGotokenizer
  (fun text => inr (if String.eqb text "" then [] else [7])) (fun _ => inr "x").
Definition start1 : option (error + app) :=
  newApp (fun _ => inr "qwen3") (fun _ => inr qwen0) connect0 rpc0 id NotFound inference0 admin0 0 uuids0
    (mkConf (co_Server conf0) [mkModelConf "qwen3" "models"] (co_Executors conf0)).

Definition empty0 : Request := request0 <| req_ModelID := Qwen3Model |> <| req_Prompt := "" |>.

Definition unsendable (batch : Batch) : bool := match BatchToExecute 0 batch with None => true | Some _ => false end.

Lemma unsendable_panics id batch resp now e : unsendable batch = true -> perform (AOutcome id batch resp now) e = None.
Proof.
  unfold unsendable. intros Hu.
  assert (Hn : forall epoch, BatchToExecute epoch batch = None).
  { intros epoch. apply eq_None_not_Some. intros Hs%BatchToExecute_is_Some. apply (BatchToExecute_is_Some 0) in Hs as [x Hx].
    by rewrite Hx in Hu. }
  unfold perform, onConsumer, onScheduler, onExecutors, consumeOutcome, runOutcome, mbind, M_bind, getsO.
  destruct (em_executors _ !! id) as [m|]; cbn; [|done]. unfold outcome, Execute. by rewrite Hn.
Qed.

Definition emptyRun : M engine unit :=
  perform (AOpen empty0) ;; perform (ABatch None true false) ;; consumer0.

