(* ===== verification/LivenessExamples.v ===== *)
(** * LivenessExamples: two requests and four blocks

    The program of ServerExamples, whose executor has four blocks of two tokens,
    with one and with two requests; the witnesses of the theorems of
    EngineLiveness. *)

From stdpp Require Import relations.
From S2P Require Import Prelude Errors Model Metrics FreeQueue GoSha256 BlockManager BlockProperties BlockExamples BlockRegistry Placement TransferExamples StateMachine RequestProperties RequestFrame Executor ExecutorProperties Queues QueueProperties Scheduler SchedulerPick SchedulerProperties SchedulerExamples Engine EngineRequests EngineSteps EngineLoad Tokenizer Handler EngineProperties EngineTermination EngineProgress EngineDrain Transport HandlerExamples Admin Cors Connect ConnectProperties Util Server ServerProperties EngineLiveness ServerExamples.
(** ** Answers *)

(** One token for each item. *)
Definition oneToken (w : WorkItem) : ExecuteResult :=
  mkExecuteResult (wi_WorkId w) (wi_RequestId w) 5 false FinishReasonUnspecified (wi_NumNewTokens w) 1 1 "".

Definition runtime0 (id : string) (batch : Batch) : error + list ExecuteResult := inr (oneToken <$> bt_Items batch).

Lemma runtime0_answers : answers runtime0.
Proof.
  intros id batch. unfold runtime0. split.
  - exists (bt_Items batch). split; [done|]. induction (bt_Items batch) as [|w items IH]; [constructor|].
    cbn. constructor; [by repeat split|exact IH].
  - intros r w Hr _ _ _ _. apply list_elem_of_fmap in Hr as (w' & -> & _). done.
Qed.

(** ** Runs *)

(** The next step of the consumer of "e0". *)
Definition consumerStep : M engine unit :=
  e ← getS;
  match workerOf e "e0", batchesOf e "e0" with
  | Some Idle, Some (batch :: rest) => perform (ATake "e0" batch rest)
  | Some (Running batch), _ => perform (AOutcome "e0" batch (runtime0 "e0" batch) 0)
  | Some (Sending (event :: events)), _ => perform (ASend "e0" event events)
  | Some (Sending []), _ => perform (ADone "e0")
  | _, _ => mret tt
  end.

Fixpoint times (n : nat) (c : M engine unit) : M engine unit :=
  match n with O => mret tt | S n => c ;; times n c end.

(** A batch is picked, executed and its events handled. *)
Definition roundTrip : M engine unit :=
  perform (ABatch None true false) ;; times 5 consumerStep ;; times 2 (perform AEvent).

Definition request1 : Request := request0 <| req_RequestId := "r1" |> <| req_CacheSalt := "request:r1" |>.

Definition phaseOf (e : engine) (id : string) : option RequestPhase := req_Phase <$> sm_requests (requestsOf e) !! id.

(** The state [c] leads to from a start. *)
Definition reachFrom (start : option (error + app)) (c : M engine unit) : option engine :=
  match start with
  | Some (inr a) => match c (ap_engine a) with Some (_, e) => Some e | None => None end
  | _ => None
  end.
Definition reach (c : M engine unit) : option engine := reachFrom start0 c.

(** The request by itself is decoded to its limit. *)
Definition finishes (req : Request) : bool :=
  match reach (perform (AOpen req) ;; times 5 roundTrip) with
  | Some e => bool_decide (phaseOf e (req_RequestId req) = Some RequestPhaseFinished)
  | None => false
  end.

Lemma finishes_spec req : finishes req = true -> exists e,
  reach (perform (AOpen req) ;; times 5 roundTrip) = Some e /\ phaseOf e (req_RequestId req) = Some RequestPhaseFinished.
Proof.
  unfold finishes. destruct (reach _) as [e|]; [|intros [=]]. intros H. exists e. split; [reflexivity|].
  exact (bool_decide_eq_true_1 _ H).
Qed.

Lemma alone0 : finishes request0 = true.
Proof. vm_compute. reflexivity. Qed.
Lemma alone1 : finishes request1 = true.
Proof. vm_compute. reflexivity. Qed.

(** ** Two requests together *)

Definition both : M engine unit := perform (AOpen request0) ;; perform (AOpen request1) ;; times 3 roundTrip.

(** The engine but for what its block manager measured. *)
Definition remeasured (l : MetricLog) (e : engine) : engine :=
  e <| en_scheduler := en_scheduler e <| sd_requestManager := requestsOf e <| sm_registry :=
    sm_registry (requestsOf e) <| r_managers := (fun m => m <| m_metrics := l |>) <$> r_managers (sm_registry (requestsOf e)) |> |> |> |>.

Definition failures (l : MetricLog) : MetricLog := (l ++ [IncAllocationFailure "e0"]) ++ [IncAllocationFailure "e0"].

(** A round of batches puts both items back. *)
Lemma both_patch l ctx rf : match reach both with
  | Some e => perform (APatch ctx rf "e0") (remeasured l e) = Some (tt, remeasured (failures l) e)
  | None => False end.
Proof. vm_compute; reflexivity. Qed.

(** The engine's own goroutines: not the clients, nor the clock. *)
Definition internal_step (e e' : engine) : Prop :=
  exists a, match a with AOpen _ | AStream _ _ | AClock _ => False | _ => True end /\
    may_run a e /\ perform a e = Some (tt, e').

Definition idle0 (e : engine) : bool :=
  match sd_executorIDs (en_scheduler e), em_eventChan (managerOf e), map_to_list (em_workers (managerOf e)),
    map_to_list (em_batchChans (managerOf e)), sd_patchExecuteChan (en_scheduler e) with
  | [id], [], [(_, Idle)], [(_, [])], false => String.eqb id "e0"
  | _, _, _, _, _ => false
  end.

Lemma idle0_spec e : idle0 e = true -> sd_executorIDs (en_scheduler e) = ["e0"] /\ em_eventChan (managerOf e) = [] /\
  (forall id w, em_workers (managerOf e) !! id = Some w -> w = Idle) /\
  (forall id q, em_batchChans (managerOf e) !! id = Some q -> q = []) /\ sd_patchExecuteChan (en_scheduler e) = false.
Proof.
  unfold idle0. destruct (sd_executorIDs _) as [|id [|]]; try done. destruct (em_eventChan _); [|done].
  destruct (map_to_list (em_workers _)) as [|[i w] [|]] eqn:Hw; [done| |by destruct w]. destruct w; [|done..].
  destruct (map_to_list (em_batchChans _)) as [|[i' [|b q]] [|]] eqn:Hb; [done| |done..].
  destruct (sd_patchExecuteChan _); [done|]. intros ->%String.eqb_eq.
  split; [done|]. split; [done|]. split; [|split; [|done]]; intros k x Hx%elem_of_map_to_list; [rewrite Hw in Hx|rewrite Hb in Hx];
    apply list_elem_of_singleton in Hx; congruence.
Qed.

(** A round with one executor, the signal taken before, is the round of the executor. *)
Lemma idle0_batch e ctx rf sg : sd_executorIDs (en_scheduler e) = ["e0"] -> sd_patchExecuteChan (en_scheduler e) = false ->
  perform (ABatch ctx rf sg) e = perform (APatch ctx rf "e0") e.
Proof.
  intros Hids Hch. cbn [perform]. unfold onScheduler, BatchRound, patchExecutors.
  assert (Hs : (if sg then modS (fun s => s <| sd_patchExecuteChan := false |>) else mret tt) (en_scheduler e) = Some (tt, en_scheduler e)).
  { destruct sg; [|done]. unfold modS. destruct (en_scheduler e). cbn in *. by rewrite Hch. }
  unfold mbind at 1, M_bind at 1. rewrite Hs. unfold mbind, M_bind, getS. rewrite Hids. cbn [forM_].
  unfold mbind, M_bind, mret, M_ret. by destruct (patchExecute ctx rf "e0" (en_scheduler e)) as [[[] s]|].
Qed.

(** What the block manager measured put back. *)
Lemma measured_same e l : (forall i m, r_managers (sm_registry (requestsOf e)) !! i = Some m -> m_metrics m = l) ->
  remeasured l e = e.
Proof.
  intros H. assert (E : (fun m => m <| m_metrics := l |>) <$> r_managers (sm_registry (requestsOf e)) = r_managers (sm_registry (requestsOf e))).
  { apply map_eq. intros i. rewrite lookup_fmap. destruct (_ !! i) as [m|] eqn:Hm; [|done]. cbn. f_equal.
    rewrite <- (H i m Hm). by destruct m. }
  unfold remeasured. rewrite E. destruct e as [t s]. destruct s. cbn. f_equal. f_equal. unfold requestsOf. cbn.
  destruct sd_requestManager. cbn. f_equal. by destruct sm_registry.
Qed.

(** An idle engine whose rounds change nothing but what is measured. *)
Section stuck.
Context (e : engine) (Hidle : idle0 e = true).
Context (more : MetricLog -> MetricLog).
Context (Hpatch : forall l ctx rf, perform (APatch ctx rf "e0") (remeasured l e) = Some (tt, remeasured (more l) e)).

Lemma stuck_step l e' : internal_step (remeasured l e) e' -> exists l', e' = remeasured l' e.
Proof using Hidle Hpatch.
  intros (a & Hown & Ha & Hrun). destruct (idle0_spec e Hidle) as (Hids & Hev & Hw & Hb & Hch).
  destruct a as [req|i st|ctx rf sg|ctx rf id| |id b rest|id b resp now|id ev evs|id|t]; [destruct Hown|destruct Hown|..|destruct Hown].
  - rewrite (idle0_batch (remeasured l e) ctx rf sg Hids Hch), Hpatch in Hrun. injection Hrun as <-. by exists (more l).
  - change (id ∈ sd_executorIDs (en_scheduler e)) in Ha. rewrite Hids in Ha. apply list_elem_of_singleton in Ha as ->.
    rewrite Hpatch in Hrun. injection Hrun as <-. by exists (more l).
  - exists l. cbn [perform] in Hrun. unfold onScheduler, consumeEvent, onExecutors, mbind, M_bind, getS in Hrun.
    change (sd_executorManager (en_scheduler (remeasured l e))) with (managerOf e) in Hrun. rewrite Hev in Hrun. by injection Hrun as <-.
  - destruct Ha as [_ Hq]. change (em_batchChans (managerOf e) !! id = Some (b :: rest)) in Hq. by apply Hb in Hq.
  - destruct Ha as [Hq _]. change (em_workers (managerOf e) !! id = Some (Running b)) in Hq. by apply Hw in Hq.
  - destruct Ha as [Hq _]. change (em_workers (managerOf e) !! id = Some (Sending (ev :: evs))) in Hq. by apply Hw in Hq.
  - change (em_workers (managerOf e) !! id = Some (Sending [])) in Ha. by apply Hw in Ha.
Qed.

Lemma stuck_steps l e' : rtc internal_step (remeasured l e) e' -> exists l', e' = remeasured l' e.
Proof using Hidle Hpatch.
  intros Hsteps. remember (remeasured l e) as e0 eqn:E. revert l E.
  induction Hsteps as [|e0 e1 e2 Hstep _ IH]; intros l ->; [by exists l|].
  apply stuck_step in Hstep as [l' ->]. by apply (IH l').
Qed.
End stuck.

(** The block manager of "e0" is the only one. *)
Definition one_manager (e : engine) : bool :=
  match map_to_list (r_managers (sm_registry (requestsOf e))) with [_] => true | _ => false end.

Lemma one_manager_measured e : one_manager e = true -> exists l, remeasured l e = e.
Proof.
  unfold one_manager. destruct (map_to_list _) as [|[i m] [|]] eqn:Hm; [done| |done]. intros _. exists (m_metrics m).
  apply measured_same. intros i' m' Hm'%elem_of_map_to_list. rewrite Hm in Hm'. apply list_elem_of_singleton in Hm'. congruence.
Qed.

(** What a computation says of the state both requests are in. *)
Definition bothb (e : engine) : bool :=
  liveb e "r0" && liveb e "r1" &&
  match r_managers (sm_registry (requestsOf e)) !! "e0", queued Decoding "e0" (en_scheduler e) with
  | Some m, [w0; w1] => runnable (requestsOf e) w0 && runnable (requestsOf e) w1 && (m_freeCount m =? 0) &&
      (0 <? blocksNeeded m w0) && (0 <? blocksNeeded m w1)
  | _, _ => false
  end.

Definition holds (f : engine -> bool) (r : option engine) : bool := match r with Some e => f e | None => false end.

Lemma both_facts : holds (fun e => idle0 e && one_manager e && bothb e) (reach both) = true.
Proof. vm_compute. reflexivity. Qed.


(** ** A short prompt longer than a batch *)

(** The program with batches of one token. *)
Definition conf2 : Conf :=
  mkConf (mkServerConf "127.0.0.1:8080" 9090 [] (mkScheduleConf 16 8 1 8 2 1 5)) [] (co_Executors conf0).
Definition start2 : option (error + app) :=
  newApp readConfig0 newQwen0 connect0 rpc0 id NotFound inference0 admin0 0 uuids0 conf2.

Definition oversized : M engine unit := perform (AOpen request0).

Lemma oversized_patch l ctx rf : match reachFrom start2 oversized with
  | Some e => perform (APatch ctx rf "e0") (remeasured l e) = Some (tt, remeasured l e)
  | None => False end.
Proof. vm_compute; reflexivity. Qed.

Lemma oversized_facts : holds (fun e => idle0 e && one_manager e && liveb e "r0") (reachFrom start2 oversized) = true.
Proof. vm_compute. reflexivity. Qed.

(** A prompt of the small queue that is longer than a batch waits for ever.  With
    a threshold of eight tokens for long prompts and batches of one token, which
    the configuration may give, a prompt of two tokens is accepted and queued as
    a short one, never split and never picked: nothing the engine does changes
    its state, though its executor is idle and all blocks are free. *)
Theorem short_prompt_over_budget : exists e, reachFrom start2 oversized = Some e /\ liveb e "r0" = true /\
  forall e', rtc internal_step e e' -> exists l, e' = remeasured l e.
Proof.
  pose proof oversized_facts as Hf. pose proof oversized_patch as Hp.
  destruct (reachFrom start2 oversized) as [e|]; [|discriminate Hf]. cbn [holds] in Hf.
  apply andb_prop in Hf as [[Hi [l0 Hm]%one_manager_measured]%andb_prop Hl]. exists e.
  split; [reflexivity|]. split; [exact Hl|]. intros e' Hsteps. rewrite <- Hm in Hsteps.
  exact (stuck_steps e Hi (fun l => l) Hp _ _ Hsteps).
Qed.

(** ** Witnesses *)

(** The request is opened and its batch submitted. *)
Definition submits (a : app) : bool :=
  admissibleb (ap_engine a) request0 && (asks request0 (ap_engine a) =? 80) &&
  match perform (AOpen request0) (ap_engine a) with
  | Some (_, e1) => match perform (ABatch None true false) e1 with
      | Some (_, e2) => batchesWaiting (managerOf e1) <? batchesWaiting (managerOf e2)
      | None => false end
  | None => false
  end.

Lemma started_submits : (match start0 with Some (inr a) => submits a | _ => false end) = true.
Proof. vm_compute. reflexivity. Qed.

Lemma request0_limit : 0 <= req_MaxTokens request0 < two32.
Proof. vm_compute. split; [discriminate|reflexivity]. Qed.

Lemma submitted : exists a e1 e2, start0 = Some (inr a) /\
  busy (ap_engine a) 0 (0 + asks request0 (ap_engine a)) e1 /\ busy (ap_engine a) 1 (0 + asks request0 (ap_engine a)) e2 /\
  asks request0 (ap_engine a) = 80.
Proof.
  destruct (started submits started_submits) as (a & Ha & H). unfold submits in H.
  apply andb_prop in H as [[Hadm Hasks%Z.eqb_eq]%andb_prop H].
  destruct (perform (AOpen request0) (ap_engine a)) as [[[] e1]|] eqn:H1; [|discriminate].
  destruct (perform (ABatch None true false) e1) as [[[] e2]|] eqn:H2; [|discriminate]. apply Z.ltb_lt in H.
  assert (Hb : busy (ap_engine a) 0 (0 + asks request0 (ap_engine a)) e1).
  { exact (busy_open _ 0 0 request0 _ e1 (busy_start _) request0_limit (admissibleb_spec _ _ Hadm) H1). }
  exists a, e1, e2. split; [exact Ha|]. split; [exact Hb|]. split; [|exact Hasks].
  exact (busy_move _ 0 _ (ABatch None true false) e1 e2 Hb I I H2 H).
Qed.


