(* ===== verification/Bench.v ===== *)
(** * Bench: the load generator (cmd/bench/runner.go)

    The scenarios and their requests, the accounting of a run, the reading of the
    server's metrics and the validation of a quick run.  A float64 is a
    [spec_float] of the standard library with the operations of binary64.

    The requests of [RunScenario] run concurrently and finish in any order: a run
    is the list of what each request got, in the order in which they finish.
    [strconv.ParseFloat] is the parameter [ParseFloat]; the bodies of the two
    metrics requests are arguments. *)

From Stdlib Require Import SpecFloat.
From stdpp Require Import sorting.
From S2P Require Import Prelude Errors Model Metrics GoStrings.

(** ** float64 *)

Definition float64 := spec_float.
Definition fadd : float64 -> float64 -> float64 := SFadd 53 1024.
Definition fsub : float64 -> float64 -> float64 := SFsub 53 1024.
Definition fmul : float64 -> float64 -> float64 := SFmul 53 1024.
Definition fdiv : float64 -> float64 -> float64 := SFdiv 53 1024.
Definition f64 (z : Z) : float64 := binary_normalize 53 1024 z 0 false.

(** [int(math.Ceil(f))] of a finite float; of NaN and the infinities what amd64 gives. *)
Definition ceilInt (f : float64) : Z :=
  match f with
  | S754_zero _ => 0
  | S754_finite s m e =>
      let v := if s then Z.neg m else Z.pos m in
      if 0 <=? e then v * 2 ^ e else - ((- v) / 2 ^ (- e))
  | _ => - 2 ^ 63
  end.

(** ** Scenarios *)


Definition CacheKeyModeNone : string := "".
Definition CacheKeyModeUnique : string := "unique".
Definition CacheKeyModeShared : string := "shared".

Record Scenario := mkScenario {
  sc_Name : string;
  sc_Target : string;
  sc_MetricsURL : string;
  sc_Requests : Z;
  sc_Concurrency : Z;
  sc_Timeout : Duration;
  sc_Model : string;
  sc_Prompt : string;
  sc_Prompts : list string;
  sc_MaxTokens : Z;
  sc_CacheKeyMode : string;
  sc_CacheKey : string;
  sc_CacheUsers : Z
}.
#[export] Instance Scenario_eta : Eta Scenario := fun s =>
  mkScenario (sc_Name s) (sc_Target s) (sc_MetricsURL s) (sc_Requests s) (sc_Concurrency s)
    (sc_Timeout s) (sc_Model s) (sc_Prompt s) (sc_Prompts s) (sc_MaxTokens s)
    (sc_CacheKeyMode s) (sc_CacheKey s) (sc_CacheUsers s).

Record Profile := mkProfile {
  pf_Name : string;
  pf_Requests : Z;
  pf_Concurrency : Z;
  pf_MaxTokens : Z;
  pf_Timeout : Duration
}.

Definition ProfilePreset (name : string) : error + Profile :=
  if String.eqb name "quick" then inr (mkProfile name 100 20 8 (20 * Second))
  else if String.eqb name "report" then inr (mkProfile name 1000 100 128 (60 * Second))
  else inl (TextError ("unsupported profile: " +:+ name)).

Definition promptSentence : string :=
  "Currently, vLLM utilizes its own implementation of a multi-head query attention kernel. This benchmark prompt is intentionally longer so prefill work is visible in the scheduler and cache metrics.".
Definition benchmarkPrompt : string := Join [promptSentence; promptSentence; promptSentence] " ".

(** [strings.Repeat] *)
Fixpoint Repeat (s : string) (count : nat) : string :=
  match count with O => "" | S n => s +:+ Repeat s n end.

Definition ScenariosForProfile (profile : Profile) : list Scenario :=
  let scenario name :=
    mkScenario name "" "" (pf_Requests profile) (pf_Concurrency profile) (pf_Timeout profile)
      "deepseek" "" [] (pf_MaxTokens profile) "" "" 0 in
  let cacheMiss := scenario "cache_miss" <| sc_Prompt := benchmarkPrompt |>
    <| sc_CacheKeyMode := CacheKeyModeUnique |> in
  let cacheHit := scenario "cache_hit" <| sc_Prompt := benchmarkPrompt |>
    <| sc_CacheKeyMode := CacheKeyModeShared |> <| sc_CacheKey := "shared-prefix" |>
    <| sc_CacheUsers := 10 |> in
  let mixedPrompt := scenario "mixed_prompt" <| sc_Prompts := [
      "short prompt";
      "medium prompt with enough content to create a different prefill cost profile for the scheduler";
      benchmarkPrompt ] |>
    <| sc_CacheKeyMode := CacheKeyModeUnique |> in
  let blockPressure := scenario "block_pressure"
    <| sc_Prompt := Repeat (benchmarkPrompt +:+ " ") 4 |>
    <| sc_CacheKeyMode := CacheKeyModeUnique |>
    <| sc_Concurrency := Z.min (pf_Concurrency profile) 32 |> in
  let blockPressure :=
    if String.eqb (pf_Name profile) "report" then blockPressure <| sc_Requests := 320 |>
    else blockPressure in
  [cacheMiss; cacheHit; mixedPrompt; blockPressure].

(** ** The requests of a scenario *)

Fixpoint zeros (n : nat) : string :=
  match n with O => "" | S n => String (Ascii.ascii_of_nat 48) (zeros n) end.

(** [fmt.Sprintf("%0<width>d", i)] for i that is not negative. *)
Definition padded (width : nat) (i : Z) : string :=
  let digits := pretty i in zeros (width - String.length digits) +:+ digits.

(** [None]: a negative index into the prompts panics. *)
Definition promptFor (s : Scenario) (index : Z) : option string :=
  if len (sc_Prompts s) =? 0 then Some (sc_Prompt s)
  else idx (sc_Prompts s) (Z.rem index (len (sc_Prompts s))).

Definition userId (s : Scenario) (index : Z) : string :=
  if String.eqb (sc_CacheKeyMode s) CacheKeyModeShared then
    let cacheKey := if String.eqb (sc_CacheKey s) "" then "bench-" +:+ sc_Name s +:+ "-cache"
                    else sc_CacheKey s in
    let cacheUsers := Z.max (sc_CacheUsers s) 1 in
    cacheKey +:+ "-" +:+ padded 3 (Z.rem index cacheUsers)
  else if String.eqb (sc_CacheKeyMode s) CacheKeyModeUnique then
    "bench-" +:+ sc_Name s +:+ "-cache-" +:+ padded 6 index
  else "".

Definition benchDurationToMilliseconds (d : Duration) : Z :=
  if d <=? 0 then 0 else u32 (Z.quot d Millisecond).

Definition buildGenerateRequest (scenario : Scenario) (index : Z) : option GenerateRequest :=
  prompt ← promptFor scenario index;
  Some {|
    gr_RequestId := "bench-" +:+ sc_Name scenario +:+ "-measured-" +:+ padded 6 index;
    gr_UserId := userId scenario index;
    gr_ModelId := sc_Model scenario;
    gr_Prompt := prompt;
    gr_MaxTokens := sc_MaxTokens scenario;
    gr_TimeoutMs := benchDurationToMilliseconds (sc_Timeout scenario);
    gr_Labels := <["scenario" := sc_Name scenario]> ∅
  |}.

Definition isSuccessfulFinishReason (reason : FinishReason) : bool :=
  bool_decide (reason = FinishReasonStop) || bool_decide (reason = FinishReasonLength).

(** What the client gets from a call: an error, or a response that may be nil. *)
Definition reply : Type := error + option GenerateResponse.

(** The request of the [i]-th warm-up and what its reply says. *)
Definition warmupRequest (scenario : Scenario) (i : Z) : option GenerateRequest :=
  req ← buildGenerateRequest scenario i;
  Some (mkGenerateRequest ("bench-" +:+ sc_Name scenario +:+ "-warmup-" +:+ padded 6 i)
    (gr_UserId req) (gr_ModelId req) (gr_Prompt req) (gr_MaxTokens req) (gr_TimeoutMs req) (gr_Labels req)).

(** The generated [String] of a finish reason. *)
Definition finishReasonString (reason : FinishReason) : string :=
  match reason with
  | FinishReasonUnspecified => "FINISH_REASON_UNSPECIFIED"
  | FinishReasonStop => "FINISH_REASON_STOP"
  | FinishReasonLength => "FINISH_REASON_LENGTH"
  | FinishReasonTimeout => "FINISH_REASON_TIMEOUT"
  | FinishReasonError => "FINISH_REASON_ERROR"
  | FinishReasonOther n => pretty n
  end.

Definition warmupError (r : reply) : option error :=
  match r with
  | inl err => Some err
  | inr None => Some (TextError "warmup request returned nil response")
  | inr (Some resp) =>
      if negb (String.eqb (gs_ErrorMessage resp) "")
      then Some (TextError ("warmup request returned error response: " +:+ gs_ErrorMessage resp))
      else if negb (isSuccessfulFinishReason (gs_FinishReason resp))
      then Some (TextError ("warmup request returned unexpected finish reason: "
                            +:+ finishReasonString (gs_FinishReason resp)))
      else None
  end.

(** The loop over the users, [n] of them left; [generate] answers the [i]-th request. *)
Fixpoint warmupLoop (generate : Z -> reply) (i : Z) (n : nat) : option error :=
  match n with
  | O => None
  | S n => match warmupError (generate i) with Some err => Some err | None => warmupLoop generate (i + 1) n end
  end.

Definition runWarmupRequests (generate : Z -> reply) (scenario : Scenario) : option error :=
  warmupLoop generate 0 (Z.to_nat (sc_CacheUsers scenario)).

(** ** The server's metrics *)

Record BenchMetrics := mkBenchMetrics {
  bm_BatchesTotal : float64; bm_QueueRejectedTotal : float64; bm_AvgBatchSize : float64;
  bm_AvgQueueWaitSeconds : float64; bm_AvgExecutionSeconds : float64;
  bm_RequestCountObserved : float64; bm_BatchCountObserved : float64;
  bm_ActiveRequestsFinal : float64; bm_InflightBatchesFinal : float64; bm_AvgTTFTSeconds : float64;
  bm_AvgTBTSeconds : float64; bm_PrefixCacheHits : float64; bm_PrefixCacheMisses : float64;
  bm_PrefixCacheTokensSaved : float64; bm_PrefillItemsTotal : float64;
  bm_DecodeItemsTotal : float64; bm_KVBlocksActiveFinal : float64; bm_KVBlocksFreeFinal : float64;
  bm_KVBlocksCachedFinal : float64; bm_KVAllocationFailures : float64;
  bm_PrefixCacheEvictions : float64; bm_batchSizeSum : float64; bm_batchSizeCount : float64;
  bm_queueWaitSum : float64; bm_queueWaitCount : float64; bm_executionSum : float64;
  bm_executionCount : float64; bm_ttftSum : float64; bm_ttftCount : float64; bm_tbtSum : float64;
  bm_tbtCount : float64
}.
#[export] Instance BenchMetrics_eta : Eta BenchMetrics := fun m =>
  mkBenchMetrics
    (bm_BatchesTotal m) (bm_QueueRejectedTotal m) (bm_AvgBatchSize m) (bm_AvgQueueWaitSeconds m)
    (bm_AvgExecutionSeconds m) (bm_RequestCountObserved m) (bm_BatchCountObserved m)
    (bm_ActiveRequestsFinal m) (bm_InflightBatchesFinal m) (bm_AvgTTFTSeconds m)
    (bm_AvgTBTSeconds m) (bm_PrefixCacheHits m) (bm_PrefixCacheMisses m)
    (bm_PrefixCacheTokensSaved m) (bm_PrefillItemsTotal m) (bm_DecodeItemsTotal m)
    (bm_KVBlocksActiveFinal m) (bm_KVBlocksFreeFinal m) (bm_KVBlocksCachedFinal m)
    (bm_KVAllocationFailures m) (bm_PrefixCacheEvictions m) (bm_batchSizeSum m)
    (bm_batchSizeCount m) (bm_queueWaitSum m) (bm_queueWaitCount m) (bm_executionSum m)
    (bm_executionCount m) (bm_ttftSum m) (bm_ttftCount m) (bm_tbtSum m) (bm_tbtCount m).

Definition f0 : float64 := S754_zero false.
Definition BenchMetrics0 : BenchMetrics :=
  mkBenchMetrics f0 f0 f0 f0 f0 f0 f0 f0 f0 f0 f0 f0 f0 f0 f0 f0 f0 f0 f0 f0 f0 f0 f0 f0 f0 f0 f0 f0 f0 f0 f0.

(** [strings.Split(body, newline)] *)
Fixpoint splitLines (s : string) : list string :=
  match s with
  | EmptyString => [""]
  | String c s =>
      if Ascii.eqb c (Ascii.ascii_of_nat 10) then "" :: splitLines s
      else match splitLines s with
           | l :: ls => String c l :: ls
           | [] => [String c ""]
           end
  end.

Definition HasPrefix (s prefix : string) : bool := String.prefix prefix s.

Fixpoint Contains (s substr : string) : bool :=
  String.prefix substr s ||
  match s with EmptyString => false | String _ s => Contains s substr end.

Fixpoint metricBaseName (name : string) : string :=
  match name with
  | EmptyString => ""
  | String c rest =>
      if Ascii.eqb c (Ascii.ascii_of_nat 123) then "" else String c (metricBaseName rest)
  end.

(** A label and its value in double quotes. *)
Definition label (name value : string) : string :=
  name +:+ "=" +:+ String (Ascii.ascii_of_nat 34) (value +:+ String (Ascii.ascii_of_nat 34) "").

(** One sample: the cases of the switch, the first that fits. *)
Definition addSample (name : string) (value : float64) (m : BenchMetrics) : BenchMetrics :=
  if HasPrefix name "llm_batches_total" then m <| bm_BatchesTotal := fadd (bm_BatchesTotal m) value |>
  else if String.eqb name "llm_queue_rejected_total" then m <| bm_QueueRejectedTotal := value |>
  else if String.eqb (metricBaseName name) "llm_batch_size_sum" then m <| bm_batchSizeSum := value |>
  else if String.eqb (metricBaseName name) "llm_batch_size_count" then m <| bm_batchSizeCount := value |>
  else if HasPrefix name "llm_execution_seconds_sum"
  then m <| bm_executionSum := fadd (bm_executionSum m) value |>
  else if HasPrefix name "llm_execution_seconds_count"
  then m <| bm_executionCount := fadd (bm_executionCount m) value |>
  else if String.eqb name "llm_queue_wait_seconds_sum" then m <| bm_queueWaitSum := value |>
  else if String.eqb name "llm_queue_wait_seconds_count" then m <| bm_queueWaitCount := value |>
  else if HasPrefix name "llm_requests_total"
  then m <| bm_RequestCountObserved := fadd (bm_RequestCountObserved m) value |>
  else if String.eqb name "llm_ttft_seconds_sum" then m <| bm_ttftSum := value |>
  else if String.eqb name "llm_ttft_seconds_count" then m <| bm_ttftCount := value |>
  else if String.eqb name "llm_tbt_seconds_sum" then m <| bm_tbtSum := value |>
  else if String.eqb name "llm_tbt_seconds_count" then m <| bm_tbtCount := value |>
  else if HasPrefix name "llm_prefix_cache_requests_total" then
    let m := if Contains name (label "status" "hit")
             then m <| bm_PrefixCacheHits := fadd (bm_PrefixCacheHits m) value |> else m in
    if Contains name (label "status" "miss")
    then m <| bm_PrefixCacheMisses := fadd (bm_PrefixCacheMisses m) value |> else m
  else if String.eqb name "llm_prefix_cache_tokens_saved_total"
  then m <| bm_PrefixCacheTokensSaved := value |>
  else if HasPrefix name "llm_batch_items_total" then
    let m := if Contains name (label "phase" "prefill")
             then m <| bm_PrefillItemsTotal := fadd (bm_PrefillItemsTotal m) value |> else m in
    if Contains name (label "phase" "decode")
    then m <| bm_DecodeItemsTotal := fadd (bm_DecodeItemsTotal m) value |> else m
  else if HasPrefix name "llm_kv_blocks" then
    if Contains name (label "state" "active") then m <| bm_KVBlocksActiveFinal := value |>
    else if Contains name (label "state" "free") then m <| bm_KVBlocksFreeFinal := value |>
    else if Contains name (label "state" "cached") then m <| bm_KVBlocksCachedFinal := value |>
    else m
  else if String.eqb name "llm_kv_allocation_failures_total" then m <| bm_KVAllocationFailures := value |>
  else if String.eqb name "llm_prefix_cache_evictions_total" then m <| bm_PrefixCacheEvictions := value |>
  else if String.eqb name "llm_active_requests" then m <| bm_ActiveRequestsFinal := value |>
  else if String.eqb name "llm_inflight_batches" then m <| bm_InflightBatchesFinal := value |>
  else m.

Definition isPositive (f : float64) : bool := SFltb f0 f.

Definition finalizeBenchMetrics (m : BenchMetrics) : BenchMetrics :=
  let m := if isPositive (bm_batchSizeCount m)
           then m <| bm_AvgBatchSize := fdiv (bm_batchSizeSum m) (bm_batchSizeCount m) |>
                  <| bm_BatchCountObserved := bm_batchSizeCount m |> else m in
  let m := if isPositive (bm_queueWaitCount m)
           then m <| bm_AvgQueueWaitSeconds := fdiv (bm_queueWaitSum m) (bm_queueWaitCount m) |> else m in
  let m := if isPositive (bm_executionCount m)
           then m <| bm_AvgExecutionSeconds := fdiv (bm_executionSum m) (bm_executionCount m) |> else m in
  let m := if isPositive (bm_ttftCount m)
           then m <| bm_AvgTTFTSeconds := fdiv (bm_ttftSum m) (bm_ttftCount m) |> else m in
  if isPositive (bm_tbtCount m)
  then m <| bm_AvgTBTSeconds := fdiv (bm_tbtSum m) (bm_tbtCount m) |> else m.

(** A counter that went down was reset. *)
Definition counterDelta (before after : float64) : float64 :=
  if SFltb after before then after else fsub after before.

Definition deltaBenchMetrics (before after : BenchMetrics) : BenchMetrics :=
  let delta (f : BenchMetrics -> float64) := counterDelta (f before) (f after) in
  finalizeBenchMetrics {|
    bm_BatchesTotal := delta bm_BatchesTotal;
    bm_QueueRejectedTotal := delta bm_QueueRejectedTotal;
    bm_AvgBatchSize := f0;
    bm_AvgQueueWaitSeconds := f0;
    bm_AvgExecutionSeconds := f0;
    bm_RequestCountObserved := delta bm_RequestCountObserved;
    bm_BatchCountObserved := f0;
    bm_ActiveRequestsFinal := bm_ActiveRequestsFinal after;
    bm_InflightBatchesFinal := bm_InflightBatchesFinal after;
    bm_AvgTTFTSeconds := f0;
    bm_AvgTBTSeconds := f0;
    bm_PrefixCacheHits := delta bm_PrefixCacheHits;
    bm_PrefixCacheMisses := delta bm_PrefixCacheMisses;
    bm_PrefixCacheTokensSaved := delta bm_PrefixCacheTokensSaved;
    bm_PrefillItemsTotal := delta bm_PrefillItemsTotal;
    bm_DecodeItemsTotal := delta bm_DecodeItemsTotal;
    bm_KVBlocksActiveFinal := bm_KVBlocksActiveFinal after;
    bm_KVBlocksFreeFinal := bm_KVBlocksFreeFinal after;
    bm_KVBlocksCachedFinal := bm_KVBlocksCachedFinal after;
    bm_KVAllocationFailures := delta bm_KVAllocationFailures;
    bm_PrefixCacheEvictions := delta bm_PrefixCacheEvictions;
    bm_batchSizeSum := delta bm_batchSizeSum;
    bm_batchSizeCount := delta bm_batchSizeCount;
    bm_queueWaitSum := delta bm_queueWaitSum;
    bm_queueWaitCount := delta bm_queueWaitCount;
    bm_executionSum := delta bm_executionSum;
    bm_executionCount := delta bm_executionCount;
    bm_ttftSum := delta bm_ttftSum;
    bm_ttftCount := delta bm_ttftCount;
    bm_tbtSum := delta bm_tbtSum;
    bm_tbtCount := delta bm_tbtCount
  |}.

(** ** Durations *)

Definition avgDuration (ds : list Duration) : Duration :=
  if len ds =? 0 then 0 else Z.quot (foldl (fun total d => i64 (total + d)) 0 ds) (len ds).

Definition percentileDuration (ds : list Duration) (p : float64) : option Duration :=
  if len ds =? 0 then Some 0
  else if SFleb p f0 then idx ds 0
  else if SFleb (f64 100) p then idx ds (len ds - 1)
  else
    let i := ceilInt (fmul (fdiv p (f64 100)) (f64 (len ds))) - 1 in
    let i := if i <? 0 then 0 else i in
    let i := if len ds <=? i then len ds - 1 else i in
    idx ds i.

(** [Duration.Seconds] *)
Definition Seconds (d : Duration) : float64 :=
  fadd (f64 (Z.quot d Second)) (fdiv (f64 (Z.rem d Second)) (f64 Second)).

(** ** A run *)

Record Result := mkResult {
  rt_Scenario : Scenario;
  rt_Success : Z;
  rt_Failed : Z;
  rt_TotalDuration : Duration;
  rt_ThroughputRPS : float64;
  rt_AvgLatency : Duration;
  rt_P50Latency : Duration;
  rt_P90Latency : Duration;
  rt_P99Latency : Duration;
  rt_Metrics : BenchMetrics
}.

(** The reply counts as a success. *)
Definition succeeded (r : reply) : bool :=
  match r with
  | inr (Some resp) =>
      String.eqb (gs_ErrorMessage resp) "" && isSuccessfulFinishReason (gs_FinishReason resp)
  | _ => false
  end.

Record measured := mkMeasured { ms_latency : Duration; ms_reply : reply }.

(** The counters and latencies after one more request has finished. *)
Definition account (acc : list Duration * Z * Z) (r : measured) : list Duration * Z * Z :=
  let '(latencies, success, failed) := acc in
  let latencies := latencies ++ [ms_latency r] in
  if succeeded (ms_reply r) then (latencies, success + 1, failed) else (latencies, success, failed + 1).

(** [slices.Sort] *)
Definition sortDurations : list Duration -> list Duration := merge_sort Z.le.

Section runs.
Context (ParseFloat : string -> option float64).

Definition parseMetricLine (line : string) : option (string * float64) :=
  match Fields line with
  | [name; text] => match ParseFloat text with Some value => Some (name, value) | None => None end
  | _ => None
  end.

Definition addLine (m : BenchMetrics) (line : string) : BenchMetrics :=
  if String.eqb line "" || HasPrefix line "#" then m
  else match parseMetricLine line with
       | None => m
       | Some (name, value) => addSample name value m
       end.

Definition parseBenchMetrics (body : string) : BenchMetrics :=
  finalizeBenchMetrics (foldl addLine BenchMetrics0 (splitLines body)).

(** The body of the metrics page, or the error of getting it. *)
Definition fetchBenchMetrics (page : error + string) : error + BenchMetrics :=
  match page with inl err => inl err | inr body => inr (parseBenchMetrics body) end.

(** The replies to the warm-up requests, the two metrics pages, the requests in
    the order in which they finish, and how long they took together.  [None] is a
    panic. *)
Definition RunScenario (scenario : Scenario) (warmup : Z -> reply) (before after : error + string)
    (runs : list measured) (totalDuration : Duration) : option (error + Result) :=
  match runWarmupRequests warmup scenario with
  | Some err => Some (inl err)
  | None =>
  match fetchBenchMetrics before with
  | inl err => Some (inl err)
  | inr beforeMetrics =>
      let '(latencies, success, failed) := foldl account ([], 0, 0) runs in
      match fetchBenchMetrics after with
      | inl err => Some (inl err)
      | inr afterMetrics =>
          let latencies := sortDurations latencies in
          P50 ← percentileDuration latencies (f64 50);
          P90 ← percentileDuration latencies (f64 90);
          P99 ← percentileDuration latencies (f64 99);
          Some (inr {|
            rt_Scenario := scenario;
            rt_Success := success;
            rt_Failed := failed;
            rt_TotalDuration := totalDuration;
            rt_ThroughputRPS := fdiv (f64 success) (Seconds totalDuration);
            rt_AvgLatency := avgDuration latencies;
            rt_P50Latency := P50;
            rt_P90Latency := P90;
            rt_P99Latency := P99;
            rt_Metrics := deltaBenchMetrics beforeMetrics afterMetrics
          |})
      end
  end end.
End runs.

(** ** The validation of a quick run *)

(** The magnitude m 2^e to the nearest integer, ties to even. *)
Definition roundEven (m e : Z) : Z :=
  if 0 <=? e then m * 2 ^ e
  else
    let d := 2 ^ (- e) in let q := m / d in let r := m mod d in
    if 2 * r <? d then q else if d <? 2 * r then q + 1 else if Z.even q then q else q + 1.

(** [fmt.Sprintf("%.0f", f)] *)
Definition fmt0 (f : float64) : string :=
  match f with
  | S754_nan => "NaN"
  | S754_infinity s => if s then "-Inf" else "+Inf"
  | S754_zero s => if s then "-0" else "0"
  | S754_finite s m e => (if s then "-" else "") +:+ pretty (roundEven (Z.pos m) e)
  end.

(** [got] is not [want], with the line that says so. *)
Definition expect (what : string) (got want : float64) : list string :=
  if SFeqb got want then [] else [what +:+ ": got " +:+ fmt0 got +:+ " want " +:+ fmt0 want].
Definition expectInt (what : string) (got want : Z) : list string :=
  if got =? want then [] else [what +:+ ": got " +:+ pretty got +:+ " want " +:+ pretty want].

Definition quickFailures (result : Result) : list string :=
  let scenario := rt_Scenario result in
  let m := rt_Metrics result in
  let expectedRequests := f64 (sc_Requests scenario) in
  let expectedDecodeItems := fmul expectedRequests (f64 (sc_MaxTokens scenario)) in
  let cacheHit := String.eqb (sc_Name scenario) "cache_hit" in
  let expectedHits := if cacheHit then expectedRequests else f0 in
  let expectedMisses := if cacheHit then f0 else expectedRequests in
  expectInt "successful requests" (rt_Success result) (sc_Requests scenario) ++
  expectInt "failed requests" (rt_Failed result) 0 ++
  expect "observed requests" (bm_RequestCountObserved m) expectedRequests ++
  expect "decode work items" (bm_DecodeItemsTotal m) expectedDecodeItems ++
  (if negb cacheHit && SFeqb (bm_PrefillItemsTotal m) f0
   then ["prefill work items: got 0 want > 0"] else []) ++
  expect "cache hits" (bm_PrefixCacheHits m) expectedHits ++
  expect "cache misses" (bm_PrefixCacheMisses m) expectedMisses ++
  expect "queue rejections" (bm_QueueRejectedTotal m) f0 ++
  expect "active requests" (bm_ActiveRequestsFinal m) f0 ++
  expect "inflight batches" (bm_InflightBatchesFinal m) f0 ++
  expect "active KV blocks" (bm_KVBlocksActiveFinal m) f0 ++
  (if negb (String.eqb (sc_Name scenario) "block_pressure")
   then expect "allocation failures" (bm_KVAllocationFailures m) f0 else []).

Definition ValidateQuickResult (result : Result) : option error :=
  match quickFailures result with
  | [] => None
  | failures => Some (TextError ("quick validation failed for " +:+ sc_Name (rt_Scenario result)
                                 +:+ ": " +:+ Join failures "; "))
  end.
