(* ===== verification/BenchReport.v ===== *)
(** * BenchReport: the report and the program of cmd/bench

    [printResult] with the formatting it uses (package fmt and the durations of
    package time), the program [main] over the scenarios of a profile, and what
    becomes of the quick profile when no request succeeds. *)

From Stdlib Require Import SpecFloat.
From S2P Require Import Prelude Errors Model Metrics GoStrings Bench.

(** ** Durations *)

(** [Duration.Round] to a positive multiple, half away from zero; a result out of
    range becomes the longest duration of its sign. *)
Definition maxDuration : Duration := 2 ^ 63 - 1.
Definition minDuration : Duration := - 2 ^ 63.
Definition Round (d m : Duration) : Duration :=
  if m <=? 0 then d
  else
    let r := Z.rem d m in
    if d <? 0 then
      let r := - r in
      if 2 * r <? m then d + r
      else let d1 := i64 (d - m + r) in if d1 <? d then d1 else minDuration
    else if 2 * r <? m then d - r
    else let d1 := i64 (d + m - r) in if d <? d1 then d1 else maxDuration.

(** The last [prec] digits of [v] after a point, without zeros at the end;
    [print] once a digit is written. *)
Fixpoint fmtFrac (v : Z) (prec : nat) (print : bool) (buf : string) : string * Z :=
  match prec with
  | O => (if print then "." +:+ buf else buf, v)
  | S prec =>
      let digit := v mod 10 in
      let print := print || negb (digit =? 0) in
      fmtFrac (v / 10) prec print (if print then pretty digit +:+ buf else buf)
  end.

(** The micro sign in UTF-8. *)
Definition micro : string := String (Ascii.ascii_of_nat 194) (String (Ascii.ascii_of_nat 181) "").

(** [Duration.String] *)
Definition durationString (d : Duration) : string :=
  let u := Z.abs d in
  let sign := if d <? 0 then "-" else "" in
  if u <? Second then
    if u =? 0 then "0s"
    else
      let '(prec, unit) := if u <? 1000 then (0%nat, "ns")
                           else if u <? Millisecond then (3%nat, micro +:+ "s") else (6%nat, "ms") in
      let '(frac, u) := fmtFrac u prec false unit in
      sign +:+ pretty u +:+ frac
  else
    let '(frac, secs) := fmtFrac u 9 false "s" in
    let s := pretty (secs mod 60) +:+ frac in
    let mins := secs / 60 in
    if 0 <? mins then
      let s := pretty (mins mod 60) +:+ "m" +:+ s in
      let hours := mins / 60 in
      if 0 <? hours then sign +:+ pretty hours +:+ "h" +:+ s else sign +:+ s
    else sign +:+ s.

Example durations : durationString <$> [0; 1500; 250000000; 61500000000; -3600000000000; 999] =
  ["0s"; "1.5" +:+ micro +:+ "s"; "250ms"; "1m1.5s"; "-1h0m0s"; "999ns"].
Proof. reflexivity. Qed.

Lemma i64_small z : - 2 ^ 63 <= z < 2 ^ 63 -> i64 z = z.
Proof. intros H. unfold i64. rewrite Z.mod_small; change (2 ^ 64) with (2 * 2 ^ 63); lia. Qed.

(** A duration is rounded to a multiple no further than half of [m] away, unless
    that leaves the range. *)
Lemma Round_near d m : 0 < m -> - 2 ^ 63 + m <= d < 2 ^ 63 - m ->
  (m | Round d m) /\ 2 * Z.abs (Round d m - d) <= m.
Proof.
  intros Hm Hd. unfold Round. rewrite (proj2 (Z.leb_gt m 0)) by done.
  pose proof (Z.quot_rem d m ltac:(lia)) as E. pose proof (Z.rem_bound_abs d m ltac:(lia)) as Hb.
  pose proof (Z.rem_nonneg d m ltac:(lia)) as Hn. pose proof (Z.rem_nonpos d m ltac:(lia)) as Hn'. set (q := Z.quot d m) in *. set (r := Z.rem d m) in *.
  destruct (Z.ltb_spec d 0) as [Hneg|Hpos].
  - assert (r <= 0) by (apply Hn'; lia). destruct (Z.ltb_spec (2 * - r) m).
    + split; [exists q; lia|lia].
    + rewrite i64_small by lia. rewrite (proj2 (Z.ltb_lt _ d)) by lia. split; [exists (q - 1); lia|lia].
  - assert (0 <= r) by (apply Hn; lia). destruct (Z.ltb_spec (2 * r) m).
    + split; [exists q; lia|lia].
    + rewrite i64_small by lia. rewrite (proj2 (Z.ltb_lt d _)) by lia. split; [exists (q + 1); lia|lia].
Qed.

(** ** Numbers *)

(** [%.<prec>f] of a finite float, the exact value rounded to the nearest, ties to even. *)
Definition fmtFixed (prec : nat) (f : float64) : string :=
  match f with
  | S754_nan => "NaN"
  | S754_infinity s => if s then "-Inf" else "+Inf"
  | S754_zero s => (if s then "-" else "") +:+ "0" +:+ (match prec with O => "" | _ => "." +:+ padded prec 0 end)
  | S754_finite s m e =>
      let scale := 10 ^ Z.of_nat prec in
      let v := roundEven (Z.pos m * scale) e in
      (if s then "-" else "") +:+ pretty (v / scale) +:+
        (match prec with O => "" | _ => "." +:+ padded prec (v mod scale) end)
  end.

Example fixed : (fmtFixed 2 (fdiv (f64 1) (f64 3)), fmtFixed 4 (f64 12), fmtFixed 2 (fdiv (f64 1) (f64 8)), fmtFixed 0 (f64 7)) =
  ("0.33", "12.0000", "0.12", "7").
Proof. reflexivity. Qed.

(** ** The report *)

Definition newline : string := String (Ascii.ascii_of_nat 10) "".

Definition printResult (result : Result) : string :=
  let scenario := rt_Scenario result in
  let m := rt_Metrics result in
  let duration d := durationString (Round d Millisecond) in
  "scenario=" +:+ sc_Name scenario +:+ " requests=" +:+ pretty (sc_Requests scenario) +:+
    " success=" +:+ pretty (rt_Success result) +:+ " failed=" +:+ pretty (rt_Failed result) +:+
    " concurrency=" +:+ pretty (sc_Concurrency scenario) +:+ " total=" +:+ duration (rt_TotalDuration result) +:+
    " throughput_rps=" +:+ fmtFixed 2 (rt_ThroughputRPS result) +:+ newline +:+
  "latency avg=" +:+ duration (rt_AvgLatency result) +:+ " p50=" +:+ duration (rt_P50Latency result) +:+
    " p90=" +:+ duration (rt_P90Latency result) +:+ " p99=" +:+ duration (rt_P99Latency result) +:+ newline +:+
  "metrics batches_total=" +:+ fmtFixed 0 (bm_BatchesTotal m) +:+ " avg_batch_size=" +:+ fmtFixed 2 (bm_AvgBatchSize m) +:+
    " avg_queue_wait_s=" +:+ fmtFixed 4 (bm_AvgQueueWaitSeconds m) +:+
    " avg_execution_s=" +:+ fmtFixed 4 (bm_AvgExecutionSeconds m) +:+
    " queue_rejected=" +:+ fmtFixed 0 (bm_QueueRejectedTotal m) +:+
    " active_requests=" +:+ fmtFixed 0 (bm_ActiveRequestsFinal m) +:+
    " inflight_batches=" +:+ fmtFixed 0 (bm_InflightBatchesFinal m) +:+
    " observed_requests=" +:+ fmtFixed 0 (bm_RequestCountObserved m) +:+ newline +:+
  "avg_ttft_s=" +:+ fmtFixed 4 (bm_AvgTTFTSeconds m) +:+ " avg_tbt_s=" +:+ fmtFixed 4 (bm_AvgTBTSeconds m) +:+
    " prefix_cache_hits=" +:+ fmtFixed 0 (bm_PrefixCacheHits m) +:+
    " prefix_cache_misses=" +:+ fmtFixed 0 (bm_PrefixCacheMisses m) +:+
    " prefix_cache_tokens_saved=" +:+ fmtFixed 0 (bm_PrefixCacheTokensSaved m) +:+ newline +:+
  "work_items prefill=" +:+ fmtFixed 0 (bm_PrefillItemsTotal m) +:+ " decode=" +:+ fmtFixed 0 (bm_DecodeItemsTotal m) +:+
    " kv_blocks active=" +:+ fmtFixed 0 (bm_KVBlocksActiveFinal m) +:+ " free=" +:+ fmtFixed 0 (bm_KVBlocksFreeFinal m) +:+
    " cached=" +:+ fmtFixed 0 (bm_KVBlocksCachedFinal m) +:+
    " allocation_failures=" +:+ fmtFixed 0 (bm_KVAllocationFailures m) +:+
    " evictions=" +:+ fmtFixed 0 (bm_PrefixCacheEvictions m) +:+ newline.

(** ** The program *)

(** How the program ends: [logger.Fatal] exits with its message. *)
Inductive ending :=
| Returned
| Fatal (message : string) (err : error).

(** The loop over the scenarios; [run] answers the call of [RunScenario], and the
    text is what is printed to the standard output.  [None] is a panic. *)
Fixpoint runScenarios (run : Scenario -> option (error + Result)) (profile : Profile) (target metricsURL : string)
    (scenarios : list Scenario) : option (string * ending) :=
  match scenarios with
  | [] => Some ("", Returned)
  | scenario :: scenarios =>
      let scenario := scenario <| sc_Target := target |> <| sc_MetricsURL := metricsURL |> in
      result ← run scenario;
      match result with
      | inl runErr => Some ("", Fatal "benchmark failed" runErr)
      | inr result =>
          let printed := printResult result in
          match (if String.eqb (pf_Name profile) "quick" then ValidateQuickResult result else None) with
          | Some validationErr => Some (printed, Fatal "benchmark regression" validationErr)
          | None =>
              rest ← runScenarios run profile target metricsURL scenarios;
              Some (printed +:+ rest.1, rest.2)
          end
      end
  end.

(** The program with the values of its flags; [newProduction] is the error of
    making the logger. *)
Definition main (newProduction : option error) (run : Scenario -> option (error + Result))
    (profileName target metricsURL : string) : option (string * ending) :=
  match newProduction with
  | Some _ => None
  | None =>
      match ProfilePreset profileName with
      | inl err => Some ("", Fatal "invalid profile" err)
      | inr profile =>
          let metricsURL := if String.eqb metricsURL "" then target +:+ "/metrics" else metricsURL in
          runScenarios run profile target metricsURL (ScenariosForProfile profile)
      end
  end.
