(* ===== verification/BenchProperties.v ===== *)
(** * BenchProperties: what a benchmark run says

    The accounting of a run and its percentiles, the users of the scenarios, and
    two defects: the built-in scenarios ask for a model the server refuses, and
    two counters of the server are never read. *)

From Stdlib Require Import SpecFloat.
From stdpp Require Import sorting.
From S2P Require Import Prelude Errors Model Metrics GoStrings Tokenizer Handler Transport Bench BenchReport.

(** ** Accounting *)

Definition successes (runs : list measured) : Z := len (filter (fun r => succeeded (ms_reply r) = true) runs).
Definition failures (runs : list measured) : Z := len (filter (fun r => succeeded (ms_reply r) <> true) runs).

Lemma account_spec runs acc : foldl account acc runs =
  (acc.1.1 ++ (ms_latency <$> runs), acc.1.2 + successes runs, acc.2 + failures runs).
Proof.
  unfold successes, failures. revert acc. induction runs as [|r runs IH]; intros [[l s] f]; cbn [foldl].
  { cbn. by rewrite app_nil_r, !Z.add_0_r. }
  rewrite IH, !filter_cons. unfold account. destruct (succeeded (ms_reply r)) eqn:E;
    repeat case_decide; try congruence; cbn [fst snd fmap list_fmap]; rewrite <- app_assoc; cbn [app];
    rewrite len_cons;
    (apply (f_equal2 pair); [apply (f_equal2 pair); [done|lia]|lia]).
Qed.

(** ** Percentiles *)

(** At least [p] percent of the values are at most [v], and fewer are smaller. *)
Definition nearestRank (p : Z) (ds : list Duration) (v : Duration) : Prop :=
  v ∈ ds /\ p * len ds <= 100 * len (filter (fun d => d <= v) ds) /\
  100 * len (filter (fun d => d < v) ds) < p * len ds.

(** The index computed in floating point is exact. *)
Definition rank (p n : Z) : Z := ceilInt (fmul (fdiv (f64 p) (f64 100)) (f64 n)).

Lemma rank_exact p n : p ∈ [50; 90; 99] -> 1 <= n <= 1000 -> rank p n = - (- (p * n) / 100).
Proof.
  intros Hp Hn. apply Z.eqb_eq.
  assert (H : forallb (fun p => forallb (fun n => rank p n =? - (- (p * n) / 100)) (seqZ 1 1000)) [50; 90; 99] = true)
    by (vm_compute; reflexivity).
  rewrite forallb_forall in H. specialize (H p ltac:(by apply list_elem_of_In)). cbv beta in H.
  rewrite forallb_forall in H. apply H, list_elem_of_In, elem_of_seqZ. lia.
Qed.

Lemma rank_bounds p n : p ∈ [50; 90; 99] -> 1 <= n <= 1000 ->
  1 <= rank p n <= n /\ p * n <= 100 * rank p n /\ 100 * (rank p n - 1) < p * n.
Proof.
  intros Hp Hn. rewrite rank_exact by done.
  assert (Hpp : 0 < p < 100).
  { repeat (apply elem_of_cons in Hp as [->|Hp]; [done|]). by apply elem_of_nil in Hp. }
  pose proof (Z.div_mod (- (p * n)) 100 ltac:(lia)). pose proof (Z.mod_pos_bound (- (p * n)) 100 ltac:(lia)). nia.
Qed.

Lemma percentile_index ds p : p ∈ [50; 90; 99] -> 1 <= len ds <= 1000 ->
  percentileDuration ds (f64 p) = idx ds (rank p (len ds) - 1).
Proof.
  intros Hp Hn. pose proof (rank_bounds p (len ds) Hp Hn) as (Hr & _).
  unfold percentileDuration. rewrite (proj2 (Z.eqb_neq (len ds) 0)) by lia.
  assert (H : SFleb (f64 p) f0 = false /\ SFleb (f64 100) (f64 p) = false).
  { repeat (apply elem_of_cons in Hp as [->|Hp]; [by vm_compute|]). by apply elem_of_nil in Hp. }
  destruct H as [-> ->]. fold (rank p (len ds)).
  rewrite (proj2 (Z.ltb_ge (rank p (len ds) - 1) 0)) by lia.
  by rewrite (proj2 (Z.leb_gt (len ds) (rank p (len ds) - 1))) by lia.
Qed.

Lemma filter_all (P : Z -> Prop) `{!forall x, Decision (P x)} l : Forall P l -> filter P l = l.
Proof. induction 1 as [|x l Hx _ IH]; [done|]. by rewrite filter_cons_True, IH. Qed.
Lemma filter_none (P : Z -> Prop) `{!forall x, Decision (P x)} l : Forall (fun x => ~ P x) l -> filter P l = [].
Proof. induction 1 as [|x l Hx _ IH]; [done|]. by rewrite filter_cons_False. Qed.

Lemma sorted_nearest ds v p i : Sorted Z.le ds -> idx ds (i - 1) = Some v ->
  p * len ds <= 100 * i -> 100 * (i - 1) < p * len ds -> nearestRank p ds v.
Proof.
  intros Hs Hv Hle Hlt. pose proof (idx_Some_range _ _ _ Hv) as Hi.
  apply Sorted_StronglySorted in Hs; [|intros x y z; lia].
  assert (Hsplit : exists l1 l2, ds = l1 ++ v :: l2 /\ len l1 = i - 1).
  { unfold idx in Hv. rewrite (proj2 (Z.ltb_ge _ _)) in Hv by lia.
    exists (take (Z.to_nat (i - 1)) ds), (drop (S (Z.to_nat (i - 1))) ds). split; [by rewrite take_drop_middle|].
    unfold len in *. rewrite length_take. lia. }
  destruct Hsplit as (l1 & l2 & -> & Hl1). apply StronglySorted_app in Hs as (H12 & _ & Hs2).
  inversion_clear Hs2 as [|? ? _ Hv2]. split; [apply elem_of_app; right; by left|].
  rewrite !filter_app, !len_app, !filter_cons, !len_cons in *.
  rewrite decide_True by lia. rewrite decide_False by lia. rewrite len_cons.
  assert (Hall : filter (fun d => d <= v) l1 = l1).
  { apply filter_all, Forall_forall. intros x Hx. apply (H12 x v Hx). by left. }
  assert (Hnone : filter (fun d => d < v) l2 = []).
  { apply filter_none. eapply Forall_impl; [exact Hv2|]. intros x Hx. lia. }
  rewrite Hall, Hnone. pose proof (len_nonneg (filter (fun d => d <= v) l2)).
  assert (len (filter (fun d => d < v) l1) <= len l1) by (unfold len; pose proof (length_filter (fun d => d < v) l1); lia).
  change (len []) with 0. unfold Duration in *. split; lia.
Qed.

Lemma len_perm {A} (l l' : list A) : l ≡ₚ l' -> len l = len l'.
Proof. intros H. unfold len. by rewrite (Permutation_length H). Qed.

Lemma nearestRank_perm p ds ds' v : ds ≡ₚ ds' -> nearestRank p ds v -> nearestRank p ds' v.
Proof.
  intros H (Hv & H1 & H2). split; [by rewrite <- H|].
  rewrite <- (len_perm _ _ H). by rewrite <- !(len_perm _ _ (filter_Permutation _ _ _ H)).
Qed.

(** On up to 1000 values, the size of the largest profile, the percentiles of the
    report are the nearest-rank percentiles. *)
Lemma percentile_nearest ds p v : Sorted Z.le ds -> p ∈ [50; 90; 99] -> 1 <= len ds <= 1000 ->
  percentileDuration ds (f64 p) = Some v -> nearestRank p ds v.
Proof.
  intros Hs Hp Hn Hv. rewrite percentile_index in Hv by done.
  destruct (rank_bounds p (len ds) Hp Hn) as (_ & H1 & H2). by apply (sorted_nearest ds v p (rank p (len ds))).
Qed.

Lemma sortDurations_perm ds : sortDurations ds ≡ₚ ds.
Proof. apply merge_sort_Permutation. Qed.

Lemma sortDurations_sorted ds : Sorted Z.le (sortDurations ds).
Proof. apply Sorted_merge_sort. intros x y. lia. Qed.

Lemma sortDurations_unique ds ds' : ds ≡ₚ ds' -> sortDurations ds = sortDurations ds'.
Proof.
  intros H. apply (Sorted_unique Z.le); try apply sortDurations_sorted.
  by rewrite !sortDurations_perm.
Qed.

Section accounting.
Context (ParseFloat : string -> option float64).

Lemma successes_failures runs : successes runs + failures runs = len runs.
Proof.
  unfold successes, failures. induction runs as [|r runs IH]; [done|]. rewrite !filter_cons.
  repeat case_decide; try done; len_lia.
Qed.

(** C40: A run reports what happened, whatever the order.  The result does not depend
    on the order in which the concurrent requests finish; every request counts
    once, as a success exactly when its reply is a response without an error
    message and with a successful finish reason; and for up to 1000 requests, the
    size of the largest profile, the reported percentiles, whose ranks are
    computed in floating point, are exactly the nearest-rank percentiles of the
    latencies. *)
Theorem run_accounting scenario warmup before after runs runs' total (Hperm : runs ≡ₚ runs') :
  RunScenario ParseFloat scenario warmup before after runs' total =
    RunScenario ParseFloat scenario warmup before after runs total /\
  forall result, RunScenario ParseFloat scenario warmup before after runs total = Some (inr result) ->
    rt_Success result + rt_Failed result = len runs /\
    rt_Success result = len (filter (fun r => succeeded (ms_reply r) = true) runs) /\
    (1 <= len runs <= 1000 ->
      nearestRank 50 (ms_latency <$> runs) (rt_P50Latency result) /\
      nearestRank 90 (ms_latency <$> runs) (rt_P90Latency result) /\
      nearestRank 99 (ms_latency <$> runs) (rt_P99Latency result)).
Proof.
  unfold RunScenario. rewrite !account_spec. cbn [fst snd app]. rewrite !Z.add_0_l.
  rewrite (sortDurations_unique _ _ (fmap_Permutation ms_latency _ _ Hperm)).
  assert (Hs : successes runs' = successes runs) by (symmetry; apply len_perm, filter_Permutation, Hperm).
  assert (Hf : failures runs' = failures runs) by (symmetry; apply len_perm, filter_Permutation, Hperm).
  rewrite Hs, Hf. split; [done|]. intros result.
  destruct (runWarmupRequests warmup scenario); [done|].
  destruct (fetchBenchMetrics ParseFloat before); [done|]. destruct (fetchBenchMetrics ParseFloat after); [done|].
  set (ds := sortDurations (ms_latency <$> runs')).
  destruct (percentileDuration ds (f64 50)) as [p50|] eqn:H50; [|done].
  destruct (percentileDuration ds (f64 90)) as [p90|] eqn:H90; [|done].
  destruct (percentileDuration ds (f64 99)) as [p99|] eqn:H99; [|done].
  intros [= <-]. cbn. split; [apply successes_failures|]. split; [done|]. intros Hn.
  assert (Hd : ds ≡ₚ ms_latency <$> runs) by (unfold ds; rewrite sortDurations_perm; by rewrite Hperm).
  assert (Hl : 1 <= len ds <= 1000) by (rewrite (len_perm _ _ Hd), len_fmap; lia).
  pose proof (sortDurations_sorted (ms_latency <$> runs')) as Hsort. fold ds in Hsort.
  ssplit; eapply nearestRank_perm; try exact Hd; eapply percentile_nearest; try done; set_solver.
Qed.
End accounting.

(** ** The counters with a label are never read *)

Definition suffixes : list string := [""; "_sum"; "_count"; "_bucket"].

(** The name of a sample of a registered instrument as prometheus writes it: the
    instrument's name, with a suffix for the parts of a histogram, and braces with
    the labels when it has labels. *)
Definition isSeries (name : string) : Prop :=
  exists i suffix, i ∈ registered /\ suffix ∈ suffixes /\
    metricBaseName name = in_name i +:+ suffix /\ (in_labels i <> [] -> name <> metricBaseName name).

(** Every sample of a page is one of a registered instrument. *)
Definition isPage (ParseFloat : string -> option float64) (body : string) : Prop :=
  Forall (fun line => forall name value, parseMetricLine ParseFloat line = Some (name, value) -> isSeries name)
    (splitLines body).

Definition unread (name : string) : Prop :=
  name = "llm_kv_allocation_failures_total" \/ name = "llm_prefix_cache_evictions_total".

Lemma series_unread name : isSeries name -> unread name -> False.
Proof.
  intros (i & suffix & Hi & Hs & Hbase & Hlab) Hn.
  assert (Hb : metricBaseName name = name) by (destruct Hn as [-> | ->]; reflexivity).
  assert (H : forallb (fun i => forallb (fun suffix => negb (bool_decide (in_labels i = [])) ||
    negb (String.eqb (in_name i +:+ suffix) "llm_kv_allocation_failures_total" ||
          String.eqb (in_name i +:+ suffix) "llm_prefix_cache_evictions_total")) suffixes) registered = true)
    by (vm_compute; reflexivity).
  rewrite forallb_forall in H. specialize (H i ltac:(by apply list_elem_of_In)). cbv beta in H.
  rewrite forallb_forall in H. specialize (H suffix ltac:(by apply list_elem_of_In)). cbv beta in H.
  destruct (decide (in_labels i = [])) as [Hl|Hl]; [|by apply Hlab].
  rewrite bool_decide_true in H by done. rewrite <- Hbase, Hb in H. cbn [negb orb] in H.
  destruct Hn as [-> | ->]; cbn in H; discriminate.
Qed.

(** The two fields of the metrics. *)
Definition lost (m : BenchMetrics) : float64 * float64 := (bm_KVAllocationFailures m, bm_PrefixCacheEvictions m).

Lemma addSample_lost name value m : ~ unread name -> lost (addSample name value m) = lost m.
Proof.
  intros Hn. unfold addSample.
  repeat match goal with
  | |- context [String.eqb name ?s] => destruct (String.eqb_spec name s) as [->|]; [first [reflexivity|exfalso; apply Hn; by (left + right)]|]
  | |- context [if ?b then _ else _] => destruct b; try reflexivity
  end; reflexivity.
Qed.

Lemma finalize_lost m : lost (finalizeBenchMetrics m) = lost m.
Proof. unfold finalizeBenchMetrics. repeat (destruct (isPositive _)); reflexivity. Qed.

Section counters.
Context (ParseFloat : string -> option float64).

Lemma page_lost body : isPage ParseFloat body -> lost (parseBenchMetrics ParseFloat body) = (f0, f0).
Proof.
  unfold isPage, parseBenchMetrics. rewrite finalize_lost. generalize (splitLines body). intros lines Hl.
  assert (H : forall m, lost (foldl (addLine ParseFloat) m lines) = lost m); [|by rewrite H].
  induction Hl as [|line lines Hline _ IH]; intros m; [done|]. cbn [foldl]. rewrite IH.
  unfold addLine. destruct (String.eqb line "" || HasPrefix line "#"); [done|].
  destruct (parseMetricLine ParseFloat line) as [[name value]|] eqn:E; [|done].
  apply addSample_lost. intros Hn. by eapply series_unread; [eapply Hline|].
Qed.

(** Two counters of the server never reach the report.  Allocation failures and
    evictions are counted per executor, so prometheus writes their samples with a
    label, and the benchmark looks for the bare names: on any two pages of the
    server's registered instruments, the report says 0 for both, and the
    validation of a quick run never complains about allocation failures. *)
Theorem labelled_counters_unread scenario warmup before after runs total result
  (Hbefore : isPage ParseFloat before) (Hafter : isPage ParseFloat after)
  (Hrun : RunScenario ParseFloat scenario warmup (inr before) (inr after) runs total = Some (inr result)) :
  bm_KVAllocationFailures (rt_Metrics result) = f0 /\ bm_PrefixCacheEvictions (rt_Metrics result) = f0 /\
  expect "allocation failures" (bm_KVAllocationFailures (rt_Metrics result)) f0 = [].
Proof.
  assert (H : lost (rt_Metrics result) = (f0, f0)).
  { revert Hrun. unfold RunScenario. destruct (runWarmupRequests warmup scenario); [done|]. cbn [fetchBenchMetrics].
    destruct (foldl account ([], 0, 0) runs) as [[latencies s] f].
    destruct (percentileDuration _ (f64 50)); [|done]. destruct (percentileDuration _ (f64 90)); [|done].
    destruct (percentileDuration _ (f64 99)); [|done]. intros [= <-]. cbn [rt_Metrics].
    unfold deltaBenchMetrics. rewrite finalize_lost.
    pose proof (page_lost before Hbefore) as [= -> ->]. pose proof (page_lost after Hafter) as [= H1 H2].
    unfold lost. cbn. by rewrite H1, H2. }
  injection H as H1 H2. rewrite H1, H2. by vm_compute.
Qed.
End counters.

(** ** The requests of the scenarios *)

(** The server refuses every request of the built-in scenarios.  They name the
    model "deepseek", which is not one the server knows: whatever the profile and
    the state of the service, the call answers with an invalid argument, and no
    request is created. *)
Theorem bench_requests_refused profile sc index req
  (Hsc : sc ∈ ScenariosForProfile profile) (Hreq : buildGenerateRequest sc index = Some req) :
  forall start now inputs endTime s, exists err,
    Generate start now req inputs endTime s =
      Some (Some (inl (ConnectInvalidArgument, err)),
            s <| sv_metrics := sv_metrics s ++
                   [ObserveRequestDuration (endTime - start); IncRequest CodeInvalidArgument "unknown"] |>).
Proof.
  intros start now inputs endTime s.
  assert (Hm : sc_Model sc = "deepseek").
  { unfold ScenariosForProfile in Hsc.
    repeat (apply elem_of_cons in Hsc as [->|Hsc]; [by try case_match|]). by apply elem_of_nil in Hsc. }
  assert (Hid : gr_ModelId req = "deepseek").
  { unfold buildGenerateRequest in Hreq. destruct (promptFor sc index); [|done]. by injection Hreq as <-. }
  unfold Generate, openRequest, ProtoMsgToModel, mbind, M_bind. rewrite Hid. cbn.
  eexists. unfold deferred, sv_metric, mbind, M_bind, modS, mret, M_ret. cbn. by rewrite <- app_assoc.
Qed.

(** *** Numbers with leading zeros *)

Definition zero : Ascii.ascii := Ascii.ascii_of_nat 48.

Lemma pretty_N_go_head x s : (0 < x)%N -> exists c rest, pretty_N_go x s = String c rest /\ c <> zero.
Proof.
  revert s. induction (N.lt_wf_0 x) as [x _ IH]. intros s Hx. rewrite pretty_N_go_step by done.
  destruct (N.eq_dec (x / 10) 0) as [E|E].
  - rewrite E, pretty_N_go_0. eexists _, _. split; [reflexivity|].
    assert (Hs : (x < 10)%N) by (pose proof (N.div_mod x 10 ltac:(done)); pose proof (N.mod_lt x 10 ltac:(done)); lia). rewrite N.mod_small by done.
    assert (H : forallb (fun k => negb (Ascii.eqb (pretty_N_char (N.of_nat k)) zero)) (seq 1 9) = true)
      by (vm_compute; reflexivity).
    rewrite forallb_forall in H. specialize (H (N.to_nat x) ltac:(apply in_seq; lia)). cbv beta in H.
    rewrite N2Nat.id in H. intros E'. rewrite E' in H. by rewrite Ascii.eqb_refl in H.
  - apply IH; [apply N.div_lt; lia|]. by apply N.neq_0_lt_0.
Qed.

Lemma pretty_head i : 0 <= i -> pretty i = "0" \/ exists c rest, pretty i = String c rest /\ c <> zero.
Proof.
  intros Hi. destruct (decide (i = 0)) as [->|Hne]; [by left|right].
  destruct i as [|p|p]; [done| |lia]. change (pretty (Z.pos p)) with (pretty (N.pos p)).
  unfold pretty, pretty_N. rewrite decide_False by lia. by apply pretty_N_go_head.
Qed.

Lemma pretty_inj i j : 0 <= i -> 0 <= j -> pretty i = pretty j -> i = j.
Proof. intros _ _. apply pretty_Z_inj. Qed.

Lemma zeros_pretty n i j : 0 <= i -> 0 <= j -> zeros (S n) +:+ pretty i = pretty j -> False.
Proof.
  intros Hi Hj E. cbn [zeros] in E. fold zero in E.
  change (String zero (zeros n +:+ pretty i) = pretty j) in E.
  destruct (pretty_head j Hj) as [E'|(c & rest & E' & Hc)]; rewrite E' in E.
  - injection E as E. destruct (pretty_head i Hi) as [Ei|(c & rest & Ei & _)]; rewrite Ei in E;
      destruct n; cbn in E; discriminate.
  - injection E as Ec _. by apply Hc.
Qed.

Lemma padded_inj w i j : 0 <= i -> 0 <= j -> padded w i = padded w j -> i = j.
Proof.
  intros Hi Hj. unfold padded.
  set (a := (w - String.length (pretty i))%nat). set (b := (w - String.length (pretty j))%nat).
  clearbody a b. revert b. induction a as [|a IH]; intros [|b] E.
  - by apply pretty_inj.
  - exfalso. exact (zeros_pretty b j i Hj Hi (eq_sym E)).
  - exfalso. exact (zeros_pretty a i j Hi Hj E).
  - apply (IH b). change (String zero (zeros a +:+ pretty i) = String zero (zeros b +:+ pretty j)) in E.
    by injection E.
Qed.

Lemma append_inj (a s t : string) : a +:+ s = a +:+ t -> s = t.
Proof.
  induction a as [|c a IH]; [done|]. intros E.
  change (String c (a +:+ s) = String c (a +:+ t)) in E. apply IH. by injection E.
Qed.

(** The scope the request's cached blocks belong to. *)
Definition saltOf (now : Time) (req : GenerateRequest) : option string :=
  match ProtoMsgToModel now req with inr r => Some (req_CacheSalt r) | inl _ => None end.

(** The cache modes do what the scenarios are for.  With unique keys, two
    different measured requests that the server accepts have different cache
    salts, so that neither can use the other's blocks; with a shared key and one
    prompt, every measured request repeats the prompt of a warm-up request under
    the same cache salt. *)
Theorem cache_modes sc now
  (Hmodel : is_Some (saltOf now (mkGenerateRequest "" "u" (sc_Model sc) "" 0 0 ∅))) :
  (sc_CacheKeyMode sc = CacheKeyModeUnique -> forall i j ri rj, 0 <= i -> 0 <= j -> i <> j ->
    buildGenerateRequest sc i = Some ri -> buildGenerateRequest sc j = Some rj ->
    is_Some (saltOf now ri) /\ saltOf now ri <> saltOf now rj) /\
  (sc_CacheKeyMode sc = CacheKeyModeShared -> sc_Prompts sc = [] -> 0 < sc_CacheUsers sc -> forall i, 0 <= i ->
    exists k ri wk, 0 <= k < sc_CacheUsers sc /\ buildGenerateRequest sc i = Some ri /\
      warmupRequest sc k = Some wk /\ gr_Prompt ri = gr_Prompt wk /\ gr_ModelId ri = gr_ModelId wk /\
      saltOf now ri = saltOf now wk).
Proof.
  assert (Hs : forall req, gr_ModelId req = sc_Model sc -> gr_UserId req <> "" ->
    saltOf now req = Some ("user:" +:+ gr_UserId req)).
  { intros req Hid Hu. unfold saltOf, ProtoMsgToModel in *. cbn [gr_ModelId] in Hmodel. rewrite Hid.
    destruct (ParseModelID (sc_Model sc)); [by destruct Hmodel|]. cbn. destruct (String.eqb_spec (gr_UserId req) ""); done. }
  assert (Hb : forall k rk, buildGenerateRequest sc k = Some rk ->
    gr_ModelId rk = sc_Model sc /\ gr_UserId rk = userId sc k /\ promptFor sc k = Some (gr_Prompt rk)).
  { intros k rk. unfold buildGenerateRequest. destruct (promptFor sc k); [|done]. by intros [= <-]. }
  split.
  - intros Hmode i j ri rj Hi Hj Hne (Hmi & Hui & _)%Hb (Hmj & Huj & _)%Hb.
    assert (Hu : forall k, userId sc k = "bench-" +:+ (sc_Name sc +:+ ("-cache-" +:+ padded 6 k)))
      by (intros k; unfold userId; by rewrite Hmode).
    rewrite Hu in Hui, Huj. rewrite !Hs by (rewrite ?Hui, ?Huj; done). split; [by eexists|].
    intros [= E]. rewrite Hui, Huj in E. do 4 apply append_inj in E.
    by apply Hne, (padded_inj 6).
  - intros Hmode Hp Hcu i Hi. pose proof (Z.rem_bound_pos i (sc_CacheUsers sc) Hi Hcu) as Hk.
    set (k := Z.rem i (sc_CacheUsers sc)) in *.
    assert (Hprompt : forall n, promptFor sc n = Some (sc_Prompt sc)) by (intros n; unfold promptFor; by rewrite Hp).
    assert (Hu : userId sc i = userId sc k).
    { unfold userId. rewrite Hmode. cbn [String.eqb]. rewrite Z.max_l by lia. fold k.
      by rewrite (Z.rem_small k) by lia. }
    assert (Hne : userId sc k <> "").
    { unfold userId. rewrite Hmode. destruct (String.eqb_spec (sc_CacheKey sc) "") as [_|Hck]; [done|].
      by destruct (sc_CacheKey sc). }
    exists k. unfold warmupRequest, buildGenerateRequest. rewrite !Hprompt. cbn.
    eexists _, _. ssplit; try reflexivity; [lia|lia|]. by rewrite !Hs by (cbn; rewrite ?Hu; done); cbn; rewrite Hu.
Qed.

(** ** The program against the server *)

(** What the client makes of an answer of the service. *)
Definition replyOf (answer : option (error + GenerateResponse)) : option reply :=
  match answer with Some (inl err) => Some (inl err) | Some (inr resp) => Some (inr (Some resp)) | None => None end.

Definition unary (r : option (option (ConnectCode * error + GenerateResponse) * service)) : option (error + GenerateResponse) :=
  match r with
  | Some (Some (inl (_, err)), _) => Some (inl err)
  | Some (Some (inr resp), _) => Some (inr resp)
  | _ => None
  end.

(** The replies of a run of [sc] come from the service, in whatever states it is. *)
Definition served_by_service (sc : Scenario) (runs : list measured) : Prop :=
  Forall (fun r => exists i req start now inputs endTime s,
    buildGenerateRequest sc i = Some req /\
    replyOf (unary (Generate start now req inputs endTime s)) = Some (ms_reply r)) runs.

Lemma refused_runs profile sc target url runs : sc ∈ ScenariosForProfile profile ->
  served_by_service (sc <| sc_Target := target |> <| sc_MetricsURL := url |>) runs -> successes runs = 0.
Proof.
  intros Hsc Hruns. unfold successes. replace (filter _ runs) with (@nil measured); [done|].
  symmetry. induction Hruns as [|r runs (i & req & start & now & inputs & endTime & s & Hreq & Hr) _ IH]; [done|].
  rewrite filter_cons_False; [exact IH|].
  change (buildGenerateRequest (sc <| sc_Target := target |> <| sc_MetricsURL := url |>) i) with (buildGenerateRequest sc i) in Hreq.
  destruct (bench_requests_refused profile sc i req Hsc Hreq start now inputs endTime s) as [err E].
  rewrite E in Hr. cbn in Hr. injection Hr as <-. done.
Qed.

(** The quick profile never passes against the server of this repository: its
    scenarios ask for a model the server refuses, so that no request succeeds, and
    the program exits with an error at the first scenario (or earlier, when a
    metrics page cannot be had), whatever the pages say. *)
Theorem quick_profile_fails ParseFloat run target url
  (Hrun : forall sc, exists warmup before after runs d,
     run sc = RunScenario ParseFloat sc warmup before after runs d /\ served_by_service sc runs) :
  forall out, main None run "quick" target url <> Some (out, Returned).
Proof.
  intros out. unfold main. destruct (ProfilePreset "quick") as [err|profile] eqn:Hpr; [intros [=]|].
  cbn in Hpr. injection Hpr as <-.
  set (profile := mkProfile "quick" 100 20 8 (20 * Second)). set (url' := if String.eqb url "" then _ else _).
  destruct (ScenariosForProfile profile) as [|sc scs] eqn:Hscs; [discriminate Hscs|]. cbn [runScenarios].
  assert (Hsc : sc ∈ ScenariosForProfile profile) by (rewrite Hscs; by left).
  assert (Hreqs : sc_Requests sc = 100) by (by injection Hscs as <- _).
  set (sc' := sc <| sc_Target := target |> <| sc_MetricsURL := url' |>).
  destruct (Hrun sc') as (warmup & before & after & runs & d & -> & Hserved).
  pose proof (refused_runs profile sc target url' runs Hsc Hserved) as Hnone.
  destruct (RunScenario ParseFloat sc' warmup before after runs d) as [[err|result]|] eqn:Hr; cbn; [intros [=]| |intros [=]].
  assert (Hv : is_Some (ValidateQuickResult result)).
  { assert (Hres : rt_Scenario result = sc' /\ rt_Success result = 0).
    { revert Hr. unfold RunScenario. destruct (runWarmupRequests _ _); [done|]. destruct (fetchBenchMetrics _ before); [done|].
      rewrite account_spec. cbn [fst snd]. rewrite Hnone. destruct (fetchBenchMetrics _ after); [done|].
      destruct (percentileDuration _ (f64 50)); [|done]. destruct (percentileDuration _ (f64 90)); [|done].
      destruct (percentileDuration _ (f64 99)); [|done]. by intros [= <-]. }
    destruct Hres as [H1 H2]. unfold ValidateQuickResult, quickFailures. rewrite H1, H2.
    change (sc_Requests sc') with (sc_Requests sc). rewrite Hreqs. cbn [expectInt]. unfold expectInt at 1.
    replace (0 =? 100) with false by done. by eexists. }
  destruct Hv as [err ->]. intros [=].
Qed.
