(* ===== verification/BenchExamples.v ===== *)
(** * BenchExamples: a small benchmark run

    Three requests, a metrics page with one sample of an allocation failure, and a
    parser of whole numbers; the witnesses of the theorems of BenchProperties. *)

From Stdlib Require Import SpecFloat.
From S2P Require Import Prelude Errors Model Metrics GoStrings GoSha256 BlockExamples RequestExamples ExecutorExamples SchedulerExamples Tokenizer Handler Transport HandlerExamples Util Bench BenchProperties.

(** A parser that only knows whole numbers. *)
Definition parseWhole (s : string) : option float64 :=
  match s with EmptyString => None | _ => f64 <$> decimal 0 s end.

Definition quick0 : Profile := mkProfile "quick" 3 2 8 (20 * Second).
Definition miss0 : Scenario :=
  match ScenariosForProfile quick0 with s :: _ => s <| sc_Model := "mock" |> | [] => mkScenario "" "" "" 0 0 0 "" "" [] 0 "" "" 0 end.

Definition deep0 : Scenario := miss0 <| sc_Model := "deepseek" |>.

Definition done0 : GenerateResponse :=
  mkGenerateResponse "r" "text" FinishReasonLength (mkPbUsage 1 1 2) (mkPbTiming 0 0 0 0)
    (mkPbBatchInfo "" 0) "e0" "".
Definition ok (latency : Duration) : measured := mkMeasured latency (inr (Some done0)).
Definition runs0 : list measured := [ok 30; mkMeasured 50 (inl ContextDeadlineExceeded); ok 10].
Definition noWarmup (_ : Z) : reply := inl ContextCanceled.

(** A page that reports four allocation failures. *)
Definition page0 : string :=
  "llm_kv_allocation_failures_total{" +:+ label "executor" "e0" +:+ "} 4" +:+ String (Ascii.ascii_of_nat 10) "".

Definition finished (r : option (error + Result)) : bool :=
  match r with Some (inr _) => true | _ => false end.

Lemma finished_some r : finished r = true -> exists result, r = Some (inr result).
Proof. destruct r as [[err|result]|]; try done. by exists result. Qed.

Lemma run0_some : exists result,
  RunScenario parseWhole miss0 noWarmup (inr page0) (inr page0) runs0 60 = Some (inr result).
Proof. apply finished_some. by vm_compute. Qed.

Lemma page0_lines : splitLines page0 = ["llm_kv_allocation_failures_total{" +:+ label "executor" "e0" +:+ "} 4"; ""].
Proof. reflexivity. Qed.

Lemma page0_page : isPage parseWhole page0.
Proof.
  unfold isPage. rewrite page0_lines. constructor; [|constructor; [done|constructor]].
  intros name value [= <- _].
  exists (mkInstrument "llm_kv_allocation_failures_total" Counter ["executor"]), "".
  ssplit; [by right; right; left|by left|reflexivity|discriminate].
Qed.

#[local] Opaque miss0 page0 runs0.

(** ** Witnesses *)

Lemma run_accounting_witness : exists result,
  RunScenario parseWhole miss0 noWarmup (inr page0) (inr page0) runs0 60 = Some (inr result) /\
  rt_Success result = 2 /\ nearestRank 90 (ms_latency <$> runs0) (rt_P90Latency result).
Proof.
  destruct run0_some as [result Hrun].
  destruct (run_accounting parseWhole miss0 noWarmup (inr page0) (inr page0) runs0 (rev runs0) 60
    ltac:(apply Permutation_rev)) as [_ H].
  destruct (H _ Hrun) as (_ & Hs & Hp). exists result. split; [exact Hrun|]. split; [rewrite Hs; by vm_compute|].
  assert (Hl : 1 <= len runs0 <= 1000) by (split; by vm_compute).
  destruct (Hp Hl) as (_ & H90 & _). exact H90.
Defined.

Lemma labelled_counters_unread_witness : exists result,
  RunScenario parseWhole miss0 noWarmup (inr page0) (inr page0) runs0 60 = Some (inr result) /\
  bm_KVAllocationFailures (rt_Metrics result) = f0.
Proof.
  destruct run0_some as [result Hrun]. exists result. split; [exact Hrun|].
  exact (proj1 (labelled_counters_unread parseWhole miss0 noWarmup page0 page0 runs0 60 result page0_page page0_page Hrun)).
Defined.

Lemma bench_requests_refused_witness : exists req err,
  buildGenerateRequest deep0 0 = Some req /\
  (fst <$> Generate 1 2 req [] 3 svc0) = Some (Some (inl (ConnectInvalidArgument, err))).
Proof.
  assert (Hsc : deep0 ∈ ScenariosForProfile quick0) by (by left).
  destruct (buildGenerateRequest deep0 0) as [req|] eqn:E; [|discriminate E].
  destruct (bench_requests_refused quick0 _ 0 req Hsc E 1 2 [] 3 svc0) as [err H].
  exists req, err. split; [done|]. rewrite H. reflexivity.
Defined.

Lemma cache_modes_witness : exists r0 r1,
  buildGenerateRequest miss0 0 = Some r0 /\ buildGenerateRequest miss0 1 = Some r1 /\ saltOf 1 r0 <> saltOf 1 r1.
Proof.
  assert (Hm : is_Some (saltOf 1 (mkGenerateRequest "" "u" (sc_Model miss0) "" 0 0 ∅))) by (by eexists).
  destruct (cache_modes miss0 1 Hm) as [H _].
  assert (H0 : buildGenerateRequest miss0 0 <> None) by done. assert (H1 : buildGenerateRequest miss0 1 <> None) by done.
  destruct (buildGenerateRequest miss0 0) as [r0|] eqn:E0; [|done].
  destruct (buildGenerateRequest miss0 1) as [r1|] eqn:E1; [|done].
  exists r0, r1. split; [done|]. split; [done|].
  exact (proj2 (H eq_refl 0 1 r0 r1 ltac:(lia) ltac:(lia) ltac:(lia) E0 E1)).
Defined.
